(** * numpy-groupies: grouped aggregation ([aggregate_numpy], [aggregate_weave])

    A shallow embedding of [src/aggregate/aggregate_numpy.py] and of the
    inline-C kernels of [src/aggregate/aggregate_weave.py], followed by the
    properties established about them.

    Modelling choices
    - value arrays are float64: an element is a primitive binary64 [float],
      so sums, quotients, NaN and signed zeros are the IEEE ones numpy
      computes;
    - the group index has an integer dtype (the check of line 272 is the
      type [ndarray Z]); indices are int64, and the one int64 computation on
      them that can wrap ([np.max(group_idx) + 1]) is written with [wrap64];
    - a Python scalar [fill_value] (the bools, ints and floats that a double
      holds exactly) is the double it compares equal to;
    - a callable [func] is a function of the values of a group that returns
      a scalar or an array;
    - a call either returns ([Ok]), raises ([Raise], with Python's exception
      class and message) or leaves the model ([OutOfModel]): a numeric
      reduction with an explicit non-float [dtype], and a sort whose result
      depends on the order in which [np.argsort] leaves equal keys, are not
      described, and nothing is claimed about them. *)

From Stdlib Require Import Floats ZArith Uint63 Ascii DecimalString Lia.
From Stdlib Require QArith Qcanon.
From Stdlib Require Import Field.
From stdpp Require Import base option list numbers strings sorting.

Set Warnings "-inexact-float".
Set Default Proof Using "Type".

(** ** Outcomes of a call *)

Inductive exn : Type :=
| ValueError (msg : string)
| TypeError (msg : string)
| IndexError (msg : string)
| KeyError (key : string)
| NotImplementedError (msg : string).

Inductive outcome (A : Type) : Type :=
| Ok (x : A)
| Raise (e : exn)
| OutOfModel.
Arguments Ok {A} x.
Arguments Raise {A} e.
Arguments OutOfModel {A}.

#[global] Instance outcome_ret : MRet outcome := fun A x => Ok x.
#[global] Instance outcome_bind : MBind outcome := fun A B f m =>
  match m with
  | Ok x => f x
  | Raise e => Raise e
  | OutOfModel => OutOfModel
  end.

Definition raises {A : Type} (m : outcome A) : Prop := ∃ e, m = Raise e.

(** ** numpy arrays, scalars and dtypes *)

(** An n-dimensional array: its shape and its elements in C (row-major)
    order. A 0-d array has shape [[]] and one element. *)
Record ndarray (A : Type) : Type := mk_ndarray { shape : list nat; data : list A }.
Arguments mk_ndarray {A} shape data.
Arguments shape {A} _.
Arguments data {A} _.

Definition ndim {A : Type} (arr : ndarray A) : nat := length (shape arr).

(** [len(arr)]: the first dimension. *)
Definition len {A : Type} (arr : ndarray A) : nat := hd 0 (shape arr).

Definition scalar0 {A : Type} (x : A) : ndarray A := mk_ndarray [] [x].
Definition array1 {A : Type} (xs : list A) : ndarray A := mk_ndarray [length xs] xs.
(** A 2-d array from its rows, all of length [m]. *)
Definition array2 {A : Type} (m : nat) (rows : list (list A)) : ndarray A :=
  mk_ndarray [length rows; m] (concat rows).

(** The rows of a 2-d array ([tuple(group_idx)]). *)
Fixpoint chunks {A : Type} (d m : nat) (l : list A) : list (list A) :=
  match d with
  | 0 => []
  | S d' => take m l :: chunks d' m (drop m l)
  end.

Definition rows {A : Type} (arr : ndarray A) : list (list A) :=
  match shape arr with
  | [d; m] => chunks d m (data arr)
  | _ => []
  end.

(** The one element of a 0-d array. *)
Definition item (a : ndarray float) : float := hd 0%float (data a).

Inductive dtype_t : Type := dt_bool | dt_int64 | dt_float64 | dt_object.

(** The value arrays of the model are float64. *)
Definition a_dtype (a : ndarray float) : dtype_t := dt_float64.

(** The [size] argument: [None], a scalar, or a sequence. *)
Inductive size_arg : Type :=
| SizeNone
| SizeScalar (n : Z)
| SizeSeq (ns : list Z).

Inductive order_t : Type := OrderC | OrderF.

(** The [func] argument: a string, a callable that the alias table does not
    know, or anything else. *)
Inductive func_arg : Type :=
| FuncName (s : string)
| FuncCallable (func : list float → list float + float)
| FuncOther.

(** An array of dtype object whose elements are arrays of doubles or
    scalars: a 1-d array of such elements, or the 2-d array of shape
    [(k, m)] that [np.asarray(list_of_arrays, dtype=object)] builds when all
    [k] arrays have one length [m]. *)
Inductive obj_array : Type :=
| ObjRagged (elts : list (list float + float))
| ObjRect (m : nat) (rws : list (list float)).

(** The elements that iterating over the array yields ([enumerate(groups)]):
    the elements of a 1-d array, the rows of a 2-d one. *)
Definition obj_iter (arr : obj_array) : list (list float + float) :=
  match arr with
  | ObjRagged elts => elts
  | ObjRect _ rws => inl <$> rws
  end.

(** What a reduction returns: a float64, a bool or an object array. *)
Inductive dense : Type :=
| DFloat (xs : list float)
| DBool (bs : list bool)
| DObject (arr : obj_array).

(** [len(r)]. *)
Definition dense_length (r : dense) : nat :=
  match r with
  | DFloat xs => length xs
  | DBool bs => length bs
  | DObject arr => length (obj_iter arr)
  end.

(** [r.shape] and [r.size]. *)
Definition dense_shape (r : dense) : list nat :=
  match r with
  | DObject (ObjRect m rws) => [length rws; m]
  | _ => [dense_length r]
  end.

Definition dense_size (r : dense) : nat :=
  match r with
  | DObject (ObjRect m rws) => length rws * m
  | _ => dense_length r
  end.

Definition dense_dtype (r : dense) : dtype_t :=
  match r with
  | DFloat _ => dt_float64
  | DBool _ => dt_bool
  | DObject _ => dt_object
  end.

Record result : Type := mk_result { res_shape : list nat; res_data : dense }.

(** ** Python and numpy scalar operations on doubles *)

Definition py_eq (x y : float) : bool := PrimFloat.eqb x y.
Definition py_ne (x y : float) : bool := negb (PrimFloat.eqb x y).
(** [bool(x)], [np.logical_not]: a NaN is true. *)
Definition py_truth (x : float) : bool := py_ne x 0.
Definition np_isnan (x : float) : bool := PrimFloat.is_nan x.

(** int64 to float64 (exact below 2^53, rounded to nearest above). *)
Definition float_of_Z (z : Z) : float :=
  if (z <? 0)%Z then PrimFloat.opp (PrimFloat.of_uint63 (Uint63.of_Z (- z)))
  else PrimFloat.of_uint63 (Uint63.of_Z z).
Definition float_of_nat (c : nat) : float := float_of_Z (Z.of_nat c).

(** [np.finfo(np.float64).max] and [.min]. *)
Definition dmax : float := 0x1.fffffffffffffp+1023%float.
Definition dmin : float := PrimFloat.opp dmax.

(** The inner loops of [np.minimum] and [np.maximum] on doubles: the first
    operand when it is strictly smaller (larger) or a NaN, the second
    otherwise. A NaN on either side propagates, and of two equal operands,
    as zeros of opposite sign are, the second is returned. *)
Definition np_minimum (x y : float) : float :=
  if PrimFloat.ltb x y || PrimFloat.is_nan x then x else y.
Definition np_maximum (x y : float) : float :=
  if PrimFloat.ltb y x || PrimFloat.is_nan x then x else y.

(** Equality of array elements as numpy tests it: [==], with NaN equal to
    NaN ([assert_array_equal]). *)
Definition np_same (x y : float) : bool :=
  PrimFloat.eqb x y || (PrimFloat.is_nan x && PrimFloat.is_nan y).

(** int64 wrap-around. *)
Definition wrap64 (z : Z) : Z := ((z + 2 ^ 63) mod 2 ^ 64 - 2 ^ 63)%Z.

Definition string_of_Z (z : Z) : string := NilZero.string_of_int (Z.to_int z).
Definition string_of_nat (n : nat) : string := string_of_Z (Z.of_nat n).

(** ** numpy array primitives *)

(** [np.zeros(n)], [np.full(n, x)]. *)
Definition np_full {A : Type} (n : Z) (x : A) : outcome (list A) :=
  if (n <? 0)%Z then Raise (ValueError "negative dimensions are not allowed")
  else Ok (replicate (Z.to_nat n) x).

(** [np.max(l)] of a 1-d integer array. *)
Definition np_max (l : list Z) : outcome Z :=
  match l with
  | [] => Raise (ValueError "zero-size array to reduction operation maximum which has no identity")
  | x :: l' => Ok (fold_left Z.max l' x)
  end.

(** Length of the array [np.bincount] returns. *)
Definition bincount_size (group_idx : list nat) (minlength : Z) : nat :=
  match group_idx with
  | [] => Z.to_nat minlength
  | _ => Z.to_nat minlength `max` S (max_list group_idx)
  end.

(** [np.bincount(group_idx, minlength=n)]: one pass, [ans[group_idx[i]] += 1]. *)
Definition bincount (group_idx : list nat) (minlength : Z) : outcome (list nat) :=
  if (minlength <? 0)%Z then Raise (ValueError "'minlength' must not be negative")
  else Ok (fold_left (λ ans g, alter S g ans) group_idx
             (replicate (bincount_size group_idx minlength) 0)).

(** [np.bincount(group_idx, weights=w, minlength=n)]: one pass in input
    order, [ans[group_idx[i]] += w[i]] in double precision. *)
Definition bincount_w (group_idx : list nat) (weights : list float) (minlength : Z)
  : outcome (list float) :=
  if (minlength <? 0)%Z then Raise (ValueError "'minlength' must not be negative")
  else if negb (length weights =? length group_idx)
  then Raise (ValueError "The weights and list don't have the same length.")
  else Ok (fold_left (λ ans gw, alter (λ s, s + gw.2)%float gw.1 ans) (zip group_idx weights)
             (replicate (bincount_size group_idx minlength) 0%float)).

(** The values a scalar or 1-d operand contributes at [k] positions. *)
Definition broadcast_to {A : Type} (a : ndarray A) (k : nat) : outcome (list A) :=
  match data a with
  | [x] => Ok (replicate k x)
  | xs => if length xs =? k then Ok xs
          else Raise (ValueError "shape mismatch: value array cannot be broadcast to indexing result")
  end.

(** [ret[idx] = a] with an integer index array: assignments happen in
    index order, so of two writes to one slot the later stays. *)
Definition setitem {A : Type} (ret : list A) (idx : list nat) (a : ndarray A)
  : outcome (list A) :=
  if existsb (λ g, length ret <=? g) idx
  then Raise (IndexError "index is out of bounds")
  else vals ← broadcast_to a (length idx);
       mret (fold_left (λ r gx, <[gx.1 := gx.2]> r) (zip idx vals) ret).

(** [ufunc.at(ret, idx, a)]: unbuffered in-place [ret[idx[i]] = op(ret[idx[i]], a[i])]. *)
Definition ufunc_at {A : Type} (op : A → A → A) (ret : list A) (idx : list nat) (a : ndarray A)
  : outcome (list A) :=
  if existsb (λ g, length ret <=? g) idx
  then Raise (IndexError "index is out of bounds")
  else vals ← broadcast_to a (length idx);
       mret (fold_left (λ r gx, alter (λ y, op y gx.2) gx.1 r) (zip idx vals) ret).

(** [l[idx]] with an integer index array. *)
Definition np_take {A : Type} (l : list A) (idx : list nat) : outcome (list A) :=
  match mapM (λ g, l !! g) idx with
  | Some r => Ok r
  | None => Raise (IndexError "index is out of bounds")
  end.

(** [l[mask]] with a boolean mask of the same length. *)
Fixpoint mask_select {A : Type} (mask : list bool) (l : list A) : list A :=
  match mask, l with
  | m :: mask', x :: l' => if m then x :: mask_select mask' l' else mask_select mask' l'
  | _, _ => []
  end.

(** [ret[mask] = v] with a boolean mask of the same length and a scalar [v]. *)
Definition mask_assign {A : Type} (mask : list bool) (ret : list A) (v : A) : list A :=
  imap (λ i x, if default false (mask !! i) then v else x) ret.

(** [group_idx.compress(cond)]. *)
Definition compress {A : Type} (cond : ndarray bool) (l : list A) : outcome (list A) :=
  if negb (ndim cond =? 1) then Raise (ValueError "condition must be a 1-d array")
  else if existsb id (drop (length l) (data cond))
  then Raise (IndexError "index out of bounds")
  else Ok (mask_select (data cond) l).

Definition ndarray_map {A B : Type} (f : A → B) (a : ndarray A) : ndarray B :=
  mk_ndarray (shape a) (f <$> data a).

(** Truth values of array elements ([np.logical_not], [compress]): the
    reductions [_all] and [_any] take float and bool arrays alike. *)
Class Truthy (A : Type) := truthy : A → bool.
#[global] Instance truthy_float : Truthy float := py_truth.
#[global] Instance truthy_bool : Truthy bool := id.

(** [np.asarray(pieces, dtype=object)] of a list of 1-d arrays: a 2-d array
    when all have one length, otherwise a 1-d array whose elements are the
    arrays. *)
Definition np_asarray_object (pieces : list (list float)) : obj_array :=
  match pieces with
  | [] => ObjRagged []
  | p :: ps =>
      if forallb (λ q, length q =? length p) ps then ObjRect (length p) pieces
      else ObjRagged (inl <$> pieces)
  end.

(** The order of a stable sort: by key, equal keys by position. *)
Definition stable_le (p q : nat * nat) : Prop := p.1 < q.1 ∨ p.1 = q.1 ∧ p.2 ≤ q.2.

#[global] Instance stable_le_dec (p q : nat * nat) : Decision (stable_le p q).
Proof. unfold stable_le. apply _. Defined.

(** [np.argsort(keys, kind='mergesort')]: the positions, sorted by key,
    positions of equal keys in increasing order. *)
Definition argsort_mergesort (keys : list nat) : list nat :=
  (merge_sort stable_le (zip keys (seq 0 (length keys)))).*2.

(** [np.cumsum(counts)]. *)
Definition np_cumsum (counts : list nat) : list nat :=
  (fold_left (λ '(acc, out) c, (acc + c, out ++ [acc + c])) counts (0, [])).2.

(** [np.split(l, points)]: the slices [l[st:end]] between consecutive
    division points, from 0 to the end of [l]. *)
Fixpoint split_from {A : Type} (l : list A) (st : nat) (points : list nat) : list (list A) :=
  match points with
  | [] => [drop st l]
  | p :: points => take (p - st) (drop st l) :: split_from l p points
  end.

Definition np_split {A : Type} (l : list A) (points : list nat) : list (list A) :=
  split_from l 0 points.

(** Complex doubles (complex128): the real and the imaginary part, with the
    inner loops of [np.multiply] and [np.add]. A double and an integer
    enter them with imaginary part [+0.0]. *)
Definition complex : Type := float * float.

Definition cplx_of_float (x : float) : complex := (x, 0%float).
Definition cplx_mul (x y : complex) : complex :=
  (x.1 * y.1 - x.2 * y.2, x.1 * y.2 + x.2 * y.1)%float.
Definition cplx_add (x y : complex) : complex := (x.1 + y.1, x.2 + y.2)%float.

(** The order in which numpy sorts complex numbers: by real part, then by
    imaginary part, numbers with a NaN part last, in the order
    [R + Rj, R + nanj, nan + Rj, nan + nanj] ([np.sort]). *)
Definition cplx_lt (a b : complex) : bool :=
  if PrimFloat.ltb a.1 b.1 then negb (PrimFloat.is_nan a.2) || PrimFloat.is_nan b.2
  else if PrimFloat.ltb b.1 a.1 then PrimFloat.is_nan b.2 && negb (PrimFloat.is_nan a.2)
  else if PrimFloat.eqb a.1 b.1 || (PrimFloat.is_nan a.1 && PrimFloat.is_nan b.1)
  then PrimFloat.ltb a.2 b.2 || (PrimFloat.is_nan b.2 && negb (PrimFloat.is_nan a.2))
  else PrimFloat.is_nan b.1.

Definition cplx_le (p q : complex * nat) : Prop :=
  cplx_lt p.1 q.1 = true ∨ cplx_lt q.1 p.1 = false ∧ p.2 ≤ q.2.

#[global] Instance cplx_le_dec (p q : complex * nat) : Decision (cplx_le p q).
Proof. unfold cplx_le. apply _. Defined.

(** [np.argsort(keys)] of complex keys: the positions, sorted by key. The
    default sort does not fix the order of the positions of equal keys;
    they are taken in increasing order here, and [order_matters] tells
    whether another order would show in [vals[np.argsort(keys)]]: it does
    when two equal keys go with values that are not the same double. *)
Definition np_argsort (keys : list complex) : list nat :=
  (merge_sort cplx_le (zip keys (seq 0 (length keys)))).*2.

Definition same_double (x y : float) : bool :=
  (PrimFloat.eqb x y && Bool.eqb (PrimFloat.get_sign x) (PrimFloat.get_sign y))
  || (PrimFloat.is_nan x && PrimFloat.is_nan y).

Definition order_matters (keys : list complex) (vals : list float) : bool :=
  existsb (λ p, existsb (λ q, negb (cplx_lt p.1 q.1) && negb (cplx_lt q.1 p.1)
                              && negb (same_double p.2 q.2))
                  (zip keys vals))
    (zip keys vals).

(** ** Helpers of [utils] (not under src/) *)

(** Modelled from the spec: [fill_untouched(idx, ret, fill_value)] of
    [utils], which is not under src/. "groups untouched by any element get
    fill_value": every slot of [ret] that no element of [idx] names is set
    to [fill_value]. *)
Definition fill_untouched {A : Type} (idx : list nat) (ret : list A) (fill_value : A) : list A :=
  imap (λ i x, if bool_decide (i ∈ idx) then x else fill_value) ret.

(** Modelled from the spec: [fill_untouched(idx, ret, fill_value)] of
    [utils], which is not under src/, on an object array: the elements (the
    rows, in a 2-d array) that no index names are set to [fill_value]. *)
Definition fill_untouched_object (idx : list nat) (ret : obj_array) (fill_value : float)
  : obj_array :=
  match ret with
  | ObjRagged elts => ObjRagged (fill_untouched idx elts (inr fill_value))
  | ObjRect m rws =>
      ObjRect m (imap (λ i row, if bool_decide (i ∈ idx) then row
                                else replicate m fill_value) rws)
  end.

(** Modelled from the spec: [minimum_dtype(fill_value, dtype)] of [utils],
    which is not under src/. "Output dtype promoted to the minimal type
    holding both fill_value and the value dtype": float64 holds every fill
    value of the model; a result of another dtype is outside the model. *)
Definition minimum_dtype (fill_value : float) (dt : dtype_t) : outcome dtype_t :=
  match dt with
  | dt_float64 => Ok dt_float64
  | _ => OutOfModel
  end.

(** Modelled from the spec: [check_boolean(fill_value)] of [utils], which is
    not under src/. "boolean reductions require a boolean fill value"; the
    default [fill_value=0] is one. *)
Definition check_boolean (fill_value : float) : outcome unit :=
  if py_eq fill_value 0 || py_eq fill_value 1 then Ok ()
  else Raise (ValueError "fill_value must be boolean")%string.

(** Modelled from the spec: the [aliasing] table of [utils], which is not
    under src/, as the docstring of [aggregate] and §4.2 list it (the
    docstring's line for "max" repeats the names of "min"). *)
Definition aliasing : list (string * string) :=
  [("amin", "min"); ("minimum", "min"); ("amax", "max"); ("maximum", "max");
   ("product", "prod"); ("times", "prod"); ("multiply", "prod");
   ("plus", "sum"); ("add", "sum"); ("or", "any"); ("and", "all");
   ("split", "array"); ("splice", "array");
   ("sorted", "sort"); ("asort", "sort"); ("asorted", "sort");
   ("rsorted", "rsort"); ("dsort", "rsort"); ("dsorted", "rsort")]%string.

(** Modelled from the spec: [no_separate_nan_version] of [utils], which is
    not under src/ (§4.2). *)
Definition no_separate_nan_version : list string :=
  ["first"; "last"; "all"; "any"; "array"; "sort"; "rsort"; "allnan"; "anynan"]%string.

(** [d.get(key)] and [d.get(key, key)] on a dict kept as an association list. *)
Fixpoint dict_get {V : Type} (d : list (string * V)) (key : string) : option V :=
  match d with
  | [] => None
  | (k, v) :: d' => if String.eqb k key then Some v else dict_get d' key
  end.

Definition alias_get (func : string) : string := default func (dict_get aliasing func).

(** [str.lower()] on ASCII. *)
Definition lower_ascii (c : Ascii.ascii) : Ascii.ascii :=
  let n := Ascii.nat_of_ascii c in
  if (65 <=? n) && (n <=? 90) then Ascii.ascii_of_nat (n + 32) else c.

Fixpoint lower (s : string) : string :=
  match s with
  | EmptyString => EmptyString
  | String c s' => String (lower_ascii c) (lower s')
  end.

(** [s[3:]]. *)
Definition drop3 (s : string) : string := String.substring 3 (String.length s - 3) s.

(** ** The reductions of [aggregate_numpy.py]

    Each takes the flat group index, the values (a 0-d or 1-d array), the
    output size [n], the fill value and the requested dtype. *)

Module aggregate_numpy.

Definition reduction : Type :=
  list nat → ndarray float → Z → float → option dtype_t → outcome dense.

(** [fill_value] as the grouping reductions test it ([np.isscalar],
    [len]): a scalar, or a sequence. *)
Inductive fill_arg : Type :=
| FillScalar (x : float)
| FillSeq (l : list float).

(** The keys [group_idx + c * a] of [_sort], for [c = 1j] or [c = -1j]:
    complex128, with numpy's broadcasting of a 0-d or 1-d [a]. *)
Definition sort_keys (c : complex) (group_idx : list nat) (a : ndarray float)
  : outcome (list complex) :=
  let key g x := cplx_add (cplx_of_float (float_of_nat g)) (cplx_mul c (cplx_of_float x)) in
  if ndim a =? 0 then Ok ((λ g, key g (item a)) <$> group_idx)
  else match group_idx, data a with
       | [g], xs => Ok (key g <$> xs)
       | gs, [x] => Ok ((λ g, key g x) <$> gs)
       | gs, xs =>
           if length gs =? length xs then Ok (zip_with key gs xs)
           else Raise (ValueError "operands could not be broadcast together")
       end.

(** Lines 7-23. The values are doubles, so the test of line 8 on a complex
    dtype does not hold; the [dtype] argument is not used. [-1j] is the
    negation of [1j], of real part [-0.0]. *)
Definition _sort (group_idx : list nat) (a : ndarray float) (n : Z) (fill_value : fill_arg)
  (reversed_ : bool) : outcome obj_array :=
  if negb match fill_value with
          | FillScalar _ => true
          | FillSeq l => length l =? 0
          end
  then Raise (ValueError "fill_value must be scalar or an empty sequence")
  else
    keys ← sort_keys (if reversed_ then ((-0)%float, (-1)%float) else (0%float, 1%float))
             group_idx a;
    let order_group_idx := np_argsort keys in
    counts ← bincount group_idx n;
    a ← (if ndim a =? 0 then np_full n (item a) else mret (data a));
    taken ← np_take a order_group_idx;
    if order_matters keys a then OutOfModel
    else
      let ret := np_split taken (removelast (np_cumsum counts)) in
      let ret := np_asarray_object ret in
      mret match fill_value with
           | FillScalar x => fill_untouched_object group_idx ret x
           | FillSeq _ => ret
           end.

(** Lines 25-26. *)
Definition _rsort (group_idx : list nat) (a : ndarray float) (n : Z) (fill_value : fill_arg)
  : outcome obj_array :=
  _sort group_idx a n fill_value true.

(** Lines 28-38. The [dtype] argument is not used. *)
Definition _array (group_idx : list nat) (a : ndarray float) (n : Z) (fill_value : fill_arg)
  : outcome obj_array :=
  if negb match fill_value with
          | FillScalar _ => true
          | FillSeq l => length l =? 0
          end
  then Raise (ValueError "fill_value must be scalar or an empty sequence")
  else
    let order_group_idx := argsort_mergesort group_idx in
    counts ← bincount group_idx n;
    taken ← (if ndim a =? 0 then Raise (IndexError "too many indices for array")
             else np_take (data a) order_group_idx);
    let ret := np_split taken (removelast (np_cumsum counts)) in
    let ret := np_asarray_object ret in
    mret match fill_value with
         | FillScalar x => fill_untouched_object group_idx ret x
         | FillSeq _ => ret
         end.

(** Lines 40-50. *)
Definition _sum (group_idx : list nat) (a : ndarray float) (n : Z) (fill_value : float)
  (dtype : option dtype_t) : outcome dense :=
  dtype ← minimum_dtype fill_value (default (a_dtype a) dtype);
  ret ← (if ndim a =? 0 then
           counts ← bincount group_idx n;
           let ret := float_of_nat <$> counts in
           mret (if py_ne (item a) 1 then (λ r, r * item a)%float <$> ret else ret)
         else bincount_w group_idx (data a) n);
  mret (DFloat (if py_ne fill_value 0 then fill_untouched group_idx ret fill_value else ret)).

(** Lines 52-62. *)
Definition _last (group_idx : list nat) (a : ndarray float) (n : Z) (fill_value : float)
  (dtype : option dtype_t) : outcome dense :=
  dtype ← minimum_dtype fill_value (default (a_dtype a) dtype);
  ret ← (if py_eq fill_value 0 then np_full n 0%float else np_full n fill_value);
  ret ← setitem ret group_idx a;
  mret (DFloat ret).

(** Lines 64-71. [a[::-1]] is an IndexError on a 0-d array. *)
Definition _first (group_idx : list nat) (a : ndarray float) (n : Z) (fill_value : float)
  (dtype : option dtype_t) : outcome dense :=
  dtype ← minimum_dtype fill_value (default (a_dtype a) dtype);
  ret ← (if py_eq fill_value 0 then np_full n 0%float else np_full n fill_value);
  a_rev ← (if ndim a =? 0 then Raise (IndexError "too many indices for array")
           else mret (mk_ndarray (shape a) (reverse (data a))));
  ret ← setitem ret (reverse group_idx) a_rev;
  mret (DFloat ret).

(** Lines 74-80. *)
Definition _prod (group_idx : list nat) (a : ndarray float) (n : Z) (fill_value : float)
  (dtype : option dtype_t) : outcome dense :=
  dtype ← minimum_dtype fill_value (default (a_dtype a) dtype);
  ret ← np_full n fill_value;
  ret ← (if py_ne fill_value 1 then setitem ret group_idx (scalar0 1%float) else mret ret);
  ret ← ufunc_at PrimFloat.mul ret group_idx a;
  mret (DFloat ret).

(** Lines 83-91. The [dtype] argument is not used. *)
Definition _all {A : Type} `{Truthy A} (group_idx : list nat) (a : ndarray A) (n : Z)
  (fill_value : float) (dtype : option dtype_t) : outcome dense :=
  _ ← check_boolean fill_value;
  ret ← np_full n (py_truth fill_value);
  ret ← (if py_truth fill_value then mret ret
         else setitem ret group_idx (scalar0 true));
  sel ← compress (ndarray_map (λ x, negb (truthy x)) a) group_idx;
  ret ← setitem ret sel (scalar0 false);
  mret (DBool ret).

(** Lines 93-101. The [dtype] argument is not used. *)
Definition _any {A : Type} `{Truthy A} (group_idx : list nat) (a : ndarray A) (n : Z)
  (fill_value : float) (dtype : option dtype_t) : outcome dense :=
  _ ← check_boolean fill_value;
  ret ← np_full n (py_truth fill_value);
  ret ← (if py_truth fill_value then setitem ret group_idx (scalar0 false)
         else mret ret);
  sel ← compress (ndarray_map truthy a) group_idx;
  ret ← setitem ret sel (scalar0 true);
  mret (DBool ret).

(** Lines 103-110. *)
Definition _min (group_idx : list nat) (a : ndarray float) (n : Z) (fill_value : float)
  (dtype : option dtype_t) : outcome dense :=
  dtype ← minimum_dtype fill_value (default (a_dtype a) dtype);
  ret ← np_full n fill_value;
  ret ← (if py_ne fill_value dmax then setitem ret group_idx (scalar0 dmax) else mret ret);
  ret ← ufunc_at np_minimum ret group_idx a;
  mret (DFloat ret).

(** Lines 112-119. *)
Definition _max (group_idx : list nat) (a : ndarray float) (n : Z) (fill_value : float)
  (dtype : option dtype_t) : outcome dense :=
  dtype ← minimum_dtype fill_value (default (a_dtype a) dtype);
  ret ← np_full n fill_value;
  ret ← (if py_ne fill_value dmin then setitem ret group_idx (scalar0 dmin) else mret ret);
  ret ← ufunc_at np_maximum ret group_idx a;
  mret (DFloat ret).

(** [dtype = float if dtype is None else dtype] (lines 124, 136): the
    quotient is a float64 array for both [None] and float64. *)
Definition float_or (dtype : option dtype_t) : outcome dtype_t :=
  match dtype with
  | None | Some dt_float64 => Ok dt_float64
  | Some _ => OutOfModel
  end.

(** [sums / counts], an int64 count converted to double. *)
Definition divide_counts (sums : list float) (counts : list nat) : list float :=
  zip_with (λ s c, s / float_of_nat c)%float sums counts.

(** Lines 121-131. *)
Definition _mean (group_idx : list nat) (a : ndarray float) (n : Z) (fill_value : float)
  (dtype : option dtype_t) : outcome dense :=
  if ndim a =? 0 then Raise (ValueError "cannot take mean with scalar a") else
  dtype ← float_or dtype;
  counts ← bincount group_idx n;
  sums ← bincount_w group_idx (data a) n;
  let ret := divide_counts sums counts in
  mret (DFloat (if negb (np_isnan fill_value)
                then mask_assign ((λ c, c =? 0) <$> counts) ret fill_value
                else ret)).

(** Lines 133-146. *)
Definition _var (group_idx : list nat) (a : ndarray float) (n : Z) (fill_value : float)
  (dtype : option dtype_t) (sqrt : bool) : outcome dense :=
  if ndim a =? 0 then Raise (ValueError "cannot take variance with scalar a") else
  dtype ← float_or dtype;
  counts ← bincount group_idx n;
  sums ← bincount_w group_idx (data a) n;
  let means := divide_counts sums counts in
  means_g ← np_take means group_idx;
  sq ← bincount_w group_idx (zip_with (λ x m, (x - m) * (x - m))%float (data a) means_g) n;
  let ret := divide_counts sq counts in
  let ret := if sqrt then PrimFloat.sqrt <$> ret else ret in
  mret (DFloat (if negb (np_isnan fill_value)
                then mask_assign ((λ c, c =? 0) <$> counts) ret fill_value
                else ret)).

(** Lines 148-149. *)
Definition _std (group_idx : list nat) (a : ndarray float) (n : Z) (fill_value : float)
  (dtype : option dtype_t) : outcome dense :=
  _var group_idx a n fill_value dtype true.

(** Lines 151-155. *)
Definition _allnan (group_idx : list nat) (a : ndarray float) (n : Z) (fill_value : float)
  (dtype : option dtype_t) : outcome dense :=
  _all group_idx (ndarray_map np_isnan a) n fill_value dtype.

Definition _anynan (group_idx : list nat) (a : ndarray float) (n : Z) (fill_value : float)
  (dtype : option dtype_t) : outcome dense :=
  _any group_idx (ndarray_map np_isnan a) n fill_value dtype.

(** Lines 157-165: the result is an object array that holds [fill_value]
    or what [func] returned for a group. The [dtype] argument is not
    used. *)
Definition _generic_callable {R : Type} (func : list float → R) (group_idx : list nat)
    (a : ndarray float) (n : Z) (fill_value : float) : outcome (list (R + float)) :=
  groups ← _array group_idx a n (FillSeq []);
  ret ← np_full n (inr fill_value);
  fold_left (λ ret '(ii, g),
               ret ← ret;
               match g with
               | inl ((_ :: _) as g) =>
                   if length ret <=? ii then Raise (IndexError "index is out of bounds")
                   else mret (<[ii := inl (func g)]> ret)
               | _ => mret ret
               end)
    (imap pair (obj_iter groups)) (Ok ret).

(** A grouping reduction as [aggregate] calls it: with the scalar
    [fill_value] of the model, returning its object array. *)
Definition grouping (f : list nat → ndarray float → Z → fill_arg → outcome obj_array)
  : reduction :=
  λ group_idx a n fill_value dtype,
    ret ← f group_idx a n (FillScalar fill_value);
    mret (DObject ret).

(** Lines 167-170. *)
Definition _impl_dict : list (string * reduction) :=
  [("min", _min); ("max", _max); ("sum", _sum); ("prod", _prod);
   ("last", _last); ("first", _first); ("all", _all); ("any", _any);
   ("mean", _mean); ("std", _std);
   ("var", λ group_idx a n fill_value dtype, _var group_idx a n fill_value dtype false);
   ("anynan", _anynan); ("allnan", _allnan);
   ("sort", grouping (λ group_idx a n fill_value, _sort group_idx a n fill_value false));
   ("rsort", grouping _rsort); ("array", grouping _array)]%string.

(** ** [aggregate] (lines 173-346) *)

(** [np.prod] of an integer sequence, in int64. *)
Definition np_prod (dims : list Z) : Z := fold_left (λ p d, wrap64 (p * d)) dims 1%Z.

(** One position of [np.ravel_multi_index]: the mixed-radix combination of
    its coordinates, first axis most significant in order 'C', least
    significant in order 'F'. *)
Definition ravel_one (order : order_t) (dims coords : list Z) : Z :=
  match order with
  | OrderC => fold_left (λ acc cd, acc * cd.2 + cd.1)%Z (zip coords dims) 0%Z
  | OrderF => fold_right (λ cd acc, acc * cd.2 + cd.1)%Z 0%Z (zip coords dims)
  end.

(** Whether the running product of [dims], taken in int64 from 1, leaves
    the int64 range at some step. *)
Definition mul_overflows (dims : list Z) : bool :=
  (fold_left (λ '(s, ovf) d,
                let p := (s * d)%Z in
                (p, ovf || (p <? - 2 ^ 63)%Z || (2 ^ 63 - 1 <? p)%Z))
     dims (1%Z, false)).2.

(** [np.ravel_multi_index(multi_index, dims, order=order, mode='raise')] for
    coordinate arrays of length [m]. The strides are the running products
    of the dimensions, from the last one in order 'C' and from the first
    one in order 'F'; a product that overflows is an error. *)
Definition ravel_multi_index (m : nat) (multi_index : list (list Z)) (dims : list Z)
  (order : order_t) : outcome (list Z) :=
  if negb (length multi_index =? length dims)
  then Raise (ValueError "parameter multi_index must be a sequence of the length of dims")
  else if mul_overflows match order with OrderC => reverse dims | OrderF => dims end
  then Raise (ValueError "invalid dims: array size defined by dims is larger than the maximum possible size.")
  else
    let columns := (λ j, (λ row, nth j row 0%Z) <$> multi_index) <$> seq 0 m in
    if existsb (λ coords, existsb (λ cd, (cd.1 <? 0) || (cd.2 <=? cd.1))%Z (zip coords dims)) columns
    then Raise (ValueError "invalid entry in coordinates array")
    else Ok (ravel_one order dims <$> columns).

(** The multi-index of position [k] of a C-ordered array of shape [dims],
    and the position of a multi-index in Fortran order. *)
Definition unravel_C (dims : list nat) (k : nat) : list nat :=
  (fold_right (λ d kacc, (kacc.1 `div` d, kacc.1 `mod` d :: kacc.2)) (k, []) dims).2.

Definition ravel_F (dims coords : list nat) : nat :=
  fold_right (λ cd acc, acc * cd.2 + cd.1) 0 (zip coords dims).

(** [l.reshape(dims, order=order)] of a flat array, read back in C order. *)
Definition reorder {A : Type} (order : order_t) (dims : list nat) (l : list A) : list A :=
  match order, l with
  | OrderC, _ => l
  | OrderF, [] => []
  | OrderF, x :: _ => (λ k, nth (ravel_F dims (unravel_C dims k)) l x) <$> seq 0 (length l)
  end.

(** The elements of an object array in the order in which [reshape] reads
    them: row by row for order 'C', column by column for order 'F'. The
    elements of a 2-d array are scalars, element [(i, j)] being element [j]
    of row [i]. *)
Definition obj_ravel (order : order_t) (arr : obj_array) : list (list float + float) :=
  match arr with
  | ObjRagged elts => elts
  | ObjRect m rws =>
      inr <$> match order with
              | OrderC => concat ((λ row, (λ j, nth j row 0%float) <$> seq 0 m) <$> rws)
              | OrderF => concat ((λ j, (λ row, nth j row 0%float) <$> rws) <$> seq 0 m)
              end
  end.

Definition reshape (ret : dense) (size : list Z) (order : order_t) : outcome result :=
  if existsb (λ s, s <? 0)%Z size || negb (fold_left Z.mul size 1 =? Z.of_nat (dense_size ret))%Z
  then Raise (ValueError "cannot reshape array")
  else Ok (mk_result (Z.to_nat <$> size)
             match ret with
             | DFloat xs => DFloat (reorder order (Z.to_nat <$> size) xs)
             | DBool bs => DBool (reorder order (Z.to_nat <$> size) bs)
             | DObject arr =>
                 DObject (ObjRagged (reorder order (Z.to_nat <$> size) (obj_ravel order arr)))
             end).

(** Lines 283-295: 1-d grouping. Returns the flat index and the size. *)
Definition index_1d (group_idx : ndarray Z) (a : ndarray float) (size : size_arg)
  : outcome (list Z * Z) :=
  if negb ((ndim a =? 0) || (len a =? len group_idx))
  then Raise (ValueError "group_idx and a must be of the same length, or a can be scalar")
  else if existsb (λ i, i <? 0)%Z (data group_idx)
  then Raise (ValueError "Negative indices not supported.")
  else
    size ← match size with
           | SizeScalar size =>
               if existsb (λ i, size - 1 <? i)%Z (data group_idx)
               then Raise (ValueError ("One or more indices are too large for size "
                                       +:+ string_of_Z size +:+ "."))
               else mret size
           | SizeSeq _ => Raise (ValueError "Output size must be scalar or None")
           | SizeNone => m ← np_max (data group_idx); mret (wrap64 (m + 1))
           end;
    mret (data group_idx, size).

(** Lines 296-308: multi-key grouping. Returns the flat index, the sizes and
    their product. An index array without rows is outside the model. *)
Definition index_2d (group_idx : ndarray Z) (a : ndarray float) (size : size_arg)
  (order : order_t) : outcome (list Z * list Z * Z) :=
  let m := nth 1 (shape group_idx) 0 in
  if negb ((ndim a =? 0) || (len a =? m))
  then Raise (ValueError ("a has length " +:+ string_of_nat (len a)
                          +:+ ", but group_idx has length " +:+ string_of_nat m +:+ "."))
  else if len group_idx =? 0 then OutOfModel
  else
    size ← match size with
           | SizeNone =>
               maxes ← mapM np_max (rows group_idx);
               mret ((λ mx, wrap64 (mx + 1)) <$> maxes)
           | SizeScalar _ =>
               Raise (ValueError ("Output size must be None or 1d sequence of length "
                                  +:+ string_of_nat (len group_idx)))
           | SizeSeq size =>
               if negb (length size =? len group_idx)
               then Raise (ValueError (string_of_nat (length size) +:+ " sizes given, but "
                                       +:+ string_of_nat (len group_idx)
                                       +:+ " output dimensions specified in index"))
               else mret size
           end;
    flat ← ravel_multi_index m (rows group_idx) size order;
    mret (flat, size, np_prod size).

(** Lines 310-340: resolve [func], drop the NaN pairs for a nan- version,
    run the reduction. *)
Definition dispatch (func : func_arg) (group_idx : list nat) (a : ndarray float) (size_n : Z)
  (fill_value : float) (dtype : option dtype_t) (_impl_dict : list (string * reduction))
  : outcome dense :=
  match func with
  | FuncOther => Raise (ValueError "func is neither a string nor a callable object.")
  | FuncCallable func =>
      ret ← _generic_callable func group_idx a size_n fill_value;
      mret (DObject (ObjRagged ((λ r, match r with inl v => v | inr x => inr x end) <$> ret)))
  | FuncName original_func =>
      let func := lower original_func in
      '(func, a, group_idx) ←
        (if String.prefix "nan" func then
           let func := drop3 func in
           let func := alias_get func in
           if bool_decide (func ∈ no_separate_nan_version)
           then Raise (ValueError (drop3 original_func +:+ " does not have a nan- version."))
           else if ndim a =? 0
           then Raise (ValueError "nan- version not supported for scalar input.")
           else
             let good := (λ x, negb (np_isnan x)) <$> data a in
             let a := array1 (mask_select good (data a)) in
             mret (func, a, mask_select good group_idx)
         else mret (alias_get func, a, group_idx));
      match dict_get _impl_dict func with
      | None => Raise (NotImplementedError
                         (original_func +:+ " not found in list of available functions."))
      | Some func => func group_idx a size_n fill_value dtype
      end
  end.

Definition aggregate (group_idx : ndarray Z) (a : ndarray float) (func : func_arg)
  (size : size_arg) (fill_value : float) (order : order_t) (dtype : option dtype_t)
  (_impl_dict : list (string * reduction)) : outcome result :=
  if 1 <? ndim a
  then Raise (ValueError "a must be scalar or 1 dimensional, use .ravel to flatten.")
  else
    let ndim_idx := ndim group_idx in
    if negb ((ndim_idx =? 1) || (ndim_idx =? 2))
    then Raise (ValueError "Expected indices to have either 1 or 2 dimension.")
    else if ndim_idx =? 1 then
      '(group_idx, size) ← index_1d group_idx a size;
      ret ← dispatch func (Z.to_nat <$> group_idx) a size fill_value dtype _impl_dict;
      mret (mk_result (dense_shape ret) ret)
    else
      '(group_idx, size, size_n) ← index_2d group_idx a size order;
      ret ← dispatch func (Z.to_nat <$> group_idx) a size_n fill_value dtype _impl_dict;
      reshape ret size order.

End aggregate_numpy.

(** ** The inline-C kernels of [aggregate_weave.py]

    The C snippets [c_iter] and [c_finish], the loop templates [c_base] and
    [c_base_reverse], the table [c_funcs], and the part of [aggregate] that
    allocates the buffers, runs the kernel and fills the untouched slots
    (lines 274-301). [get_func], [check_dtype], [check_fill_value] and
    [input_validation] are not under src/: the kernel is given the flat
    index and the 1-d values that [input_validation] returns, and its
    buffers are arrays of doubles ([ret], [means]) and of integers
    ([counter]: an int array for mean, var and std, a bool array of 0 and
    1 otherwise). *)

Module aggregate_weave.

(** The arrays a kernel reads and writes, and the scalars [inline] passes. *)
Record cstate : Type := mk_cstate { ret : list float; counter : list Z; means : list float }.

Record cenv : Type := mk_cenv { fill_value : float; ddof : Z }.

(** One iteration of the loop body: the state, [write_idx], [a[i]]. *)
Definition citer : Type := cstate → nat → float → cstate.

Definition set_ret (f : float → float) (w : nat) (s : cstate) : cstate :=
  mk_cstate (alter f w (ret s)) (counter s) (means s).
Definition set_counter (f : Z → Z) (w : nat) (s : cstate) : cstate :=
  mk_cstate (ret s) (alter f w (counter s)) (means s).
Definition set_means (f : float → float) (w : nat) (s : cstate) : cstate :=
  mk_cstate (ret s) (counter s) (alter f w (means s)).

(** Lines 59-102 and 110-113, 125. *)
Definition c_iter : list (string * citer) :=
  [("sum", λ s w x, set_ret (λ r, r + x)%float w (set_counter (λ _, 0%Z) w s));
   ("prod", λ s w x, set_ret (λ r, r * x)%float w (set_counter (λ _, 0%Z) w s));
   ("all", λ s w x,
      let s := set_counter (λ _, 0%Z) w s in
      if py_eq x 0 then set_ret (λ _, 0%float) w s else s);
   ("any", λ s w x,
      let s := set_counter (λ _, 0%Z) w s in
      if py_ne x 0 then set_ret (λ _, 1%float) w s else s);
   ("last", λ s w x, set_ret (λ _, x) w s);
   ("allnan", λ s w x,
      let s := set_counter (λ _, 0%Z) w s in
      if py_eq x x then set_ret (λ _, 0%float) w s else s);
   ("anynan", λ s w x,
      let s := set_counter (λ _, 0%Z) w s in
      if py_ne x x then set_ret (λ _, 1%float) w s else s);
   ("max", λ s w x,
      if bool_decide (counter s !! w = Some 1%Z)
      then set_counter (λ _, 0%Z) w (set_ret (λ _, x) w s)
      else set_ret (λ r, if PrimFloat.ltb r x then x else r) w s);
   ("min", λ s w x,
      if bool_decide (counter s !! w = Some 1%Z)
      then set_counter (λ _, 0%Z) w (set_ret (λ _, x) w s)
      else set_ret (λ r, if PrimFloat.ltb x r then x else r) w s);
   ("mean", λ s w x, set_ret (λ r, r + x)%float w (set_counter Z.succ w s));
   ("std", λ s w x,
      set_ret (λ r, r + x * x)%float w
        (set_means (λ m, m + x)%float w (set_counter Z.succ w s)));
   ("var", λ s w x,
      set_ret (λ r, r + x * x)%float w
        (set_means (λ m, m + x)%float w (set_counter Z.succ w s)))]%string.

(** The loop [for (long i=0; i<Lret; i++)] of a finishing snippet. *)
Definition for_each_slot (f : float → Z → float → float) (s : cstate) : cstate :=
  mk_cstate (imap (λ i r, f r (default 0%Z (counter s !! i)) (default 0%float (means s !! i)))
               (ret s))
    (counter s) (means s).

(** Lines 104-108, 115-123, 127-135. *)
Definition c_finish (env : cenv) : list (string * (cstate → cstate)) :=
  [("mean", for_each_slot (λ r c _,
      if negb (c =? 0)%Z then (r / float_of_Z c)%float else fill_value env));
   ("std", for_each_slot (λ r c m,
      if negb (c =? 0)%Z then
        let mean2 := (m * m)%float in
        PrimFloat.sqrt ((r - mean2 / float_of_Z c) / float_of_Z (c - ddof env))%float
      else fill_value env));
   ("var", for_each_slot (λ r c m,
      if negb (c =? 0)%Z then
        let mean2 := (m * m)%float in
        ((r - mean2 / float_of_Z c) / float_of_Z (c - ddof env))%float
      else fill_value env))]%string.

(** Lines 35-38: the body runs only where [a[i] == a[i]]. *)
Definition c_nan_iter (iter : citer) : citer :=
  λ s w x, if py_eq x x then iter s w x else s.

(** Lines 41-57: the forward and the backward loop over the input. *)
Definition c_base (iter : citer) (finish : cstate → cstate)
  (group_idx : list nat) (a : list float) (s : cstate) : cstate :=
  finish (fold_left (λ s gx, iter s gx.1 gx.2) (zip group_idx a) s).

Definition c_base_reverse (iter : citer) (finish : cstate → cstate)
  (group_idx : list nat) (a : list float) (s : cstate) : cstate :=
  finish (fold_left (λ s gx, iter s gx.1 gx.2) (reverse (zip group_idx a)) s).

Definition cprogram : Type := list nat → list float → cstate → cstate.

(** Lines 139-145. *)
Definition c_func (env : cenv) (funcname : string) (reverse nans : bool) : option cprogram :=
  iter ← dict_get c_iter funcname;
  let codebase := if reverse then c_base_reverse else c_base in
  let iterbase := if nans then c_nan_iter iter else iter in
  Some (codebase iterbase (default id (dict_get (c_finish env) funcname))).

(** Lines 147-158: the kernels by name. *)
Definition get_cfuncs (env : cenv) : list (string * cprogram) :=
  (flat_map (λ kv,
     let funcname := kv.1 in
     match c_func env funcname false false with
     | None => []
     | Some p =>
         (funcname, p) ::
         (if bool_decide (funcname ∈ no_separate_nan_version) then []
          else match c_func env funcname false true with
               | None => []
               | Some q => [("nan" +:+ funcname, q)]
               end)
     end) c_iter)
  ++ match c_func env "last" true false, c_func env "last" true true with
     | Some p, Some q => [("first", p); ("nanfirst", q)]
     | _, _ => []
     end.

Definition c_funcs (env : cenv) : list (string * cprogram) := get_cfuncs env.

Definition is_in (func : string) (names : list string) : bool := bool_decide (func ∈ names).

(** Lines 274-301 of [aggregate]: allocate, run [c_funcs[func]], fill. A
    write outside [ret] or a read outside [a] is undefined in C. *)
Definition aggregate_kernel (func : string) (group_idx : list nat) (a : list float)
  (flat_size : nat) (fill_value : float) (ddof : Z) : outcome (list float) :=
  let ret0 :=
    if is_in func ["sum"; "any"; "anynan"; "nansum"] then replicate flat_size 0%float
    else if is_in func ["prod"; "all"; "allnan"; "nanprod"] then replicate flat_size 1%float
    else replicate flat_size fill_value in
  let s :=
    if is_in func ["std"; "var"; "nanstd"; "nanvar"]
    then mk_cstate ret0 (replicate flat_size 0%Z) (replicate flat_size 0%float)
    else if is_in func ["mean"; "nanmean"]
    then mk_cstate ret0 (replicate flat_size 0%Z) []
    else mk_cstate ret0 (replicate flat_size 1%Z) [] in
  match dict_get (c_funcs (mk_cenv fill_value ddof)) func with
  | None => Raise (KeyError func)
  | Some kernel =>
      if existsb (λ g, flat_size <=? g) group_idx || negb (length a =? length group_idx)
      then OutOfModel
      else
        let s := kernel group_idx a s in
        let untouched := (λ c, negb (c =? 0)%Z) <$> counter s in
        Ok (if is_in func ["sum"; "any"; "anynan"; "nansum"] && py_ne fill_value 0
            then mask_assign untouched (ret s) fill_value
            else if is_in func ["prod"; "all"; "allnan"; "nanprod"] && py_ne fill_value 1
            then mask_assign untouched (ret s) fill_value
            else ret s)
  end.

(** Lines 25-28: [c_size] computes [L<varname>], the number of elements of
    an array, as the product of its dimensions. *)
Definition c_size {A : Type} (arr : ndarray A) : nat := fold_left Nat.mul (shape arr) 1.

(** [group_idx[i]] in C, on the flat data of the array. *)
Definition c_read (group_idx : ndarray Z) (i : nat) : Z := nth i (data group_idx) 0%Z.

(** Lines 160-172: [c_step_count]. The state of the loop is [cmp_pos] and
    [steps]. *)
Definition c_step_count (group_idx : ndarray Z) : Z :=
  let Lgroup_idx := c_size group_idx in
  if Lgroup_idx <? 1 then 0%Z
  else
    (fold_left (λ '(cmp_pos, steps) i,
                  if negb (c_read group_idx cmp_pos =? c_read group_idx i)%Z
                  then (i, (steps + 1)%Z)
                  else (cmp_pos, steps))
       (seq 0 Lgroup_idx) (0, 1%Z)).2.

(** Lines 174-178. *)
Definition step_count (group_idx : ndarray Z) : Z := c_step_count group_idx.

(** Lines 181-189: [c_step_indices]. The state of the loop is [cmp_pos],
    [write_idx] and the array [indices]; a write outside [indices] is
    undefined in C. *)
Definition c_step_indices (group_idx : ndarray Z) (indices : list Z) : outcome (list Z) :=
  let Lgroup_idx := c_size group_idx in
  st ← fold_left (λ st i,
                    '(cmp_pos, write_idx, indices) ← st;
                    if negb (c_read group_idx cmp_pos =? c_read group_idx i)%Z
                    then if length indices <=? write_idx then OutOfModel
                         else mret (i, S write_idx, <[write_idx := Z.of_nat i]> indices)
                    else mret (cmp_pos, write_idx, indices))
          (seq 1 (Lgroup_idx - 1)) (Ok (0, 1, indices));
  mret st.2.

(** Lines 191-200: [step_indices]. [np.empty] leaves the content of the
    new array unspecified: it is whatever [uninit] says. *)
Definition step_indices (uninit : nat → Z) (group_idx : ndarray Z) : outcome (list Z) :=
  let ilen := (step_count group_idx + 1)%Z in
  indices ← (if (ilen <? 0)%Z then Raise (ValueError "negative dimensions are not allowed")
             else Ok (uninit <$> seq 0 (Z.to_nat ilen)));
  let indices := <[0 := 0%Z]> indices in
  let indices := <[length indices - 1 := Z.of_nat (c_size group_idx)]> indices in
  c_step_indices group_idx indices.

End aggregate_weave.

(** ** Vocabulary of the properties *)

(** A 1-d group index given by its (non-negative) entries. *)
Definition idx_array (group_idx : list nat) : ndarray Z := array1 (Z.of_nat <$> group_idx).

(** The output size of a 1-d call whose indices pass the checks of lines
    286-294: the given scalar [size] when no index reaches it, otherwise
    [max(group_idx) + 1] when that fits an int64. *)
Definition size_1d (group_idx : list nat) (size : size_arg) : option nat :=
  match size with
  | SizeNone =>
      match group_idx with
      | [] => None
      | _ => if (Z.of_nat (max_list group_idx) + 1 <? 2 ^ 63)%Z
             then Some (S (max_list group_idx)) else None
      end
  | SizeScalar s =>
      if forallb (λ g, Z.of_nat g <? s)%Z group_idx && (0 <=? s)%Z
      then Some (Z.to_nat s) else None
  | SizeSeq _ => None
  end.

(** [i] is the greatest (least) input position whose group index is [g]. *)
Definition last_pos (group_idx : list nat) (g i : nat) : Prop :=
  group_idx !! i = Some g ∧ ∀ j, i < j → group_idx !! j ≠ Some g.
Definition first_pos (group_idx : list nat) (g i : nat) : Prop :=
  group_idx !! i = Some g ∧ ∀ j, j < i → group_idx !! j ≠ Some g.

(** What [np.zeros] / [np.full] put in every slot for a fill value (lines
    54-57): the fill value, with [+0.0] for a zero of either sign. *)
Definition prefill (fill_value : float) : float :=
  if py_eq fill_value 0 then 0%float else fill_value.

(** The values of group [g] in input order, their number, and their sum
    accumulated from zero in input order. *)
Definition group_values {A : Type} (group_idx : list nat) (a : list A) (g : nat) : list A :=
  (filter (λ gx, gx.1 = g) (zip group_idx a)).*2.
Definition group_count (group_idx : list nat) (g : nat) : nat :=
  length (filter (λ x, x = g) group_idx).
Definition group_sum (group_idx : list nat) (a : list float) (g : nat) : float :=
  fold_left PrimFloat.add (group_values group_idx a g) 0%float.

(** The requested dtypes for which a numeric reduction returns float64:
    the default [None], and float64 itself. *)
Definition is_float_dtype (dtype : option dtype_t) : bool :=
  match dtype with
  | None | Some dt_float64 => true
  | Some _ => false
  end.

(** The pairs a nan- version keeps (lines 330-332). *)
Definition not_nan (a : list float) : list bool := (λ x, negb (np_isnan x)) <$> a.

(** What [_sum] computes for a scalar [x] in a group of [c] elements (lines
    43-45): the count, multiplied by [x] unless [x == 1]. *)
Definition scalar_sum (x : float) (c : nat) : float :=
  if py_ne x 1 then (float_of_nat c * x)%float else float_of_nat c.

(** A well-formed array holds as many elements as its shape says. *)
Definition wf_ndarray {A : Type} (arr : ndarray A) : Prop :=
  length (data arr) = foldr Nat.mul 1 (shape arr).

(** The two index errors of lines 286-292 (InvalidIndex and OutOfBounds in
    the taxonomy of the specification). *)
Definition InvalidIndex : exn := ValueError "Negative indices not supported.".
Definition OutOfBounds (size : Z) : exn :=
  ValueError ("One or more indices are too large for size " +:+ string_of_Z size +:+ ".").

Definition index_error (e : exn) : Prop := e = InvalidIndex ∨ ∃ size, e = OutOfBounds size.

(** A computation that raises neither index error. *)
Definition no_index_error {A : Type} (m : outcome A) : Prop :=
  ∀ e, m = Raise e → ¬ index_error e.

(** Two tests on messages: the text ends in "n.", and it has no "n". *)
Fixpoint ends_n_dot (s : string) : bool :=
  match s with
  | EmptyString => false
  | String c s' => (Ascii.eqb c "n"%char && String.eqb s' ".") || ends_n_dot s'
  end.

Fixpoint no_n (s : string) : bool :=
  match s with
  | EmptyString => true
  | String c s' => negb (Ascii.eqb c "n"%char) && no_n s'
  end.



(** The arithmetic of the variance formulas, at float64 (what the code
    computes) and at the exact rationals. *)
Class Arith (F : Type) : Type := mk_arith {
  f_zero : F;
  f_add : F → F → F;
  f_sub : F → F → F;
  f_mul : F → F → F;
  f_div : F → F → F;
  f_of_Z : Z → F
}.

#[global] Instance arith_float : Arith float :=
  mk_arith float 0%float PrimFloat.add PrimFloat.sub PrimFloat.mul PrimFloat.div float_of_Z.

#[global] Instance arith_exact : Arith Qcanon.Qc :=
  mk_arith Qcanon.Qc (Qcanon.Q2Qc (QArith_base.inject_Z 0)) Qcanon.Qcplus Qcanon.Qcminus Qcanon.Qcmult Qcanon.Qcdiv
    (λ z, Qcanon.Q2Qc (QArith_base.inject_Z z)).

(** The variance of the values [xs] of one group as [_var] computes it
    (lines 137-141): the mean first, then the squared deviations summed in
    input order, divided by the count. *)
Definition var_two_pass {F : Type} `{Arith F} (xs : list F) : F :=
  let c := f_of_Z (Z.of_nat (length xs)) in
  let mean := f_div (fold_left f_add xs f_zero) c in
  f_div (fold_left (λ s x, f_add s (f_mul (f_sub x mean) (f_sub x mean))) xs f_zero) c.

(** The variance of one group as the kernel of [aggregate_weave] computes
    it (lines 110-113 and 127-135): the sum and the sum of squares in one
    pass, the latter accumulated onto the initial content [start] of [ret]. *)
Definition var_one_pass {F : Type} `{Arith F} (start : F) (ddof : Z) (xs : list F) : F :=
  let c := Z.of_nat (length xs) in
  let sum := fold_left f_add xs f_zero in
  let sumsq := fold_left (λ r x, f_add r (f_mul x x)) xs start in
  f_div (f_sub sumsq (f_div (f_mul sum sum) (f_of_Z c))) (f_of_Z (c - ddof)).

(** The loop body of the var (and std) kernel ([c_iter['std']]). *)
Definition var_iter : aggregate_weave.citer :=
  λ s w x,
    aggregate_weave.set_ret (λ r, r + x * x)%float w
      (aggregate_weave.set_means (λ m, m + x)%float w
         (aggregate_weave.set_counter Z.succ w s)).

(** The reductions that have a nan- version: the names of [_impl_dict]
    outside [no_separate_nan_version]. *)
Definition nan_versions : list string :=
  filter (λ f, f ∉ no_separate_nan_version) (aggregate_numpy._impl_dict.*1).

(** One element of a dense result, a float64 or a bool array. *)
Inductive cell : Type :=
| CFloat (x : float)
| CBool (b : bool).

Definition dense_lookup (r : dense) (g : nat) : option cell :=
  match r with
  | DFloat xs => CFloat <$> xs !! g
  | DBool bs => CBool <$> bs !! g
  | DObject _ => None
  end.

(** What each dense reduction leaves in the slot of a group, from the fill
    value and the values [xs] of the group in input order. *)
Definition reduce_group : list (string * (float → list float → cell)) :=
  [("min", λ fill_value xs,
      CFloat (match xs with [] => fill_value | _ => fold_left np_minimum xs dmax end));
   ("max", λ fill_value xs,
      CFloat (match xs with [] => fill_value | _ => fold_left np_maximum xs dmin end));
   ("sum", λ fill_value xs,
      CFloat (match xs with
              | [] => if py_ne fill_value 0 then fill_value else 0%float
              | _ => fold_left PrimFloat.add xs 0%float
              end));
   ("prod", λ fill_value xs,
      CFloat (match xs with [] => fill_value | _ => fold_left PrimFloat.mul xs 1%float end));
   ("last", λ fill_value xs, CFloat (default (prefill fill_value) (last xs)));
   ("first", λ fill_value xs, CFloat (default (prefill fill_value) (head xs)));
   ("all", λ fill_value xs,
      CBool (match xs with [] => py_truth fill_value | _ => forallb py_truth xs end));
   ("any", λ fill_value xs,
      CBool (match xs with [] => py_truth fill_value | _ => existsb py_truth xs end));
   ("mean", λ fill_value xs,
      CFloat (match xs with
              | [] => if np_isnan fill_value then (0 / 0)%float else fill_value
              | _ => (fold_left PrimFloat.add xs 0 / float_of_nat (length xs))%float
              end));
   ("std", λ fill_value xs,
      CFloat (match xs with
              | [] => if np_isnan fill_value then PrimFloat.sqrt (0 / 0) else fill_value
              | _ => PrimFloat.sqrt (var_two_pass xs)
              end));
   ("var", λ fill_value xs,
      CFloat (match xs with
              | [] => if np_isnan fill_value then (0 / 0)%float else fill_value
              | _ => var_two_pass xs
              end));
   ("anynan", λ fill_value xs,
      CBool (match xs with [] => py_truth fill_value | _ => existsb np_isnan xs end));
   ("allnan", λ fill_value xs,
      CBool (match xs with [] => py_truth fill_value | _ => forallb np_isnan xs end))]%string.

Definition reduce_cell (f : string) (fill_value : float) (xs : list float) : option cell :=
  (λ F, F fill_value xs) <$> dict_get reduce_group f.

(** The calls with a dense result: a numeric reduction asked for float64 (or
    no dtype), a boolean reduction given a boolean fill value. *)
Definition numeric_funcs : list string :=
  ["sum"; "prod"; "min"; "max"; "first"; "last"; "mean"; "var"; "std"]%string.
Definition boolean_funcs : list string := ["all"; "any"; "allnan"; "anynan"]%string.

Definition dense_call (f : string) (fill_value : float) (dtype : option dtype_t) : bool :=
  bool_decide (f ∈ numeric_funcs) && is_float_dtype dtype
  || bool_decide (f ∈ boolean_funcs)
     && match check_boolean fill_value with Ok _ => true | _ => false end.

(** The loop body of a kernel seen from one slot: [iter] touches the slot
    [write_idx] of [ret] and of [counter] only, and [step] gives their new
    content from the old and from the value [a[i]]. *)
Definition slot_local (iter : aggregate_weave.citer) (step : float * Z → float → float * Z)
  : Prop :=
  ∀ s w x r c,
    aggregate_weave.ret s !! w = Some r → aggregate_weave.counter s !! w = Some c →
    aggregate_weave.ret (iter s w x) = <[w := (step (r, c) x).1]> (aggregate_weave.ret s)
    ∧ aggregate_weave.counter (iter s w x)
      = <[w := (step (r, c) x).2]> (aggregate_weave.counter s).

(** A finite double: neither NaN nor an infinity. *)
Definition is_finite (x : float) : bool := PrimFloat.leb dmin x && PrimFloat.leb x dmax.

(** The comparisons of the min and the max kernel ([c_iter['min']],
    [c_iter['max']]): the new value replaces the slot when it is strictly
    smaller (larger). *)
Definition c_min (r x : float) : float := if PrimFloat.ltb x r then x else r.
Definition c_max (r x : float) : float := if PrimFloat.ltb r x then x else r.

(** The positions at which a run of equal values ends and the next
    starts: [0 < i < L] with [group_idx[i-1] != group_idx[i]]. *)
Definition run_starts (group_idx : ndarray Z) : list nat :=
  filter (λ i, aggregate_weave.c_read group_idx (i - 1) ≠ aggregate_weave.c_read group_idx i)
    (seq 1 (aggregate_weave.c_size group_idx - 1)).

(** The values paired with the key [k], in input order: [group_values] for
    keys of any type. *)
Definition group_values_by {K A : Type} `{EqDecision K} (keys : list K) (a : list A) (k : K)
  : list A :=
  (filter (λ ka, ka.1 = k) (zip keys a)).*2.

(** The key tuple of every element of a multi-key call: column [j] of the
    2-d index array [rows] (what [np.ravel_multi_index] reads). *)
Definition columns {A : Type} (d : A) (m : nat) (rows : list (list A)) : list (list A) :=
  (λ j, (λ row, nth j row d) <$> rows) <$> seq 0 m.

(** Number of cells of an array of shape [dims]. *)
Definition cells (dims : list nat) : nat := foldr Nat.mul 1 dims.

(** The C-order position of a multi-index (first axis most significant). *)
Definition ravel_C (dims coords : list nat) : nat :=
  fold_left (λ acc cd, acc * cd.2 + cd.1) (zip coords dims) 0.

(** The flat position [np.ravel_multi_index] gives a multi-index. *)
Definition ravel (order : order_t) (dims coords : list nat) : nat :=
  match order with
  | OrderC => ravel_C dims coords
  | OrderF => aggregate_numpy.ravel_F dims coords
  end.

(** The element of a dense array after [reshape]: its elements are kept
    in C order. *)
Definition dense_reorder (order : order_t) (dims : list nat) (r : dense) : dense :=
  match r with
  | DFloat xs => DFloat (aggregate_numpy.reorder order dims xs)
  | DBool bs => DBool (aggregate_numpy.reorder order dims bs)
  | DObject arr =>
      DObject (ObjRagged (aggregate_numpy.reorder order dims
                            (aggregate_numpy.obj_ravel order arr)))
  end.


(** * Properties *)

Import aggregate_numpy.

(** ** Outcomes and index normalisation *)

Lemma fmap_to_nat_of_nat (l : list nat) : Z.to_nat <$> (Z.of_nat <$> l) = l.
Proof.
  induction l as [|x l IH]; [done|].
  rewrite !fmap_cons, Nat2Z.id. by f_equal.
Qed.

Lemma wrap64_small (z : Z) : (- 2 ^ 63 ≤ z < 2 ^ 63)%Z → wrap64 z = z.
Proof.
  intros Hz. unfold wrap64.
  rewrite Z.mod_small by lia. lia.
Qed.

Lemma fold_left_Zmax_of_nat (l : list nat) (x : nat) :
  fold_left Z.max (Z.of_nat <$> l) (Z.of_nat x) = Z.of_nat (x `max` max_list l).
Proof.
  revert x. induction l as [|y l IH]; intros x.
  - simpl. by rewrite Nat.max_0_r.
  - rewrite fmap_cons. cbn [fold_left max_list].
    rewrite <- Nat2Z.inj_max, IH. unfold id. f_equal. lia.
Qed.

Lemma np_max_of_nat (l : list nat) :
  l ≠ [] → np_max (Z.of_nat <$> l) = Ok (Z.of_nat (max_list l)).
Proof.
  destruct l as [|x l]; [done|]. intros _.
  rewrite fmap_cons. unfold np_max.
  by rewrite fold_left_Zmax_of_nat.
Qed.

Lemma existsb_negative_of_nat (l : list nat) :
  existsb (λ i, i <? 0)%Z (Z.of_nat <$> l) = false.
Proof.
  induction l as [|x l IH]; [done|].
  rewrite fmap_cons. cbn [existsb].
  rewrite IH, orb_false_r. apply Z.ltb_ge. lia.
Qed.

Lemma size_1d_bound (group_idx : list nat) (size : size_arg) (n : nat) :
  size_1d group_idx size = Some n → Forall (λ g, g < n) group_idx.
Proof.
  destruct size as [|s|ns]; simpl; [| |done].
  - destruct group_idx as [|g0 l]; [done|].
    case_match; [|done]. intros [= <-].
    apply Forall_forall. intros g Hg.
    apply max_list_elem_of_le in Hg. simpl in Hg. lia.
  - destruct (forallb _ _) eqn:Hall; simpl; [|done].
    destruct (0 <=? s)%Z eqn:Hs; [|done]. intros [= <-].
    apply Forall_forall. intros g Hg.
    rewrite forallb_forall in Hall.
    specialize (Hall g (proj1 (list_elem_of_In _ _) Hg)). lia.
Qed.

Lemma index_1d_valid (group_idx : list nat) (a : ndarray float) (size : size_arg) (n : nat) :
  size_1d group_idx size = Some n →
  ndim a = 0 ∨ len a = length group_idx →
  index_1d (idx_array group_idx) a size = Ok (Z.of_nat <$> group_idx, Z.of_nat n).
Proof.
  intros Hsize Ha. unfold index_1d, idx_array, array1, len. simpl.
  rewrite length_fmap.
  assert ((ndim a =? 0) || (hd 0 (shape a) =? length group_idx) = true) as ->.
  { destruct Ha as [-> | Ha]; [done|]. unfold len in Ha. rewrite Ha, Nat.eqb_refl.
    apply orb_true_r. }
  simpl. rewrite existsb_negative_of_nat.
  destruct size as [|s|ns]; simpl in *; [| |done].
  - destruct group_idx as [|g0 l] eqn:Hg; [done|]. rewrite <- Hg in *.
    case_match eqn:Hlt; [|done]. injection Hsize as <-.
    rewrite np_max_of_nat by (by rewrite Hg). simpl.
    rewrite wrap64_small by lia. do 3 f_equal. lia.
  - destruct (forallb _ _) eqn:Hall; simpl in Hsize; [|done].
    destruct (0 <=? s)%Z eqn:Hs; [|done]. injection Hsize as <-.
    assert (existsb (λ i, s - 1 <? i)%Z (Z.of_nat <$> group_idx) = false) as ->.
    { apply not_true_is_false. intros Hex. apply existsb_exists in Hex as (i & Hi & Hlt).
      apply list_elem_of_In, list_elem_of_fmap in Hi as (g & -> & Hg).
      rewrite forallb_forall in Hall.
      specialize (Hall g (proj1 (list_elem_of_In _ _) Hg)). lia. }
    simpl. do 3 f_equal. lia.
Qed.
(** ** Scatter assignment *)

Lemma broadcast_to_array1 {A : Type} (xs : list A) (k : nat) :
  length xs = k → broadcast_to (array1 xs) k = Ok xs.
Proof.
  intros <-. unfold broadcast_to, array1. simpl.
  destruct xs as [|x [|y xs]]; simpl; try done.
  by rewrite Nat.eqb_refl.
Qed.

Lemma broadcast_to_scalar0 {A : Type} (x : A) (k : nat) :
  broadcast_to (scalar0 x) k = Ok (replicate k x).
Proof. done. Qed.

Lemma existsb_out_of_bounds (n : nat) (idx : list nat) :
  Forall (λ g, g < n) idx → existsb (λ g, n <=? g) idx = false.
Proof.
  induction 1 as [|g idx Hg _ IH]; [done|].
  cbn [existsb]. rewrite IH, orb_false_r. apply Nat.leb_gt. lia.
Qed.

(** Forward scatter: the last write to a slot stays, an unwritten slot keeps
    its content. *)
Lemma scatter_lookup {A : Type} (idx : list nat) (vals : list A) (ret : list A) (g : nat) :
  length vals = length idx →
  g < length ret →
  let r := fold_left (λ r gx, <[gx.1 := gx.2]> r) (zip idx vals) ret in
  length r = length ret ∧
  (∀ i, last_pos idx g i → r !! g = vals !! i) ∧
  (g ∉ idx → r !! g = ret !! g).
Proof.
  revert vals ret. induction idx as [|g0 idx IH]; intros vals ret Hlen Hg; simpl.
  - split; [done|]. split; [|done]. intros i [Hi _]. by rewrite lookup_nil in Hi.
  - destruct vals as [|v0 vals]; [done|]. simpl in Hlen.
    destruct (IH vals (<[g0:=v0]> ret)) as (Hl & Hlast & Hun).
    { lia. } { by rewrite length_insert. }
    rewrite length_insert in Hl. cbn [zip zip_with fold_left fst snd].
    split; [done|]. split.
    + intros [|i] [Hi Hlater].
      * simpl in Hi. injection Hi as ->. simpl.
        rewrite Hun.
        { by apply list_lookup_insert_eq. }
        intros Hin. apply list_elem_of_lookup in Hin as [j Hj].
        by apply (Hlater (S j)); [lia|].
      * simpl. apply Hlast. split; [done|].
        intros j Hj. apply (Hlater (S j)). lia.
    + intros Hnotin. apply not_elem_of_cons in Hnotin as [Hne Hnotin].
      rewrite Hun by done. by apply list_lookup_insert_ne.
Qed.

Lemma last_pos_reverse (idx : list nat) (g i : nat) :
  first_pos idx g i → last_pos (reverse idx) g (length idx - S i).
Proof.
  intros [Hi Hbefore].
  assert (i < length idx) as Hlt by (by eapply lookup_lt_Some).
  split.
  - rewrite reverse_lookup by lia.
    replace (length idx - S (length idx - S i)) with i by lia. done.
  - intros j Hj Hidx.
    assert (j < length idx) as Hjlt.
    { apply lookup_lt_Some in Hidx. by rewrite length_reverse in Hidx. }
    rewrite reverse_lookup in Hidx by done.
    apply (Hbefore (length idx - S j)); [lia|done].
Qed.

Lemma setitem_array1 {A : Type} (ret : list A) (idx : list nat) (vals : list A) :
  length vals = length idx →
  Forall (λ g, g < length ret) idx →
  setitem ret idx (array1 vals)
  = Ok (fold_left (λ r gx, <[gx.1 := gx.2]> r) (zip idx vals) ret).
Proof.
  intros Hlen Hidx. unfold setitem.
  rewrite existsb_out_of_bounds by done.
  by rewrite broadcast_to_array1.
Qed.

Lemma broadcast_to_data {A : Type} (a : ndarray A) (k : nat) :
  length (data a) = k → broadcast_to a k = Ok (data a).
Proof.
  intros <-. unfold broadcast_to.
  destruct (data a) as [|x [|y xs]]; simpl; try done.
  by rewrite Nat.eqb_refl.
Qed.

Lemma setitem_data {A : Type} (ret : list A) (idx : list nat) (a : ndarray A) :
  length (data a) = length idx →
  Forall (λ g, g < length ret) idx →
  setitem ret idx a = Ok (fold_left (λ r gx, <[gx.1 := gx.2]> r) (zip idx (data a)) ret).
Proof.
  intros Hlen Hidx. unfold setitem.
  rewrite existsb_out_of_bounds by done.
  by rewrite broadcast_to_data.
Qed.

Lemma np_full_of_nat {A : Type} (n : nat) (x : A) : np_full (Z.of_nat n) x = Ok (replicate n x).
Proof.
  unfold np_full. destruct (Z.ltb_spec (Z.of_nat n) 0); [lia|].
  by rewrite Nat2Z.id.
Qed.

Lemma prefill_full (n : nat) (fill_value : float) :
  (if py_eq fill_value 0 then np_full (Z.of_nat n) 0%float else np_full (Z.of_nat n) fill_value)
  = Ok (replicate n (prefill fill_value)).
Proof. unfold prefill. rewrite !np_full_of_nat. by destruct (py_eq fill_value 0). Qed.

(** ** The orchestrator on a valid 1-d call *)

Lemma aggregate_1d_valid (group_idx : list nat) (a : ndarray float) (func : func_arg)
    (size : size_arg) (n : nat) (fill_value : float) (order : order_t)
    (dtype : option dtype_t) (impl : list (string * reduction)) :
  size_1d group_idx size = Some n →
  ndim a = 0 ∨ ndim a = 1 ∧ len a = length group_idx →
  aggregate (idx_array group_idx) a func size fill_value order dtype impl
  = (ret ← dispatch func group_idx a (Z.of_nat n) fill_value dtype impl;
     mret (mk_result (dense_shape ret) ret)).
Proof.
  intros Hsize Ha. unfold aggregate.
  assert ((1 <? ndim a) = false) as ->.
  { apply Nat.ltb_ge. destruct Ha as [-> | [-> _]]; lia. }
  change (ndim (idx_array group_idx)) with 1. cbn [Nat.eqb orb negb].
  rewrite (index_1d_valid _ _ _ n) by (done || tauto).
  cbn [mbind outcome_bind]. by rewrite fmap_to_nat_of_nat.
Qed.

Lemma minimum_dtype_float (fill_value : float) (a : ndarray float) (dtype : option dtype_t) :
  is_float_dtype dtype = true →
  minimum_dtype fill_value (default (a_dtype a) dtype) = Ok dt_float64.
Proof. by destruct dtype as [[]|]. Qed.

Lemma _last_valid (group_idx : list nat) (a : list float) (n : nat) (fill_value : float)
    (dtype : option dtype_t) :
  length a = length group_idx →
  Forall (λ g, g < n) group_idx →
  is_float_dtype dtype = true →
  _last group_idx (array1 a) (Z.of_nat n) fill_value dtype
  = Ok (DFloat (fold_left (λ r gx, <[gx.1 := gx.2]> r) (zip group_idx a)
                  (replicate n (prefill fill_value)))).
Proof.
  intros Hlen Hidx Hdt. unfold _last.
  rewrite minimum_dtype_float by done. cbn [mbind outcome_bind].
  rewrite prefill_full. cbn [mbind outcome_bind].
  rewrite setitem_data; [done|done|by rewrite length_replicate].
Qed.

Lemma _first_valid (group_idx : list nat) (a : list float) (n : nat) (fill_value : float)
    (dtype : option dtype_t) :
  length a = length group_idx →
  Forall (λ g, g < n) group_idx →
  is_float_dtype dtype = true →
  _first group_idx (array1 a) (Z.of_nat n) fill_value dtype
  = Ok (DFloat (fold_left (λ r gx, <[gx.1 := gx.2]> r) (zip (reverse group_idx) (reverse a))
                  (replicate n (prefill fill_value)))).
Proof.
  intros Hlen Hidx Hdt. unfold _first.
  rewrite minimum_dtype_float by done. cbn [mbind outcome_bind].
  rewrite prefill_full. cbn [mbind outcome_bind].
  change (ndim (array1 a) =? 0) with false. cbn [mbind outcome_bind mret outcome_ret].
  rewrite setitem_data; [done| |].
  - cbn [data array1]. by rewrite !length_reverse.
  - rewrite length_replicate. by apply Forall_reverse.
Qed.

(** ** Scenario 1: sum *)

(** C1. For [group_idx=[1,0,1,4,1]], [values=[12.0,3.2,-15,88,12.9]],
    [func="sum"] and no [size], the size is inferred as
    [max(group_idx)+1 = 5] and the result is exactly
    [[3.2, 9.9, 0, 0, 88]] in float64: every slot holds the sum of the
    values of its group, and the empty groups 2 and 3 hold the default
    [fill_value] 0. *)
Theorem C1_sum_scenario :
  index_1d (array1 [1; 0; 1; 4; 1]%Z) (array1 [12.0; 3.2; -15; 88; 12.9]%float) SizeNone
  = Ok ([1; 0; 1; 4; 1]%Z, 5%Z)
  ∧ aggregate (array1 [1; 0; 1; 4; 1]%Z) (array1 [12.0; 3.2; -15; 88; 12.9]%float)
      (FuncName "sum") SizeNone 0%float OrderF None _impl_dict
    = Ok (mk_result [5] (DFloat [3.2; 9.9; 0; 0; 88]%float)).
Proof. split; vm_compute; reflexivity. Qed.

Lemma scatter_length {A : Type} (idx : list nat) (vals ret : list A) :
  length (fold_left (λ r gx, <[gx.1 := gx.2]> r) (zip idx vals) ret) = length ret.
Proof.
  revert vals ret. induction idx as [|g idx IH]; intros [|v vals] ret; try done.
  cbn [zip zip_with fold_left]. by rewrite IH, length_insert.
Qed.

(** ** first and last *)

(** C2. On a valid 1-d call, [func="last"] leaves in every non-empty group
    [g] the value paired with the greatest input position whose group index
    is [g], [func="first"] the value paired with the least such position,
    and every group without elements holds the pre-filled fill value. *)
Theorem C2_first_last (group_idx : list nat) (a : list float) (size : size_arg) (n : nat)
    (fill_value : float) (order : order_t) (dtype : option dtype_t) :
  length a = length group_idx →
  size_1d group_idx size = Some n →
  is_float_dtype dtype = true →
  ∃ last first : list float,
    aggregate (idx_array group_idx) (array1 a) (FuncName "last") size fill_value order dtype
      _impl_dict = Ok (mk_result [n] (DFloat last))
    ∧ aggregate (idx_array group_idx) (array1 a) (FuncName "first") size fill_value order dtype
        _impl_dict = Ok (mk_result [n] (DFloat first))
    ∧ length last = n ∧ length first = n
    ∧ ∀ g, g < n →
        (∀ i, last_pos group_idx g i → last !! g = a !! i)
        ∧ (∀ i, first_pos group_idx g i → first !! g = a !! i)
        ∧ (g ∉ group_idx →
           last !! g = Some (prefill fill_value) ∧ first !! g = Some (prefill fill_value)).
Proof.
  intros Hlen Hsize Hdt.
  pose proof (size_1d_bound _ _ _ Hsize) as Hidx.
  set (init := replicate n (prefill fill_value)).
  exists (fold_left (λ r gx, <[gx.1 := gx.2]> r) (zip group_idx a) init),
         (fold_left (λ r gx, <[gx.1 := gx.2]> r) (zip (reverse group_idx) (reverse a)) init).
  assert (length init = n) as Hinit by apply length_replicate.
  assert (length (reverse a) = length (reverse group_idx)) as Hrev
    by (by rewrite !length_reverse).
  split; [|split]; [| |split; [|split]].
  - rewrite (aggregate_1d_valid _ _ _ _ n); [|done|right; by rewrite <- Hlen].
    change (dispatch (FuncName "last") ?g ?x ?k ?fv ?dt _impl_dict) with (_last g x k fv dt).
    rewrite _last_valid by done. cbn [mbind outcome_bind mret outcome_ret dense_length dense_shape].
    by rewrite scatter_length, length_replicate.
  - rewrite (aggregate_1d_valid _ _ _ _ n); [|done|right; by rewrite <- Hlen].
    change (dispatch (FuncName "first") ?g ?x ?k ?fv ?dt _impl_dict) with (_first g x k fv dt).
    rewrite _first_valid by done. cbn [mbind outcome_bind mret outcome_ret dense_length dense_shape].
    by rewrite scatter_length, length_replicate.
  - by rewrite scatter_length.
  - by rewrite scatter_length.
  - intros g Hg.
    destruct (scatter_lookup group_idx a init g Hlen) as (_ & Hlast & Hun);
      [by rewrite Hinit|].
    destruct (scatter_lookup (reverse group_idx) (reverse a) init g Hrev)
      as (_ & Hfirst & Hun'); [by rewrite Hinit|].
    split; [done|]. split.
    + intros i Hi. pose proof Hi as [Hi' _].
      apply lookup_lt_Some in Hi'.
      rewrite (Hfirst _ (last_pos_reverse _ _ _ Hi)).
      rewrite reverse_lookup by lia. f_equal. lia.
    + intros Hnotin. rewrite Hun by done.
      rewrite Hun' by (by rewrite elem_of_reverse).
      unfold init. by rewrite lookup_replicate_2.
Qed.

Lemma C2_first_last_witness :
  ∃ last first : list float,
    aggregate (idx_array [1; 0; 1; 3]) (array1 [5; 6; 7; 8]%float) (FuncName "last") SizeNone
      0%float OrderF None _impl_dict = Ok (mk_result [4] (DFloat last))
    ∧ aggregate (idx_array [1; 0; 1; 3]) (array1 [5; 6; 7; 8]%float) (FuncName "first") SizeNone
        0%float OrderF None _impl_dict = Ok (mk_result [4] (DFloat first))
    ∧ length last = 4 ∧ length first = 4
    ∧ ∀ g, g < 4 →
        (∀ i, last_pos [1; 0; 1; 3] g i → last !! g = [5; 6; 7; 8]%float !! i)
        ∧ (∀ i, first_pos [1; 0; 1; 3] g i → first !! g = [5; 6; 7; 8]%float !! i)
        ∧ (g ∉ [1; 0; 1; 3] →
           last !! g = Some (prefill 0) ∧ first !! g = Some (prefill 0)).
Proof.
  apply (C2_first_last [1; 0; 1; 3] [5; 6; 7; 8]%float SizeNone 4 0%float OrderF None);
    reflexivity.
Defined.

(** ** Bin counts *)

Lemma group_values_cons {A : Type} (g0 g : nat) (idx : list nat) (x : A) (a : list A) :
  group_values (g0 :: idx) (x :: a) g
  = if decide (g0 = g) then x :: group_values idx a g else group_values idx a g.
Proof.
  unfold group_values. cbn [zip zip_with]. rewrite filter_cons. cbn [fst].
  by destruct (decide (g0 = g)).
Qed.

Lemma group_count_cons (g0 g : nat) (idx : list nat) :
  group_count (g0 :: idx) g
  = if decide (g0 = g) then S (group_count idx g) else group_count idx g.
Proof.
  unfold group_count. rewrite filter_cons.
  by destruct (decide (g0 = g)).
Qed.

Lemma group_count_0 (idx : list nat) (g : nat) : group_count idx g = 0 ↔ g ∉ idx.
Proof.
  induction idx as [|g0 idx IH]; [split; [intros _; apply not_elem_of_nil|done]|].
  rewrite group_count_cons, not_elem_of_cons.
  destruct (decide (g0 = g)) as [->|Hne]; [|rewrite IH]; split; try tauto; try done.
Qed.

Lemma group_values_length {A : Type} (idx : list nat) (a : list A) (g : nat) :
  length a = length idx → length (group_values idx a g) = group_count idx g.
Proof.
  revert a. induction idx as [|g0 idx IH]; intros [|x a] Hlen; try done.
  rewrite group_values_cons, group_count_cons.
  destruct (decide (g0 = g)); simpl; rewrite IH; auto.
Qed.

Lemma alter_fold_length {A B : Type} (f : B → A → A) (key : B → nat) (l : list B)
    (init : list A) :
  length (fold_left (λ ans b, alter (f b) (key b) ans) l init) = length init.
Proof.
  revert init. induction l as [|b l IH]; intros init; [done|].
  cbn [fold_left]. by rewrite IH, length_alter.
Qed.

(** An accumulating scatter leaves in slot [g] the fold of the values of
    group [g], in input order, onto the initial content. *)
Lemma alter_fold_lookup {A B : Type} (op : A → B → A) (idx : list nat) (ws : list B)
    (init : list A) (g : nat) :
  fold_left (λ ans gw, alter (λ s, op s gw.2) gw.1 ans) (zip idx ws) init !! g
  = (λ x, fold_left op (group_values idx ws g) x) <$> init !! g.
Proof.
  revert ws init. induction idx as [|g0 idx IH]; intros ws init.
  - simpl. by destruct (init !! g).
  - destruct ws as [|w ws].
    + simpl. by destruct (init !! g).
    + cbn [zip zip_with fold_left fst snd]. rewrite IH, group_values_cons.
      destruct (decide (g0 = g)) as [->|Hne].
      * rewrite list_lookup_alter_eq. by destruct (init !! g).
      * by rewrite list_lookup_alter_ne.
Qed.

Lemma count_fold_lookup (idx : list nat) (init : list nat) (g : nat) :
  fold_left (λ ans g, alter S g ans) idx init !! g
  = (λ c, c + group_count idx g) <$> init !! g.
Proof.
  revert init. induction idx as [|g0 idx IH]; intros init.
  - change (group_count [] g) with 0. simpl.
    destruct (init !! g); simpl; f_equal; lia.
  - cbn [fold_left]. rewrite IH, group_count_cons.
    destruct (decide (g0 = g)) as [->|Hne].
    + rewrite list_lookup_alter_eq. destruct (init !! g); simpl; f_equal; lia.
    + by rewrite list_lookup_alter_ne.
Qed.

Lemma bincount_size_valid (idx : list nat) (n : nat) :
  Forall (λ g, g < n) idx → bincount_size idx (Z.of_nat n) = n.
Proof.
  intros Hidx. unfold bincount_size. rewrite Nat2Z.id.
  destruct idx as [|g0 idx]; [done|].
  assert (max_list (g0 :: idx) < n); [|lia].
  rewrite Forall_forall in Hidx. by apply Hidx, max_list_elem_of.
Qed.

Lemma bincount_valid (idx : list nat) (n : nat) :
  Forall (λ g, g < n) idx →
  ∃ counts, bincount idx (Z.of_nat n) = Ok counts ∧ length counts = n
    ∧ ∀ g, g < n → counts !! g = Some (group_count idx g).
Proof.
  intros Hidx. unfold bincount.
  destruct (Z.ltb_spec (Z.of_nat n) 0); [lia|].
  rewrite bincount_size_valid by done.
  eexists. split; [done|]. split.
  - by rewrite (alter_fold_length (λ _, S) id), length_replicate.
  - intros g Hg. by rewrite count_fold_lookup, lookup_replicate_2.
Qed.

Lemma bincount_w_valid (idx : list nat) (w : list float) (n : nat) :
  length w = length idx →
  Forall (λ g, g < n) idx →
  ∃ sums, bincount_w idx w (Z.of_nat n) = Ok sums ∧ length sums = n
    ∧ ∀ g, g < n → sums !! g = Some (group_sum idx w g).
Proof.
  intros Hlen Hidx. unfold bincount_w.
  destruct (Z.ltb_spec (Z.of_nat n) 0); [lia|].
  rewrite Hlen, Nat.eqb_refl. cbn [negb].
  rewrite bincount_size_valid by done.
  eexists. split; [done|]. split.
  - by rewrite (alter_fold_length (λ gw s, (s + gw.2)%float) fst), length_replicate.
  - intros g Hg.
    by rewrite (alter_fold_lookup PrimFloat.add), lookup_replicate_2.
Qed.

Lemma mask_assign_lookup {A : Type} (mask : list bool) (ret : list A) (v : A) (i : nat) :
  mask_assign mask ret v !! i
  = (λ x, if default false (mask !! i) then v else x) <$> ret !! i.
Proof. unfold mask_assign. by rewrite list_lookup_imap. Qed.

Lemma mask_assign_length {A : Type} (mask : list bool) (ret : list A) (v : A) :
  length (mask_assign mask ret v) = length ret.
Proof. unfold mask_assign. by rewrite length_imap. Qed.

Lemma divide_counts_lookup (sums : list float) (counts : list nat) (g : nat) (s : float)
    (c : nat) :
  sums !! g = Some s → counts !! g = Some c →
  divide_counts sums counts !! g = Some (s / float_of_nat c)%float.
Proof.
  intros Hs Hc. unfold divide_counts. by rewrite lookup_zip_with, Hs, Hc.
Qed.

Lemma divide_counts_length (sums : list float) (counts : list nat) :
  length sums = length counts → length (divide_counts sums counts) = length sums.
Proof. intros Hlen. unfold divide_counts. rewrite length_zip_with. lia. Qed.

(** ** mean *)

Lemma float_or_float (dtype : option dtype_t) :
  is_float_dtype dtype = true → float_or dtype = Ok dt_float64.
Proof. by destruct dtype as [[]|]. Qed.

(** C3. On a valid 1-d call [func="mean"] returns a float64 array in which
    a non-empty group holds the weighted-bincount sum of its values divided
    by its element count; an empty group holds [fill_value], except that
    for a NaN [fill_value] nothing is overridden and the group holds the
    NaN of the division 0/0. *)
Theorem C3_mean (group_idx : list nat) (a : list float) (size : size_arg) (n : nat)
    (fill_value : float) (order : order_t) (dtype : option dtype_t) :
  length a = length group_idx →
  size_1d group_idx size = Some n →
  is_float_dtype dtype = true →
  ∃ ret : list float,
    aggregate (idx_array group_idx) (array1 a) (FuncName "mean") size fill_value order dtype
      _impl_dict = Ok (mk_result [n] (DFloat ret))
    ∧ dense_dtype (DFloat ret) = dt_float64
    ∧ length ret = n
    ∧ ∀ g, g < n →
        (group_count group_idx g ≠ 0 →
         ret !! g = Some (group_sum group_idx a g / float_of_nat (group_count group_idx g))%float)
        ∧ (group_count group_idx g = 0 → np_isnan fill_value = false →
           ret !! g = Some fill_value)
        ∧ (group_count group_idx g = 0 → np_isnan fill_value = true →
           ret !! g = Some (0 / 0)%float ∧ np_isnan (0 / 0) = true).
Proof.
  intros Hlen Hsize Hdt.
  pose proof (size_1d_bound _ _ _ Hsize) as Hidx.
  destruct (bincount_valid group_idx n Hidx) as (counts & Hcounts & Hclen & Hc).
  destruct (bincount_w_valid group_idx a n Hlen Hidx) as (sums & Hsums & Hslen & Hs).
  assert (length (divide_counts sums counts) = n) as Hdlen
    by (rewrite divide_counts_length; congruence).
  rewrite (aggregate_1d_valid _ _ _ _ n); [|done|right; by rewrite <- Hlen].
  change (dispatch (FuncName "mean") ?g ?x ?k ?fv ?dt _impl_dict) with (_mean g x k fv dt).
  unfold _mean. change (ndim (array1 a) =? 0) with false. cbn iota.
  rewrite float_or_float by done. cbn [mbind outcome_bind].
  rewrite Hcounts. cbn [mbind outcome_bind data array1].
  rewrite Hsums. cbn [mbind outcome_bind mret outcome_ret].
  eexists. split; [|split; [done|split]].
  - do 2 f_equal. cbn [dense_length dense_shape].
    destruct (np_isnan fill_value); cbn [negb]; by rewrite ?mask_assign_length, Hdlen.
  - destruct (np_isnan fill_value); cbn [negb]; by rewrite ?mask_assign_length, Hdlen.
  - intros g Hg.
    pose proof (divide_counts_lookup _ _ _ _ _ (Hs g Hg) (Hc g Hg)) as Hq.
    split; [|split].
    + intros Hne. destruct (np_isnan fill_value); cbn [negb]; [done|].
      rewrite mask_assign_lookup, Hq, list_lookup_fmap, (Hc g Hg). simpl.
      by destruct (group_count group_idx g).
    + intros H0 ->. cbn [negb].
      rewrite mask_assign_lookup, Hq, list_lookup_fmap, (Hc g Hg), H0. done.
    + intros H0 ->. cbn [negb]. split; [|done].
      rewrite Hq, H0. unfold group_sum.
      rewrite <- (group_values_length _ a) in H0 by done.
      by destruct (group_values group_idx a g).
Qed.

Lemma C3_mean_witness :
  ∃ ret : list float,
    aggregate (idx_array [0; 0; 2; 2]) (array1 [1; 2; 3; 4]%float) (FuncName "mean") SizeNone
      nan OrderF None _impl_dict = Ok (mk_result [3] (DFloat ret))
    ∧ dense_dtype (DFloat ret) = dt_float64
    ∧ length ret = 3
    ∧ ∀ g, g < 3 →
        (group_count [0; 0; 2; 2] g ≠ 0 →
         ret !! g = Some (PrimFloat.div (group_sum [0; 0; 2; 2] [1; 2; 3; 4]%float g)
                            (float_of_nat (group_count [0; 0; 2; 2] g))))
        ∧ (group_count [0; 0; 2; 2] g = 0 → np_isnan nan = false → ret !! g = Some nan)
        ∧ (group_count [0; 0; 2; 2] g = 0 → np_isnan nan = true →
           ret !! g = Some (0 / 0)%float ∧ np_isnan (0 / 0) = true).
Proof.
  apply (C3_mean [0; 0; 2; 2] [1; 2; 3; 4]%float SizeNone 3 nan OrderF None); reflexivity.
Defined.

(** ** NaN-aware variants *)

Lemma nan_versions_eq :
  nan_versions = ["min"; "max"; "sum"; "prod"; "mean"; "std"; "var"]%string.
Proof. vm_compute. reflexivity. Qed.

Lemma mask_select_length {A B : Type} (mask : list bool) (l : list A) (k : list B) :
  length l = length k → length (mask_select mask l) = length (mask_select mask k).
Proof.
  revert l k. induction mask as [|m mask IH]; intros [|x l] [|y k] Hlen; try done.
  simpl. destruct m; simpl; auto.
Qed.

Lemma mask_select_Forall {A : Type} (P : A → Prop) (mask : list bool) (l : list A) :
  Forall P l → Forall P (mask_select mask l).
Proof.
  intros Hl. revert mask. induction Hl as [|x l Hx _ IH]; intros [|m mask]; simpl; try done.
  destruct m; auto.
Qed.




(** ** Scalar values *)

Lemma aggregate_1d_unfold (group_idx : list Z) (a : ndarray float) (func : func_arg)
    (size : size_arg) (fill_value : float) (order : order_t) (dtype : option dtype_t)
    (impl : list (string * reduction)) :
  ndim a ≤ 1 →
  aggregate (array1 group_idx) a func size fill_value order dtype impl
  = (gs ← index_1d (array1 group_idx) a size;
     ret ← dispatch func (Z.to_nat <$> group_idx) a gs.2 fill_value dtype impl;
     mret (mk_result (dense_shape ret) ret)).
Proof.
  intros Ha. unfold aggregate.
  assert ((1 <? ndim a) = false) as -> by (apply Nat.ltb_ge; lia).
  change (ndim (array1 group_idx)) with 1. cbn [Nat.eqb orb negb].
  unfold index_1d. cbn [data array1].
  repeat case_match; try done; cbn [mbind outcome_bind mret outcome_ret snd]; try done.
  destruct (np_max group_idx); done.
Qed.

Lemma index_1d_scalar (group_idx : list Z) (x : float) (size : size_arg) :
  index_1d (array1 group_idx) (scalar0 x) size
  = index_1d (array1 group_idx) (array1 (replicate (length group_idx) x)) size.
Proof.
  unfold index_1d, len. cbn [ndim shape scalar0 array1 length hd Nat.eqb orb negb].
  by rewrite length_replicate, Nat.eqb_refl.
Qed.

Lemma setitem_scalar {A : Type} (ret : list A) (idx : list nat) (x : A) :
  setitem ret idx (scalar0 x) = setitem ret idx (array1 (replicate (length idx) x)).
Proof.
  unfold setitem. rewrite broadcast_to_scalar0, broadcast_to_array1; [done|].
  apply length_replicate.
Qed.

Lemma ufunc_at_scalar {A : Type} (op : A → A → A) (ret : list A) (idx : list nat) (x : A) :
  ufunc_at op ret idx (scalar0 x) = ufunc_at op ret idx (array1 (replicate (length idx) x)).
Proof.
  unfold ufunc_at. rewrite broadcast_to_scalar0, broadcast_to_array1; [done|].
  apply length_replicate.
Qed.

Lemma fill_untouched_lookup {A : Type} (idx : list nat) (ret : list A) (v : A) (g : nat) :
  fill_untouched idx ret v !! g = (λ x, if bool_decide (g ∈ idx) then x else v) <$> ret !! g.
Proof. unfold fill_untouched. by rewrite list_lookup_imap. Qed.

Lemma fill_untouched_length {A : Type} (idx : list nat) (ret : list A) (v : A) :
  length (fill_untouched idx ret v) = length ret.
Proof. unfold fill_untouched. by rewrite length_imap. Qed.

(** Both sides of a goal run the same first computation. *)
Ltac same_step :=
  lazymatch goal with
  | |- mbind _ ?m = mbind _ ?m =>
      destruct m; cbn [mbind outcome_bind]; [|reflexivity|reflexivity]
  end.

(** The claim that every reduction broadcasts a scalar fails: [mean]
    rejects one, and [sum] multiplies the group count by it, which in
    float64 is not the sum of that many copies. *)
Lemma C5_counterexample :
  (aggregate (array1 [0; 0]%Z) (scalar0 2%float) (FuncName "mean") SizeNone 0%float OrderF
     None _impl_dict
   = Raise (ValueError "cannot take mean with scalar a")
   ∧ aggregate (array1 [0; 0]%Z) (array1 (replicate 2 2%float)) (FuncName "mean") SizeNone
       0%float OrderF None _impl_dict
     = Ok (mk_result [1] (DFloat [2%float])))
  ∧ (aggregate (array1 (replicate 10 0%Z)) (scalar0 0.1%float) (FuncName "sum") SizeNone
       0%float OrderF None _impl_dict
     = Ok (mk_result [1] (DFloat [1%float]))
     ∧ aggregate (array1 (replicate 10 0%Z)) (array1 (replicate 10 0.1%float))
         (FuncName "sum") SizeNone 0%float OrderF None _impl_dict
       = Ok (mk_result [1] (DFloat [0.99999999999999989%float])))
  ∧ aggregate (array1 [0; 0]%Z) (scalar0 2%float) (FuncName "mean") SizeNone 0%float OrderF
      None _impl_dict
    ≠ aggregate (array1 [0; 0]%Z) (array1 (replicate 2 2%float)) (FuncName "mean") SizeNone
        0%float OrderF None _impl_dict.
Proof. repeat split; try (vm_compute; reflexivity). vm_compute. discriminate. Qed.

(** C5, amended. A scalar [values] argument is accepted by sum, prod, min,
    max and last. For prod, min, max and last the result is that of a
    sequence of the length of [group_idx] in which every element equals the
    scalar; for sum every group holds its element count times the scalar
    (the count itself for the scalar 1), an empty group holding a non-zero
    [fill_value]. mean, var and std reject a scalar with an error. *)
Theorem C5_scalar_values :
  (∀ (f : string) (group_idx : list Z) (x : float) (size : size_arg) (fill_value : float)
      (order : order_t) (dtype : option dtype_t),
      f ∈ ["prod"; "min"; "max"; "last"]%string →
      aggregate (array1 group_idx) (scalar0 x) (FuncName f) size fill_value order dtype
        _impl_dict
      = aggregate (array1 group_idx) (array1 (replicate (length group_idx) x)) (FuncName f)
          size fill_value order dtype _impl_dict)
  ∧ (∀ (group_idx : list nat) (x : float) (size : size_arg) (n : nat) (fill_value : float)
       (order : order_t) (dtype : option dtype_t),
       size_1d group_idx size = Some n →
       is_float_dtype dtype = true →
       ∃ ret : list float,
         aggregate (idx_array group_idx) (scalar0 x) (FuncName "sum") size fill_value order
           dtype _impl_dict = Ok (mk_result [n] (DFloat ret))
         ∧ length ret = n
         ∧ ∀ g, g < n →
             ret !! g = Some (if py_ne fill_value 0 && bool_decide (group_count group_idx g = 0)
                              then fill_value
                              else scalar_sum x (group_count group_idx g)))
  ∧ (∀ (f : string) (group_idx : list nat) (x : float) (size : size_arg) (n : nat)
       (fill_value : float) (order : order_t) (dtype : option dtype_t),
       f ∈ ["mean"; "var"; "std"]%string →
       size_1d group_idx size = Some n →
       aggregate (idx_array group_idx) (scalar0 x) (FuncName f) size fill_value order dtype
         _impl_dict
       = Raise (ValueError (if String.eqb f "mean" then "cannot take mean with scalar a"
                            else "cannot take variance with scalar a"))).
Proof.
  split; [|split].
  - intros f group_idx x size fill_value order dtype Hf.
    rewrite !aggregate_1d_unfold by (cbn; lia).
    rewrite <- index_1d_scalar.
    destruct (index_1d _ _ _) as [[gi n]| |]; [|done|done].
    cbn [mbind outcome_bind snd]. f_equal.
    assert (length group_idx = length (Z.to_nat <$> group_idx)) as ->
      by (by rewrite length_fmap).
    generalize (Z.to_nat <$> group_idx). intros idx.
    repeat (apply elem_of_cons in Hf as [-> | Hf]); [| | | |by apply elem_of_nil in Hf].
    + change (dispatch (FuncName "prod") ?g ?y ?k ?fv ?dt _impl_dict) with (_prod g y k fv dt).
      unfold _prod. unfold a_dtype. repeat same_step. by rewrite ufunc_at_scalar.
    + change (dispatch (FuncName "min") ?g ?y ?k ?fv ?dt _impl_dict) with (_min g y k fv dt).
      unfold _min. unfold a_dtype. repeat same_step. by rewrite ufunc_at_scalar.
    + change (dispatch (FuncName "max") ?g ?y ?k ?fv ?dt _impl_dict) with (_max g y k fv dt).
      unfold _max. unfold a_dtype. repeat same_step. by rewrite ufunc_at_scalar.
    + change (dispatch (FuncName "last") ?g ?y ?k ?fv ?dt _impl_dict) with (_last g y k fv dt).
      unfold _last. unfold a_dtype. repeat same_step. by rewrite setitem_scalar.
  - intros group_idx x size n fill_value order dtype Hsize Hdt.
    pose proof (size_1d_bound _ _ _ Hsize) as Hidx.
    destruct (bincount_valid group_idx n Hidx) as (counts & Hcounts & Hclen & Hc).
    rewrite (aggregate_1d_valid _ _ _ _ n); [|done|by left].
    change (dispatch (FuncName "sum") ?g ?y ?k ?fv ?dt _impl_dict) with (_sum g y k fv dt).
    unfold _sum. rewrite minimum_dtype_float by done.
    change (ndim (scalar0 x) =? 0) with true. change (item (scalar0 x)) with x.
    cbn [mbind outcome_bind]. rewrite Hcounts. cbn [mbind outcome_bind mret outcome_ret].
    set (ret := if py_ne x 1 then _ else _).
    assert (length ret = n) as Hrlen.
    { unfold ret. destruct (py_ne x 1); by rewrite ?length_fmap. }
    assert (∀ g, g < n → ret !! g = Some (scalar_sum x (group_count group_idx g))) as Hret.
    { intros g Hg. unfold ret, scalar_sum.
      destruct (py_ne x 1); rewrite ?list_lookup_fmap, (Hc g Hg); done. }
    eexists. split; [|split].
    + do 2 f_equal. cbn [dense_length dense_shape].
      destruct (py_ne fill_value 0); by rewrite ?fill_untouched_length, Hrlen.
    + destruct (py_ne fill_value 0); by rewrite ?fill_untouched_length, Hrlen.
    + intros g Hg. destruct (py_ne fill_value 0); cbn [andb]; [|by apply Hret].
      rewrite fill_untouched_lookup, (Hret g Hg). cbn [fmap option_fmap option_map].
      f_equal. pose proof (group_count_0 group_idx g) as H0.
      destruct (bool_decide_reflect (g ∈ group_idx)), (bool_decide_reflect (group_count group_idx g = 0));
        tauto.
  - intros f group_idx x size n fill_value order dtype Hf Hsize.
    rewrite (aggregate_1d_valid _ _ _ _ n); [|done|by left].
    repeat (apply elem_of_cons in Hf as [-> | Hf]); [done|done|done|by apply elem_of_nil in Hf].
Qed.

Lemma C5_scalar_values_witness :
  ∃ ret : list float,
    aggregate (idx_array [0; 2; 2]) (scalar0 0.5%float) (FuncName "sum") SizeNone 7%float OrderF
      None _impl_dict = Ok (mk_result [3] (DFloat ret))
    ∧ length ret = 3
    ∧ ∀ g, g < 3 →
        ret !! g = Some (if py_ne 7 0 && bool_decide (group_count [0; 2; 2] g = 0)
                         then 7%float
                         else scalar_sum 0.5 (group_count [0; 2; 2] g)).
Proof.
  apply (proj1 (proj2 C5_scalar_values) [0; 2; 2] 0.5%float SizeNone 3 7%float OrderF None);
    reflexivity.
Defined.

(** ** Index errors *)

Lemma existsb_negative (l : list Z) :
  existsb (λ i, i <? 0)%Z l = true ↔ ∃ i, i ∈ l ∧ (i < 0)%Z.
Proof.
  rewrite existsb_exists. split; intros (i & Hi & Hneg); exists i.
  - split; [by apply list_elem_of_In|lia].
  - split; [by apply list_elem_of_In|]. by apply Z.ltb_lt.
Qed.

Lemma existsb_too_large (s : Z) (l : list Z) :
  existsb (λ i, s - 1 <? i)%Z l = true ↔ ∃ i, i ∈ l ∧ (s ≤ i)%Z.
Proof.
  rewrite existsb_exists. split; intros (i & Hi & Hneg); exists i.
  - split; [by apply list_elem_of_In|lia].
  - split; [by apply list_elem_of_In|]. apply Z.ltb_lt. lia.
Qed.

Lemma index_1d_negative (group_idx : list Z) (a : ndarray float) (size : size_arg) :
  ndim a = 0 ∨ len a = length group_idx →
  (∃ i, i ∈ group_idx ∧ (i < 0)%Z) →
  index_1d (array1 group_idx) a size = Raise InvalidIndex.
Proof.
  intros Ha Hneg. unfold index_1d, len in *. cbn [data shape array1 hd].
  assert ((ndim a =? 0) || (hd 0 (shape a) =? length group_idx) = true) as ->.
  { destruct Ha as [-> | ->]; [done|]. rewrite Nat.eqb_refl. apply orb_true_r. }
  cbn [negb]. by rewrite (proj2 (existsb_negative _) Hneg).
Qed.

Lemma index_1d_too_large (group_idx : list Z) (a : ndarray float) (s : Z) :
  ndim a = 0 ∨ len a = length group_idx →
  Forall (λ i, 0 ≤ i)%Z group_idx →
  (∃ i, i ∈ group_idx ∧ (s ≤ i)%Z) →
  index_1d (array1 group_idx) a (SizeScalar s) = Raise (OutOfBounds s).
Proof.
  intros Ha Hpos Hbig. unfold index_1d, len in *. cbn [data shape array1 hd].
  assert ((ndim a =? 0) || (hd 0 (shape a) =? length group_idx) = true) as ->.
  { destruct Ha as [-> | ->]; [done|]. rewrite Nat.eqb_refl. apply orb_true_r. }
  cbn [negb].
  assert (existsb (λ i, i <? 0)%Z group_idx = false) as ->.
  { apply not_true_is_false. rewrite existsb_negative. intros (i & Hi & Hneg).
    rewrite Forall_forall in Hpos. specialize (Hpos i Hi). lia. }
  by rewrite (proj2 (existsb_too_large _ _) Hbig).
Qed.

Lemma index_1d_in_range (group_idx : list Z) (a : ndarray float) (s : Z) :
  ndim a = 0 ∨ len a = length group_idx →
  Forall (λ i, 0 ≤ i < s)%Z group_idx →
  index_1d (array1 group_idx) a (SizeScalar s) = Ok (group_idx, s).
Proof.
  intros Ha Hin. unfold index_1d, len in *. cbn [data shape array1 hd].
  assert ((ndim a =? 0) || (hd 0 (shape a) =? length group_idx) = true) as ->.
  { destruct Ha as [-> | ->]; [done|]. rewrite Nat.eqb_refl. apply orb_true_r. }
  cbn [negb]. rewrite Forall_forall in Hin.
  assert (existsb (λ i, i <? 0)%Z group_idx = false) as ->.
  { apply not_true_is_false. rewrite existsb_negative. intros (i & Hi & Hneg).
    specialize (Hin i Hi). lia. }
  assert (existsb (λ i, s - 1 <? i)%Z group_idx = false) as ->.
  { apply not_true_is_false. rewrite existsb_too_large. intros (i & Hi & Hneg).
    specialize (Hin i Hi). lia. }
  done.
Qed.

(** ** No reduction raises an index error *)

Lemma ends_n_dot_app (x t : string) : ends_n_dot t = true → ends_n_dot (x +:+ t) = true.
Proof.
  intros Ht. induction x as [|c x IH]; [done|].
  change (String c x +:+ t) with (String c (x +:+ t)).
  cbn [ends_n_dot]. rewrite IH. apply orb_true_r.
Qed.

Lemma ends_n_dot_no_n (d : string) : no_n d = true → ends_n_dot (d +:+ ".") = false.
Proof.
  induction d as [|c d IH]; [done|].
  change (String c d +:+ ".") with (String c (d +:+ ".")).
  cbn [ends_n_dot no_n]. intros [Hc Hd]%andb_true_iff.
  rewrite IH by done. apply negb_true_iff in Hc. by rewrite Hc.
Qed.

Lemma no_n_string_of_uint (d : Decimal.uint) : no_n (NilEmpty.string_of_uint d) = true.
Proof. induction d; simpl; auto. Qed.

Lemma no_n_string_of_Z (z : Z) : no_n (string_of_Z z) = true.
Proof.
  unfold string_of_Z, NilZero.string_of_int, NilZero.string_of_uint.
  destruct (Z.to_int z) as [d|d]; destruct d; simpl; auto using no_n_string_of_uint.
Qed.

Lemma ends_n_dot_OutOfBounds (size : Z) (msg : string) :
  OutOfBounds size = ValueError msg → ends_n_dot msg = false.
Proof.
  intros [= <-].
  pose proof (ends_n_dot_no_n _ (no_n_string_of_Z size)) as Hd.
  revert Hd. generalize (string_of_Z size +:+ "."). intros d Hd.
  cbv [String.append]. cbn [ends_n_dot Ascii.eqb Bool.eqb andb orb]. exact Hd.
Qed.

Lemma not_index_error_ends (msg : string) :
  ends_n_dot msg = true → ¬ index_error (ValueError msg).
Proof.
  intros Hmsg [H | [size H]].
  - injection H as ->. done.
  - symmetry in H. apply ends_n_dot_OutOfBounds in H. congruence.
Qed.

(** A message that starts with neither "N" nor "O" is no index error. *)
Ltac not_index_error :=
  let H := fresh in
  intros [H | [? H]]; [discriminate H | cbv [OutOfBounds String.append] in H; discriminate H].

Create HintDb nie discriminated.

Lemma nie_ok {A : Type} (x : A) : no_index_error (Ok x).
Proof. by intros e. Qed.

Lemma nie_mret {A : Type} (x : A) : no_index_error (mret x).
Proof. by intros e. Qed.

Lemma nie_out_of_model {A : Type} : no_index_error (@OutOfModel A).
Proof. by intros e. Qed.

Lemma nie_raise {A : Type} (e : exn) : ¬ index_error e → no_index_error (@Raise A e).
Proof. by intros He e' [= <-]. Qed.

Lemma nie_bind {A B : Type} (m : outcome A) (k : A → outcome B) :
  no_index_error m → (∀ x, no_index_error (k x)) → no_index_error (m ≫= k).
Proof.
  intros Hm Hk e. destruct m as [x|e'|]; cbn [mbind outcome_bind]; [apply Hk| |done].
  intros [= <-]. by apply (Hm e').
Qed.

#[local] Hint Resolve nie_ok nie_mret nie_out_of_model nie_bind : nie.
#[local] Hint Extern 1 (no_index_error (Raise _)) => apply nie_raise; not_index_error : nie.
#[local] Hint Extern 2 (no_index_error (if ?b then _ else _)) => destruct b : nie.
#[local] Hint Extern 3 (no_index_error (match ?x with _ => _ end)) => destruct x : nie.

Lemma nie_np_full {A : Type} (n : Z) (x : A) : no_index_error (np_full n x).
Proof. unfold np_full. auto with nie. Qed.

Lemma nie_bincount (idx : list nat) (n : Z) : no_index_error (bincount idx n).
Proof. unfold bincount. auto with nie. Qed.

Lemma nie_bincount_w (idx : list nat) (w : list float) (n : Z) :
  no_index_error (bincount_w idx w n).
Proof. unfold bincount_w. auto with nie. Qed.

Lemma nie_broadcast_to {A : Type} (a : ndarray A) (k : nat) : no_index_error (broadcast_to a k).
Proof. unfold broadcast_to. destruct (data a) as [|x [|y xs]]; auto with nie. Qed.

#[local] Hint Resolve nie_np_full nie_bincount nie_bincount_w nie_broadcast_to : nie.

Lemma nie_setitem {A : Type} (ret : list A) (idx : list nat) (a : ndarray A) :
  no_index_error (setitem ret idx a).
Proof. unfold setitem. auto with nie. Qed.

Lemma nie_ufunc_at {A : Type} (op : A → A → A) (ret : list A) (idx : list nat)
    (a : ndarray A) :
  no_index_error (ufunc_at op ret idx a).
Proof. unfold ufunc_at. auto with nie. Qed.

Lemma nie_np_take {A : Type} (l : list A) (idx : list nat) : no_index_error (np_take l idx).
Proof. unfold np_take. auto with nie. Qed.

Lemma nie_compress {A : Type} (cond : ndarray bool) (l : list A) :
  no_index_error (compress cond l).
Proof. unfold compress. auto with nie. Qed.

Lemma nie_check_boolean (fill_value : float) : no_index_error (check_boolean fill_value).
Proof. unfold check_boolean. auto with nie. Qed.

Lemma nie_minimum_dtype (fill_value : float) (dt : dtype_t) :
  no_index_error (minimum_dtype fill_value dt).
Proof. unfold minimum_dtype. auto with nie. Qed.

Lemma nie_float_or (dtype : option dtype_t) : no_index_error (float_or dtype).
Proof. unfold float_or. destruct dtype as [[]|]; auto with nie. Qed.

#[local] Hint Resolve nie_setitem nie_ufunc_at nie_np_take nie_compress nie_check_boolean
  nie_minimum_dtype nie_float_or : nie.

Lemma nie_sort_keys (c : complex) (group_idx : list nat) (a : ndarray float) :
  no_index_error (sort_keys c group_idx a).
Proof.
  unfold sort_keys. destruct (ndim a =? 0); [auto with nie|].
  destruct group_idx as [|g [|g' group_idx]], (data a) as [|x [|x' xs]]; auto with nie.
Qed.

Lemma nie_sort (group_idx : list nat) (a : ndarray float) (n : Z) (fill_value : fill_arg)
    (reversed_ : bool) :
  no_index_error (_sort group_idx a n fill_value reversed_).
Proof.
  unfold _sort. destruct (negb _); [auto with nie|].
  apply nie_bind; [apply nie_sort_keys|]. intros keys.
  apply nie_bind; [auto with nie|]. intros counts.
  apply nie_bind; [destruct (ndim a =? 0); auto with nie|]. intros a'.
  apply nie_bind; [auto with nie|]. intros taken.
  destruct (order_matters keys a'); auto with nie.
Qed.

Lemma nie_array (group_idx : list nat) (a : ndarray float) (n : Z) (fill_value : fill_arg) :
  no_index_error (_array group_idx a n fill_value).
Proof.
  unfold _array. destruct (negb _); [auto with nie|].
  apply nie_bind; [auto with nie|]. intros counts.
  apply nie_bind; [destruct (ndim a =? 0); auto with nie|]. intros taken.
  auto with nie.
Qed.

Lemma nie_generic_callable {R : Type} (func : list float → R) (group_idx : list nat)
    (a : ndarray float) (n : Z) (fill_value : float) :
  no_index_error (_generic_callable func group_idx a n fill_value).
Proof.
  unfold _generic_callable.
  apply nie_bind; [apply nie_array|]. intros groups.
  apply nie_bind; [auto with nie|]. intros ret.
  generalize (imap pair (obj_iter groups)).
  assert (no_index_error (Ok ret)) as Hm by auto with nie.
  revert Hm. generalize (Ok ret). intros m Hm l. revert m Hm.
  induction l as [|[ii g] l IH]; intros m Hm; [done|].
  cbn [fold_left]. apply IH, nie_bind; [done|]. intros ret'.
  destruct g as [[|y g]|x]; auto with nie.
Qed.

Lemma nie_impl_dict :
  Forall (λ kv, ∀ group_idx a n fill_value dtype,
            no_index_error (kv.2 group_idx a n fill_value dtype)) _impl_dict.
Proof.
  unfold _impl_dict.
  repeat (apply Forall_cons; split; [cbn [snd]; intros group_idx a n fill_value dtype|]);
    [..|apply Forall_nil].
  all: unfold _anynan, _allnan, _std, _min, _max, _sum, _prod, _last, _first, _all, _any,
         _mean, _var, grouping, _rsort.
  all: auto 12 using nie_sort, nie_array with nie.
Qed.

Lemma dict_get_Forall {V : Type} (P : V → Prop) (d : list (string * V)) (key : string)
    (v : V) :
  Forall (λ kv, P kv.2) d → dict_get d key = Some v → P v.
Proof.
  induction 1 as [|[k v'] d Hkv _ IH]; [done|].
  cbn [dict_get]. destruct (String.eqb k key); [by intros [= <-]|done].
Qed.

Lemma nie_dispatch (func : func_arg) (group_idx : list nat) (a : ndarray float) (n : Z)
    (fill_value : float) (dtype : option dtype_t) :
  no_index_error (dispatch func group_idx a n fill_value dtype _impl_dict).
Proof.
  destruct func as [original_func|func|]; cbn [dispatch];
    [|auto using nie_generic_callable with nie..].
  apply nie_bind.
  - destruct (String.prefix _ _); [|auto with nie].
    destruct (bool_decide _); [|auto with nie].
    apply nie_raise, not_index_error_ends. by apply ends_n_dot_app.
  - intros [[func a'] group_idx'].
    destruct (dict_get _impl_dict func) as [f|] eqn:Hf; [|auto with nie].
    apply (dict_get_Forall (λ f : reduction, ∀ g x k fv dt, no_index_error (f g x k fv dt))
             _ _ _ nie_impl_dict Hf).
Qed.

(** ** Negative coordinates of a multi-key index *)

Lemma raises_bind {A B : Type} (m : outcome A) (k : A → outcome B) :
  raises m → raises (m ≫= k).
Proof. intros [e ->]. by exists e. Qed.

Lemma raises_Raise {A : Type} (e : exn) : raises (@Raise A e).
Proof. by exists e. Qed.

Lemma chunks_elem_of {A : Type} (d m : nat) (l : list A) (x : A) :
  length l = d * m → x ∈ l →
  ∃ r row j, chunks d m l !! r = Some row ∧ row !! j = Some x ∧ j < m.
Proof.
  revert l. induction d as [|d IH]; intros l Hlen Hx.
  - destruct l; [by apply elem_of_nil in Hx|done].
  - rewrite <- (take_drop m l) in Hx. apply elem_of_app in Hx as [Hx | Hx].
    + apply list_elem_of_lookup in Hx as [j Hj].
      exists 0, (take m l), j. split; [done|]. split; [done|].
      apply lookup_lt_Some in Hj. rewrite length_take in Hj. lia.
    + destruct (IH (drop m l)) as (r & row & j & Hr & Hj & Hjm); [|done|].
      { rewrite length_drop. lia. }
      by exists (S r), row, j.
Qed.

Lemma chunks_length {A : Type} (d m : nat) (l : list A) : length (chunks d m l) = d.
Proof. revert l. induction d as [|d IH]; intros l; simpl; auto. Qed.

Lemma mapM_np_max (l : list (list Z)) :
  (∃ maxes, mapM np_max l = Ok maxes ∧ length maxes = length l) ∨ raises (mapM np_max l).
Proof.
  induction l as [|row l IH]; [left; by exists []|].
  cbn [mapM]. destruct row as [|x row]; [right; apply raises_Raise|].
  cbn [np_max mbind outcome_bind].
  destruct IH as [(maxes & -> & Hlen) | [e ->]].
  - left. eexists. split; [done|]. simpl. by rewrite Hlen.
  - right. apply raises_Raise.
Qed.

Lemma ravel_multi_index_negative (d m : nat) (l : list Z) (dims : list Z) (order : order_t) :
  length l = d * m →
  (∃ i, i ∈ l ∧ (i < 0)%Z) →
  raises (ravel_multi_index m (chunks d m l) dims order).
Proof.
  intros Hlen (x & Hx & Hneg). unfold ravel_multi_index.
  destruct (length (chunks d m l) =? length dims) eqn:Hdims; [|apply raises_Raise].
  cbn [negb]. destruct (mul_overflows _); [apply raises_Raise|].
  apply Nat.eqb_eq in Hdims.
  destruct (chunks_elem_of d m l x Hlen Hx) as (r & row & j & Hr & Hj & Hjm).
  destruct (lookup_lt_is_Some_2 dims r) as [dim Hdim].
  { rewrite <- Hdims. by eapply lookup_lt_Some. }
  match goal with |- raises (if ?b then _ else _) => assert (b = true) as -> end;
    [|apply raises_Raise].
  apply existsb_exists.
  exists ((λ row, nth j row 0%Z) <$> chunks d m l). split.
  - apply in_map_iff. exists j. split; [done|]. apply in_seq. lia.
  - apply existsb_exists. exists (x, dim). split.
    + apply list_elem_of_In, list_elem_of_lookup. exists r.
      rewrite lookup_zip_with, list_lookup_fmap, Hr, Hdim. cbn.
      by rewrite (nth_lookup_Some _ _ _ _ Hj).
    + cbn [fst snd]. apply orb_true_iff. left. by apply Z.ltb_lt.
Qed.

Lemma index_2d_negative (group_idx : ndarray Z) (a : ndarray float) (size : size_arg)
    (order : order_t) :
  ndim group_idx = 2 →
  wf_ndarray group_idx →
  (∃ i, i ∈ data group_idx ∧ (i < 0)%Z) →
  raises (index_2d group_idx a size order).
Proof.
  intros Hndim Hwf Hneg. unfold ndim in Hndim. unfold wf_ndarray in Hwf.
  destruct group_idx as [[|d [|m [|]]] l]; try done. cbn [shape data foldr] in *.
  rewrite Nat.mul_1_r in Hwf.
  unfold index_2d, rows, len. cbn [shape data hd nth].
  destruct (negb _); [apply raises_Raise|].
  destruct (Nat.eqb_spec d 0) as [-> | Hd].
  { destruct Hneg as (i & Hi & _). destruct l; [by apply elem_of_nil in Hi|done]. }
  assert (∀ dims, raises (flat ← ravel_multi_index m (chunks d m l) dims order;
                          mret (flat, dims, np_prod dims))) as Hravel.
  { intros dims. by apply raises_bind, ravel_multi_index_negative. }
  destruct size as [|s|dims]; cbn [mbind outcome_bind].
  - destruct (mapM_np_max (chunks d m l)) as [(maxes & -> & _) | Hr].
    + cbn [mbind outcome_bind mret outcome_ret]. apply Hravel.
    + by do 2 apply raises_bind.
  - apply raises_Raise.
  - destruct (negb _); [apply raises_Raise|]. apply Hravel.
Qed.

Lemma index_1d_negative_raises (group_idx : ndarray Z) (a : ndarray float) (size : size_arg) :
  (∃ i, i ∈ data group_idx ∧ (i < 0)%Z) → raises (index_1d group_idx a size).
Proof.
  intros Hneg. unfold index_1d.
  destruct (negb _); [apply raises_Raise|].
  rewrite (proj2 (existsb_negative _) Hneg). apply raises_Raise.
Qed.

Lemma aggregate_negative_raises (group_idx : ndarray Z) (a : ndarray float) (func : func_arg)
    (size : size_arg) (fill_value : float) (order : order_t) (dtype : option dtype_t)
    (impl : list (string * reduction)) :
  wf_ndarray group_idx →
  (∃ i, i ∈ data group_idx ∧ (i < 0)%Z) →
  raises (aggregate group_idx a func size fill_value order dtype impl).
Proof.
  intros Hwf Hneg. unfold aggregate.
  destruct (1 <? ndim a); [apply raises_Raise|].
  destruct (Nat.eqb_spec (ndim group_idx) 1) as [H1 | H1]; cbn [orb negb].
  - by apply raises_bind, index_1d_negative_raises.
  - destruct (Nat.eqb_spec (ndim group_idx) 2) as [H2 | H2]; cbn [negb];
      [|apply raises_Raise].
    by apply raises_bind, index_2d_negative.
Qed.

Lemma aggregate_in_range_no_index_error (group_idx : list Z) (a : ndarray float)
    (func : func_arg) (s : Z) (fill_value : float) (order : order_t)
    (dtype : option dtype_t) :
  Forall (λ i, 0 ≤ i < s)%Z group_idx →
  no_index_error
    (aggregate (array1 group_idx) a func (SizeScalar s) fill_value order dtype _impl_dict).
Proof.
  intros Hin. unfold aggregate.
  destruct (1 <? ndim a); [apply nie_raise; not_index_error|].
  change (ndim (array1 group_idx)) with 1. cbn [Nat.eqb orb negb].
  apply nie_bind.
  - destruct (Nat.eqb_spec (ndim a) 0) as [Ha | Ha];
      [|destruct (Nat.eqb_spec (len a) (length group_idx)) as [Hl | Hl]].
    + rewrite index_1d_in_range by auto. apply nie_ok.
    + rewrite index_1d_in_range by auto. apply nie_ok.
    + unfold index_1d, len in *. cbn [shape data array1 hd].
      destruct (Nat.eqb_spec (ndim a) 0); [done|].
      destruct (Nat.eqb_spec (hd 0 (shape a)) (length group_idx)); [done|].
      cbn [orb negb]. apply nie_raise. not_index_error.
  - intros [gi n]. apply nie_bind; [apply nie_dispatch|intros ret; apply nie_mret].
Qed.

(** C6. Every well-formed [group_idx], of whatever dimension, that
    contains a negative index is rejected with an error. For 1-d grouping
    with an acceptable [a] (a scalar, or a sequence of the length of
    [group_idx]) the error of a negative index is InvalidIndex
    ("Negative indices not supported."); with a scalar [size] and no
    negative index, an index greater than or equal to [size] gives
    OutOfBounds ("One or more indices are too large for size ..."); and
    when all indices are non-negative and below [size], neither of the two
    errors is raised. The two invalid scenarios of the specification are
    included. *)
Theorem C6_index_errors :
  (∀ (group_idx : ndarray Z) (a : ndarray float) (func : func_arg) (size : size_arg)
      (fill_value : float) (order : order_t) (dtype : option dtype_t)
      (impl : list (string * reduction)),
      wf_ndarray group_idx →
      (∃ i, i ∈ data group_idx ∧ (i < 0)%Z) →
      raises (aggregate group_idx a func size fill_value order dtype impl))
  ∧ (∀ (group_idx : list Z) (a : ndarray float) (func : func_arg) (size : size_arg)
       (fill_value : float) (order : order_t) (dtype : option dtype_t)
       (impl : list (string * reduction)),
       ndim a = 0 ∨ ndim a = 1 ∧ len a = length group_idx →
       (∃ i, i ∈ group_idx ∧ (i < 0)%Z) →
       aggregate (array1 group_idx) a func size fill_value order dtype impl
       = Raise InvalidIndex)
  ∧ (∀ (group_idx : list Z) (a : ndarray float) (func : func_arg) (s : Z)
       (fill_value : float) (order : order_t) (dtype : option dtype_t)
       (impl : list (string * reduction)),
       ndim a = 0 ∨ ndim a = 1 ∧ len a = length group_idx →
       Forall (λ i, 0 ≤ i)%Z group_idx →
       (∃ i, i ∈ group_idx ∧ (s ≤ i)%Z) →
       aggregate (array1 group_idx) a func (SizeScalar s) fill_value order dtype impl
       = Raise (OutOfBounds s))
  ∧ (∀ (group_idx : list Z) (a : ndarray float) (func : func_arg) (s : Z)
       (fill_value : float) (order : order_t) (dtype : option dtype_t),
       Forall (λ i, 0 ≤ i < s)%Z group_idx →
       no_index_error
         (aggregate (array1 group_idx) a func (SizeScalar s) fill_value order dtype
            _impl_dict))
  ∧ aggregate (array1 [-1; 0]%Z) (array1 [1; 2]%float) (FuncName "sum") SizeNone 0%float
      OrderF None _impl_dict = Raise InvalidIndex
  ∧ aggregate (array1 [0; 5]%Z) (array1 [1; 2]%float) (FuncName "sum") (SizeScalar 3) 0%float
      OrderF None _impl_dict = Raise (OutOfBounds 3).
Proof.
  split; [|split; [|split; [|split; [|split]]]].
  - intros. by apply aggregate_negative_raises.
  - intros group_idx a func size fill_value order dtype impl Ha Hneg.
    rewrite aggregate_1d_unfold by (destruct Ha as [-> | [-> _]]; lia).
    rewrite index_1d_negative; [done|tauto|done].
  - intros group_idx a func s fill_value order dtype impl Ha Hpos Hbig.
    rewrite aggregate_1d_unfold by (destruct Ha as [-> | [-> _]]; lia).
    rewrite index_1d_too_large; [done|tauto|done|done].
  - intros. by apply aggregate_in_range_no_index_error.
  - vm_compute. reflexivity.
  - vm_compute. reflexivity.
Qed.

Lemma C6_index_errors_witness :
  aggregate (array1 [2; -3; 0]%Z) (array1 [1; 2; 3]%float) (FuncName "max") (SizeScalar 1)
    0%float OrderC None _impl_dict = Raise InvalidIndex
  ∧ aggregate (array1 [2; 3; 0]%Z) (scalar0 1%float) (FuncName "max") (SizeScalar 3)
      0%float OrderC None _impl_dict = Raise (OutOfBounds 3)
  ∧ no_index_error
      (aggregate (array1 [2; 1; 0]%Z) (array1 [1; 2; 3]%float) (FuncName "max")
         (SizeScalar 3) 0%float OrderC None _impl_dict).
Proof.
  split; [|split].
  - apply (proj1 (proj2 C6_index_errors)); [right; split; reflexivity|].
    exists (-3)%Z. split; [|lia]. apply list_elem_of_further, list_elem_of_here.
  - apply (proj1 (proj2 (proj2 C6_index_errors))); [left; reflexivity| |].
    + repeat constructor; lia.
    + exists 3%Z. split; [|lia]. apply list_elem_of_further, list_elem_of_here.
  - apply (proj1 (proj2 (proj2 (proj2 C6_index_errors)))).
    repeat constructor; lia.
Defined.

(** ** Dimension of the group index *)

(** C9. A group index whose dimension is neither 1 nor 2 (a 0-d scalar, an
    array of three or more dimensions) is rejected with an error, whatever
    the other arguments and whatever the table of reductions: no reduction
    is looked up or run. For an acceptable [a] the error is the one of
    line 282. *)
Theorem C9_index_dimension (group_idx : ndarray Z) (a : ndarray float) (func : func_arg)
    (size : size_arg) (fill_value : float) (order : order_t) (dtype : option dtype_t)
    (impl : list (string * reduction)) :
  ndim group_idx ≠ 1 →
  ndim group_idx ≠ 2 →
  raises (aggregate group_idx a func size fill_value order dtype impl)
  ∧ (ndim a ≤ 1 →
     aggregate group_idx a func size fill_value order dtype impl
     = Raise (ValueError "Expected indices to have either 1 or 2 dimension.")).
Proof.
  intros H1 H2. unfold aggregate.
  destruct (Nat.eqb_spec (ndim group_idx) 1); [done|].
  destruct (Nat.eqb_spec (ndim group_idx) 2); [done|].
  cbn [orb negb]. split.
  - destruct (1 <? ndim a); apply raises_Raise.
  - intros Ha. by destruct (Nat.ltb_spec 1 (ndim a)); [lia|].
Qed.

Lemma C9_index_dimension_witness :
  (raises (aggregate (scalar0 3%Z) (array1 [1%float]) (FuncName "sum") SizeNone 0%float OrderF
             None [])
   ∧ (ndim (array1 [1%float]) ≤ 1 →
      aggregate (scalar0 3%Z) (array1 [1%float]) (FuncName "sum") SizeNone 0%float OrderF
        None []
      = Raise (ValueError "Expected indices to have either 1 or 2 dimension.")))
  ∧ (raises (aggregate (mk_ndarray [1; 1; 2] [0; 1]%Z) (scalar0 1%float) (FuncName "sum")
               SizeNone 0%float OrderF None _impl_dict)
     ∧ (ndim (scalar0 1%float) ≤ 1 →
        aggregate (mk_ndarray [1; 1; 2] [0; 1]%Z) (scalar0 1%float) (FuncName "sum")
          SizeNone 0%float OrderF None _impl_dict
        = Raise (ValueError "Expected indices to have either 1 or 2 dimension."))).
Proof.
  split.
  - apply (C9_index_dimension (scalar0 3%Z)); cbn; lia.
  - apply (C9_index_dimension (mk_ndarray [1; 1; 2] [0; 1]%Z)); cbn; lia.
Defined.

(** ** Boolean reductions *)

Lemma dispatch_bool_dtype (f : string) (group_idx : list nat) (a : ndarray float) (n : Z)
    (fill_value : float) (dtype : option dtype_t) :
  f ∈ ["all"; "any"; "allnan"; "anynan"]%string →
  dispatch (FuncName f) group_idx a n fill_value dtype _impl_dict
  = dispatch (FuncName f) group_idx a n fill_value None _impl_dict
  ∧ ∀ ret, dispatch (FuncName f) group_idx a n fill_value dtype _impl_dict = Ok ret →
           ∃ bs, ret = DBool bs.
Proof.
  intros Hf.
  repeat (apply elem_of_cons in Hf as [-> | Hf]); [| | | |by apply elem_of_nil in Hf].
  all: split; [reflexivity|].
  all: intros ret.
  - change (dispatch (FuncName "all") ?g ?x ?k ?fv ?dt _impl_dict) with (_all g x k fv dt).
    unfold _all. intros H.
    repeat (match type of H with
            | mbind _ ?m = Ok _ => destruct m; cbn [mbind outcome_bind] in H; [|done|done]
            end).
    injection H as <-. by eexists.
  - change (dispatch (FuncName "any") ?g ?x ?k ?fv ?dt _impl_dict) with (_any g x k fv dt).
    unfold _any. intros H.
    repeat (match type of H with
            | mbind _ ?m = Ok _ => destruct m; cbn [mbind outcome_bind] in H; [|done|done]
            end).
    injection H as <-. by eexists.
  - change (dispatch (FuncName "allnan") ?g ?x ?k ?fv ?dt _impl_dict)
      with (_all g (ndarray_map np_isnan x) k fv dt).
    unfold _all. intros H.
    repeat (match type of H with
            | mbind _ ?m = Ok _ => destruct m; cbn [mbind outcome_bind] in H; [|done|done]
            end).
    injection H as <-. by eexists.
  - change (dispatch (FuncName "anynan") ?g ?x ?k ?fv ?dt _impl_dict)
      with (_any g (ndarray_map np_isnan x) k fv dt).
    unfold _any. intros H.
    repeat (match type of H with
            | mbind _ ?m = Ok _ => destruct m; cbn [mbind outcome_bind] in H; [|done|done]
            end).
    injection H as <-. by eexists.
Qed.

Lemma reshape_bool (bs : list bool) (size : list Z) (order : order_t) (r : result) :
  reshape (DBool bs) size order = Ok r → ∃ bs', res_data r = DBool bs'.
Proof.
  unfold reshape. destruct (_ || _); [done|]. intros [= <-]. by eexists.
Qed.

(** C10. For [func] in all, any, allnan and anynan the requested [dtype]
    is ignored (the call equals the one with [dtype=None]) and every result
    is a bool array. *)
Theorem C10_boolean_results (f : string) (group_idx : ndarray Z) (a : ndarray float)
    (size : size_arg) (fill_value : float) (order : order_t) (dtype : option dtype_t) :
  f ∈ ["all"; "any"; "allnan"; "anynan"]%string →
  aggregate group_idx a (FuncName f) size fill_value order dtype _impl_dict
  = aggregate group_idx a (FuncName f) size fill_value order None _impl_dict
  ∧ ∀ r, aggregate group_idx a (FuncName f) size fill_value order dtype _impl_dict = Ok r →
         dense_dtype (res_data r) = dt_bool ∧ ∃ bs, res_data r = DBool bs.
Proof.
  intros Hf. unfold aggregate.
  destruct (1 <? ndim a); [done|].
  destruct (negb _); [done|].
  destruct (ndim group_idx =? 1).
  - destruct (index_1d group_idx a size) as [[gi n]| |]; [|done|done].
    cbn [mbind outcome_bind].
    destruct (dispatch_bool_dtype f (Z.to_nat <$> gi) a n fill_value dtype Hf) as [-> Hbool].
    split; [done|]. intros r.
    destruct (dispatch _ _ _ _ _ None _) as [ret| |] eqn:Hd; [|done|done].
    destruct (Hbool ret eq_refl) as [bs ->].
    intros [= <-]. split; [done|]. by eexists.
  - destruct (index_2d group_idx a size order) as [[[gi sz] n]| |]; [|done|done].
    cbn [mbind outcome_bind].
    destruct (dispatch_bool_dtype f (Z.to_nat <$> gi) a n fill_value dtype Hf) as [-> Hbool].
    split; [done|]. intros r.
    destruct (dispatch _ _ _ _ _ None _) as [ret| |] eqn:Hd; [|done|done].
    destruct (Hbool ret eq_refl) as [bs ->].
    intros Hr. destruct (reshape_bool _ _ _ _ Hr) as [bs' Hbs].
    rewrite Hbs. split; [done|]. by eexists.
Qed.

Lemma C10_boolean_results_witness :
  aggregate (array1 [0; 0; 2]%Z) (array1 [1; 0; nan]%float) (FuncName "all") SizeNone 0%float
    OrderF (Some dt_float64) _impl_dict
  = aggregate (array1 [0; 0; 2]%Z) (array1 [1; 0; nan]%float) (FuncName "all") SizeNone 0%float
      OrderF None _impl_dict
  ∧ ∀ r, aggregate (array1 [0; 0; 2]%Z) (array1 [1; 0; nan]%float) (FuncName "all") SizeNone
           0%float OrderF (Some dt_float64) _impl_dict = Ok r →
         dense_dtype (res_data r) = dt_bool ∧ ∃ bs, res_data r = DBool bs.
Proof.
  apply (C10_boolean_results "all"%string). apply list_elem_of_here.
Defined.

Example C10_all_float64_requested :
  aggregate (array1 [0; 0; 2]%Z) (array1 [1; 0; nan]%float) (FuncName "all") SizeNone 0%float
    OrderF (Some dt_float64) _impl_dict
  = Ok (mk_result [3] (DBool [false; false; true])).
Proof. vm_compute. reflexivity. Qed.

(** ** Length of the result of a reduction *)

(** Split the outcome of the first steps of a computation that returned. *)
Ltac inv_binds H :=
  repeat lazymatch type of H with
  | mbind _ ?m = Ok _ =>
      let E := fresh "E" in
      destruct m eqn:E; cbn [mbind outcome_bind] in H; [|discriminate H|discriminate H]
  end.


Lemma setitem_Ok {A : Type} (ret : list A) (idx : list nat) (a : ndarray A) (r : list A) :
  setitem ret idx a = Ok r → length r = length ret.
Proof.
  unfold setitem. destruct (existsb _ _); [done|]. intros H. inv_binds H.
  injection H as <-.
  by rewrite scatter_length.
Qed.









Lemma obj_iter_asarray (ps : list (list float)) :
  obj_iter (np_asarray_object ps) = inl <$> ps.
Proof. destruct ps as [|p ps]; [done|]. cbn. by destruct (forallb _ ps). Qed.






(** Once the loop of [_generic_callable] has raised, it stays raised;
    until then the result keeps its length. *)
Lemma generic_callable_loop_length {R : Type} (func : list float → R)
    (l : list (nat * (list float + float))) (ret : list (R + float)) :
  (∃ ret', fold_left (λ ret '(ii, g),
                        ret ← ret;
                        match g with
                        | inl ((_ :: _) as g) =>
                            if length ret <=? ii then Raise (IndexError "index is out of bounds")
                            else mret (<[ii := inl (func g)]> ret)
                        | _ => mret ret
                        end) l (Ok ret) = Ok ret' ∧ length ret' = length ret)
  ∨ fold_left (λ ret '(ii, g),
                 ret ← ret;
                 match g with
                 | inl ((_ :: _) as g) =>
                     if length ret <=? ii then Raise (IndexError "index is out of bounds")
                     else mret (<[ii := inl (func g)]> ret)
                 | _ => mret ret
                 end) l (Ok ret) = Raise (IndexError "index is out of bounds").
Proof.
  induction l as [|[ii g] l IH] using rev_ind; [left; by exists ret|].
  rewrite fold_left_app. cbn [fold_left].
  destruct IH as [(ret' & -> & Hlen)| ->]; [|by right].
  cbn [mbind outcome_bind]. destruct g as [[|y g]|x]; [left; by exists ret'| |left; by exists ret'].
  destruct (length ret' <=? ii); [by right|]. left. eexists. split; [done|].
  by rewrite length_insert.
Qed.









(** ** Shape of the result *)


Lemma prod_to_nat (dims : list Z) :
  Forall (λ d, 0 ≤ d)%Z dims →
  ∀ acc, fold_left Z.mul dims (Z.of_nat acc)
         = Z.of_nat (acc * foldr Nat.mul 1 (Z.to_nat <$> dims)).
Proof.
  induction 1 as [|d dims Hd _ IH]; intros acc.
  - cbn. f_equal. lia.
  - rewrite fmap_cons. cbn [fold_left foldr].
    replace (Z.of_nat acc * d)%Z with (Z.of_nat (acc * Z.to_nat d)) by lia.
    rewrite IH. f_equal. lia.
Qed.

Lemma reorder_length {A : Type} (order : order_t) (dims : list nat) (l : list A) :
  length (reorder order dims l) = length l.
Proof.
  unfold reorder. destruct order, l; try done.
  by rewrite length_fmap, length_seq.
Qed.

Lemma concat_fmap_length {A B : Type} (f : A → list B) (l : list A) (c : nat) :
  (∀ x, length (f x) = c) → length (concat (f <$> l)) = length l * c.
Proof.
  intros Hf. induction l as [|x l IH]; [done|].
  rewrite fmap_cons. cbn [concat length]. rewrite length_app, Hf, IH. lia.
Qed.

Lemma obj_ravel_length (order : order_t) (arr : obj_array) :
  length (obj_ravel order arr) = dense_size (DObject arr).
Proof.
  destruct arr as [elts|m rws]; [done|]. cbn [obj_ravel dense_size].
  rewrite length_fmap. destruct order.
  - apply concat_fmap_length. intros row. by rewrite length_fmap, length_seq.
  - rewrite (concat_fmap_length _ _ (length rws)), length_seq; [lia|].
    intros j. by rewrite length_fmap.
Qed.








(** ** Valid 1-d calls return *)

Lemma setitem_returns {A : Type} (ret : list A) (idx : list nat) (a : ndarray A) :
  ndim a = 0 ∧ length (data a) = 1 ∨ length (data a) = length idx →
  Forall (λ g, g < length ret) idx →
  ∃ r, setitem ret idx a = Ok r.
Proof.
  intros Ha Hidx. unfold setitem. rewrite existsb_out_of_bounds by done.
  destruct Ha as [[_ Ha] | Ha].
  - unfold broadcast_to. destruct (data a) as [|x [|]]; try done. by eexists.
  - rewrite broadcast_to_data by done. by eexists.
Qed.

Lemma ufunc_at_returns {A : Type} (op : A → A → A) (ret : list A) (idx : list nat)
    (a : ndarray A) :
  length (data a) = length idx →
  Forall (λ g, g < length ret) idx →
  ∃ r, ufunc_at op ret idx a = Ok r.
Proof.
  intros Ha Hidx. unfold ufunc_at. rewrite existsb_out_of_bounds by done.
  rewrite broadcast_to_data by done. by eexists.
Qed.

Lemma np_take_returns {A : Type} (l : list A) (idx : list nat) :
  Forall (λ g, g < length l) idx →
  ∃ r, np_take l idx = Ok r ∧ length r = length idx.
Proof.
  intros Hidx. unfold np_take.
  assert (∃ r, mapM (λ g, l !! g) idx = Some r ∧ length r = length idx) as (r & -> & Hr);
    [|by exists r].
  induction Hidx as [|g idx Hg _ (r & IH & Hr)]; [by exists []|].
  destruct (lookup_lt_is_Some_2 l g Hg) as [x Hx].
  exists (x :: r). cbn [mapM]. rewrite Hx, IH. split; [done|]. simpl. by rewrite Hr.
Qed.

Lemma compress_returns (cond : ndarray bool) (idx : list nat) (n : nat) :
  ndim cond = 1 →
  length (data cond) = length idx →
  Forall (λ g, g < n) idx →
  ∃ sel, compress cond idx = Ok sel ∧ Forall (λ g, g < n) sel.
Proof.
  intros Hndim Hlen Hidx. unfold compress. rewrite Hndim. cbn [Nat.eqb negb].
  rewrite <- Hlen, drop_all. cbn [existsb].
  eexists. split; [done|]. by apply mask_select_Forall.
Qed.

Lemma numeric_returns (f : string) (group_idx : list nat) (a : list float) (n : nat)
    (fill_value : float) (dtype : option dtype_t) :
  f ∈ ["sum"; "prod"; "min"; "max"; "first"; "last"; "mean"; "var"; "std"]%string →
  length a = length group_idx →
  Forall (λ g, g < n) group_idx →
  is_float_dtype dtype = true →
  ∃ ret, dispatch (FuncName f) group_idx (array1 a) (Z.of_nat n) fill_value dtype _impl_dict
         = Ok ret.
Proof.
  intros Hf Hlen Hidx Hdt.
  destruct (bincount_valid group_idx n Hidx) as (counts & Hcounts & Hclen & Hc).
  destruct (bincount_w_valid group_idx a n Hlen Hidx) as (sums & Hsums & Hslen & Hs).
  assert (∀ x : float, Forall (λ g, g < length (replicate n x)) group_idx) as Hrep
    by (intros x; by rewrite length_replicate).
  repeat (apply elem_of_cons in Hf as [-> | Hf]); [..|by apply elem_of_nil in Hf].
  - change (dispatch (FuncName "sum") ?g ?x ?k ?fv ?dt _impl_dict) with (_sum g x k fv dt).
    unfold _sum. rewrite minimum_dtype_float by done. cbn [mbind outcome_bind].
    change (ndim (array1 a) =? 0) with false. cbn [data array1].
    rewrite Hsums. by eexists.
  - change (dispatch (FuncName "prod") ?g ?x ?k ?fv ?dt _impl_dict) with (_prod g x k fv dt).
    unfold _prod. rewrite minimum_dtype_float by done. cbn [mbind outcome_bind].
    rewrite np_full_of_nat. cbn [mbind outcome_bind].
    assert (∃ r, (if py_ne fill_value 1
                  then setitem (replicate n fill_value) group_idx (scalar0 1%float)
                  else mret (replicate n fill_value)) = Ok r
                 ∧ length r = n) as (r & -> & Hr).
    { destruct (py_ne fill_value 1).
      - edestruct (setitem_returns (replicate n fill_value) group_idx (scalar0 1%float))
          as [r Hr]; [by left|done|].
        exists r. split; [done|]. apply setitem_Ok in Hr. by rewrite Hr, length_replicate.
      - eexists. split; [done|]. by rewrite length_replicate. }
    cbn [mbind outcome_bind].
    edestruct (ufunc_at_returns PrimFloat.mul r group_idx (array1 a)) as [r' ->];
      [done|by rewrite Hr|]. by eexists.
  - change (dispatch (FuncName "min") ?g ?x ?k ?fv ?dt _impl_dict) with (_min g x k fv dt).
    unfold _min. rewrite minimum_dtype_float by done. cbn [mbind outcome_bind].
    rewrite np_full_of_nat. cbn [mbind outcome_bind].
    assert (∃ r, (if py_ne fill_value dmax
                  then setitem (replicate n fill_value) group_idx (scalar0 dmax)
                  else mret (replicate n fill_value)) = Ok r
                 ∧ length r = n) as (r & -> & Hr).
    { destruct (py_ne fill_value dmax).
      - edestruct (setitem_returns (replicate n fill_value) group_idx (scalar0 dmax))
          as [r Hr]; [by left|done|].
        exists r. split; [done|]. apply setitem_Ok in Hr. by rewrite Hr, length_replicate.
      - eexists. split; [done|]. by rewrite length_replicate. }
    cbn [mbind outcome_bind].
    edestruct (ufunc_at_returns np_minimum r group_idx (array1 a)) as [r' ->];
      [done|by rewrite Hr|]. by eexists.
  - change (dispatch (FuncName "max") ?g ?x ?k ?fv ?dt _impl_dict) with (_max g x k fv dt).
    unfold _max. rewrite minimum_dtype_float by done. cbn [mbind outcome_bind].
    rewrite np_full_of_nat. cbn [mbind outcome_bind].
    assert (∃ r, (if py_ne fill_value dmin
                  then setitem (replicate n fill_value) group_idx (scalar0 dmin)
                  else mret (replicate n fill_value)) = Ok r
                 ∧ length r = n) as (r & -> & Hr).
    { destruct (py_ne fill_value dmin).
      - edestruct (setitem_returns (replicate n fill_value) group_idx (scalar0 dmin))
          as [r Hr]; [by left|done|].
        exists r. split; [done|]. apply setitem_Ok in Hr. by rewrite Hr, length_replicate.
      - eexists. split; [done|]. by rewrite length_replicate. }
    cbn [mbind outcome_bind].
    edestruct (ufunc_at_returns np_maximum r group_idx (array1 a)) as [r' ->];
      [done|by rewrite Hr|]. by eexists.
  - change (dispatch (FuncName "first") ?g ?x ?k ?fv ?dt _impl_dict) with (_first g x k fv dt).
    rewrite _first_valid by done. by eexists.
  - change (dispatch (FuncName "last") ?g ?x ?k ?fv ?dt _impl_dict) with (_last g x k fv dt).
    rewrite _last_valid by done. by eexists.
  - change (dispatch (FuncName "mean") ?g ?x ?k ?fv ?dt _impl_dict) with (_mean g x k fv dt).
    unfold _mean. change (ndim (array1 a) =? 0) with false. cbn iota.
    rewrite float_or_float by done. cbn [mbind outcome_bind data array1].
    rewrite Hcounts. cbn [mbind outcome_bind]. rewrite Hsums. by eexists.
  - change (dispatch (FuncName "var") ?g ?x ?k ?fv ?dt _impl_dict)
      with (_var g x k fv dt false).
    unfold _var. change (ndim (array1 a) =? 0) with false. cbn iota.
    rewrite float_or_float by done. cbn [mbind outcome_bind data array1].
    rewrite Hcounts. cbn [mbind outcome_bind]. rewrite Hsums. cbn [mbind outcome_bind].
    edestruct (np_take_returns (divide_counts sums counts) group_idx) as (mg & -> & Hmg).
    { rewrite divide_counts_length by congruence. by rewrite Hslen. }
    cbn [mbind outcome_bind].
    edestruct (bincount_w_valid group_idx
                 (zip_with (λ x m, (x - m) * (x - m))%float a mg) n) as (sq & -> & _);
      [rewrite length_zip_with; lia|done|]. by eexists.
  - change (dispatch (FuncName "std") ?g ?x ?k ?fv ?dt _impl_dict)
      with (_var g x k fv dt true).
    unfold _var. change (ndim (array1 a) =? 0) with false. cbn iota.
    rewrite float_or_float by done. cbn [mbind outcome_bind data array1].
    rewrite Hcounts. cbn [mbind outcome_bind]. rewrite Hsums. cbn [mbind outcome_bind].
    edestruct (np_take_returns (divide_counts sums counts) group_idx) as (mg & -> & Hmg).
    { rewrite divide_counts_length by congruence. by rewrite Hslen. }
    cbn [mbind outcome_bind].
    edestruct (bincount_w_valid group_idx
                 (zip_with (λ x m, (x - m) * (x - m))%float a mg) n) as (sq & -> & _);
      [rewrite length_zip_with; lia|done|]. by eexists.
Qed.

Lemma _all_returns {A : Type} `{Truthy A} (group_idx : list nat) (a : ndarray A) (n : nat)
    (fill_value : float) (dtype : option dtype_t) :
  ndim a = 1 →
  length (data a) = length group_idx →
  Forall (λ g, g < n) group_idx →
  check_boolean fill_value = Ok () →
  ∃ ret, _all group_idx a (Z.of_nat n) fill_value dtype = Ok ret.
Proof.
  intros Hndim Hlen Hidx Hfill. unfold _all. rewrite Hfill. cbn [mbind outcome_bind].
  rewrite np_full_of_nat. cbn [mbind outcome_bind].
  assert (∃ r, (if py_truth fill_value then mret (replicate n (py_truth fill_value))
                else setitem (replicate n (py_truth fill_value)) group_idx (scalar0 true))
               = Ok r ∧ length r = n) as (r & -> & Hr).
  { destruct (py_truth fill_value).
    - eexists. split; [done|]. by rewrite length_replicate.
    - edestruct (setitem_returns (replicate n false) group_idx (scalar0 true)) as [r Hr];
        [by left|by rewrite length_replicate|].
      exists r. split; [done|]. apply setitem_Ok in Hr. by rewrite Hr, length_replicate. }
  cbn [mbind outcome_bind].
  edestruct (compress_returns (ndarray_map (λ x, negb (truthy x)) a) group_idx n)
    as (sel & -> & Hsel); [done|by cbn; rewrite length_fmap|done|].
  cbn [mbind outcome_bind].
  edestruct (setitem_returns r sel (scalar0 false)) as [r' ->];
    [by left|by rewrite Hr|]. by eexists.
Qed.

Lemma _any_returns {A : Type} `{Truthy A} (group_idx : list nat) (a : ndarray A) (n : nat)
    (fill_value : float) (dtype : option dtype_t) :
  ndim a = 1 →
  length (data a) = length group_idx →
  Forall (λ g, g < n) group_idx →
  check_boolean fill_value = Ok () →
  ∃ ret, _any group_idx a (Z.of_nat n) fill_value dtype = Ok ret.
Proof.
  intros Hndim Hlen Hidx Hfill. unfold _any. rewrite Hfill. cbn [mbind outcome_bind].
  rewrite np_full_of_nat. cbn [mbind outcome_bind].
  assert (∃ r, (if py_truth fill_value
                then setitem (replicate n (py_truth fill_value)) group_idx (scalar0 false)
                else mret (replicate n (py_truth fill_value)))
               = Ok r ∧ length r = n) as (r & -> & Hr).
  { destruct (py_truth fill_value).
    - edestruct (setitem_returns (replicate n true) group_idx (scalar0 false)) as [r Hr];
        [by left|by rewrite length_replicate|].
      exists r. split; [done|]. apply setitem_Ok in Hr. by rewrite Hr, length_replicate.
    - eexists. split; [done|]. by rewrite length_replicate. }
  cbn [mbind outcome_bind].
  edestruct (compress_returns (ndarray_map truthy a) group_idx n)
    as (sel & -> & Hsel); [done|by cbn; rewrite length_fmap|done|].
  cbn [mbind outcome_bind].
  edestruct (setitem_returns r sel (scalar0 true)) as [r' ->];
    [by left|by rewrite Hr|]. by eexists.
Qed.

Lemma boolean_returns (f : string) (group_idx : list nat) (a : list float) (n : nat)
    (fill_value : float) (dtype : option dtype_t) :
  f ∈ ["all"; "any"; "allnan"; "anynan"]%string →
  length a = length group_idx →
  Forall (λ g, g < n) group_idx →
  check_boolean fill_value = Ok () →
  ∃ ret, dispatch (FuncName f) group_idx (array1 a) (Z.of_nat n) fill_value dtype _impl_dict
         = Ok ret.
Proof.
  intros Hf Hlen Hidx Hfill.
  repeat (apply elem_of_cons in Hf as [-> | Hf]); [..|by apply elem_of_nil in Hf].
  - by apply _all_returns.
  - by apply _any_returns.
  - apply (_all_returns group_idx (ndarray_map np_isnan (array1 a))); [done| |done|done].
    by cbn; rewrite length_fmap.
  - apply (_any_returns group_idx (ndarray_map np_isnan (array1 a))); [done| |done|done].
    by cbn; rewrite length_fmap.
Qed.

(** ** Variance: the two formulas under exact arithmetic *)

Section exact_variance.
Import QArith_base Qreduction Qcanon.
Local Open Scope Qc_scope.

Lemma of_Z_succ (k : nat) :
  Q2Qc (inject_Z (Z.of_nat (S k))) = Q2Qc (inject_Z (Z.of_nat k)) + 1.
Proof.
  apply Qc_is_canon. cbn [this Qcplus Q2Qc].
  rewrite !Qred_correct, Nat2Z.inj_succ. unfold Z.succ.
  by rewrite inject_Z_plus.
Qed.

Lemma of_Z_nonzero (k : nat) : k ≠ 0%nat → Q2Qc (inject_Z (Z.of_nat k)) ≠ 0.
Proof.
  intros Hk Heq. apply Q2Qc_eq_iff in Heq.
  unfold Qeq, inject_Z in Heq. cbn in Heq. lia.
Qed.

(** The three running sums of a group, from arbitrary starts. *)
Lemma squared_deviations (m : Qc) (xs : list Qc) (a0 b0 c0 : Qc) :
  fold_left (λ s x, s + (x - m) * (x - m)) xs a0
  = a0 + (fold_left (λ r x, r + x * x) xs b0 - b0)
    - (1 + 1) * m * (fold_left Qcplus xs c0 - c0)
    + Q2Qc (inject_Z (Z.of_nat (length xs))) * m * m.
Proof.
  revert a0 b0 c0. induction xs as [|x xs IH]; intros a0 b0 c0.
  - cbn [fold_left length]. change (Q2Qc (inject_Z (Z.of_nat 0))) with 0. ring.
  - cbn [fold_left length].
    rewrite (IH (a0 + (x - m) * (x - m)) (b0 + x * x) (c0 + x)), of_Z_succ.
    ring.
Qed.

(** Under exact arithmetic the one-pass formula started from zero, with
    [ddof = 0], is the two-pass formula, on every non-empty group. *)
Lemma var_formulas_agree (xs : list Qc) :
  xs ≠ [] → var_one_pass (F := Qc) 0 0 xs = var_two_pass xs.
Proof.
  intros Hxs. unfold var_one_pass, var_two_pass.
  cbn [f_zero f_add f_sub f_mul f_div f_of_Z arith_exact].
  change (Q2Qc (inject_Z 0)) with 0. rewrite Z.sub_0_r.
  set (c := Q2Qc (inject_Z (Z.of_nat (length xs)))).
  assert (c ≠ 0) as Hc by (apply of_Z_nonzero; by destruct xs).
  rewrite (squared_deviations _ xs 0 0 0). fold c.
  set (sq := fold_left (λ r x, r + x * x) xs 0).
  set (sm := fold_left Qcplus xs 0).
  field. done.
Qed.

Example var_formulas_agree_1_3 :
  var_one_pass (F := Qc) 0 0 [Q2Qc (inject_Z 1); Q2Qc (inject_Z 3)] = 1
  ∧ var_two_pass [Q2Qc (inject_Z 1); Q2Qc (inject_Z 3)] = 1.
Proof. split; apply Qc_is_canon; vm_compute; reflexivity. Qed.

End exact_variance.

(** ** Variance: what the two backends compute in float64 *)

Lemma np_take_Ok {A : Type} (l : list A) (idx : list nat) (r : list A) :
  np_take l idx = Ok r → Forall2 (λ g x, l !! g = Some x) idx r.
Proof.
  unfold np_take. destruct (mapM _ idx) as [r'|] eqn:Hr; [|done]. intros [= <-].
  by apply mapM_Some_1 in Hr.
Qed.

Lemma group_values_zip_with {A B C : Type} (f : A → B → C) (idx : list nat) (a : list A)
    (b : list B) (g : nat) (m : B) :
  length a = length idx →
  Forall2 (λ gi mi, gi = g → mi = m) idx b →
  group_values idx (zip_with f a b) g = (λ x, f x m) <$> group_values idx a g.
Proof.
  intros Hlen Hb. revert a Hlen.
  induction Hb as [|g0 m0 idx b Hm _ IH]; intros [|x a] Hlen; try done.
  cbn [zip_with]. rewrite !group_values_cons.
  destruct (decide (g0 = g)) as [Hg|Hg].
  - rewrite fmap_cons, (Hm Hg). f_equal. apply IH. by injection Hlen.
  - apply IH. by injection Hlen.
Qed.

Lemma fold_left_add_fmap {A : Type} (f : A → float) (l : list A) (s : float) :
  fold_left PrimFloat.add (f <$> l) s = fold_left (λ s x, s + f x)%float l s.
Proof. revert s. induction l as [|x l IH]; intros s; [done|]. rewrite fmap_cons. apply IH. Qed.

(** In every slot, before the fill value is put in, [_var] leaves the
    two-pass variance of the values of the group (NaN, from 0/0, for an
    empty group). *)
Lemma _var_group (group_idx : list nat) (a : list float) (n : nat) (fill_value : float)
    (dtype : option dtype_t) :
  length a = length group_idx →
  Forall (λ g, g < n) group_idx →
  is_float_dtype dtype = true →
  ∃ ret, _var group_idx (array1 a) (Z.of_nat n) fill_value dtype false = Ok (DFloat ret)
    ∧ length ret = n
    ∧ ∀ g, g < n →
        ret !! g = Some (if (group_count group_idx g =? 0) && negb (np_isnan fill_value)
                         then fill_value
                         else var_two_pass (group_values group_idx a g)).
Proof.
  intros Hlen Hidx Hdt.
  destruct (bincount_valid group_idx n Hidx) as (counts & Hcounts & Hclen & Hc).
  destruct (bincount_w_valid group_idx a n Hlen Hidx) as (sums & Hsums & Hslen & Hs).
  unfold _var. change (ndim (array1 a) =? 0) with false. cbn iota.
  rewrite float_or_float by done. cbn [mbind outcome_bind data array1].
  rewrite Hcounts. cbn [mbind outcome_bind]. rewrite Hsums. cbn [mbind outcome_bind].
  assert (length (divide_counts sums counts) = n) as Hmlen
    by (rewrite divide_counts_length; congruence).
  destruct (np_take_returns (divide_counts sums counts) group_idx) as (mg & Hmg & Hmglen);
    [by rewrite Hmlen|].
  rewrite Hmg. cbn [mbind outcome_bind]. apply np_take_Ok in Hmg.
  set (w := zip_with (λ x m, (x - m) * (x - m))%float a mg).
  destruct (bincount_w_valid group_idx w n) as (sq & -> & Hsqlen & Hsq);
    [unfold w; rewrite length_zip_with; lia|done|].
  cbn [mbind outcome_bind]. unfold mret, outcome_ret.
  assert (length (divide_counts sq counts) = n) as Hrlen
    by (rewrite divide_counts_length; congruence).
  assert (∀ g, g < n →
            divide_counts sq counts !! g
            = Some (var_two_pass (group_values group_idx a g))) as Hret.
  { intros g Hg.
    rewrite (divide_counts_lookup _ _ _ _ _ (Hsq g Hg) (Hc g Hg)). f_equal.
    unfold group_sum, w.
    rewrite (group_values_zip_with _ _ _ _ g
               (group_sum group_idx a g / float_of_nat (group_count group_idx g))%float);
      [|done|].
    - rewrite fold_left_add_fmap.
      unfold var_two_pass. rewrite group_values_length by done. reflexivity.
    - eapply Forall2_impl; [exact Hmg|]. cbn. intros gi mi Hmi ->.
      rewrite (divide_counts_lookup _ _ _ _ _ (Hs g Hg) (Hc g Hg)) in Hmi. congruence. }
  eexists. split; [done|]. cbn iota. split.
  - destruct (negb (np_isnan fill_value)); by rewrite ?mask_assign_length.
  - intros g Hg. destruct (negb (np_isnan fill_value)).
    + rewrite mask_assign_lookup, (Hret g Hg), list_lookup_fmap, (Hc g Hg). cbn.
      by rewrite andb_true_r.
    + by rewrite andb_false_r, (Hret g Hg).
Qed.

Import aggregate_weave.

Lemma c_funcs_var (env : cenv) :
  dict_get (c_funcs env) "var"
  = Some (c_base var_iter (default id (dict_get (c_finish env) "var"))).
Proof. reflexivity. Qed.

Lemma var_loop (l : list (nat * float)) (s : cstate) :
  let s' := fold_left (λ s gx, var_iter s gx.1 gx.2) l s in
  ret s' = fold_left (λ r gx, alter (λ r, r + gx.2 * gx.2)%float gx.1 r) l (ret s)
  ∧ means s' = fold_left (λ m gx, alter (λ m, m + gx.2)%float gx.1 m) l (means s)
  ∧ counter s' = fold_left (λ c gx, alter (λ c, Z.succ c) gx.1 c) l (counter s).
Proof.
  revert s. induction l as [|[g x] l IH]; intros s; [done|].
  cbn [fold_left]. apply IH.
Qed.

Lemma fold_left_succ {B : Type} (l : list B) (c : Z) :
  fold_left (λ c _, Z.succ c) l c = (c + Z.of_nat (length l))%Z.
Proof.
  revert c. induction l as [|x l IH]; intros c; cbn [fold_left length]; [lia|].
  rewrite IH. lia.
Qed.

Lemma aggregate_kernel_var (group_idx : list nat) (a : list float) (n : nat)
    (fill_value : float) (ddof : Z) :
  aggregate_kernel "var" group_idx a n fill_value ddof
  = if existsb (λ g, n <=? g) group_idx || negb (length a =? length group_idx)
    then OutOfModel
    else Ok (ret (c_base var_iter (default id (dict_get (c_finish (mk_cenv fill_value ddof)) "var"))
                    group_idx a
                    (mk_cstate (replicate n fill_value) (replicate n 0%Z)
                       (replicate n 0%float)))).
Proof. reflexivity. Qed.

(** The var kernel leaves in the slot of a non-empty group the one-pass
    variance whose sum of squares starts from the content [ret] was
    allocated with, which is [fill_value]; an empty group holds
    [fill_value]. *)
Lemma weave_var_group (group_idx : list nat) (a : list float) (n : nat) (fill_value : float)
    (ddof : Z) :
  length a = length group_idx →
  Forall (λ g, g < n) group_idx →
  ∃ ret, aggregate_kernel "var" group_idx a n fill_value ddof = Ok ret
    ∧ length ret = n
    ∧ ∀ g, g < n →
        ret !! g = Some (if group_count group_idx g =? 0 then fill_value
                         else var_one_pass fill_value ddof (group_values group_idx a g)).
Proof.
  intros Hlen Hidx. rewrite aggregate_kernel_var.
  rewrite existsb_out_of_bounds by done. rewrite Hlen, Nat.eqb_refl.
  cbn [orb negb]. unfold c_base.
  set (s0 := mk_cstate _ _ _).
  destruct (var_loop (zip group_idx a) s0) as (Hret & Hmeans & Hcounter).
  set (s' := fold_left _ _ s0) in *.
  eexists. split; [done|].
  assert (length (ret s') = n) as Hrlen.
  { rewrite Hret, (alter_fold_length (λ gx r, (r + gx.2 * gx.2)%float) fst).
    apply length_replicate. }
  split.
  - cbn. unfold for_each_slot. cbn [ret]. by rewrite length_imap.
  - intros g Hg. cbn. unfold for_each_slot. cbn [ret counter means].
    rewrite list_lookup_imap, Hret, Hmeans, Hcounter.
    rewrite (alter_fold_lookup (λ r x, r + x * x)%float).
    rewrite (alter_fold_lookup (λ m x, m + x)%float).
    rewrite (alter_fold_lookup (λ c (_ : float), Z.succ c)).
    cbn [ret counter means s0]. rewrite !lookup_replicate_2 by done.
    cbn [fmap option_fmap option_map default]. f_equal.
    rewrite fold_left_succ, Z.add_0_l, <- (group_values_length group_idx a g) by done.
    destruct (group_values group_idx a g) as [|x xs] eqn:Hvals; [done|].
    reflexivity.
Qed.

(** C8. The weave kernel does not return what the numpy backend returns
    for var, std and mean when [fill_value] is not zero: it accumulates
    onto [ret], which it allocated filled with [fill_value]. For
    [group_idx=[0,0]], [a=[1,3]], [fill_value=1] numpy's var is [[1]] and
    weave's is [[1.5]]; with [fill_value=nan] every group of weave's result
    is NaN; with [fill_value=0] the two agree on this input. *)
Theorem C8_weave_fill_value :
  (aggregate (array1 [0; 0]%Z) (array1 [1; 3]%float) (FuncName "var") SizeNone 1%float OrderF
     None _impl_dict = Ok (mk_result [1] (DFloat [1%float]))
   ∧ aggregate_kernel "var" [0; 0] [1; 3]%float 1 1%float 0 = Ok [1.5%float])
  ∧ (aggregate (array1 [0; 0]%Z) (array1 [1; 3]%float) (FuncName "std") SizeNone 1%float OrderF
       None _impl_dict = Ok (mk_result [1] (DFloat [1%float]))
     ∧ aggregate_kernel "std" [0; 0] [1; 3]%float 1 1%float 0
       = Ok [PrimFloat.sqrt 1.5%float])
  ∧ (aggregate (array1 [0; 0]%Z) (array1 [1; 3]%float) (FuncName "mean") SizeNone 1%float
       OrderF None _impl_dict = Ok (mk_result [1] (DFloat [2%float]))
     ∧ aggregate_kernel "mean" [0; 0] [1; 3]%float 1 1%float 0 = Ok [2.5%float])
  ∧ (aggregate (array1 [0; 0]%Z) (array1 [1; 3]%float) (FuncName "var") (SizeScalar 2)
       nan OrderF None _impl_dict = Ok (mk_result [2] (DFloat [1%float; nan]))
     ∧ aggregate_kernel "var" [0; 0] [1; 3]%float 2 nan 0 = Ok [nan; nan])
  ∧ (aggregate (array1 [0; 0]%Z) (array1 [1; 3]%float) (FuncName "var") SizeNone 0%float OrderF
       None _impl_dict = Ok (mk_result [1] (DFloat [1%float]))
     ∧ aggregate_kernel "var" [0; 0] [1; 3]%float 1 0%float 0 = Ok [1%float]).
Proof. repeat split; vm_compute; reflexivity. Qed.

(** ** Reverse symmetry of first and last *)

Lemma size_1d_reverse (group_idx : list nat) (size : size_arg) :
  size_1d (reverse group_idx) size = size_1d group_idx size.
Proof.
  destruct size as [|s|ns]; cbn [size_1d]; [| |done].
  - pose proof (max_list_with_reverse id group_idx) as Hm.
    pose proof (length_reverse group_idx) as Hl.
    destruct (reverse group_idx) as [|g' l'], group_idx as [|g l]; try done.
    by rewrite Hm.
  - assert (forallb (λ g, Z.of_nat g <? s)%Z (reverse group_idx)
            = forallb (λ g, Z.of_nat g <? s)%Z group_idx) as ->; [|done].
    apply eq_true_iff_eq. rewrite !forallb_forall. split; intros Hall g Hg; apply Hall.
    + apply list_elem_of_In. apply list_elem_of_In in Hg. by rewrite elem_of_reverse.
    + apply list_elem_of_In. apply list_elem_of_In in Hg. by rewrite elem_of_reverse in Hg.
Qed.

(** On a valid 1-d call, last on the input is first on the reversed input. *)
Lemma last_is_first_reversed (group_idx : list nat) (a : list float) (size : size_arg)
    (n : nat) (fill_value : float) (order : order_t) (dtype : option dtype_t) :
  length a = length group_idx →
  size_1d group_idx size = Some n →
  is_float_dtype dtype = true →
  aggregate (idx_array group_idx) (array1 a) (FuncName "last") size fill_value order dtype
    _impl_dict
  = aggregate (idx_array (reverse group_idx)) (array1 (reverse a)) (FuncName "first") size
      fill_value order dtype _impl_dict.
Proof.
  intros Hlen Hsize Hdt.
  pose proof (size_1d_bound _ _ _ Hsize) as Hidx.
  rewrite (aggregate_1d_valid _ _ _ _ n); [|done|right; by rewrite <- Hlen].
  rewrite (aggregate_1d_valid _ _ _ _ n);
    [|by rewrite size_1d_reverse|right; split; [done|]; cbn; by rewrite !length_reverse].
  change (dispatch (FuncName "last") ?g ?x ?k ?fv ?dt _impl_dict) with (_last g x k fv dt).
  change (dispatch (FuncName "first") ?g ?x ?k ?fv ?dt _impl_dict) with (_first g x k fv dt).
  rewrite _last_valid by done.
  rewrite _first_valid; [|by rewrite !length_reverse|by apply Forall_reverse|done].
  by rewrite !reverse_involutive.
Qed.

Lemma last_is_first_reversed_witness :
  aggregate (idx_array [1; 0; 1]) (array1 [5; 6; 7]%float) (FuncName "last") SizeNone 0%float
    OrderF None _impl_dict
  = aggregate (idx_array (reverse [1; 0; 1])) (array1 (reverse [5; 6; 7]%float))
      (FuncName "first") SizeNone 0%float OrderF None _impl_dict.
Proof.
  apply (last_is_first_reversed [1; 0; 1] [5; 6; 7]%float SizeNone 2 0%float OrderF None);
    reflexivity.
Defined.

Lemma _var_group_witness :
  ∃ ret, _var [0; 0; 2] (array1 [1; 3; 5]%float) (Z.of_nat 3) 7%float None false
         = Ok (DFloat ret)
    ∧ length ret = 3
    ∧ ∀ g, g < 3 →
        ret !! g = Some (if (group_count [0; 0; 2] g =? 0) && negb (np_isnan 7)
                         then 7%float
                         else var_two_pass (group_values [0; 0; 2] [1; 3; 5]%float g)).
Proof.
  apply (_var_group [0; 0; 2] [1; 3; 5]%float 3 7%float None);
    [reflexivity|repeat constructor|reflexivity].
Defined.

Lemma weave_var_group_witness :
  ∃ ret, aggregate_kernel "var" [0; 0; 2] [1; 3; 5]%float 3 7%float 0 = Ok ret
    ∧ length ret = 3
    ∧ ∀ g, g < 3 →
        ret !! g = Some (if group_count [0; 0; 2] g =? 0 then 7%float
                         else var_one_pass 7%float 0 (group_values [0; 0; 2] [1; 3; 5]%float g)).
Proof.
  apply (weave_var_group [0; 0; 2] [1; 3; 5]%float 3 7%float 0);
    [reflexivity|repeat constructor].
Defined.

Lemma var_formulas_agree_witness :
  var_one_pass (F := Qcanon.Qc) (Qcanon.Q2Qc (QArith_base.inject_Z 0)) 0
    [Qcanon.Q2Qc (QArith_base.inject_Z 1); Qcanon.Q2Qc (QArith_base.inject_Z 3)]
  = var_two_pass [Qcanon.Q2Qc (QArith_base.inject_Z 1); Qcanon.Q2Qc (QArith_base.inject_Z 3)].
Proof.
  apply (var_formulas_agree
           [Qcanon.Q2Qc (QArith_base.inject_Z 1); Qcanon.Q2Qc (QArith_base.inject_Z 3)]).
  discriminate.
Defined.

(** Comparison with a finite non-zero double decides equality. *)
Lemma SFcompare_Eq_finite (x : spec_float) (s : bool) (m : positive) (e : Z) :
  SFcompare x (S754_finite s m e) = Some Eq → x = S754_finite s m e.
Proof.
  destruct x as [sx|sx| |sx mx ex]; cbn [SFcompare]; try (by destruct s); try (by destruct sx).
  destruct sx, s; try done.
  - destruct (Z.compare_spec ex e) as [->| |]; try done.
    intros [= Hc]. apply CompOpp_iff in Hc. cbn in Hc.
    by apply (Pos.compare_eq mx m) in Hc as ->.
  - destruct (Z.compare_spec ex e) as [->| |]; try done.
    intros [= Hc]. by apply (Pos.compare_eq mx m) in Hc as ->.
Qed.

Lemma py_eq_finite (x c : float) (s : bool) (m : positive) (e : Z) :
  Prim2SF c = S754_finite s m e → py_eq x c = true → x = c.
Proof.
  intros Hc Heq. unfold py_eq in Heq. rewrite FloatAxioms.eqb_spec, Hc in Heq. unfold SFeqb in Heq.
  apply Prim2SF_inj. rewrite Hc. apply SFcompare_Eq_finite.
  destruct (SFcompare _ _) as [[]|]; done.
Qed.

Lemma py_ne_1 (x : float) : py_ne x 1 = false → x = 1%float.
Proof.
  unfold py_ne. intros H%negb_false_iff. by eapply (py_eq_finite x 1).
Qed.

Lemma py_ne_dmax (x : float) : py_ne x dmax = false → x = dmax.
Proof.
  unfold py_ne. intros H%negb_false_iff. by eapply (py_eq_finite x dmax).
Qed.

Lemma py_ne_dmin (x : float) : py_ne x dmin = false → x = dmin.
Proof.
  unfold py_ne. intros H%negb_false_iff. by eapply (py_eq_finite x dmin).
Qed.
(** A scatter of one constant: every named slot holds it. *)
Lemma scatter_const_lookup {A : Type} (idx : list nat) (c : A) (ret : list A) (g : nat) :
  g < length ret →
  fold_left (λ r gx, <[gx.1 := gx.2]> r) (zip idx (replicate (length idx) c)) ret !! g
  = if bool_decide (g ∈ idx) then Some c else ret !! g.
Proof.
  revert ret. induction idx as [|g0 idx IH]; intros ret Hg; [done|].
  cbn [length replicate zip zip_with fold_left fst snd].
  rewrite IH by (by rewrite length_insert).
  destruct (decide (g0 = g)) as [->|Hne].
  - rewrite list_lookup_insert_eq by done.
    rewrite (bool_decide_eq_true_2 (g ∈ g :: idx)) by apply list_elem_of_here.
    by case_bool_decide.
  - rewrite list_lookup_insert_ne by done.
    destruct (bool_decide_reflect (g ∈ idx)) as [Hin|Hnin].
    + rewrite bool_decide_eq_true_2; [done|by apply list_elem_of_further].
    + rewrite bool_decide_eq_false_2; [done|]. rewrite not_elem_of_cons. split; [done|done].
Qed.

(** A scatter leaves in a slot the last value of its group. *)
Lemma scatter_group_lookup {A : Type} (idx : list nat) (vals ret : list A) (g : nat) :
  length vals = length idx →
  fold_left (λ r gx, <[gx.1 := gx.2]> r) (zip idx vals) ret !! g
  = (λ r0, default r0 (last (group_values idx vals g))) <$> ret !! g.
Proof.
  revert vals ret. induction idx as [|g0 idx IH]; intros [|v vals] ret Hlen; try done.
  - simpl. by destruct (ret !! g).
  - cbn [zip zip_with fold_left fst snd]. rewrite IH by (by injection Hlen).
    rewrite group_values_cons.
    destruct (decide (g0 = g)) as [->|Hne].
    + destruct (decide (g < length ret)) as [Hlt|Hge].
      * rewrite list_lookup_insert_eq by done.
        destruct (lookup_lt_is_Some_2 ret g Hlt) as [r0 ->]. cbn.
        rewrite last_cons. by destruct (last (group_values idx vals g)).
      * rewrite !(lookup_ge_None_2) ; [done|lia|rewrite length_insert; lia].
    + by rewrite list_lookup_insert_ne.
Qed.

Lemma group_values_app {A : Type} (idx1 idx2 : list nat) (a1 a2 : list A) (g : nat) :
  length a1 = length idx1 →
  group_values (idx1 ++ idx2) (a1 ++ a2) g = group_values idx1 a1 g ++ group_values idx2 a2 g.
Proof.
  intros Hlen. unfold group_values.
  rewrite zip_with_app by done. by rewrite filter_app, fmap_app.
Qed.

Lemma group_values_reverse {A : Type} (idx : list nat) (a : list A) (g : nat) :
  length a = length idx →
  group_values (reverse idx) (reverse a) g = reverse (group_values idx a g).
Proof.
  revert a. induction idx as [|g0 idx IH]; intros [|x a] Hlen; try done.
  rewrite !reverse_cons, group_values_app by (rewrite !length_reverse; by injection Hlen).
  rewrite IH by (by injection Hlen). rewrite group_values_cons.
  change ([g0]) with (g0 :: []). change ([x]) with (x :: []). rewrite group_values_cons.
  destruct (decide (g0 = g)); [by rewrite reverse_cons|].
  change (group_values [] [] g) with (@nil A). by rewrite app_nil_r.
Qed.

Lemma group_values_nil {A : Type} (idx : list nat) (a : list A) (g : nat) :
  length a = length idx → group_values idx a g = [] ↔ g ∉ idx.
Proof.
  intros Hlen. rewrite <- group_count_0, <- (group_values_length idx a g) by done.
  by destruct (group_values idx a g).
Qed.

Lemma ufunc_at_lookup {A : Type} (op : A → A → A) (init : list A) (idx : list nat)
    (a : list A) :
  length a = length idx →
  Forall (λ g, g < length init) idx →
  ∃ ret, ufunc_at op init idx (array1 a) = Ok ret
    ∧ length ret = length init
    ∧ ∀ g, ret !! g = (λ x, fold_left op (group_values idx a g) x) <$> init !! g.
Proof.
  intros Hlen Hidx. unfold ufunc_at.
  rewrite existsb_out_of_bounds by done.
  rewrite broadcast_to_array1 by done. cbn [mbind outcome_bind]. unfold mret, outcome_ret.
  eexists. split; [done|]. split.
  - by rewrite (alter_fold_length (λ gx y, op y gx.2) fst).
  - intros g. by rewrite (alter_fold_lookup op).
Qed.

(** [ret = np.full(n, fill_value); if fill_value != c: ret[group_idx] = c]:
    the slots of the groups hold the start value [c] of the reduction. *)
Lemma seed_lookup (c fill_value : float) (idx : list nat) (n : nat) :
  Forall (λ g, g < n) idx →
  (py_ne fill_value c = false → fill_value = c) →
  ∃ init, (if py_ne fill_value c then setitem (replicate n fill_value) idx (scalar0 c)
           else mret (replicate n fill_value)) = Ok init
    ∧ length init = n
    ∧ ∀ g, g < n → init !! g = Some (if bool_decide (g ∈ idx) then c else fill_value).
Proof.
  intros Hidx Hc. destruct (py_ne fill_value c).
  - rewrite setitem_scalar, setitem_array1;
      [|apply length_replicate|by rewrite length_replicate].
    eexists. split; [done|]. split.
    + by rewrite scatter_length, length_replicate.
    + intros g Hg. rewrite scatter_const_lookup by (by rewrite length_replicate).
      case_bool_decide; [done|]. by rewrite lookup_replicate_2.
  - rewrite Hc by done. eexists. split; [done|]. split; [apply length_replicate|].
    intros g Hg. rewrite lookup_replicate_2 by done. by case_bool_decide.
Qed.

(** The three reductions built on [ufunc.at] (lines 74-80, 103-119). *)
Lemma seeded_at_lookup (op : float → float → float) (c fill_value : float) (idx : list nat)
    (a : list float) (n : nat) :
  length a = length idx →
  Forall (λ g, g < n) idx →
  (py_ne fill_value c = false → fill_value = c) →
  ∃ ret,
    (ret ← np_full (Z.of_nat n) fill_value;
     ret ← (if py_ne fill_value c then setitem ret idx (scalar0 c) else mret ret);
     ret ← ufunc_at op ret idx (array1 a);
     mret (DFloat ret)) = Ok (DFloat ret)
    ∧ length ret = n
    ∧ ∀ g, g < n →
        ret !! g = Some (match group_values idx a g with
                         | [] => fill_value
                         | xs => fold_left op xs c
                         end).
Proof.
  intros Hlen Hidx Hc. rewrite np_full_of_nat. cbn [mbind outcome_bind].
  destruct (seed_lookup c fill_value idx n Hidx Hc) as (init & -> & Hilen & Hinit).
  cbn [mbind outcome_bind].
  destruct (ufunc_at_lookup op init idx a Hlen) as (ret & -> & Hrlen & Hret);
    [by rewrite Hilen|].
  cbn [mbind outcome_bind]. exists ret. split; [done|]. split; [congruence|].
  intros g Hg. rewrite Hret, (Hinit g Hg). cbn.
  pose proof (group_values_nil idx a g Hlen) as Hnil.
  case_bool_decide as Hin.
  - destruct (group_values idx a g); [|done]. tauto.
  - by rewrite (proj2 Hnil Hin).
Qed.

(** ** Every slot from its group *)

Lemma reduce_cell_sum (fill_value : float) (xs : list float) :
  reduce_cell "sum" fill_value xs
  = Some (CFloat (match xs with
                  | [] => if py_ne fill_value 0 then fill_value else 0%float
                  | _ => fold_left PrimFloat.add xs 0%float
                  end)).
Proof. reflexivity. Qed.

Lemma _sum_cells (idx : list nat) (a : list float) (n : nat) (fill_value : float)
    (dtype : option dtype_t) :
  length a = length idx → Forall (λ g, g < n) idx → is_float_dtype dtype = true →
  ∃ ret, _sum idx (array1 a) (Z.of_nat n) fill_value dtype = Ok ret
    ∧ dense_length ret = n
    ∧ ∀ g, g < n → dense_lookup ret g = reduce_cell "sum" fill_value (group_values idx a g).
Proof.
  intros Hlen Hidx Hdt.
  destruct (bincount_w_valid idx a n Hlen Hidx) as (sums & Hsums & Hslen & Hs).
  unfold _sum. rewrite minimum_dtype_float by done. cbn [mbind outcome_bind].
  change (ndim (array1 a) =? 0) with false. cbn [data array1].
  rewrite Hsums. cbn [mbind outcome_bind]. unfold mret, outcome_ret.
  eexists. split; [done|]. split.
  - cbn. destruct (py_ne fill_value 0); by rewrite ?fill_untouched_length.
  - intros g Hg. cbn [dense_lookup].
    pose proof (group_values_nil idx a g Hlen) as Hnil.
    rewrite reduce_cell_sum.
    destruct (py_ne fill_value 0).
    + rewrite fill_untouched_lookup, (Hs g Hg). cbn. unfold group_sum.
      case_bool_decide as Hin.
      * destruct (group_values idx a g); [tauto|done].
      * by rewrite (proj2 Hnil Hin).
    + rewrite (Hs g Hg). cbn. unfold group_sum. by destruct (group_values idx a g).
Qed.

Lemma _prod_cells (idx : list nat) (a : list float) (n : nat) (fill_value : float)
    (dtype : option dtype_t) :
  length a = length idx → Forall (λ g, g < n) idx → is_float_dtype dtype = true →
  ∃ ret, _prod idx (array1 a) (Z.of_nat n) fill_value dtype = Ok ret
    ∧ dense_length ret = n
    ∧ ∀ g, g < n → dense_lookup ret g = reduce_cell "prod" fill_value (group_values idx a g).
Proof.
  intros Hlen Hidx Hdt.
  destruct (seeded_at_lookup PrimFloat.mul 1 fill_value idx a n Hlen Hidx (py_ne_1 _))
    as (ret & Hret & Hrlen & Hg).
  unfold _prod. rewrite minimum_dtype_float by done. cbn [mbind outcome_bind].
  rewrite Hret. exists (DFloat ret). split; [done|]. split; [done|].
  intros g Hlt. cbn [dense_lookup]. rewrite (Hg g Hlt). by destruct (group_values idx a g).
Qed.

Lemma _min_cells (idx : list nat) (a : list float) (n : nat) (fill_value : float)
    (dtype : option dtype_t) :
  length a = length idx → Forall (λ g, g < n) idx → is_float_dtype dtype = true →
  ∃ ret, _min idx (array1 a) (Z.of_nat n) fill_value dtype = Ok ret
    ∧ dense_length ret = n
    ∧ ∀ g, g < n → dense_lookup ret g = reduce_cell "min" fill_value (group_values idx a g).
Proof.
  intros Hlen Hidx Hdt.
  destruct (seeded_at_lookup np_minimum dmax fill_value idx a n Hlen Hidx (py_ne_dmax _))
    as (ret & Hret & Hrlen & Hg).
  unfold _min. rewrite minimum_dtype_float by done. cbn [mbind outcome_bind].
  rewrite Hret. exists (DFloat ret). split; [done|]. split; [done|].
  intros g Hlt. cbn [dense_lookup]. rewrite (Hg g Hlt). by destruct (group_values idx a g).
Qed.

Lemma _max_cells (idx : list nat) (a : list float) (n : nat) (fill_value : float)
    (dtype : option dtype_t) :
  length a = length idx → Forall (λ g, g < n) idx → is_float_dtype dtype = true →
  ∃ ret, _max idx (array1 a) (Z.of_nat n) fill_value dtype = Ok ret
    ∧ dense_length ret = n
    ∧ ∀ g, g < n → dense_lookup ret g = reduce_cell "max" fill_value (group_values idx a g).
Proof.
  intros Hlen Hidx Hdt.
  destruct (seeded_at_lookup np_maximum dmin fill_value idx a n Hlen Hidx (py_ne_dmin _))
    as (ret & Hret & Hrlen & Hg).
  unfold _max. rewrite minimum_dtype_float by done. cbn [mbind outcome_bind].
  rewrite Hret. exists (DFloat ret). split; [done|]. split; [done|].
  intros g Hlt. cbn [dense_lookup]. rewrite (Hg g Hlt). by destruct (group_values idx a g).
Qed.

Lemma _last_cells (idx : list nat) (a : list float) (n : nat) (fill_value : float)
    (dtype : option dtype_t) :
  length a = length idx → Forall (λ g, g < n) idx → is_float_dtype dtype = true →
  ∃ ret, _last idx (array1 a) (Z.of_nat n) fill_value dtype = Ok ret
    ∧ dense_length ret = n
    ∧ ∀ g, g < n → dense_lookup ret g = reduce_cell "last" fill_value (group_values idx a g).
Proof.
  intros Hlen Hidx Hdt. rewrite _last_valid by done.
  eexists. split; [done|]. split.
  - cbn. by rewrite scatter_length, length_replicate.
  - intros g Hg. cbn [dense_lookup].
    rewrite scatter_group_lookup, lookup_replicate_2 by done. done.
Qed.

Lemma _first_cells (idx : list nat) (a : list float) (n : nat) (fill_value : float)
    (dtype : option dtype_t) :
  length a = length idx → Forall (λ g, g < n) idx → is_float_dtype dtype = true →
  ∃ ret, _first idx (array1 a) (Z.of_nat n) fill_value dtype = Ok ret
    ∧ dense_length ret = n
    ∧ ∀ g, g < n → dense_lookup ret g = reduce_cell "first" fill_value (group_values idx a g).
Proof.
  intros Hlen Hidx Hdt. rewrite _first_valid by done.
  eexists. split; [done|]. split.
  - cbn. by rewrite scatter_length, length_replicate.
  - intros g Hg. cbn [dense_lookup].
    rewrite scatter_group_lookup, lookup_replicate_2 by (done || by rewrite !length_reverse).
    rewrite group_values_reverse, last_reverse by done. done.
Qed.

Lemma _mean_cells (idx : list nat) (a : list float) (n : nat) (fill_value : float)
    (dtype : option dtype_t) :
  length a = length idx → Forall (λ g, g < n) idx → is_float_dtype dtype = true →
  ∃ ret, _mean idx (array1 a) (Z.of_nat n) fill_value dtype = Ok ret
    ∧ dense_length ret = n
    ∧ ∀ g, g < n → dense_lookup ret g = reduce_cell "mean" fill_value (group_values idx a g).
Proof.
  intros Hlen Hidx Hdt.
  destruct (bincount_valid idx n Hidx) as (counts & Hcounts & Hclen & Hc).
  destruct (bincount_w_valid idx a n Hlen Hidx) as (sums & Hsums & Hslen & Hs).
  assert (length (divide_counts sums counts) = n) as Hdlen
    by (rewrite divide_counts_length; congruence).
  unfold _mean. change (ndim (array1 a) =? 0) with false. cbn iota.
  rewrite float_or_float by done. cbn [mbind outcome_bind].
  rewrite Hcounts. cbn [mbind outcome_bind data array1].
  rewrite Hsums. cbn [mbind outcome_bind]. unfold mret, outcome_ret.
  eexists. split; [done|]. split.
  - cbn. destruct (np_isnan fill_value); cbn [negb]; by rewrite ?mask_assign_length.
  - intros g Hg. cbn [dense_lookup].
    pose proof (divide_counts_lookup _ _ _ _ _ (Hs g Hg) (Hc g Hg)) as Hq.
    pose proof (group_values_length idx a g Hlen) as Hcnt.
    change (reduce_cell "mean" fill_value (group_values idx a g))
      with (Some (CFloat match group_values idx a g with
                         | [] => if np_isnan fill_value then (0 / 0)%float else fill_value
                         | _ => (fold_left PrimFloat.add (group_values idx a g) 0
                                 / float_of_nat (length (group_values idx a g)))%float
                         end)).
    rewrite Hcnt. unfold group_sum in Hq.
    destruct (np_isnan fill_value); cbn [negb].
    + rewrite Hq. cbn. rewrite <- Hcnt. by destruct (group_values idx a g).
    + rewrite mask_assign_lookup, Hq, list_lookup_fmap, (Hc g Hg). cbn.
      rewrite <- Hcnt. by destruct (group_values idx a g).
Qed.

Lemma _var_cells (idx : list nat) (a : list float) (n : nat) (fill_value : float)
    (dtype : option dtype_t) (sqrt : bool) :
  length a = length idx → Forall (λ g, g < n) idx → is_float_dtype dtype = true →
  ∃ ret, _var idx (array1 a) (Z.of_nat n) fill_value dtype sqrt = Ok ret
    ∧ dense_length ret = n
    ∧ ∀ g, g < n →
        dense_lookup ret g
        = reduce_cell (if sqrt then "std" else "var") fill_value (group_values idx a g).
Proof.
  intros Hlen Hidx Hdt.
  destruct (bincount_valid idx n Hidx) as (counts & Hcounts & Hclen & Hc).
  destruct (bincount_w_valid idx a n Hlen Hidx) as (sums & Hsums & Hslen & Hs).
  unfold _var. change (ndim (array1 a) =? 0) with false. cbn iota.
  rewrite float_or_float by done. cbn [mbind outcome_bind data array1].
  rewrite Hcounts. cbn [mbind outcome_bind]. rewrite Hsums. cbn [mbind outcome_bind].
  assert (length (divide_counts sums counts) = n) as Hmlen
    by (rewrite divide_counts_length; congruence).
  destruct (np_take_returns (divide_counts sums counts) idx) as (mg & Hmg & Hmglen);
    [by rewrite Hmlen|].
  rewrite Hmg. cbn [mbind outcome_bind]. apply np_take_Ok in Hmg.
  set (w := zip_with (λ x m, (x - m) * (x - m))%float a mg).
  destruct (bincount_w_valid idx w n) as (sq & -> & Hsqlen & Hsq);
    [unfold w; rewrite length_zip_with; lia|done|].
  cbn [mbind outcome_bind]. unfold mret, outcome_ret.
  assert (length (divide_counts sq counts) = n) as Hrlen
    by (rewrite divide_counts_length; congruence).
  assert (∀ g, g < n →
            divide_counts sq counts !! g = Some (var_two_pass (group_values idx a g))) as Hret.
  { intros g Hg.
    rewrite (divide_counts_lookup _ _ _ _ _ (Hsq g Hg) (Hc g Hg)). f_equal.
    unfold group_sum, w.
    rewrite (group_values_zip_with _ _ _ _ g
               (group_sum idx a g / float_of_nat (group_count idx g))%float); [|done|].
    - rewrite fold_left_add_fmap.
      unfold var_two_pass. rewrite group_values_length by done. reflexivity.
    - eapply Forall2_impl; [exact Hmg|]. cbn. intros gi mi Hmi ->.
      rewrite (divide_counts_lookup _ _ _ _ _ (Hs g Hg) (Hc g Hg)) in Hmi. congruence. }
  eexists. split; [done|]. split.
  - cbn. destruct sqrt, (negb (np_isnan fill_value));
      by rewrite ?mask_assign_length, ?length_fmap.
  - intros g Hg. cbn [dense_lookup].
    pose proof (group_values_length idx a g Hlen) as Hcnt.
    assert ((if sqrt then PrimFloat.sqrt <$> divide_counts sq counts
             else divide_counts sq counts) !! g
            = Some (if sqrt then PrimFloat.sqrt (var_two_pass (group_values idx a g))
                    else var_two_pass (group_values idx a g))) as Hv.
    { destruct sqrt; by rewrite ?list_lookup_fmap, (Hret g Hg). }
    destruct (np_isnan fill_value) eqn:Hnan; cbn [negb].
    + rewrite Hv. destruct sqrt; cbn; unfold reduce_cell; cbn; rewrite Hnan;
        by destruct (group_values idx a g).
    + rewrite mask_assign_lookup, Hv, list_lookup_fmap, (Hc g Hg). cbn.
      rewrite <- Hcnt.
      destruct sqrt; cbn; unfold reduce_cell; cbn; rewrite Hnan;
        by destruct (group_values idx a g).
Qed.

(** The indices [compress] keeps name the groups that hold a selected value. *)
Lemma elem_of_mask_select_group {A : Type} (p : A → bool) (idx : list nat) (a : list A)
    (g : nat) :
  length a = length idx →
  g ∈ mask_select (p <$> a) idx ↔ existsb p (group_values idx a g) = true.
Proof.
  revert a. induction idx as [|g0 idx IH]; intros [|x a] Hlen; try done.
  - cbn. split; [by intros ?%elem_of_nil|done].
  - rewrite fmap_cons, group_values_cons. cbn [mask_select].
    specialize (IH a ltac:(by injection Hlen)).
    destruct (p x) eqn:Hp, (decide (g0 = g)) as [->|Hne]; cbn [existsb].
    + rewrite Hp. cbn. split; [done|intros _; apply list_elem_of_here].
    + rewrite elem_of_cons, IH. split; [intros [?|?]; [congruence|done]|by right].
    + by rewrite Hp.
    + done.
Qed.

Lemma compress_valid {A : Type} (p : A → bool) (idx : list nat) (a : list A) :
  length a = length idx →
  compress (ndarray_map p (array1 a)) idx = Ok (mask_select (p <$> a) idx).
Proof.
  intros Hlen. unfold compress. cbn [ndim ndarray_map shape data array1 length Nat.eqb negb].
  by rewrite drop_ge by (rewrite length_fmap; lia).
Qed.

Lemma forallb_negb_existsb {A : Type} (p : A → bool) (l : list A) :
  forallb p l = negb (existsb (λ x, negb (p x)) l).
Proof.
  induction l as [|x l IH]; [done|]. cbn. rewrite IH. by destruct (p x).
Qed.

Lemma _all_lookup {A : Type} `{Truthy A} (idx : list nat) (a : list A) (n : nat)
    (fill_value : float) (dtype : option dtype_t) :
  length a = length idx → Forall (λ g, g < n) idx →
  match check_boolean fill_value with Ok _ => true | _ => false end = true →
  ∃ ret, _all idx (array1 a) (Z.of_nat n) fill_value dtype = Ok (DBool ret)
    ∧ length ret = n
    ∧ ∀ g, g < n →
        ret !! g = Some (match group_values idx a g with
                         | [] => py_truth fill_value
                         | xs => forallb truthy xs
                         end).
Proof.
  intros Hlen Hidx Hfill. unfold _all.
  destruct (check_boolean fill_value) as [[]| |]; [|done|done]. cbn [mbind outcome_bind].
  rewrite np_full_of_nat. cbn [mbind outcome_bind].
  assert (∃ init, (if py_truth fill_value then mret (replicate n (py_truth fill_value))
                   else setitem (replicate n (py_truth fill_value)) idx (scalar0 true))
                  = Ok init ∧ length init = n
                  ∧ ∀ g, g < n → init !! g = Some (bool_decide (g ∈ idx) || py_truth fill_value))
    as (init & -> & Hilen & Hinit).
  { destruct (py_truth fill_value).
    - eexists. split; [done|]. split; [apply length_replicate|].
      intros g Hg. by rewrite lookup_replicate_2, orb_true_r.
    - rewrite setitem_scalar, setitem_array1;
        [|apply length_replicate|by rewrite length_replicate].
      eexists. split; [done|]. split; [by rewrite scatter_length, length_replicate|].
      intros g Hg. rewrite scatter_const_lookup by (by rewrite length_replicate).
      rewrite orb_false_r. case_bool_decide; [done|]. by rewrite lookup_replicate_2. }
  cbn [mbind outcome_bind].
  rewrite (compress_valid (λ x, negb (truthy x))) by done. cbn [mbind outcome_bind].
  rewrite setitem_scalar, setitem_array1;
    [|apply length_replicate|rewrite Hilen; by apply mask_select_Forall].
  cbn [mbind outcome_bind]. unfold mret, outcome_ret.
  eexists. split; [done|]. split; [by rewrite scatter_length|].
  intros g Hg. rewrite scatter_const_lookup by (by rewrite Hilen).
  pose proof (elem_of_mask_select_group (λ x, negb (truthy x)) idx a g Hlen) as Hsel.
  pose proof (group_values_nil idx a g Hlen) as Hnil.
  rewrite (Hinit g Hg).
  destruct (group_values idx a g) as [|x xs] eqn:Hvals.
  - rewrite (bool_decide_eq_false_2 (g ∈ mask_select _ _)) by (by rewrite Hsel).
    by rewrite (bool_decide_eq_false_2 (g ∈ idx)) by tauto.
  - assert (g ∈ idx) as Hin.
    { destruct (decide (g ∈ idx)) as [|Hnin]; [done|]. by apply Hnil in Hnin. }
    rewrite forallb_negb_existsb. case_bool_decide as Hs.
    + apply Hsel in Hs. by rewrite Hs.
    + destruct (existsb _ _) eqn:Hex; [tauto|]. by rewrite bool_decide_eq_true_2.
Qed.

Lemma _any_lookup {A : Type} `{Truthy A} (idx : list nat) (a : list A) (n : nat)
    (fill_value : float) (dtype : option dtype_t) :
  length a = length idx → Forall (λ g, g < n) idx →
  match check_boolean fill_value with Ok _ => true | _ => false end = true →
  ∃ ret, _any idx (array1 a) (Z.of_nat n) fill_value dtype = Ok (DBool ret)
    ∧ length ret = n
    ∧ ∀ g, g < n →
        ret !! g = Some (match group_values idx a g with
                         | [] => py_truth fill_value
                         | xs => existsb truthy xs
                         end).
Proof.
  intros Hlen Hidx Hfill. unfold _any.
  destruct (check_boolean fill_value) as [[]| |]; [|done|done]. cbn [mbind outcome_bind].
  rewrite np_full_of_nat. cbn [mbind outcome_bind].
  assert (∃ init, (if py_truth fill_value
                   then setitem (replicate n (py_truth fill_value)) idx (scalar0 false)
                   else mret (replicate n (py_truth fill_value)))
                  = Ok init ∧ length init = n
                  ∧ ∀ g, g < n →
                      init !! g = Some (negb (bool_decide (g ∈ idx)) && py_truth fill_value))
    as (init & -> & Hilen & Hinit).
  { destruct (py_truth fill_value).
    - rewrite setitem_scalar, setitem_array1;
        [|apply length_replicate|by rewrite length_replicate].
      eexists. split; [done|]. split; [by rewrite scatter_length, length_replicate|].
      intros g Hg. rewrite scatter_const_lookup by (by rewrite length_replicate).
      rewrite andb_true_r. case_bool_decide; [done|]. by rewrite lookup_replicate_2.
    - eexists. split; [done|]. split; [apply length_replicate|].
      intros g Hg. by rewrite lookup_replicate_2, andb_false_r. }
  cbn [mbind outcome_bind].
  rewrite (compress_valid truthy) by done. cbn [mbind outcome_bind].
  rewrite setitem_scalar, setitem_array1;
    [|apply length_replicate|rewrite Hilen; by apply mask_select_Forall].
  cbn [mbind outcome_bind]. unfold mret, outcome_ret.
  eexists. split; [done|]. split; [by rewrite scatter_length|].
  intros g Hg. rewrite scatter_const_lookup by (by rewrite Hilen).
  pose proof (elem_of_mask_select_group truthy idx a g Hlen) as Hsel.
  pose proof (group_values_nil idx a g Hlen) as Hnil.
  rewrite (Hinit g Hg).
  destruct (group_values idx a g) as [|x xs] eqn:Hvals.
  - rewrite (bool_decide_eq_false_2 (g ∈ mask_select _ _)) by (by rewrite Hsel).
    by rewrite (bool_decide_eq_false_2 (g ∈ idx)) by tauto.
  - assert (g ∈ idx) as Hin.
    { destruct (decide (g ∈ idx)) as [|Hnin]; [done|]. by apply Hnil in Hnin. }
    case_bool_decide as Hs.
    + apply Hsel in Hs. by rewrite Hs.
    + destruct (existsb _ _) eqn:Hex; [tauto|]. by rewrite bool_decide_eq_true_2.
Qed.

Lemma group_values_fmap {A B : Type} (f : A → B) (idx : list nat) (a : list A) (g : nat) :
  group_values idx (f <$> a) g = f <$> group_values idx a g.
Proof.
  revert a. induction idx as [|g0 idx IH]; intros [|x a]; try done.
  rewrite fmap_cons, !group_values_cons. destruct (decide (g0 = g)); [|done].
  by rewrite fmap_cons, IH.
Qed.

Lemma forallb_fmap {A B : Type} (f : A → B) (p : B → bool) (l : list A) :
  forallb p (f <$> l) = forallb (λ x, p (f x)) l.
Proof. induction l as [|x l IH]; [done|]. rewrite fmap_cons. cbn. by rewrite IH. Qed.

Lemma existsb_fmap {A B : Type} (f : A → B) (p : B → bool) (l : list A) :
  existsb p (f <$> l) = existsb (λ x, p (f x)) l.
Proof. induction l as [|x l IH]; [done|]. rewrite fmap_cons. cbn. by rewrite IH. Qed.

Lemma dense_call_cases (f : string) (fill_value : float) (dtype : option dtype_t) :
  dense_call f fill_value dtype = true →
  f ∈ numeric_funcs ∧ is_float_dtype dtype = true
  ∨ f ∈ boolean_funcs
    ∧ match check_boolean fill_value with Ok _ => true | _ => false end = true.
Proof.
  unfold dense_call. intros [H|H]%orb_true_iff; apply andb_true_iff in H as [Hf ?];
    apply bool_decide_eq_true_1 in Hf; auto.
Qed.

(** On a valid flat call every dense reduction returns [n] slots, and the
    slot of a group is [reduce_group] of the values of that group. *)
Lemma dispatch_cells (f : string) (idx : list nat) (a : list float) (n : nat)
    (fill_value : float) (dtype : option dtype_t) :
  dense_call f fill_value dtype = true →
  length a = length idx →
  Forall (λ g, g < n) idx →
  ∃ ret, dispatch (FuncName f) idx (array1 a) (Z.of_nat n) fill_value dtype _impl_dict = Ok ret
    ∧ dense_length ret = n
    ∧ ∀ g, g < n → dense_lookup ret g = reduce_cell f fill_value (group_values idx a g).
Proof.
  intros Hcall Hlen Hidx.
  destruct (dense_call_cases _ _ _ Hcall) as [[Hf Hdt]|[Hf Hfill]].
  - unfold numeric_funcs in Hf.
    repeat (apply elem_of_cons in Hf as [-> | Hf]); [..|by apply elem_of_nil in Hf].
    + by apply _sum_cells.
    + by apply _prod_cells.
    + by apply _min_cells.
    + by apply _max_cells.
    + by apply _first_cells.
    + by apply _last_cells.
    + by apply _mean_cells.
    + by apply (_var_cells idx a n fill_value dtype false).
    + by apply (_var_cells idx a n fill_value dtype true).
  - unfold boolean_funcs in Hf.
    repeat (apply elem_of_cons in Hf as [-> | Hf]); [..|by apply elem_of_nil in Hf].
    + destruct (_all_lookup idx a n fill_value dtype Hlen Hidx Hfill) as (ret & Hret & Hl & Hg).
      exists (DBool ret). split; [done|]. split; [done|].
      intros g Hlt. cbn [dense_lookup]. rewrite (Hg g Hlt).
      by destruct (group_values idx a g).
    + destruct (_any_lookup idx a n fill_value dtype Hlen Hidx Hfill) as (ret & Hret & Hl & Hg).
      exists (DBool ret). split; [done|]. split; [done|].
      intros g Hlt. cbn [dense_lookup]. rewrite (Hg g Hlt).
      by destruct (group_values idx a g).
    + destruct (_all_lookup idx (np_isnan <$> a) n fill_value dtype) as (ret & Hret & Hl & Hg);
        [by rewrite length_fmap|done|done|].
      exists (DBool ret). split; [done|]. split; [done|].
      intros g Hlt. cbn [dense_lookup]. rewrite (Hg g Hlt), group_values_fmap.
      destruct (group_values idx a g) as [|x xs]; [done|].
      rewrite fmap_cons, <- fmap_cons.
      change (truthy (A := bool)) with (@id bool). by rewrite forallb_fmap.
    + destruct (_any_lookup idx (np_isnan <$> a) n fill_value dtype) as (ret & Hret & Hl & Hg);
        [by rewrite length_fmap|done|done|].
      exists (DBool ret). split; [done|]. split; [done|].
      intros g Hlt. cbn [dense_lookup]. rewrite (Hg g Hlt), group_values_fmap.
      destruct (group_values idx a g) as [|x xs]; [done|].
      rewrite fmap_cons, <- fmap_cons.
      change (truthy (A := bool)) with (@id bool). by rewrite existsb_fmap.
Qed.

Lemma dispatch_numeric_dtype (f : string) (idx : list nat) (a : ndarray float) (n : Z)
    (fill_value : float) (dtype : option dtype_t) (ret : dense) :
  f ∈ numeric_funcs →
  dispatch (FuncName f) idx a n fill_value dtype _impl_dict = Ok ret →
  ∃ xs, ret = DFloat xs.
Proof.
  intros Hf. unfold numeric_funcs in Hf.
  repeat (apply elem_of_cons in Hf as [-> | Hf]); [..|by apply elem_of_nil in Hf].
  all: intros H.
  1: change (_sum idx a n fill_value dtype = Ok ret) in H.
  2: change (_prod idx a n fill_value dtype = Ok ret) in H.
  3: change (_min idx a n fill_value dtype = Ok ret) in H.
  4: change (_max idx a n fill_value dtype = Ok ret) in H.
  5: change (_first idx a n fill_value dtype = Ok ret) in H.
  6: change (_last idx a n fill_value dtype = Ok ret) in H.
  7: change (_mean idx a n fill_value dtype = Ok ret) in H.
  8: change (_var idx a n fill_value dtype false = Ok ret) in H.
  9: change (_var idx a n fill_value dtype true = Ok ret) in H.
  all: cbv beta delta [_min _max _sum _prod _last _first _mean _var] in H.
  all: repeat lazymatch type of H with
         | (if ?b then _ else _) = Ok _ => destruct b; [try discriminate H|try discriminate H]
         end.
  all: inv_binds H; unfold mret, outcome_ret in H; injection H as <-; by eexists.
Qed.

(** The result of a dense reduction is a 1-d float64 or bool array. *)
Lemma dense_call_kind (f : string) (idx : list nat) (a : ndarray float) (n : Z)
    (fill_value : float) (dtype : option dtype_t) (ret : dense) :
  dense_call f fill_value dtype = true →
  dispatch (FuncName f) idx a n fill_value dtype _impl_dict = Ok ret →
  (∃ xs, ret = DFloat xs) ∨ (∃ bs, ret = DBool bs).
Proof.
  intros Hcall Hret. destruct (dense_call_cases _ _ _ Hcall) as [[Hf Hdt]|[Hf Hfill]].
  - left. by apply (dispatch_numeric_dtype f idx a n fill_value dtype ret Hf Hret).
  - right. destruct (dispatch_bool_dtype f idx a n fill_value dtype Hf) as [_ Hb].
    by apply Hb.
Qed.

Lemma dense_call_shape (f : string) (idx : list nat) (a : ndarray float) (n : Z)
    (fill_value : float) (dtype : option dtype_t) (ret : dense) :
  dense_call f fill_value dtype = true →
  dispatch (FuncName f) idx a n fill_value dtype _impl_dict = Ok ret →
  dense_shape ret = [dense_length ret] ∧ dense_size ret = dense_length ret.
Proof.
  intros Hcall Hret. destruct (dense_call_cases _ _ _ Hcall) as [[Hf Hdt]|[Hf Hfill]].
  - by destruct (dispatch_numeric_dtype f idx a n fill_value dtype ret Hf Hret) as [xs ->].
  - destruct (dispatch_bool_dtype f idx a n fill_value dtype Hf) as [_ Hb].
    by destruct (Hb ret Hret) as [bs ->].
Qed.

Lemma aggregate_cells (f : string) (idx : list nat) (a : list float) (size : size_arg)
    (n : nat) (fill_value : float) (order : order_t) (dtype : option dtype_t) :
  dense_call f fill_value dtype = true →
  length a = length idx →
  size_1d idx size = Some n →
  ∃ ret, aggregate (idx_array idx) (array1 a) (FuncName f) size fill_value order dtype
           _impl_dict = Ok (mk_result [n] ret)
    ∧ dispatch (FuncName f) idx (array1 a) (Z.of_nat n) fill_value dtype _impl_dict = Ok ret
    ∧ dense_length ret = n
    ∧ ∀ g, g < n → dense_lookup ret g = reduce_cell f fill_value (group_values idx a g).
Proof.
  intros Hcall Hlen Hsize.
  pose proof (size_1d_bound _ _ _ Hsize) as Hidx.
  destruct (dispatch_cells f idx a n fill_value dtype Hcall Hlen Hidx) as (ret & Hret & Hl & Hg).
  exists ret. rewrite (aggregate_1d_valid _ _ _ _ n); [|done|right; by rewrite <- Hlen].
  rewrite Hret. cbn [mbind outcome_bind]. unfold mret, outcome_ret.
  destruct (dense_call_shape _ _ _ _ _ _ _ Hcall Hret) as [-> _]. by rewrite Hl.
Qed.

Lemma aggregate_float_cells (f : string) (idx : list nat) (a : list float) (size : size_arg)
    (n : nat) (fill_value : float) (order : order_t) (dtype : option dtype_t) :
  f ∈ numeric_funcs →
  is_float_dtype dtype = true →
  length a = length idx →
  size_1d idx size = Some n →
  ∃ xs, aggregate (idx_array idx) (array1 a) (FuncName f) size fill_value order dtype
          _impl_dict = Ok (mk_result [n] (DFloat xs))
    ∧ length xs = n
    ∧ ∀ g, g < n → CFloat <$> xs !! g = reduce_cell f fill_value (group_values idx a g).
Proof.
  intros Hf Hdt Hlen Hsize.
  destruct (aggregate_cells f idx a size n fill_value order dtype) as (ret & Hagg & Hd & Hl & Hg);
    [|done|done|].
  { unfold dense_call. by rewrite bool_decide_eq_true_2, Hdt. }
  destruct (dispatch_numeric_dtype _ _ _ _ _ _ _ Hf Hd) as [xs ->].
  by exists xs.
Qed.

Lemma aggregate_bool_cells (f : string) (idx : list nat) (a : list float) (size : size_arg)
    (n : nat) (fill_value : float) (order : order_t) (dtype : option dtype_t) :
  f ∈ boolean_funcs →
  check_boolean fill_value = Ok () →
  length a = length idx →
  size_1d idx size = Some n →
  ∃ bs, aggregate (idx_array idx) (array1 a) (FuncName f) size fill_value order dtype
          _impl_dict = Ok (mk_result [n] (DBool bs))
    ∧ length bs = n
    ∧ ∀ g, g < n → CBool <$> bs !! g = reduce_cell f fill_value (group_values idx a g).
Proof.
  intros Hf Hfill Hlen Hsize.
  destruct (aggregate_cells f idx a size n fill_value order dtype) as (ret & Hagg & Hd & Hl & Hg);
    [|done|done|].
  { unfold dense_call. rewrite (bool_decide_eq_true_2 (f ∈ boolean_funcs)), Hfill by done.
    apply orb_true_r. }
  destruct (proj2 (dispatch_bool_dtype f idx (array1 a) (Z.of_nat n) fill_value dtype Hf) _ Hd)
    as [bs ->].
  by exists bs.
Qed.

Lemma cfloat_lookup (xs : list float) (g : nat) (x : float) :
  CFloat <$> xs !! g = Some (CFloat x) → xs !! g = Some x.
Proof. destruct (xs !! g); [|done]. by intros [= ->]. Qed.

Lemma cbool_lookup (bs : list bool) (g : nat) (b : bool) :
  CBool <$> bs !! g = Some (CBool b) → bs !! g = Some b.
Proof. destruct (bs !! g); [|done]. by intros [= ->]. Qed.

Lemma group_count_values {A : Type} (idx : list nat) (a : list A) (g : nat) :
  length a = length idx →
  (group_count idx g =? 0) = match group_values idx a g with [] => true | _ => false end.
Proof.
  intros Hlen. rewrite <- (group_values_length idx a g Hlen).
  by destruct (group_values idx a g).
Qed.

Lemma elem_of_numeric (f : string) :
  bool_decide (f ∈ numeric_funcs) = true → f ∈ numeric_funcs.
Proof. apply bool_decide_eq_true_1. Qed.

(** ** sum and prod *)

(** On a valid 1-d call [func="sum"] leaves in the slot of every non-empty
    group the float64 sum of the values of the group, accumulated from zero
    in input order. An empty group holds [fill_value] when that is not
    zero, and zero otherwise. *)
Theorem sum_by_group (group_idx : list nat) (a : list float) (size : size_arg) (n : nat)
    (fill_value : float) (order : order_t) (dtype : option dtype_t) :
  length a = length group_idx →
  size_1d group_idx size = Some n →
  is_float_dtype dtype = true →
  ∃ ret : list float,
    aggregate (idx_array group_idx) (array1 a) (FuncName "sum") size fill_value order dtype
      _impl_dict = Ok (mk_result [n] (DFloat ret))
    ∧ length ret = n
    ∧ ∀ g, g < n →
        ret !! g = Some (if (group_count group_idx g =? 0) && py_ne fill_value 0
                         then fill_value
                         else group_sum group_idx a g).
Proof.
  intros Hlen Hsize Hdt.
  destruct (aggregate_float_cells "sum" group_idx a size n fill_value order dtype)
    as (ret & Hagg & Hl & Hg); [by apply elem_of_numeric|done..|].
  exists ret. split; [done|]. split; [done|]. intros g Hlt.
  apply cfloat_lookup. rewrite (Hg g Hlt), (group_count_values group_idx a g Hlen).
  unfold group_sum. rewrite reduce_cell_sum.
  destruct (group_values group_idx a g); [|done]. cbn [andb fold_left].
  by destruct (py_ne fill_value 0).
Qed.

(** On a valid 1-d call [func="prod"] leaves in the slot of every non-empty
    group the float64 product of the values of the group, accumulated from
    one in input order; an empty group holds [fill_value]. *)
Theorem prod_by_group (group_idx : list nat) (a : list float) (size : size_arg) (n : nat)
    (fill_value : float) (order : order_t) (dtype : option dtype_t) :
  length a = length group_idx →
  size_1d group_idx size = Some n →
  is_float_dtype dtype = true →
  ∃ ret : list float,
    aggregate (idx_array group_idx) (array1 a) (FuncName "prod") size fill_value order dtype
      _impl_dict = Ok (mk_result [n] (DFloat ret))
    ∧ length ret = n
    ∧ ∀ g, g < n →
        ret !! g = Some (if group_count group_idx g =? 0 then fill_value
                         else fold_left PrimFloat.mul (group_values group_idx a g) 1%float).
Proof.
  intros Hlen Hsize Hdt.
  destruct (aggregate_float_cells "prod" group_idx a size n fill_value order dtype)
    as (ret & Hagg & Hl & Hg); [by apply elem_of_numeric|done..|].
  exists ret. split; [done|]. split; [done|]. intros g Hlt.
  apply cfloat_lookup. rewrite (Hg g Hlt), (group_count_values group_idx a g Hlen).
  unfold reduce_cell. cbn. by destruct (group_values group_idx a g).
Qed.

(** ** min and max *)

(** Of equal values, as zeros of opposite sign are, [np.minimum.at] and
    [np.maximum.at] leave the last one of the group. *)
Example min_max_signed_zeros :
  aggregate (idx_array [0; 0; 1; 1]) (array1 [0; -0; -0; 0]%float) (FuncName "min") SizeNone
    0%float OrderF None _impl_dict = Ok (mk_result [2] (DFloat [-0; 0]%float))
  ∧ aggregate (idx_array [0; 0; 1; 1]) (array1 [0; -0; -0; 0]%float) (FuncName "max") SizeNone
      0%float OrderF None _impl_dict = Ok (mk_result [2] (DFloat [-0; 0]%float)).
Proof. split; vm_compute; reflexivity. Qed.

(** ** NaN and infinity in min and max *)

Lemma SFcompare_refl (p : spec_float) : p ≠ S754_nan → SFcompare p p = Some Eq.
Proof.
  destruct p as [s|s| |s m e]; cbn [SFcompare]; try done.
  - by destruct s.
  - intros _. rewrite Z.compare_refl.
    change (PosDef.Pos.compare_cont Eq m m) with (Pos.compare m m).
    rewrite Pos.compare_refl. by destruct s.
Qed.

Lemma is_nan_Prim2SF (x : float) : np_isnan x = true → Prim2SF x = S754_nan.
Proof.
  unfold np_isnan, PrimFloat.is_nan. rewrite FloatAxioms.eqb_spec. unfold SFeqb.
  intros Hx. destruct (Prim2SF x) as [s|s| |s m e] eqn:Hp; [..|done|];
    by rewrite SFcompare_refl in Hx.
Qed.

Lemma leb_nan_r (x y : float) : np_isnan y = true → PrimFloat.leb x y = false.
Proof.
  intros Hy. rewrite FloatAxioms.leb_spec, (is_nan_Prim2SF y Hy). unfold SFleb.
  by destruct (Prim2SF x).
Qed.

Lemma ltb_nan_r (x y : float) : np_isnan y = true → PrimFloat.ltb x y = false.
Proof.
  intros Hy. rewrite FloatAxioms.ltb_spec, (is_nan_Prim2SF y Hy). unfold SFltb.
  by destruct (Prim2SF x).
Qed.

Lemma ltb_nan_l (x y : float) : np_isnan x = true → PrimFloat.ltb x y = false.
Proof. intros Hx. by rewrite FloatAxioms.ltb_spec, (is_nan_Prim2SF x Hx). Qed.

Lemma np_minimum_nan (x y : float) :
  np_isnan x = true ∨ np_isnan y = true → np_isnan (np_minimum x y) = true.
Proof.
  unfold np_minimum. fold (np_isnan x). intros [Hx|Hy].
  - by rewrite Hx, orb_true_r.
  - rewrite (ltb_nan_r x y Hy). by destruct (np_isnan x) eqn:Hx.
Qed.

Lemma np_maximum_nan (x y : float) :
  np_isnan x = true ∨ np_isnan y = true → np_isnan (np_maximum x y) = true.
Proof.
  unfold np_maximum. fold (np_isnan x). intros [Hx|Hy].
  - by rewrite Hx, orb_true_r.
  - rewrite (ltb_nan_l y x Hy). by destruct (np_isnan x) eqn:Hx.
Qed.

Lemma fold_left_nan (op : float → float → float) (xs : list float) (acc : float) :
  (∀ x y, np_isnan x = true ∨ np_isnan y = true → np_isnan (op x y) = true) →
  np_isnan acc = true ∨ existsb np_isnan xs = true →
  np_isnan (fold_left op xs acc) = true.
Proof.
  intros Hop. revert acc. induction xs as [|x xs IH]; intros acc H.
  - by destruct H.
  - cbn [fold_left]. apply IH. cbn [existsb] in H.
    destruct H as [H|[H|H]%orb_true_iff]; auto.
Qed.

Lemma fold_left_constant (op : float → float → float) (c x : float) (xs : list float) :
  op c x = c → Forall (λ y, y = x) xs → fold_left op xs c = c.
Proof.
  intros Hop. induction 1 as [|y xs -> _ IH]; [done|]. cbn [fold_left]. by rewrite Hop.
Qed.

(** A NaN among the values of a group makes the min and the max of the
    group NaN. A group all of whose values are +infinity has min
    [finfo.max], not +infinity, and one all of whose values are -infinity
    has max [finfo.min]: the folds start from the largest and the smallest
    finite double. *)
Theorem min_max_nan_infinity (group_idx : list nat) (a : list float) (size : size_arg)
    (n : nat) (fill_value : float) (order : order_t) (dtype : option dtype_t) :
  length a = length group_idx →
  size_1d group_idx size = Some n →
  is_float_dtype dtype = true →
  ∃ mins maxs : list float,
    aggregate (idx_array group_idx) (array1 a) (FuncName "min") size fill_value order dtype
      _impl_dict = Ok (mk_result [n] (DFloat mins))
    ∧ aggregate (idx_array group_idx) (array1 a) (FuncName "max") size fill_value order dtype
        _impl_dict = Ok (mk_result [n] (DFloat maxs))
    ∧ ∀ g, g < n →
        (existsb np_isnan (group_values group_idx a g) = true →
         ∃ mn mx, mins !! g = Some mn ∧ maxs !! g = Some mx
                  ∧ np_isnan mn = true ∧ np_isnan mx = true)
        ∧ (g ∈ group_idx → Forall (λ x, x = infinity) (group_values group_idx a g) →
           mins !! g = Some dmax)
        ∧ (g ∈ group_idx → Forall (λ x, x = neg_infinity) (group_values group_idx a g) →
           maxs !! g = Some dmin).
Proof.
  intros Hlen Hsize Hdt.
  destruct (aggregate_float_cells "min" group_idx a size n fill_value order dtype)
    as (mins & Hmin & Hlmin & Hgmin); [by apply elem_of_numeric|done..|].
  destruct (aggregate_float_cells "max" group_idx a size n fill_value order dtype)
    as (maxs & Hmax & Hlmax & Hgmax); [by apply elem_of_numeric|done..|].
  exists mins, maxs. do 2 (split; [done|]). intros g Hlt.
  specialize (Hgmin g Hlt). specialize (Hgmax g Hlt).
  pose proof (group_values_nil group_idx a g Hlen) as Hnil.
  unfold reduce_cell in Hgmin, Hgmax. cbn in Hgmin, Hgmax.
  split; [|split].
  - intros Hnan. destruct (group_values group_idx a g) as [|x xs] eqn:Hvals; [done|].
    apply cfloat_lookup in Hgmin, Hgmax. rewrite Hgmin, Hgmax.
    eexists _, _. split; [done|]. split; [done|].
    split; (apply fold_left_nan; [|by right]).
    + apply np_minimum_nan.
    + apply np_maximum_nan.
  - intros Hin Hinf. destruct (group_values group_idx a g) as [|x xs] eqn:Hvals; [tauto|].
    apply cfloat_lookup in Hgmin. rewrite Hgmin. f_equal.
    by apply (fold_left_constant np_minimum dmax infinity).
  - intros Hin Hinf. destruct (group_values group_idx a g) as [|x xs] eqn:Hvals; [tauto|].
    apply cfloat_lookup in Hgmax. rewrite Hgmax. f_equal.
    by apply (fold_left_constant np_maximum dmin neg_infinity).
Qed.

(** ** all, any, allnan, anynan *)

Lemma elem_of_boolean (f : string) :
  bool_decide (f ∈ boolean_funcs) = true → f ∈ boolean_funcs.
Proof. apply bool_decide_eq_true_1. Qed.

(** On a valid 1-d call with a boolean [fill_value], the slot of a
    non-empty group holds: for all, whether every value of the group is
    non-zero; for any, whether some value is; for allnan and anynan, the
    same of the test that a value is NaN. An empty group holds the truth
    value of [fill_value]. A NaN counts as non-zero. *)
Theorem boolean_by_group (group_idx : list nat) (a : list float) (size : size_arg) (n : nat)
    (fill_value : float) (order : order_t) (dtype : option dtype_t) :
  length a = length group_idx →
  size_1d group_idx size = Some n →
  check_boolean fill_value = Ok () →
  ∃ alls anys allnans anynans : list bool,
    aggregate (idx_array group_idx) (array1 a) (FuncName "all") size fill_value order dtype
      _impl_dict = Ok (mk_result [n] (DBool alls))
    ∧ aggregate (idx_array group_idx) (array1 a) (FuncName "any") size fill_value order dtype
        _impl_dict = Ok (mk_result [n] (DBool anys))
    ∧ aggregate (idx_array group_idx) (array1 a) (FuncName "allnan") size fill_value order
        dtype _impl_dict = Ok (mk_result [n] (DBool allnans))
    ∧ aggregate (idx_array group_idx) (array1 a) (FuncName "anynan") size fill_value order
        dtype _impl_dict = Ok (mk_result [n] (DBool anynans))
    ∧ py_truth nan = true
    ∧ ∀ g, g < n →
        let xs := group_values group_idx a g in
        let empty := group_count group_idx g =? 0 in
        alls !! g = Some (if empty then py_truth fill_value else forallb py_truth xs)
        ∧ anys !! g = Some (if empty then py_truth fill_value else existsb py_truth xs)
        ∧ allnans !! g = Some (if empty then py_truth fill_value else forallb np_isnan xs)
        ∧ anynans !! g = Some (if empty then py_truth fill_value else existsb np_isnan xs).
Proof.
  intros Hlen Hsize Hfill.
  destruct (aggregate_bool_cells "all" group_idx a size n fill_value order dtype)
    as (alls & Hall & _ & Hgall); [by apply elem_of_boolean|done..|].
  destruct (aggregate_bool_cells "any" group_idx a size n fill_value order dtype)
    as (anys & Hany & _ & Hgany); [by apply elem_of_boolean|done..|].
  destruct (aggregate_bool_cells "allnan" group_idx a size n fill_value order dtype)
    as (allnans & Halln & _ & Hgalln); [by apply elem_of_boolean|done..|].
  destruct (aggregate_bool_cells "anynan" group_idx a size n fill_value order dtype)
    as (anynans & Hanyn & _ & Hganyn); [by apply elem_of_boolean|done..|].
  exists alls, anys, allnans, anynans. do 5 (split; [done|]). intros g Hlt. cbn zeta.
  rewrite (group_count_values group_idx a g Hlen).
  specialize (Hgall g Hlt). specialize (Hgany g Hlt).
  specialize (Hgalln g Hlt). specialize (Hganyn g Hlt).
  unfold reduce_cell in *. cbn in Hgall, Hgany, Hgalln, Hganyn.
  repeat split; apply cbool_lookup.
  - rewrite Hgall. by destruct (group_values group_idx a g).
  - rewrite Hgany. by destruct (group_values group_idx a g).
  - rewrite Hgalln. by destruct (group_values group_idx a g).
  - rewrite Hganyn. by destruct (group_values group_idx a g).
Qed.

(** ** std *)

(** On a valid 1-d call the std of every non-empty group is the square
    root of its var, which is the two-pass variance of the values of the
    group. *)
Theorem std_is_sqrt_var (group_idx : list nat) (a : list float) (size : size_arg) (n : nat)
    (fill_value : float) (order : order_t) (dtype : option dtype_t) :
  length a = length group_idx →
  size_1d group_idx size = Some n →
  is_float_dtype dtype = true →
  ∃ vars stds : list float,
    aggregate (idx_array group_idx) (array1 a) (FuncName "var") size fill_value order dtype
      _impl_dict = Ok (mk_result [n] (DFloat vars))
    ∧ aggregate (idx_array group_idx) (array1 a) (FuncName "std") size fill_value order dtype
        _impl_dict = Ok (mk_result [n] (DFloat stds))
    ∧ ∀ g, g ∈ group_idx →
        vars !! g = Some (var_two_pass (group_values group_idx a g))
        ∧ stds !! g = Some (PrimFloat.sqrt (var_two_pass (group_values group_idx a g))).
Proof.
  intros Hlen Hsize Hdt.
  pose proof (size_1d_bound _ _ _ Hsize) as Hidx.
  destruct (aggregate_float_cells "var" group_idx a size n fill_value order dtype)
    as (vars & Hvar & _ & Hgvar); [by apply elem_of_numeric|done..|].
  destruct (aggregate_float_cells "std" group_idx a size n fill_value order dtype)
    as (stds & Hstd & _ & Hgstd); [by apply elem_of_numeric|done..|].
  exists vars, stds. do 2 (split; [done|]). intros g Hin.
  assert (g < n) as Hlt by (rewrite Forall_forall in Hidx; by apply Hidx).
  specialize (Hgvar g Hlt). specialize (Hgstd g Hlt).
  pose proof (group_values_nil group_idx a g Hlen) as Hnil.
  unfold reduce_cell in *. cbn in Hgvar, Hgstd.
  destruct (group_values group_idx a g) as [|x xs]; [tauto|].
  split; by apply cfloat_lookup.
Qed.

(** ** Groups do not influence each other *)

(** The slot of a group depends on the values of that group alone, in
    their input order: two valid calls of the same dense reduction in which
    group [g] holds the same values in the same order give slot [g] the
    same content, whatever the other groups hold and however the elements
    of the groups are interleaved. *)
Theorem slot_depends_on_group (f : string) (idx idx' : list nat) (a a' : list float)
    (size size' : size_arg) (n n' : nat) (fill_value : float) (order order' : order_t)
    (dtype : option dtype_t) (g : nat) :
  dense_call f fill_value dtype = true →
  length a = length idx → length a' = length idx' →
  size_1d idx size = Some n → size_1d idx' size' = Some n' →
  g < n → g < n' →
  group_values idx a g = group_values idx' a' g →
  ∃ ret ret' : dense,
    aggregate (idx_array idx) (array1 a) (FuncName f) size fill_value order dtype _impl_dict
    = Ok (mk_result [n] ret)
    ∧ aggregate (idx_array idx') (array1 a') (FuncName f) size' fill_value order' dtype
        _impl_dict = Ok (mk_result [n'] ret')
    ∧ is_Some (dense_lookup ret g)
    ∧ dense_lookup ret g = dense_lookup ret' g.
Proof.
  intros Hcall Hlen Hlen' Hsize Hsize' Hg Hg' Hvals.
  destruct (aggregate_cells f idx a size n fill_value order dtype Hcall Hlen Hsize)
    as (ret & Hagg & _ & _ & Hret).
  destruct (aggregate_cells f idx' a' size' n' fill_value order' dtype Hcall Hlen' Hsize')
    as (ret' & Hagg' & _ & _ & Hret').
  exists ret, ret'. do 2 (split; [done|]).
  rewrite (Hret g Hg), (Hret' g Hg'), Hvals. split; [|done].
  apply dense_call_cases in Hcall as [[Hf _]|[Hf _]].
  - unfold numeric_funcs in Hf.
    repeat (apply elem_of_cons in Hf as [-> | Hf]); [..|by apply elem_of_nil in Hf];
      by eexists.
  - unfold boolean_funcs in Hf.
    repeat (apply elem_of_cons in Hf as [-> | Hf]); [..|by apply elem_of_nil in Hf];
      by eexists.
Qed.

(** ** Empty input *)

Lemma np_same_refl (x : float) : np_same x x = true.
Proof. unfold np_same, PrimFloat.is_nan. by destruct (PrimFloat.eqb x x). Qed.

Lemma np_same_zero (x : float) : py_eq x 0 = true → np_same 0 x = true.
Proof.
  unfold py_eq, np_same. rewrite !FloatAxioms.eqb_spec. unfold SFeqb.
  change (Prim2SF 0) with (S754_zero false).
  destruct (Prim2SF x) as [s|s| |s m e]; cbn; try done; by destruct s.
Qed.

Lemma np_same_prefill (fill_value : float) : np_same (prefill fill_value) fill_value = true.
Proof.
  unfold prefill. destruct (py_eq fill_value 0) eqn:H0; [by apply np_same_zero|].
  apply np_same_refl.
Qed.

Lemma np_same_nan (x y : float) : np_isnan x = true → np_isnan y = true → np_same x y = true.
Proof. unfold np_same, np_isnan. intros -> ->. apply orb_true_r. Qed.

(** What a dense reduction leaves in the slot of an empty group compares
    equal to [fill_value] (with NaN equal to NaN), or is its truth value. *)
Lemma reduce_cell_empty (f : string) (fill_value : float) (dtype : option dtype_t) :
  dense_call f fill_value dtype = true →
  ∃ c, reduce_cell f fill_value [] = Some c
    ∧ match c with
      | CFloat x => np_same x fill_value = true
      | CBool b => b = py_truth fill_value
      end.
Proof.
  intros [[Hf _]|[Hf _]]%dense_call_cases.
  - unfold numeric_funcs in Hf.
    repeat (apply elem_of_cons in Hf as [-> | Hf]); [..|by apply elem_of_nil in Hf];
      (eexists; split; [reflexivity|]); cbn beta iota.
    + destruct (py_ne fill_value 0) eqn:H0; [apply np_same_refl|].
      apply np_same_zero. unfold py_ne in H0. by apply negb_false_iff in H0.
    + apply np_same_refl.
    + apply np_same_refl.
    + apply np_same_refl.
    + apply np_same_prefill.
    + apply np_same_prefill.
    + destruct (np_isnan fill_value) eqn:Hn; [by apply np_same_nan|apply np_same_refl].
    + destruct (np_isnan fill_value) eqn:Hn; [by apply np_same_nan|apply np_same_refl].
    + destruct (np_isnan fill_value) eqn:Hn; [by apply np_same_nan|apply np_same_refl].
  - unfold boolean_funcs in Hf.
    repeat (apply elem_of_cons in Hf as [-> | Hf]); [..|by apply elem_of_nil in Hf];
      by eexists.
Qed.

(** An empty [group_idx] without [size] is an error for every [func]:
    the size cannot be inferred. With a scalar [size] every dense reduction
    returns that many slots, each comparing equal to [fill_value] (NaN
    equal to NaN), or holding its truth value for a boolean reduction. *)
Theorem empty_input :
  (∀ (a : ndarray float) (func : func_arg) (fill_value : float) (order : order_t)
      (dtype : option dtype_t) (impl : list (string * reduction)),
      ndim a = 0 ∨ ndim a = 1 ∧ len a = 0 →
      aggregate (array1 []) a func SizeNone fill_value order dtype impl
      = Raise (ValueError
                 "zero-size array to reduction operation maximum which has no identity"))
  ∧ (∀ (f : string) (n : nat) (fill_value : float) (order : order_t)
       (dtype : option dtype_t),
       dense_call f fill_value dtype = true →
       ∃ ret,
         aggregate (array1 []) (array1 []) (FuncName f) (SizeScalar (Z.of_nat n)) fill_value
           order dtype _impl_dict = Ok (mk_result [n] ret)
         ∧ dense_length ret = n
         ∧ ∀ g, g < n →
             match dense_lookup ret g with
             | Some (CFloat x) => np_same x fill_value = true
             | Some (CBool b) => b = py_truth fill_value
             | None => False
             end).
Proof.
  split.
  - intros a func fill_value order dtype impl Ha. unfold aggregate.
    assert ((1 <? ndim a) = false) as ->.
    { apply Nat.ltb_ge. destruct Ha as [-> | [-> _]]; lia. }
    cbn [ndim array1 shape length Nat.eqb orb negb]. unfold index_1d.
    cbn [len array1 shape hd length data existsb].
    assert ((ndim a =? 0) || (len a =? 0) = true) as ->.
    { destruct Ha as [-> | [_ ->]]; [done|apply orb_true_r]. }
    reflexivity.
  - intros f n fill_value order dtype Hcall.
    destruct (aggregate_cells f [] [] (SizeScalar (Z.of_nat n)) n fill_value order dtype)
      as (ret & Hagg & _ & Hl & Hg); [done|done| |].
    { cbn. destruct (Z.leb_spec 0 (Z.of_nat n)); [|lia]. by rewrite Nat2Z.id. }
    exists ret. do 2 (split; [done|]). intros g Hlt.
    rewrite (Hg g Hlt). change (group_values [] [] g) with (@nil float).
    by destruct (reduce_cell_empty f fill_value dtype Hcall) as (c & -> & Hc).
Qed.

(** ** Function names *)

Lemma agree_bind {A B : Type} (m : outcome A) (k k' : A → outcome B) :
  (∀ x, k x = k' x ∨ raises (k x) ∧ raises (k' x)) →
  m ≫= k = m ≫= k' ∨ raises (m ≫= k) ∧ raises (m ≫= k').
Proof.
  intros Hk. destruct m as [x|e|]; cbn [mbind outcome_bind]; [apply Hk| |by left].
  by left.
Qed.

Lemma agree_bind_l {A B : Type} (m m' : outcome A) (k : A → outcome B) :
  m = m' ∨ raises m ∧ raises m' →
  m ≫= k = m' ≫= k ∨ raises (m ≫= k) ∧ raises (m' ≫= k).
Proof.
  intros [->|[[e ->] [e' ->]]]; [by left|]. right. split; by eexists.
Qed.

Lemma dispatch_lower (f f' : string) (idx : list nat) (a : ndarray float) (n : Z)
    (fill_value : float) (dtype : option dtype_t) (impl : list (string * reduction)) :
  lower f = lower f' →
  dispatch (FuncName f) idx a n fill_value dtype impl
  = dispatch (FuncName f') idx a n fill_value dtype impl
  ∨ raises (dispatch (FuncName f) idx a n fill_value dtype impl)
    ∧ raises (dispatch (FuncName f') idx a n fill_value dtype impl).
Proof.
  intros Hl. unfold dispatch. cbn zeta. rewrite <- Hl.
  destruct (String.prefix "nan" (lower f)).
  - destruct (bool_decide _).
    + right. split; by eexists.
    + destruct (ndim a =? 0); [by left|]. cbn [mbind outcome_bind mret outcome_ret].
      destruct (dict_get impl _); [by left|]. right. split; by eexists.
  - cbn [mbind outcome_bind mret outcome_ret].
    destruct (dict_get impl _); [by left|]. right. split; by eexists.
Qed.

(** The name of a reduction is matched without regard to case: two calls
    whose [func] strings have the same lower-case form return the same
    result, or both raise (the message of the error quotes the name as
    given). *)
Theorem func_case_insensitive (f f' : string) (group_idx : ndarray Z) (a : ndarray float)
    (size : size_arg) (fill_value : float) (order : order_t) (dtype : option dtype_t)
    (impl : list (string * reduction)) :
  lower f = lower f' →
  aggregate group_idx a (FuncName f) size fill_value order dtype impl
  = aggregate group_idx a (FuncName f') size fill_value order dtype impl
  ∨ raises (aggregate group_idx a (FuncName f) size fill_value order dtype impl)
    ∧ raises (aggregate group_idx a (FuncName f') size fill_value order dtype impl).
Proof.
  intros Hl. unfold aggregate.
  destruct (1 <? ndim a); [by left|]. cbn zeta.
  destruct (negb _); [by left|].
  destruct (ndim group_idx =? 1).
  - apply agree_bind. intros [idx n]. apply agree_bind_l. by apply dispatch_lower.
  - apply agree_bind. intros [[idx sz] n]. apply agree_bind_l. by apply dispatch_lower.
Qed.

Lemma func_case_insensitive_witness :
  aggregate (array1 [0; 1; 0]%Z) (array1 [1; 2; 3]%float) (FuncName "NanSum") SizeNone 0%float
    OrderF None _impl_dict
  = aggregate (array1 [0; 1; 0]%Z) (array1 [1; 2; 3]%float) (FuncName "nansum") SizeNone
      0%float OrderF None _impl_dict
  ∨ raises (aggregate (array1 [0; 1; 0]%Z) (array1 [1; 2; 3]%float) (FuncName "NanSum") SizeNone
              0%float OrderF None _impl_dict)
    ∧ raises (aggregate (array1 [0; 1; 0]%Z) (array1 [1; 2; 3]%float) (FuncName "nansum")
                SizeNone 0%float OrderF None _impl_dict).
Proof. apply (func_case_insensitive "NanSum" "nansum"). reflexivity. Defined.

Lemma sum_by_group_witness :
  ∃ ret : list float,
    aggregate (idx_array [1; 0; 1; 3]) (array1 [0.5; 2; 0.25; 4]%float) (FuncName "sum")
      SizeNone 9%float OrderF None _impl_dict = Ok (mk_result [4] (DFloat ret))
    ∧ length ret = 4
    ∧ ∀ g, g < 4 →
        ret !! g = Some (if (group_count [1; 0; 1; 3] g =? 0) && py_ne 9 0
                         then 9%float
                         else group_sum [1; 0; 1; 3] [0.5; 2; 0.25; 4]%float g).
Proof.
  apply (sum_by_group [1; 0; 1; 3] [0.5; 2; 0.25; 4]%float SizeNone 4 9%float OrderF None);
    reflexivity.
Defined.

Lemma prod_by_group_witness :
  ∃ ret : list float,
    aggregate (idx_array [1; 0; 1; 3]) (array1 [0.5; 2; 0.25; 4]%float) (FuncName "prod")
      SizeNone 9%float OrderF None _impl_dict = Ok (mk_result [4] (DFloat ret))
    ∧ length ret = 4
    ∧ ∀ g, g < 4 →
        ret !! g = Some (if group_count [1; 0; 1; 3] g =? 0 then 9%float
                         else fold_left PrimFloat.mul
                                (group_values [1; 0; 1; 3] [0.5; 2; 0.25; 4]%float g) 1%float).
Proof.
  apply (prod_by_group [1; 0; 1; 3] [0.5; 2; 0.25; 4]%float SizeNone 4 9%float OrderF None);
    reflexivity.
Defined.

Lemma min_max_nan_infinity_witness :
  ∃ mins maxs : list float,
    aggregate (idx_array [0; 1; 1; 2]) (array1 [infinity; 1; nan; neg_infinity]%float)
      (FuncName "min") SizeNone 0%float OrderF None _impl_dict
    = Ok (mk_result [3] (DFloat mins))
    ∧ aggregate (idx_array [0; 1; 1; 2]) (array1 [infinity; 1; nan; neg_infinity]%float)
        (FuncName "max") SizeNone 0%float OrderF None _impl_dict
      = Ok (mk_result [3] (DFloat maxs))
    ∧ ∀ g, g < 3 →
        (existsb np_isnan (group_values [0; 1; 1; 2] [infinity; 1; nan; neg_infinity]%float g)
         = true →
         ∃ mn mx, mins !! g = Some mn ∧ maxs !! g = Some mx
                  ∧ np_isnan mn = true ∧ np_isnan mx = true)
        ∧ (g ∈ [0; 1; 1; 2] →
           Forall (λ x, x = infinity)
             (group_values [0; 1; 1; 2] [infinity; 1; nan; neg_infinity]%float g) →
           mins !! g = Some dmax)
        ∧ (g ∈ [0; 1; 1; 2] →
           Forall (λ x, x = neg_infinity)
             (group_values [0; 1; 1; 2] [infinity; 1; nan; neg_infinity]%float g) →
           maxs !! g = Some dmin).
Proof.
  apply (min_max_nan_infinity [0; 1; 1; 2] [infinity; 1; nan; neg_infinity]%float SizeNone 3
           0%float OrderF None); reflexivity.
Defined.

Lemma boolean_by_group_witness :
  ∃ alls anys allnans anynans : list bool,
    aggregate (idx_array [0; 0; 2]) (array1 [1; 0; nan]%float) (FuncName "all") SizeNone
      0%float OrderF None _impl_dict = Ok (mk_result [3] (DBool alls))
    ∧ aggregate (idx_array [0; 0; 2]) (array1 [1; 0; nan]%float) (FuncName "any") SizeNone
        0%float OrderF None _impl_dict = Ok (mk_result [3] (DBool anys))
    ∧ aggregate (idx_array [0; 0; 2]) (array1 [1; 0; nan]%float) (FuncName "allnan") SizeNone
        0%float OrderF None _impl_dict = Ok (mk_result [3] (DBool allnans))
    ∧ aggregate (idx_array [0; 0; 2]) (array1 [1; 0; nan]%float) (FuncName "anynan") SizeNone
        0%float OrderF None _impl_dict = Ok (mk_result [3] (DBool anynans))
    ∧ py_truth nan = true
    ∧ ∀ g, g < 3 →
        let xs := group_values [0; 0; 2] [1; 0; nan]%float g in
        let empty := group_count [0; 0; 2] g =? 0 in
        alls !! g = Some (if empty then py_truth 0 else forallb py_truth xs)
        ∧ anys !! g = Some (if empty then py_truth 0 else existsb py_truth xs)
        ∧ allnans !! g = Some (if empty then py_truth 0 else forallb np_isnan xs)
        ∧ anynans !! g = Some (if empty then py_truth 0 else existsb np_isnan xs).
Proof.
  apply (boolean_by_group [0; 0; 2] [1; 0; nan]%float SizeNone 3 0%float OrderF None);
    reflexivity.
Defined.

Lemma std_is_sqrt_var_witness :
  ∃ vars stds : list float,
    aggregate (idx_array [0; 0; 2]) (array1 [1; 3; 5]%float) (FuncName "var") SizeNone
      0%float OrderF None _impl_dict = Ok (mk_result [3] (DFloat vars))
    ∧ aggregate (idx_array [0; 0; 2]) (array1 [1; 3; 5]%float) (FuncName "std") SizeNone
        0%float OrderF None _impl_dict = Ok (mk_result [3] (DFloat stds))
    ∧ ∀ g, g ∈ [0; 0; 2] →
        vars !! g = Some (var_two_pass (group_values [0; 0; 2] [1; 3; 5]%float g))
        ∧ stds !! g
          = Some (PrimFloat.sqrt (var_two_pass (group_values [0; 0; 2] [1; 3; 5]%float g))).
Proof.
  apply (std_is_sqrt_var [0; 0; 2] [1; 3; 5]%float SizeNone 3 0%float OrderF None);
    reflexivity.
Defined.

Lemma slot_depends_on_group_witness :
  ∃ ret ret' : dense,
    aggregate (idx_array [0; 1; 0; 1]) (array1 [1; 2; 3; 4]%float) (FuncName "mean") SizeNone
      0%float OrderF None _impl_dict = Ok (mk_result [2] ret)
    ∧ aggregate (idx_array [2; 1; 1; 2; 2]) (array1 [7; 2; 4; 8; 9]%float) (FuncName "mean")
        (SizeScalar 5) 0%float OrderC None _impl_dict = Ok (mk_result [5] ret')
    ∧ is_Some (dense_lookup ret 1)
    ∧ dense_lookup ret 1 = dense_lookup ret' 1.
Proof.
  apply (slot_depends_on_group "mean" [0; 1; 0; 1] [2; 1; 1; 2; 2] [1; 2; 3; 4]%float
           [7; 2; 4; 8; 9]%float SizeNone (SizeScalar 5) 2 5 0%float OrderF OrderC None 1);
    try reflexivity; lia.
Defined.

Lemma empty_input_witness :
  ∃ ret,
    aggregate (array1 []) (array1 []) (FuncName "mean") (SizeScalar (Z.of_nat 3)) nan OrderF
      None _impl_dict = Ok (mk_result [3] ret)
    ∧ dense_length ret = 3
    ∧ ∀ g, g < 3 →
        match dense_lookup ret g with
        | Some (CFloat x) => np_same x nan = true
        | Some (CBool b) => b = py_truth nan
        | None => False
        end.
Proof. apply (proj2 empty_input "mean"%string 3 nan OrderF None). reflexivity. Defined.

(** * The kernels of [aggregate_weave] *)

Lemma alter_insert {A : Type} (f : A → A) (l : list A) (i : nat) (x : A) :
  l !! i = Some x → alter f i l = <[i := f x]> l.
Proof.
  revert i. induction l as [|y l IH]; intros [|i] Hi; try done.
  - by injection Hi as ->.
  - cbn. f_equal. by apply IH.
Qed.

(** The loop of a kernel whose body is slot-local: after the loop the slot
    of a group holds the fold of [step] over the values of the group. *)
Lemma slot_local_fold (iter : citer) (step : float * Z → float → float * Z)
    (idx : list nat) (a : list float) (s : cstate) (g : nat) (r : float) (c : Z) :
  slot_local iter step →
  Forall (λ w, w < length (ret s)) idx →
  length (counter s) = length (ret s) →
  length a = length idx →
  ret s !! g = Some r → counter s !! g = Some c →
  let s' := fold_left (λ s gx, iter s gx.1 gx.2) (zip idx a) s in
  length (ret s') = length (ret s)
  ∧ length (counter s') = length (ret s)
  ∧ ret s' !! g = Some (fold_left step (group_values idx a g) (r, c)).1
  ∧ counter s' !! g = Some (fold_left step (group_values idx a g) (r, c)).2.
Proof.
  intros Hloc. revert a s r c.
  induction idx as [|w idx IH]; intros [|x a] s r c Hidx Hcl Hlen Hr Hc; try done.
  intros s'. subst s'. cbn [zip zip_with fold_left fst snd]. rewrite group_values_cons.
  apply Forall_cons in Hidx as [Hw Hidx].
  destruct (lookup_lt_is_Some_2 (ret s) w Hw) as [rw Hrw].
  destruct (lookup_lt_is_Some_2 (counter s) w) as [cw Hcw]; [by rewrite Hcl|].
  destruct (Hloc s w x rw cw Hrw Hcw) as [Hret Hcnt].
  assert (length (ret (iter s w x)) = length (ret s)) as Hl1
    by (by rewrite Hret, length_insert).
  assert (length (counter (iter s w x)) = length (ret s)) as Hl2
    by (by rewrite Hcnt, length_insert, Hcl).
  destruct (decide (w = g)) as [->|Hne].
  - assert (rw = r ∧ cw = c) as [-> ->] by (split; congruence).
    destruct (IH a (iter s g x) (step (r, c) x).1 (step (r, c) x).2) as (? & ? & ? & ?).
    + by rewrite Hl1.
    + by rewrite Hl1, Hl2.
    + by injection Hlen.
    + rewrite Hret. by apply list_lookup_insert_eq.
    + rewrite Hcnt. apply list_lookup_insert_eq. by rewrite Hcl.
    + rewrite <- surjective_pairing in *. rewrite Hl1 in *. done.
  - destruct (IH a (iter s w x) r c) as (? & ? & ? & ?).
    + by rewrite Hl1.
    + by rewrite Hl1, Hl2.
    + by injection Hlen.
    + rewrite Hret. by rewrite list_lookup_insert_ne.
    + rewrite Hcnt. by rewrite list_lookup_insert_ne.
    + rewrite Hl1 in *. done.
Qed.

Lemma set_ret_counter_local (f : float → float → float) (h : Z → Z) :
  slot_local (λ s w x, set_ret (λ r, f r x) w (set_counter h w s))
    (λ rc x, (f rc.1 x, h rc.2)).
Proof.
  intros s w x r c Hr Hc. cbn [set_ret set_counter ret counter fst snd].
  by rewrite (alter_insert _ _ _ _ Hr), (alter_insert _ _ _ _ Hc).
Qed.

Lemma set_ret_local (f : float → float → float) :
  slot_local (λ s w x, set_ret (λ r, f r x) w s) (λ rc x, (f rc.1 x, rc.2)).
Proof.
  intros s w x r c Hr Hc. cbn [set_ret ret counter fst snd].
  split; [by rewrite (alter_insert _ _ _ _ Hr)|by rewrite list_insert_id].
Qed.

Lemma test_set_local (p : float → bool) (v : float) :
  slot_local (λ s w x, let s := set_counter (λ _, 0%Z) w s in
                       if p x then set_ret (λ _, v) w s else s)
    (λ rc x, (if p x then v else rc.1, 0%Z)).
Proof.
  intros s w x r c Hr Hc. cbn zeta. destruct (p x); cbn [set_ret set_counter ret counter fst snd].
  - by rewrite (alter_insert _ _ _ _ Hr), (alter_insert _ _ _ _ Hc).
  - split; [by rewrite list_insert_id|by rewrite (alter_insert _ _ _ _ Hc)].
Qed.

Lemma first_then_local (better : float → float → bool) :
  slot_local (λ s w x,
                if bool_decide (counter s !! w = Some 1%Z)
                then set_counter (λ _, 0%Z) w (set_ret (λ _, x) w s)
                else set_ret (λ r, if better r x then x else r) w s)
    (λ rc x, if (rc.2 =? 1)%Z then (x, 0%Z)
             else (if better rc.1 x then x else rc.1, rc.2)).
Proof.
  intros s w x r c Hr Hc. cbn [fst snd]. rewrite Hc.
  destruct (Z.eqb_spec c 1) as [->|Hne].
  - rewrite bool_decide_eq_true_2 by done. cbn [set_ret set_counter ret counter fst snd].
    by rewrite (alter_insert _ _ _ _ Hr), (alter_insert _ _ _ _ Hc).
  - rewrite bool_decide_eq_false_2 by congruence. cbn [set_ret set_counter ret counter fst snd].
    split; [by rewrite (alter_insert _ _ _ _ Hr)|by rewrite list_insert_id].
Qed.

Lemma nan_iter_local (iter : citer) (step : float * Z → float → float * Z) :
  slot_local iter step →
  slot_local (c_nan_iter iter) (λ rc x, if py_eq x x then step rc x else rc).
Proof.
  intros Hloc s w x r c Hr Hc. unfold c_nan_iter. destruct (py_eq x x); [by apply Hloc|].
  cbn [fst snd]. by rewrite !list_insert_id by done.
Qed.

(** The loops of the kernels without a finishing snippet. *)
Lemma c_base_slots (iter : citer) (step : float * Z → float → float * Z) (idx : list nat)
    (a : list float) (n : nat) (r0 : float) (c0 : Z) (m0 : list float) :
  slot_local iter step →
  length a = length idx →
  Forall (λ g, g < n) idx →
  let s := c_base iter id idx a (mk_cstate (replicate n r0) (replicate n c0) m0) in
  length (ret s) = n ∧ length (counter s) = n
  ∧ ∀ g, g < n →
      ret s !! g = Some (fold_left step (group_values idx a g) (r0, c0)).1
      ∧ counter s !! g = Some (fold_left step (group_values idx a g) (r0, c0)).2.
Proof.
  intros Hloc Hlen Hidx. unfold c_base, id. cbn zeta.
  set (s0 := mk_cstate _ _ _).
  assert (length (ret s0) = n) as Hr0 by apply length_replicate.
  assert (length (counter s0) = length (ret s0)) as Hc0
    by (cbn; by rewrite !length_replicate).
  assert (Forall (λ w, w < length (ret s0)) idx) as Hidx0 by (by rewrite Hr0).
  split; [|split].
  - destruct n as [|n].
    + destruct idx as [|g idx]; [by destruct a|]. apply Forall_cons in Hidx as [? _]. lia.
    + edestruct (slot_local_fold iter step idx a s0 0 r0 c0 Hloc Hidx0 Hc0 Hlen) as (H1 & _);
        [done..|]. by rewrite H1.
  - destruct n as [|n].
    + destruct idx as [|g idx]; [by destruct a|]. apply Forall_cons in Hidx as [? _]. lia.
    + edestruct (slot_local_fold iter step idx a s0 0 r0 c0 Hloc Hidx0 Hc0 Hlen)
        as (_ & H2 & _); [done..|]. by rewrite H2.
  - intros g Hg.
    edestruct (slot_local_fold iter step idx a s0 g r0 c0 Hloc Hidx0 Hc0 Hlen)
      as (_ & _ & H3 & H4); [by apply lookup_replicate_2..|]. done.
Qed.

Lemma c_base_reverse_eq (iter : citer) (finish : cstate → cstate) (idx : list nat)
    (a : list float) (s : cstate) :
  length a = length idx →
  c_base_reverse iter finish idx a s = c_base iter finish (reverse idx) (reverse a) s.
Proof.
  intros Hlen. unfold c_base_reverse, c_base. do 2 f_equal.
  revert a Hlen. induction idx as [|g idx IH]; intros [|x a] Hlen; try done.
  cbn [zip zip_with]. rewrite !reverse_cons, zip_with_app by (by rewrite !length_reverse; injection Hlen).
  rewrite IH by (by injection Hlen). done.
Qed.

Lemma fold_step_const (f : float → float → float) (k : Z) (xs : list float) (r : float)
    (c : Z) :
  fold_left (λ rc x, (f rc.1 x, k)) xs (r, c)
  = (fold_left f xs r, match xs with [] => c | _ => k end).
Proof.
  revert r c. induction xs as [|x xs IH]; intros r c; [done|].
  cbn [fold_left fst snd]. rewrite IH. by destruct xs.
Qed.

Lemma fold_step_keep (f : float → float → float) (xs : list float) (r : float) (c : Z) :
  fold_left (λ rc x, (f rc.1 x, rc.2)) xs (r, c) = (fold_left f xs r, c).
Proof.
  revert r. induction xs as [|x xs IH]; intros r; [done|].
  cbn [fold_left fst snd]. by rewrite IH.
Qed.

Lemma fold_step_succ (f : float → float → float) (xs : list float) (r : float) (c : Z) :
  fold_left (λ rc x, (f rc.1 x, Z.succ rc.2)) xs (r, c)
  = (fold_left f xs r, (c + Z.of_nat (length xs))%Z).
Proof.
  revert r c. induction xs as [|x xs IH]; intros r c.
  - cbn. f_equal. lia.
  - cbn [fold_left fst snd length]. rewrite IH. f_equal. lia.
Qed.

Lemma fold_left_last (xs : list float) (r : float) :
  fold_left (λ _ x, x) xs r = default r (last xs).
Proof.
  revert r. induction xs as [|x xs IH]; intros r; [done|].
  cbn [fold_left]. rewrite IH, last_cons. by destruct (last xs).
Qed.

Lemma kernel_valid (idx : list nat) (a : list float) (n : nat) :
  length a = length idx → Forall (λ g, g < n) idx →
  existsb (λ g, n <=? g) idx || negb (length a =? length idx) = false.
Proof.
  intros Hlen Hidx. by rewrite existsb_out_of_bounds, Hlen, Nat.eqb_refl.
Qed.

Lemma aggregate_kernel_sum (idx : list nat) (a : list float) (n : nat) (fill_value : float)
    (ddof : Z) :
  aggregate_kernel "sum" idx a n fill_value ddof
  = if existsb (λ g, n <=? g) idx || negb (length a =? length idx) then OutOfModel
    else
      let s := c_base (λ s w x, set_ret (λ r, r + x)%float w (set_counter (λ _, 0%Z) w s)) id
                 idx a (mk_cstate (replicate n 0%float) (replicate n 1%Z) []) in
      Ok (if py_ne fill_value 0
          then mask_assign ((λ c, negb (c =? 0)%Z) <$> counter s) (ret s) fill_value
          else ret s).
Proof. reflexivity. Qed.

Lemma aggregate_kernel_prod (idx : list nat) (a : list float) (n : nat) (fill_value : float)
    (ddof : Z) :
  aggregate_kernel "prod" idx a n fill_value ddof
  = if existsb (λ g, n <=? g) idx || negb (length a =? length idx) then OutOfModel
    else
      let s := c_base (λ s w x, set_ret (λ r, r * x)%float w (set_counter (λ _, 0%Z) w s)) id
                 idx a (mk_cstate (replicate n 1%float) (replicate n 1%Z) []) in
      Ok (if py_ne fill_value 1
          then mask_assign ((λ c, negb (c =? 0)%Z) <$> counter s) (ret s) fill_value
          else ret s).
Proof. reflexivity. Qed.

(** The kernels that start from the neutral element and mark the slots
    they touched: untouched slots get [fill_value] afterwards. *)
Lemma marked_kernel_lookup (iter : citer) (f : float → float → float) (r0 fill_value : float)
    (idx : list nat) (a : list float) (n : nat) (test : bool) :
  slot_local iter (λ rc x, (f rc.1 x, 0%Z)) →
  length a = length idx →
  Forall (λ g, g < n) idx →
  let s := c_base iter id idx a (mk_cstate (replicate n r0) (replicate n 1%Z) []) in
  let out := if test
             then mask_assign ((λ c, negb (c =? 0)%Z) <$> counter s) (ret s) fill_value
             else ret s in
  length out = n
  ∧ ∀ g, g < n →
      out !! g = Some (match group_values idx a g with
                       | [] => if test then fill_value else r0
                       | xs => fold_left f xs r0
                       end).
Proof.
  intros Hloc Hlen Hidx.
  destruct (c_base_slots _ _ idx a n r0 1%Z [] Hloc Hlen Hidx) as (Hrl & Hcl & Hs).
  cbn zeta. split.
  - destruct test; by rewrite ?mask_assign_length.
  - intros g Hg. destruct (Hs g Hg) as [Hr Hc].
    rewrite fold_step_const in Hr, Hc. cbn [fst snd] in Hr, Hc.
    destruct test.
    + rewrite mask_assign_lookup, Hr, list_lookup_fmap, Hc. cbn.
      by destruct (group_values idx a g).
    + rewrite Hr. by destruct (group_values idx a g).
Qed.

(** The sum and the prod kernel return what numpy's [_sum] and [_prod]
    return, slot for slot and bit for bit. *)
Theorem weave_sum_prod (idx : list nat) (a : list float) (n : nat) (fill_value : float)
    (ddof : Z) (dtype : option dtype_t) :
  length a = length idx →
  Forall (λ g, g < n) idx →
  is_float_dtype dtype = true →
  ∃ sums prods : list float,
    aggregate_kernel "sum" idx a n fill_value ddof = Ok sums
    ∧ _sum idx (array1 a) (Z.of_nat n) fill_value dtype = Ok (DFloat sums)
    ∧ aggregate_kernel "prod" idx a n fill_value ddof = Ok prods
    ∧ _prod idx (array1 a) (Z.of_nat n) fill_value dtype = Ok (DFloat prods).
Proof.
  intros Hlen Hidx Hdt.
  rewrite aggregate_kernel_sum, aggregate_kernel_prod, kernel_valid by done. cbn zeta.
  destruct (marked_kernel_lookup _ PrimFloat.add 0 fill_value idx a n (py_ne fill_value 0)
              (set_ret_counter_local PrimFloat.add (λ _, 0%Z)) Hlen Hidx) as [Hsl Hs].
  destruct (marked_kernel_lookup _ PrimFloat.mul 1 fill_value idx a n (py_ne fill_value 1)
              (set_ret_counter_local PrimFloat.mul (λ _, 0%Z)) Hlen Hidx) as [Hpl Hp].
  cbn zeta in Hsl, Hs, Hpl, Hp.
  destruct (_sum_cells idx a n fill_value dtype Hlen Hidx Hdt) as (rs & Hrs & Hrsl & Hrsg).
  destruct (_prod_cells idx a n fill_value dtype Hlen Hidx Hdt) as (rp & Hrp & Hrpl & Hrpg).
  assert (∃ xs, rs = DFloat xs) as [xs ->].
  { apply (dispatch_numeric_dtype "sum" idx (array1 a) (Z.of_nat n) fill_value dtype);
      [by apply elem_of_numeric|done]. }
  assert (∃ ys, rp = DFloat ys) as [ys ->].
  { apply (dispatch_numeric_dtype "prod" idx (array1 a) (Z.of_nat n) fill_value dtype);
      [by apply elem_of_numeric|done]. }
  eexists _, _. split; [done|]. split; [|split; [done|]].
  - rewrite Hrs. do 2 f_equal. apply list_eq. intros g.
    destruct (decide (g < n)) as [Hg|Hg].
    + rewrite (Hs g Hg). apply cfloat_lookup. change (CFloat <$> xs !! g) with (dense_lookup (DFloat xs) g). rewrite (Hrsg g Hg), reduce_cell_sum.
      by destruct (group_values idx a g).
    + rewrite !lookup_ge_None_2; [done|lia|cbn in Hrsl; lia].
  - rewrite Hrp. do 2 f_equal. apply list_eq. intros g.
    destruct (decide (g < n)) as [Hg|Hg].
    + rewrite (Hp g Hg). apply cfloat_lookup. change (CFloat <$> ys !! g) with (dense_lookup (DFloat ys) g). rewrite (Hrpg g Hg).
      unfold reduce_cell. cbn.
      destruct (group_values idx a g); [|done].
      destruct (py_ne fill_value 1) eqn:H1; [done|]. by rewrite (py_ne_1 _ H1).
    + rewrite !lookup_ge_None_2; [done|lia|cbn in Hrpl; lia].
Qed.

Lemma aggregate_kernel_last (idx : list nat) (a : list float) (n : nat) (fill_value : float)
    (ddof : Z) :
  aggregate_kernel "last" idx a n fill_value ddof
  = if existsb (λ g, n <=? g) idx || negb (length a =? length idx) then OutOfModel
    else Ok (ret (c_base (λ s w x, set_ret (λ _, x) w s) id idx a
                    (mk_cstate (replicate n fill_value) (replicate n 1%Z) []))).
Proof. reflexivity. Qed.

Lemma aggregate_kernel_first (idx : list nat) (a : list float) (n : nat) (fill_value : float)
    (ddof : Z) :
  aggregate_kernel "first" idx a n fill_value ddof
  = if existsb (λ g, n <=? g) idx || negb (length a =? length idx) then OutOfModel
    else Ok (ret (c_base_reverse (λ s w x, set_ret (λ _, x) w s) id idx a
                    (mk_cstate (replicate n fill_value) (replicate n 1%Z) []))).
Proof. reflexivity. Qed.

(** The last kernel runs forward and the first kernel is the same body run
    backward: the slot of a non-empty group holds the last (the first)
    value of the group, as with numpy's [_last] and [_first]; an empty group
    holds [fill_value] as given, where numpy holds +0.0 for a zero of
    either sign. *)
Theorem weave_first_last (idx : list nat) (a : list float) (n : nat) (fill_value : float)
    (ddof : Z) (dtype : option dtype_t) :
  length a = length idx →
  Forall (λ g, g < n) idx →
  is_float_dtype dtype = true →
  ∃ lasts firsts np_lasts np_firsts : list float,
    aggregate_kernel "last" idx a n fill_value ddof = Ok lasts
    ∧ aggregate_kernel "first" idx a n fill_value ddof = Ok firsts
    ∧ _last idx (array1 a) (Z.of_nat n) fill_value dtype = Ok (DFloat np_lasts)
    ∧ _first idx (array1 a) (Z.of_nat n) fill_value dtype = Ok (DFloat np_firsts)
    ∧ length lasts = n ∧ length firsts = n
    ∧ ∀ g, g < n →
        lasts !! g = Some (default fill_value (last (group_values idx a g)))
        ∧ firsts !! g = Some (default fill_value (head (group_values idx a g)))
        ∧ np_lasts !! g = Some (default (prefill fill_value) (last (group_values idx a g)))
        ∧ np_firsts !! g = Some (default (prefill fill_value) (head (group_values idx a g))).
Proof.
  intros Hlen Hidx Hdt.
  rewrite aggregate_kernel_last, aggregate_kernel_first, kernel_valid by done.
  rewrite c_base_reverse_eq by done.
  destruct (c_base_slots _ _ idx a n fill_value 1%Z []
              (set_ret_local (λ _ x, x)) Hlen Hidx) as (Hll & _ & Hl).
  destruct (c_base_slots _ _ (reverse idx) (reverse a) n fill_value 1%Z []
              (set_ret_local (λ _ x, x))) as (Hfl & _ & Hf);
    [by rewrite !length_reverse|by apply Forall_reverse|].
  cbn zeta in *.
  destruct (_last_cells idx a n fill_value dtype Hlen Hidx Hdt) as (nl & Hnl & _ & Hnlg).
  destruct (_first_cells idx a n fill_value dtype Hlen Hidx Hdt) as (nf & Hnf & _ & Hnfg).
  assert (∃ xs, nl = DFloat xs) as [xs ->].
  { apply (dispatch_numeric_dtype "last" idx (array1 a) (Z.of_nat n) fill_value dtype);
      [by apply elem_of_numeric|done]. }
  assert (∃ ys, nf = DFloat ys) as [ys ->].
  { apply (dispatch_numeric_dtype "first" idx (array1 a) (Z.of_nat n) fill_value dtype);
      [by apply elem_of_numeric|done]. }
  eexists _, _, xs, ys. do 6 (split; [done|]). intros g Hg.
  destruct (Hl g Hg) as [-> _]. destruct (Hf g Hg) as [-> _].
  rewrite !(fold_step_keep (λ _ x, x)), !fold_left_last, group_values_reverse, last_reverse by done.
  do 2 (split; [done|]). split; apply cfloat_lookup.
  - change (CFloat <$> xs !! g) with (dense_lookup (DFloat xs) g). by rewrite (Hnlg g Hg).
  - change (CFloat <$> ys !! g) with (dense_lookup (DFloat ys) g). by rewrite (Hnfg g Hg).
Qed.

Lemma aggregate_kernel_all (idx : list nat) (a : list float) (n : nat) (fill_value : float)
    (ddof : Z) :
  aggregate_kernel "all" idx a n fill_value ddof
  = if existsb (λ g, n <=? g) idx || negb (length a =? length idx) then OutOfModel
    else
      let s := c_base (λ s w x, let s := set_counter (λ _, 0%Z) w s in
                                if py_eq x 0 then set_ret (λ _, 0%float) w s else s) id
                 idx a (mk_cstate (replicate n 1%float) (replicate n 1%Z) []) in
      Ok (if py_ne fill_value 1
          then mask_assign ((λ c, negb (c =? 0)%Z) <$> counter s) (ret s) fill_value
          else ret s).
Proof. reflexivity. Qed.

Lemma aggregate_kernel_any (idx : list nat) (a : list float) (n : nat) (fill_value : float)
    (ddof : Z) :
  aggregate_kernel "any" idx a n fill_value ddof
  = if existsb (λ g, n <=? g) idx || negb (length a =? length idx) then OutOfModel
    else
      let s := c_base (λ s w x, let s := set_counter (λ _, 0%Z) w s in
                                if py_ne x 0 then set_ret (λ _, 1%float) w s else s) id
                 idx a (mk_cstate (replicate n 0%float) (replicate n 1%Z) []) in
      Ok (if py_ne fill_value 0
          then mask_assign ((λ c, negb (c =? 0)%Z) <$> counter s) (ret s) fill_value
          else ret s).
Proof. reflexivity. Qed.

Lemma aggregate_kernel_allnan (idx : list nat) (a : list float) (n : nat) (fill_value : float)
    (ddof : Z) :
  aggregate_kernel "allnan" idx a n fill_value ddof
  = if existsb (λ g, n <=? g) idx || negb (length a =? length idx) then OutOfModel
    else
      let s := c_base (λ s w x, let s := set_counter (λ _, 0%Z) w s in
                                if py_eq x x then set_ret (λ _, 0%float) w s else s) id
                 idx a (mk_cstate (replicate n 1%float) (replicate n 1%Z) []) in
      Ok (if py_ne fill_value 1
          then mask_assign ((λ c, negb (c =? 0)%Z) <$> counter s) (ret s) fill_value
          else ret s).
Proof. reflexivity. Qed.

Lemma aggregate_kernel_anynan (idx : list nat) (a : list float) (n : nat) (fill_value : float)
    (ddof : Z) :
  aggregate_kernel "anynan" idx a n fill_value ddof
  = if existsb (λ g, n <=? g) idx || negb (length a =? length idx) then OutOfModel
    else
      let s := c_base (λ s w x, let s := set_counter (λ _, 0%Z) w s in
                                if py_ne x x then set_ret (λ _, 1%float) w s else s) id
                 idx a (mk_cstate (replicate n 0%float) (replicate n 1%Z) []) in
      Ok (if py_ne fill_value 0
          then mask_assign ((λ c, negb (c =? 0)%Z) <$> counter s) (ret s) fill_value
          else ret s).
Proof. reflexivity. Qed.

Lemma fold_left_test (p : float → bool) (v : float) (xs : list float) (r : float) :
  fold_left (λ r x, if p x then v else r) xs r = if existsb p xs then v else r.
Proof.
  revert r. induction xs as [|x xs IH]; intros r; [done|].
  cbn [fold_left existsb]. rewrite IH. destruct (p x); [|done]. by destruct (existsb p xs).
Qed.

Lemma existsb_ext {A : Type} (p q : A → bool) (l : list A) :
  (∀ x, p x = q x) → existsb p l = existsb q l.
Proof. intros Hpq. induction l as [|x l IH]; [done|]. cbn. by rewrite Hpq, IH. Qed.

(** A test-and-set kernel: what a slot holds, and its truth value. *)
Lemma test_kernel_lookup (p : float → bool) (v r0 fill_value : float) (idx : list nat)
    (a : list float) (n : nat) :
  length a = length idx →
  Forall (λ g, g < n) idx →
  let s := c_base (λ s w x, let s := set_counter (λ _, 0%Z) w s in
                            if p x then set_ret (λ _, v) w s else s) id
             idx a (mk_cstate (replicate n r0) (replicate n 1%Z) []) in
  let out := if py_ne fill_value r0
             then mask_assign ((λ c, negb (c =? 0)%Z) <$> counter s) (ret s) fill_value
             else ret s in
  length out = n
  ∧ ∀ g, g < n →
      out !! g = Some (match group_values idx a g with
                       | [] => if py_ne fill_value r0 then fill_value else r0
                       | xs => if existsb p xs then v else r0
                       end).
Proof.
  intros Hlen Hidx.
  destruct (marked_kernel_lookup _ (λ r x, if p x then v else r) r0 fill_value idx a n
              (py_ne fill_value r0) (test_set_local p v) Hlen Hidx) as [Hl Hg].
  cbn zeta in *. split; [done|]. intros g Hlt. rewrite (Hg g Hlt).
  destruct (group_values idx a g) as [|x xs]; [done|]. by rewrite fold_left_test.
Qed.

(** The all, any, allnan and anynan kernels: the truth value of every slot
    is the boolean numpy's reduction returns, and the slot of a non-empty
    group holds 1 or 0. *)
Theorem weave_boolean (f : string) (idx : list nat) (a : list float) (n : nat)
    (fill_value : float) (ddof : Z) (dtype : option dtype_t) :
  f ∈ boolean_funcs →
  length a = length idx →
  Forall (λ g, g < n) idx →
  check_boolean fill_value = Ok () →
  ∃ (ret : list float) (bs : list bool),
    aggregate_kernel f idx a n fill_value ddof = Ok ret
    ∧ dispatch (FuncName f) idx (array1 a) (Z.of_nat n) fill_value dtype _impl_dict
      = Ok (DBool bs)
    ∧ length ret = n
    ∧ ∀ g, g < n →
        ∃ x, ret !! g = Some x ∧ bs !! g = Some (py_truth x)
             ∧ (g ∈ idx → x = if py_truth x then 1%float else 0%float).
Proof.
  intros Hf Hlen Hidx Hfill.
  assert (py_eq fill_value 0 = true ∨ fill_value = 1%float) as Hfv.
  { destruct (py_eq fill_value 0) eqn:H0; [by left|].
    destruct (py_eq fill_value 1) eqn:H1.
    - right. apply py_ne_1. unfold py_ne. unfold py_eq in H1. by rewrite H1.
    - unfold check_boolean in Hfill. by rewrite H0, H1 in Hfill. }
  assert (dense_call f fill_value dtype = true) as Hcall.
  { unfold dense_call. rewrite (bool_decide_eq_true_2 (f ∈ boolean_funcs)), Hfill by done.
    apply orb_true_r. }
  destruct (dispatch_cells f idx a n fill_value dtype Hcall Hlen Hidx) as (r & Hr & _ & Hrg).
  destruct (proj2 (dispatch_bool_dtype f idx (array1 a) (Z.of_nat n) fill_value dtype Hf) _ Hr)
    as [bs ->].
  assert (∀ g xs, group_values idx a g = xs → xs ≠ [] → g ∈ idx) as Hin.
  { intros g xs <- Hne. destruct (decide (g ∈ idx)) as [|Hnin]; [done|].
    by apply (group_values_nil idx a g Hlen) in Hnin. }
  assert (∀ g xs, group_values idx a g = xs → g ∈ idx → xs ≠ []) as Hin'.
  { intros g xs <- Hg Hnil. by apply (group_values_nil idx a g Hlen) in Hnil. }
  unfold boolean_funcs in Hf.
  repeat (apply elem_of_cons in Hf as [-> | Hf]); [..|by apply elem_of_nil in Hf].
  - rewrite aggregate_kernel_all, kernel_valid by done.
    destruct (test_kernel_lookup (λ x, py_eq x 0) 0 1 fill_value idx a n Hlen Hidx) as [Hl Hg].
    cbn zeta in *. eexists _, bs. do 3 (split; [done|]). intros g Hlt.
    specialize (Hrg g Hlt). unfold reduce_cell in Hrg. cbn in Hrg. apply cbool_lookup in Hrg.
    rewrite (Hg g Hlt), Hrg. eexists. split; [done|].
    destruct (group_values idx a g) as [|x xs] eqn:Hxs.
    + split; [|by intros ?%(Hin' g [])].
      destruct Hfv as [H0| ->]; [|done].
      destruct (py_ne fill_value 1) eqn:H1; [done|].
      by rewrite (py_ne_1 fill_value H1) in H0.
    + rewrite forallb_negb_existsb.
      rewrite (existsb_ext (λ x, negb (py_truth x)) (λ x, py_eq x 0))
        by (intros y; unfold py_truth, py_ne; apply negb_involutive).
      by destruct (existsb _ (x :: xs)).
  - rewrite aggregate_kernel_any, kernel_valid by done.
    destruct (test_kernel_lookup (λ x, py_ne x 0) 1 0 fill_value idx a n Hlen Hidx) as [Hl Hg].
    cbn zeta in *. eexists _, bs. do 3 (split; [done|]). intros g Hlt.
    specialize (Hrg g Hlt). unfold reduce_cell in Hrg. cbn in Hrg. apply cbool_lookup in Hrg.
    rewrite (Hg g Hlt), Hrg. eexists. split; [done|].
    destruct (group_values idx a g) as [|x xs] eqn:Hxs.
    + split; [|by intros ?%(Hin' g [])].
      unfold py_truth. destruct (py_ne fill_value 0) eqn:H0; [by rewrite H0|done].
    + change py_truth with (λ x, py_ne x 0). by destruct (existsb _ (x :: xs)).
  - rewrite aggregate_kernel_allnan, kernel_valid by done.
    destruct (test_kernel_lookup (λ x, py_eq x x) 0 1 fill_value idx a n Hlen Hidx) as [Hl Hg].
    cbn zeta in *. eexists _, bs. do 3 (split; [done|]). intros g Hlt.
    specialize (Hrg g Hlt). unfold reduce_cell in Hrg. cbn in Hrg. apply cbool_lookup in Hrg.
    rewrite (Hg g Hlt), Hrg. eexists. split; [done|].
    destruct (group_values idx a g) as [|x xs] eqn:Hxs.
    + split; [|by intros ?%(Hin' g [])].
      destruct Hfv as [H0| ->]; [|done].
      destruct (py_ne fill_value 1) eqn:H1; [done|].
      by rewrite (py_ne_1 fill_value H1) in H0.
    + rewrite forallb_negb_existsb.
      rewrite (existsb_ext (λ x, negb (np_isnan x)) (λ x, py_eq x x))
        by (intros y; unfold np_isnan, PrimFloat.is_nan, py_eq; apply negb_involutive).
      by destruct (existsb _ (x :: xs)).
  - rewrite aggregate_kernel_anynan, kernel_valid by done.
    destruct (test_kernel_lookup (λ x, py_ne x x) 1 0 fill_value idx a n Hlen Hidx) as [Hl Hg].
    cbn zeta in *. eexists _, bs. do 3 (split; [done|]). intros g Hlt.
    specialize (Hrg g Hlt). unfold reduce_cell in Hrg. cbn in Hrg. apply cbool_lookup in Hrg.
    rewrite (Hg g Hlt), Hrg. eexists. split; [done|].
    destruct (group_values idx a g) as [|x xs] eqn:Hxs.
    + split; [|by intros ?%(Hin' g [])].
      unfold py_truth. destruct (py_ne fill_value 0) eqn:H0; [by rewrite H0|done].
    + change np_isnan with (λ x, py_ne x x). by destruct (existsb _ (x :: xs)).
Qed.

Lemma aggregate_kernel_mean (idx : list nat) (a : list float) (n : nat) (fill_value : float)
    (ddof : Z) :
  aggregate_kernel "mean" idx a n fill_value ddof
  = if existsb (λ g, n <=? g) idx || negb (length a =? length idx) then OutOfModel
    else
      Ok (ret (for_each_slot
                 (λ r c _, if negb (c =? 0)%Z then (r / float_of_Z c)%float else fill_value)
                 (c_base (λ s w x, set_ret (λ r, r + x)%float w (set_counter Z.succ w s)) id
                    idx a (mk_cstate (replicate n fill_value) (replicate n 0%Z) [])))).
Proof. reflexivity. Qed.

Lemma aggregate_kernel_mean_lookup (idx : list nat) (a : list float) (n : nat)
    (fill_value : float) (ddof : Z) :
  length a = length idx →
  Forall (λ g, g < n) idx →
  ∃ ret, aggregate_kernel "mean" idx a n fill_value ddof = Ok ret
    ∧ length ret = n
    ∧ ∀ g, g < n →
        ret !! g = Some (if group_count idx g =? 0 then fill_value
                         else (fold_left PrimFloat.add (group_values idx a g) fill_value
                               / float_of_nat (group_count idx g))%float).
Proof.
  intros Hlen Hidx. rewrite aggregate_kernel_mean, kernel_valid by done.
  destruct (c_base_slots _ _ idx a n fill_value 0%Z []
              (set_ret_counter_local PrimFloat.add Z.succ) Hlen Hidx) as (Hrl & Hcl & Hs).
  cbn zeta in *. eexists. split; [done|]. unfold for_each_slot. cbn [ret counter means].
  split; [by rewrite length_imap|]. intros g Hg.
  destruct (Hs g Hg) as [Hr Hc]. rewrite fold_step_succ in Hr, Hc. cbn [fst snd] in Hr, Hc.
  rewrite list_lookup_imap, Hr, Hc. cbn. f_equal.
  rewrite (group_values_length idx a g Hlen).
  destruct (group_count idx g) as [|k]; [done|].
  by destruct (Z.eqb_spec (Z.of_nat (S k)) 0); [lia|].
Qed.

(** The mean kernel adds the values of a group onto the content [ret] was
    allocated with, which is [fill_value], and divides by the count: with
    the default [fill_value] 0 it returns what numpy's [_mean] returns, bit
    for bit. *)
Theorem weave_mean (idx : list nat) (a : list float) (n : nat) (fill_value : float)
    (ddof : Z) (dtype : option dtype_t) :
  length a = length idx →
  Forall (λ g, g < n) idx →
  is_float_dtype dtype = true →
  (∃ ret, aggregate_kernel "mean" idx a n fill_value ddof = Ok ret
     ∧ length ret = n
     ∧ ∀ g, g < n →
         ret !! g = Some (if group_count idx g =? 0 then fill_value
                          else (fold_left PrimFloat.add (group_values idx a g) fill_value
                                / float_of_nat (group_count idx g))%float))
  ∧ ∃ ret0, aggregate_kernel "mean" idx a n 0%float ddof = Ok ret0
      ∧ _mean idx (array1 a) (Z.of_nat n) 0%float dtype = Ok (DFloat ret0).
Proof.
  intros Hlen Hidx Hdt. split; [by apply aggregate_kernel_mean_lookup|].
  destruct (aggregate_kernel_mean_lookup idx a n 0%float ddof Hlen Hidx)
    as (ret0 & Hk & Hl & Hg).
  exists ret0. split; [done|].
  destruct (_mean_cells idx a n 0%float dtype Hlen Hidx Hdt) as (r & Hr & Hrl & Hrg).
  assert (∃ xs, r = DFloat xs) as [xs ->].
  { apply (dispatch_numeric_dtype "mean" idx (array1 a) (Z.of_nat n) 0%float dtype);
      [by apply elem_of_numeric|done]. }
  rewrite Hr. do 2 f_equal. apply list_eq. intros g.
  destruct (decide (g < n)) as [Hlt|Hge].
  - rewrite (Hg g Hlt). apply cfloat_lookup.
    change (CFloat <$> xs !! g) with (dense_lookup (DFloat xs) g). rewrite (Hrg g Hlt).
    rewrite (group_count_values idx a g Hlen), <- (group_values_length idx a g Hlen).
    unfold reduce_cell. cbn. by destruct (group_values idx a g).
  - rewrite !lookup_ge_None_2; [done|lia|cbn in Hrl; lia].
Qed.

(** ** Order of doubles *)

Lemma SFcompare_antisym (x y : spec_float) :
  SFcompare y x = CompOpp <$> SFcompare x y.
Proof.
  destruct x as [sx|sx| |sx mx ex], y as [sy|sy| |sy my ey]; cbn [SFcompare fmap option_fmap option_map];
    try done; try (by destruct sx); try (by destruct sy); try (by destruct sx, sy).
  change (PosDef.Pos.compare_cont Eq my mx) with (Pos.compare my mx).
  change (PosDef.Pos.compare_cont Eq mx my) with (Pos.compare mx my).
  rewrite (Z.compare_antisym ex ey), (Pos.compare_antisym mx my).
  destruct sx, sy; try done; destruct (ex ?= ey)%Z; cbn; try done;
    by destruct (mx ?= my)%positive.
Qed.

Lemma SFcompare_Some (x y : float) :
  np_isnan x = false → np_isnan y = false → is_Some (SFcompare (Prim2SF x) (Prim2SF y)).
Proof.
  unfold np_isnan, PrimFloat.is_nan. rewrite !FloatAxioms.eqb_spec. unfold SFeqb.
  intros Hx Hy.
  destruct (Prim2SF x) as [sx|sx| |sx mx ex], (Prim2SF y) as [sy|sy| |sy my ey];
    cbn [SFcompare] in *; try done.
Qed.

(** On doubles that are not NaN, [x <= y] is the negation of [y < x]. *)
Lemma leb_negb_ltb (x y : float) :
  np_isnan x = false → np_isnan y = false → PrimFloat.leb x y = negb (PrimFloat.ltb y x).
Proof.
  intros Hx Hy. rewrite FloatAxioms.leb_spec, FloatAxioms.ltb_spec. unfold SFleb, SFltb.
  rewrite (SFcompare_antisym (Prim2SF x) (Prim2SF y)).
  destruct (SFcompare_Some x y Hx Hy) as [c ->]. by destruct c.
Qed.

Lemma leb_antisym_finite (x c : float) (s : bool) (m : positive) (e : Z) :
  Prim2SF c = S754_finite s m e →
  PrimFloat.leb x c = true → PrimFloat.leb c x = true → x = c.
Proof.
  intros Hc. rewrite !FloatAxioms.leb_spec. unfold SFleb.
  rewrite (SFcompare_antisym (Prim2SF x) (Prim2SF c)).
  destruct (SFcompare (Prim2SF x) (Prim2SF c)) as [[]|] eqn:Hcmp; try done.
  intros _ _. apply Prim2SF_inj. rewrite Hc in *. by apply SFcompare_Eq_finite.
Qed.

Lemma leb_not_nan (x y : float) :
  PrimFloat.leb x y = true → np_isnan x = false ∧ np_isnan y = false.
Proof.
  rewrite FloatAxioms.leb_spec. unfold SFleb, np_isnan, PrimFloat.is_nan.
  rewrite !FloatAxioms.eqb_spec. unfold SFeqb. intros H.
  destruct (Prim2SF x) as [sx|sx| |sx mx ex] eqn:Hx, (Prim2SF y) as [sy|sy| |sy my ey] eqn:Hy;
    try done; rewrite !SFcompare_refl; done.
Qed.

(** ** The min and the max kernel *)

Lemma aggregate_kernel_min (idx : list nat) (a : list float) (n : nat) (fill_value : float)
    (ddof : Z) :
  aggregate_kernel "min" idx a n fill_value ddof
  = if existsb (λ g, n <=? g) idx || negb (length a =? length idx) then OutOfModel
    else Ok (ret (c_base (λ s w x,
                            if bool_decide (counter s !! w = Some 1%Z)
                            then set_counter (λ _, 0%Z) w (set_ret (λ _, x) w s)
                            else set_ret (λ r, if PrimFloat.ltb x r then x else r) w s) id
                    idx a (mk_cstate (replicate n fill_value) (replicate n 1%Z) []))).
Proof. reflexivity. Qed.

Lemma aggregate_kernel_max (idx : list nat) (a : list float) (n : nat) (fill_value : float)
    (ddof : Z) :
  aggregate_kernel "max" idx a n fill_value ddof
  = if existsb (λ g, n <=? g) idx || negb (length a =? length idx) then OutOfModel
    else Ok (ret (c_base (λ s w x,
                            if bool_decide (counter s !! w = Some 1%Z)
                            then set_counter (λ _, 0%Z) w (set_ret (λ _, x) w s)
                            else set_ret (λ r, if PrimFloat.ltb r x then x else r) w s) id
                    idx a (mk_cstate (replicate n fill_value) (replicate n 1%Z) []))).
Proof. reflexivity. Qed.

Lemma fold_first_then (pick : float → float → float) (xs : list float) (r : float) :
  (fold_left (λ rc x, if (rc.2 =? 1)%Z then (x, 0%Z) else (pick rc.1 x, rc.2)) xs (r, 1%Z)).1
  = match xs with [] => r | x :: xs => fold_left pick xs x end.
Proof.
  destruct xs as [|x xs]; [done|]. cbn [fold_left fst snd Z.eqb Pos.eqb].
  generalize x. clear x r. induction xs as [|y xs IH]; intros x; [done|].
  cbn [fold_left fst snd Z.eqb]. apply IH.
Qed.

Lemma first_then_kernel_lookup (better : float → float → bool) (idx : list nat)
    (a : list float) (n : nat) (fill_value : float) :
  length a = length idx →
  Forall (λ g, g < n) idx →
  let s := c_base (λ s w x,
                     if bool_decide (counter s !! w = Some 1%Z)
                     then set_counter (λ _, 0%Z) w (set_ret (λ _, x) w s)
                     else set_ret (λ r, if better r x then x else r) w s) id
             idx a (mk_cstate (replicate n fill_value) (replicate n 1%Z) []) in
  length (ret s) = n
  ∧ ∀ g, g < n →
      ret s !! g = Some (match group_values idx a g with
                         | [] => fill_value
                         | x :: xs => fold_left (λ r y, if better r y then y else r) xs x
                         end).
Proof.
  intros Hlen Hidx.
  destruct (c_base_slots _ _ idx a n fill_value 1%Z [] (first_then_local better) Hlen Hidx)
    as (Hrl & _ & Hs).
  cbn zeta in *. split; [done|]. intros g Hg. destruct (Hs g Hg) as [-> _].
  by rewrite (fold_first_then (λ r y, if better r y then y else r)).
Qed.

Lemma is_finite_not_nan (x : float) : is_finite x = true → np_isnan x = false.
Proof. unfold is_finite. intros [H _]%andb_true_iff. by apply leb_not_nan in H as [_ ?]. Qed.

(** Two doubles that compare equal are the same double, or zeros. *)
Lemma py_eq_cases (x y : float) :
  py_eq x y = true → x = y ∨ py_eq x 0 = true ∧ py_eq y 0 = true.
Proof.
  unfold py_eq. rewrite !FloatAxioms.eqb_spec. unfold SFeqb.
  change (Prim2SF 0) with (S754_zero false).
  destruct (SFcompare (Prim2SF x) (Prim2SF y)) as [[]|] eqn:Hc; try done. intros _.
  destruct (Prim2SF y) as [sy|sy| |sy my ey] eqn:Hy.
  - right. destruct (Prim2SF x) as [sx|sx| |sx mx ex]; cbn in Hc |- *; try done;
      by destruct sx.
  - left. apply Prim2SF_inj. rewrite Hy.
    destruct (Prim2SF x) as [sx|sx| |sx mx ex]; cbn in Hc; try done;
      by destruct sx, sy.
  - by destruct (Prim2SF x).
  - left. apply Prim2SF_inj. rewrite Hy. by apply SFcompare_Eq_finite.
Qed.

Lemma py_eq_sym (x y : float) : py_eq x y = py_eq y x.
Proof.
  unfold py_eq. rewrite !FloatAxioms.eqb_spec. unfold SFeqb.
  rewrite (SFcompare_antisym (Prim2SF x) (Prim2SF y)).
  by destruct (SFcompare (Prim2SF x) (Prim2SF y)) as [[]|].
Qed.

Lemma py_eq_refl (x : float) : np_isnan x = false → py_eq x x = true.
Proof.
  unfold np_isnan, PrimFloat.is_nan, py_eq. by intros ->%negb_false_iff.
Qed.

Lemma py_eq_not_nan (x y : float) :
  py_eq x y = true → np_isnan x = false ∧ np_isnan y = false.
Proof.
  unfold py_eq, np_isnan, PrimFloat.is_nan. rewrite !FloatAxioms.eqb_spec. unfold SFeqb.
  destruct (Prim2SF x) as [sx|sx| |sx mx ex] eqn:Hx, (Prim2SF y) as [sy|sy| |sy my ey] eqn:Hy;
    try done; rewrite !SFcompare_refl; done.
Qed.

(** The comparisons do not tell equal doubles apart. *)
Lemma ltb_py_eq (x x' y y' : float) :
  py_eq x x' = true → py_eq y y' = true → PrimFloat.ltb x y = PrimFloat.ltb x' y'.
Proof.
  assert (∀ z z' w, py_eq z z' = true →
            PrimFloat.ltb z w = PrimFloat.ltb z' w ∧ PrimFloat.ltb w z = PrimFloat.ltb w z')
    as Hone.
  { intros z z' w [->|[Hz Hz']]%py_eq_cases; [done|].
    unfold py_eq in Hz, Hz'. rewrite !FloatAxioms.eqb_spec in Hz, Hz'.
    rewrite !FloatAxioms.ltb_spec. unfold SFeqb, SFltb in *.
    change (Prim2SF 0) with (S754_zero false) in Hz, Hz'.
    destruct (Prim2SF z) as [s|s| |s m e], (Prim2SF z') as [s'|s'| |s' m' e'];
      cbn in Hz, Hz'; try done; try (by destruct s); try (by destruct s'). }
  intros Hx Hy. destruct (Hone x x' y Hx) as [-> _]. by destruct (Hone y y' x' Hy) as [_ ->].
Qed.

Lemma ltb_asym (x y : float) : PrimFloat.ltb x y = true → PrimFloat.ltb y x = false.
Proof.
  rewrite !FloatAxioms.ltb_spec. unfold SFltb.
  rewrite (SFcompare_antisym (Prim2SF x) (Prim2SF y)).
  by destruct (SFcompare (Prim2SF x) (Prim2SF y)) as [[]|].
Qed.

Lemma ltb_total (x y : float) :
  np_isnan x = false → np_isnan y = false →
  PrimFloat.ltb x y = false → PrimFloat.ltb y x = false → py_eq x y = true.
Proof.
  intros Hx Hy. unfold py_eq. rewrite !FloatAxioms.ltb_spec, FloatAxioms.eqb_spec.
  unfold SFltb, SFeqb. rewrite (SFcompare_antisym (Prim2SF x) (Prim2SF y)).
  destruct (SFcompare_Some x y Hx Hy) as [c ->]. by destruct c.
Qed.

(** On doubles that are not NaN, [np.minimum] and the comparison of the
    min kernel pick equal values: of two equal ones numpy takes the second
    and the kernel keeps the first. *)
Lemma np_minimum_c_min (r r' y : float) :
  py_eq r r' = true → np_isnan y = false →
  py_eq (np_minimum r y) (c_min r' y) = true.
Proof.
  intros Hr Hy. destruct (py_eq_not_nan r r' Hr) as [Hn Hn'].
  unfold np_minimum, c_min. fold (np_isnan r). rewrite Hn, orb_false_r.
  rewrite (ltb_py_eq r r' y y Hr (py_eq_refl y Hy)).
  destruct (PrimFloat.ltb r' y) eqn:Hlt; [by rewrite (ltb_asym r' y Hlt)|].
  destruct (PrimFloat.ltb y r') eqn:Hgt; [by apply py_eq_refl|].
  by apply ltb_total.
Qed.

Lemma np_maximum_c_max (r r' y : float) :
  py_eq r r' = true → np_isnan y = false →
  py_eq (np_maximum r y) (c_max r' y) = true.
Proof.
  intros Hr Hy. destruct (py_eq_not_nan r r' Hr) as [Hn Hn'].
  unfold np_maximum, c_max. fold (np_isnan r). rewrite Hn, orb_false_r.
  rewrite (ltb_py_eq y y r r' (py_eq_refl y Hy) Hr).
  destruct (PrimFloat.ltb y r') eqn:Hlt; [by rewrite (ltb_asym y r' Hlt)|].
  destruct (PrimFloat.ltb r' y) eqn:Hgt; [by apply py_eq_refl|].
  by apply ltb_total.
Qed.

Lemma np_minimum_dmax (x : float) : is_finite x = true → np_minimum dmax x = x.
Proof.
  unfold is_finite. intros [_ Hx]%andb_true_iff. unfold np_minimum.
  change (PrimFloat.is_nan dmax) with false. rewrite orb_false_r.
  destruct (leb_not_nan _ _ Hx) as [Hn _].
  rewrite (leb_negb_ltb x dmax Hn eq_refl) in Hx. by apply negb_true_iff in Hx as ->.
Qed.

Lemma np_maximum_dmin (x : float) : is_finite x = true → np_maximum dmin x = x.
Proof.
  unfold is_finite. intros [Hx _]%andb_true_iff. unfold np_maximum.
  change (PrimFloat.is_nan dmin) with false. rewrite orb_false_r.
  destruct (leb_not_nan _ _ Hx) as [_ Hn].
  rewrite (leb_negb_ltb dmin x eq_refl Hn) in Hx. by apply negb_true_iff in Hx as ->.
Qed.

Lemma fold_left_agree (op op' : float → float → float) (xs : list float) (r r' : float) :
  (∀ r r' y, py_eq r r' = true → np_isnan y = false → py_eq (op r y) (op' r' y) = true) →
  py_eq r r' = true →
  Forall (λ y, np_isnan y = false) xs →
  py_eq (fold_left op xs r) (fold_left op' xs r') = true.
Proof.
  intros Hop Hr Hxs. revert r r' Hr.
  induction Hxs as [|y xs Hy _ IH]; intros r r' Hr; [done|].
  cbn [fold_left]. by apply IH, Hop.
Qed.

Lemma fold_minimum_finite (x : float) (xs : list float) :
  Forall (λ y, is_finite y = true) (x :: xs) →
  py_eq (fold_left np_minimum (x :: xs) dmax) (fold_left c_min xs x) = true.
Proof.
  intros [Hx Hxs]%Forall_cons. cbn [fold_left]. rewrite np_minimum_dmax by done.
  apply fold_left_agree.
  - apply np_minimum_c_min.
  - by apply py_eq_refl, is_finite_not_nan.
  - eapply Forall_impl; [exact Hxs|]. apply is_finite_not_nan.
Qed.

Lemma fold_maximum_finite (x : float) (xs : list float) :
  Forall (λ y, is_finite y = true) (x :: xs) →
  py_eq (fold_left np_maximum (x :: xs) dmin) (fold_left c_max xs x) = true.
Proof.
  intros [Hx Hxs]%Forall_cons. cbn [fold_left]. rewrite np_maximum_dmin by done.
  apply fold_left_agree.
  - apply np_maximum_c_max.
  - by apply py_eq_refl, is_finite_not_nan.
  - eapply Forall_impl; [exact Hxs|]. apply is_finite_not_nan.
Qed.

Lemma py_eq_nonzero (x y : float) : py_eq x y = true → py_ne x 0 = true → x = y.
Proof.
  intros [->|[Hz _]]%py_eq_cases; [done|]. unfold py_ne. fold (py_eq x 0). by rewrite Hz.
Qed.

(** The min and the max kernel take the first value of a group and then
    every value that is strictly smaller (larger); an empty group holds
    [fill_value]. On a group of finite values the slot compares equal to
    the one of numpy's [_min] and [_max], and it is the same double unless
    it is a zero: of zeros of opposite sign the kernel keeps the first and
    numpy the last. On other groups the values differ: a NaN that is not
    the first value of its group is skipped by the kernel and returned by
    numpy, and a group of +infinity alone has min +infinity in the kernel
    and [finfo.max] in numpy. *)
Theorem weave_min_max (idx : list nat) (a : list float) (n : nat) (fill_value : float)
    (ddof : Z) (dtype : option dtype_t) :
  length a = length idx →
  Forall (λ g, g < n) idx →
  is_float_dtype dtype = true →
  (∃ mins maxs np_mins np_maxs : list float,
     aggregate_kernel "min" idx a n fill_value ddof = Ok mins
     ∧ aggregate_kernel "max" idx a n fill_value ddof = Ok maxs
     ∧ _min idx (array1 a) (Z.of_nat n) fill_value dtype = Ok (DFloat np_mins)
     ∧ _max idx (array1 a) (Z.of_nat n) fill_value dtype = Ok (DFloat np_maxs)
     ∧ length mins = n ∧ length maxs = n
     ∧ ∀ g, g < n →
         mins !! g = Some (match group_values idx a g with
                           | [] => fill_value
                           | x :: xs => fold_left c_min xs x
                           end)
         ∧ maxs !! g = Some (match group_values idx a g with
                             | [] => fill_value
                             | x :: xs => fold_left c_max xs x
                             end)
         ∧ (Forall (λ y, is_finite y = true) (group_values idx a g) →
            ∃ m nm M nM,
              mins !! g = Some m ∧ np_mins !! g = Some nm
              ∧ maxs !! g = Some M ∧ np_maxs !! g = Some nM
              ∧ np_same m nm = true ∧ np_same M nM = true
              ∧ (py_ne m 0 = true → m = nm) ∧ (py_ne M 0 = true → M = nM)))
  ∧ aggregate_kernel "min" [0; 0] [1; nan]%float 1 0%float ddof = Ok [1%float]
  ∧ _min [0; 0] (array1 [1; nan]%float) 1 0%float None = Ok (DFloat [nan])
  ∧ aggregate_kernel "min" [0] [infinity] 1 0%float ddof = Ok [infinity]
  ∧ _min [0] (array1 [infinity]) 1 0%float None = Ok (DFloat [dmax])
  ∧ aggregate_kernel "min" [0; 0] [0; -0]%float 1 1%float ddof = Ok [0%float]
  ∧ _min [0; 0] (array1 [0; -0]%float) 1 1%float None = Ok (DFloat [(-0)%float]).
Proof.
  intros Hlen Hidx Hdt. split; [|by vm_compute].
  rewrite aggregate_kernel_min, aggregate_kernel_max, kernel_valid by done.
  destruct (first_then_kernel_lookup (λ r x, PrimFloat.ltb x r) idx a n fill_value Hlen Hidx)
    as [Hml Hm].
  destruct (first_then_kernel_lookup (λ r x, PrimFloat.ltb r x) idx a n fill_value Hlen Hidx)
    as [HMl HM].
  cbn zeta in *.
  destruct (_min_cells idx a n fill_value dtype Hlen Hidx Hdt) as (nm & Hnm & _ & Hnmg).
  destruct (_max_cells idx a n fill_value dtype Hlen Hidx Hdt) as (nM & HnM & _ & HnMg).
  assert (∃ xs, nm = DFloat xs) as [xs ->].
  { apply (dispatch_numeric_dtype "min" idx (array1 a) (Z.of_nat n) fill_value dtype);
      [by apply elem_of_numeric|done]. }
  assert (∃ ys, nM = DFloat ys) as [ys ->].
  { apply (dispatch_numeric_dtype "max" idx (array1 a) (Z.of_nat n) fill_value dtype);
      [by apply elem_of_numeric|done]. }
  eexists _, _, xs, ys. do 6 (split; [done|]). intros g Hg.
  rewrite (Hm g Hg), (HM g Hg). do 2 (split; [done|]). intros Hfin.
  specialize (Hnmg g Hg). specialize (HnMg g Hg).
  unfold reduce_cell in Hnmg, HnMg. cbn in Hnmg, HnMg.
  apply cfloat_lookup in Hnmg, HnMg. rewrite Hnmg, HnMg.
  eexists _, _, _, _. do 4 (split; [done|]).
  destruct (group_values idx a g) as [|x l].
  - split; [apply np_same_refl|]. split; [apply np_same_refl|]. done.
  - pose proof (fold_minimum_finite x l Hfin) as Hmin.
    pose proof (fold_maximum_finite x l Hfin) as Hmax.
    rewrite py_eq_sym in Hmin, Hmax.
    split; [apply orb_true_iff; left; exact Hmin|].
    split; [apply orb_true_iff; left; exact Hmax|].
    split; [exact (py_eq_nonzero _ _ Hmin)|exact (py_eq_nonzero _ _ Hmax)].
Qed.

(** ** The NaN-skipping kernels *)

Lemma zip_mask_select {A B : Type} (mask : list bool) (l : list A) (k : list B) :
  length l = length k →
  zip (mask_select mask l) (mask_select mask k) = mask_select mask (zip l k).
Proof.
  revert l k. induction mask as [|m mask IH]; intros [|x l] [|y k] Hlen; try done.
  cbn [mask_select zip zip_with]. destruct m; cbn [zip zip_with]; rewrite <- IH by (by injection Hlen); done.
Qed.

Lemma mask_select_app {A : Type} (m1 m2 : list bool) (l1 l2 : list A) :
  length m1 = length l1 →
  mask_select (m1 ++ m2) (l1 ++ l2) = mask_select m1 l1 ++ mask_select m2 l2.
Proof.
  revert l1. induction m1 as [|m m1 IH]; intros [|x l1] Hlen; try done.
  cbn. destruct m; cbn; rewrite IH by (by injection Hlen); done.
Qed.

Lemma mask_select_reverse {A : Type} (mask : list bool) (l : list A) :
  length mask = length l →
  mask_select (reverse mask) (reverse l) = reverse (mask_select mask l).
Proof.
  revert l. induction mask as [|m mask IH]; intros [|x l] Hlen; try done.
  rewrite !reverse_cons, mask_select_app by (rewrite !length_reverse; by injection Hlen).
  rewrite IH by (by injection Hlen). cbn [mask_select].
  destruct m; [by rewrite reverse_cons|by rewrite app_nil_r].
Qed.

Lemma nan_loop (iter : citer) (l : list (nat * float)) (s : cstate) :
  fold_left (λ s gx, c_nan_iter iter s gx.1 gx.2) l s
  = fold_left (λ s gx, iter s gx.1 gx.2) (mask_select (not_nan l.*2) l) s.
Proof.
  revert s. induction l as [|[g x] l IH]; intros s; [done|].
  rewrite fmap_cons. cbn [fold_left fst snd].
  change (not_nan (x :: l.*2)) with (negb (np_isnan x) :: not_nan l.*2).
  cbn [mask_select]. rewrite IH. unfold c_nan_iter, py_eq, np_isnan, PrimFloat.is_nan.
  rewrite negb_involutive. by destruct (PrimFloat.eqb x x).
Qed.

Lemma c_base_nan (iter : citer) (finish : cstate → cstate) (idx : list nat) (a : list float)
    (s : cstate) :
  length a = length idx →
  c_base (c_nan_iter iter) finish idx a s
  = c_base iter finish (mask_select (not_nan a) idx) (mask_select (not_nan a) a) s.
Proof.
  intros Hlen. unfold c_base. f_equal. rewrite nan_loop, zip_mask_select by done.
  by rewrite snd_zip by lia.
Qed.

Lemma c_base_reverse_nan (iter : citer) (finish : cstate → cstate) (idx : list nat)
    (a : list float) (s : cstate) :
  length a = length idx →
  c_base_reverse (c_nan_iter iter) finish idx a s
  = c_base_reverse iter finish (mask_select (not_nan a) idx) (mask_select (not_nan a) a) s.
Proof.
  intros Hlen. unfold c_base_reverse. f_equal.
  rewrite nan_loop, zip_mask_select by done. f_equal.
  rewrite fmap_reverse, snd_zip by lia.
  unfold not_nan. rewrite fmap_reverse. apply mask_select_reverse.
  rewrite length_fmap, length_zip_with. lia.
Qed.

(** The names that have a nan- kernel in [c_funcs] whatever the table of
    [utils] holds besides: the seven reductions with a nan- version, and
    first. *)
Lemma c_funcs_nan (env : cenv) (f : string) :
  f ∈ nan_versions ++ ["first"]%string →
  ∃ (base : citer → (cstate → cstate) → cprogram) (iter : citer) (finish : cstate → cstate),
    (base = c_base ∨ base = c_base_reverse)
    ∧ dict_get (c_funcs env) f = Some (base iter finish)
    ∧ dict_get (c_funcs env) ("nan" +:+ f) = Some (base (c_nan_iter iter) finish).
Proof.
  rewrite nan_versions_eq. intros Hf.
  repeat (apply elem_of_cons in Hf as [-> | Hf]); [..|by apply elem_of_nil in Hf].
  1-7: eexists c_base, _, _; split; [by left|]; split; reflexivity.
  eexists c_base_reverse, _, _; split; [by right|]; split; reflexivity.
Qed.

Lemma is_in_nan (f : string) (names : list string) :
  f ∈ nan_versions ++ ["first"]%string →
  names ∈ [["sum"; "any"; "anynan"; "nansum"]; ["prod"; "all"; "allnan"; "nanprod"];
           ["std"; "var"; "nanstd"; "nanvar"]; ["mean"; "nanmean"]]%string →
  is_in ("nan" +:+ f) names = is_in f names.
Proof.
  rewrite nan_versions_eq. intros Hf Hn.
  repeat (apply elem_of_cons in Hf as [-> | Hf]); [..|by apply elem_of_nil in Hf];
    repeat (apply elem_of_cons in Hn as [-> | Hn]); try (by apply elem_of_nil in Hn);
    reflexivity.
Qed.

(** A nan- kernel is its base kernel wrapped in a test that skips the
    iterations whose value is NaN: on valid input it returns what the base
    kernel returns on the pairs whose value is not NaN. This holds for
    sum, prod, min, max, mean, std and var, and for first (nanfirst runs
    the backward loop). *)
Theorem weave_nan_kernels (f : string) (idx : list nat) (a : list float) (n : nat)
    (fill_value : float) (ddof : Z) :
  f ∈ nan_versions ++ ["first"]%string →
  length a = length idx →
  Forall (λ g, g < n) idx →
  aggregate_kernel ("nan" +:+ f) idx a n fill_value ddof
  = aggregate_kernel f (mask_select (not_nan a) idx) (mask_select (not_nan a) a) n fill_value
      ddof.
Proof.
  intros Hf Hlen Hidx. unfold aggregate_kernel.
  rewrite !(is_in_nan f) by (done || (apply (bool_decide_unpack _); vm_compute; exact I)).
  destruct (c_funcs_nan (mk_cenv fill_value ddof) f Hf) as (base & iter & finish & Hb & -> & ->).
  rewrite !kernel_valid;
    [|by apply mask_select_length|by apply mask_select_Forall|done|done].
  destruct Hb as [-> | ->]; by rewrite ?c_base_nan, ?c_base_reverse_nan by done.
Qed.

Lemma weave_nan_kernels_witness :
  aggregate_kernel ("nan" +:+ "mean") [0; 1; 1] [nan; 5; 6]%float 2 0%float 0
  = aggregate_kernel "mean" (mask_select (not_nan [nan; 5; 6]%float) [0; 1; 1])
      (mask_select (not_nan [nan; 5; 6]%float) [nan; 5; 6]%float) 2 0%float 0.
Proof.
  apply (weave_nan_kernels "mean" [0; 1; 1] [nan; 5; 6]%float 2 0%float 0);
    [apply (bool_decide_unpack _); vm_compute; exact I|reflexivity|repeat constructor].
Defined.

Lemma weave_sum_prod_witness :
  ∃ sums prods : list float,
    aggregate_kernel "sum" [1; 0; 1] [0.5; 2; 0.25]%float 3 7%float 0 = Ok sums
    ∧ _sum [1; 0; 1] (array1 [0.5; 2; 0.25]%float) (Z.of_nat 3) 7%float None = Ok (DFloat sums)
    ∧ aggregate_kernel "prod" [1; 0; 1] [0.5; 2; 0.25]%float 3 7%float 0 = Ok prods
    ∧ _prod [1; 0; 1] (array1 [0.5; 2; 0.25]%float) (Z.of_nat 3) 7%float None
      = Ok (DFloat prods).
Proof.
  apply (weave_sum_prod [1; 0; 1] [0.5; 2; 0.25]%float 3 7%float 0 None);
    [reflexivity|repeat constructor|reflexivity].
Defined.

Lemma weave_first_last_witness :
  ∃ lasts firsts np_lasts np_firsts : list float,
    aggregate_kernel "last" [1; 0; 1] [5; 6; 7]%float 3 (-0)%float 0 = Ok lasts
    ∧ aggregate_kernel "first" [1; 0; 1] [5; 6; 7]%float 3 (-0)%float 0 = Ok firsts
    ∧ _last [1; 0; 1] (array1 [5; 6; 7]%float) (Z.of_nat 3) (-0)%float None
      = Ok (DFloat np_lasts)
    ∧ _first [1; 0; 1] (array1 [5; 6; 7]%float) (Z.of_nat 3) (-0)%float None
      = Ok (DFloat np_firsts)
    ∧ length lasts = 3 ∧ length firsts = 3
    ∧ ∀ g, g < 3 →
        lasts !! g = Some (default (-0)%float (last (group_values [1; 0; 1] [5; 6; 7]%float g)))
        ∧ firsts !! g
          = Some (default (-0)%float (head (group_values [1; 0; 1] [5; 6; 7]%float g)))
        ∧ np_lasts !! g
          = Some (default (prefill (-0)) (last (group_values [1; 0; 1] [5; 6; 7]%float g)))
        ∧ np_firsts !! g
          = Some (default (prefill (-0)) (head (group_values [1; 0; 1] [5; 6; 7]%float g))).
Proof.
  apply (weave_first_last [1; 0; 1] [5; 6; 7]%float 3 (-0)%float 0 None);
    [reflexivity|repeat constructor|reflexivity].
Defined.

Lemma weave_boolean_witness :
  ∃ (ret : list float) (bs : list bool),
    aggregate_kernel "allnan" [0; 0; 2] [nan; nan; 1]%float 3 0%float 0 = Ok ret
    ∧ dispatch (FuncName "allnan") [0; 0; 2] (array1 [nan; nan; 1]%float) (Z.of_nat 3) 0%float
        None _impl_dict = Ok (DBool bs)
    ∧ length ret = 3
    ∧ ∀ g, g < 3 →
        ∃ x, ret !! g = Some x ∧ bs !! g = Some (py_truth x)
             ∧ (g ∈ [0; 0; 2] → x = if py_truth x then 1%float else 0%float).
Proof.
  apply (weave_boolean "allnan" [0; 0; 2] [nan; nan; 1]%float 3 0%float 0 None);
    [apply (bool_decide_unpack _); vm_compute; exact I|reflexivity|repeat constructor
    |reflexivity].
Defined.

Lemma weave_mean_witness :
  (∃ ret, aggregate_kernel "mean" [0; 0; 2] [1; 3; 5]%float 3 7%float 0 = Ok ret
     ∧ length ret = 3
     ∧ ∀ g, g < 3 →
         ret !! g = Some (if group_count [0; 0; 2] g =? 0 then 7%float
                          else PrimFloat.div
                                 (fold_left PrimFloat.add
                                    (group_values [0; 0; 2] [1; 3; 5]%float g) 7%float)
                                 (float_of_nat (group_count [0; 0; 2] g))))
  ∧ ∃ ret0, aggregate_kernel "mean" [0; 0; 2] [1; 3; 5]%float 3 0%float 0 = Ok ret0
      ∧ _mean [0; 0; 2] (array1 [1; 3; 5]%float) (Z.of_nat 3) 0%float None = Ok (DFloat ret0).
Proof.
  apply (weave_mean [0; 0; 2] [1; 3; 5]%float 3 7%float 0 None);
    [reflexivity|repeat constructor|reflexivity].
Defined.

Lemma weave_min_max_witness :
  ∃ mins maxs np_mins np_maxs : list float,
    aggregate_kernel "min" [1; 0; 1] [5; 6; 2]%float 3 9%float 0 = Ok mins
    ∧ aggregate_kernel "max" [1; 0; 1] [5; 6; 2]%float 3 9%float 0 = Ok maxs
    ∧ _min [1; 0; 1] (array1 [5; 6; 2]%float) (Z.of_nat 3) 9%float None = Ok (DFloat np_mins)
    ∧ _max [1; 0; 1] (array1 [5; 6; 2]%float) (Z.of_nat 3) 9%float None = Ok (DFloat np_maxs)
    ∧ length mins = 3 ∧ length maxs = 3
    ∧ ∀ g, g < 3 →
        mins !! g = Some (match group_values [1; 0; 1] [5; 6; 2]%float g with
                          | [] => 9%float
                          | x :: xs => fold_left c_min xs x
                          end)
        ∧ maxs !! g = Some (match group_values [1; 0; 1] [5; 6; 2]%float g with
                            | [] => 9%float
                            | x :: xs => fold_left c_max xs x
                            end)
        ∧ (Forall (λ y, is_finite y = true) (group_values [1; 0; 1] [5; 6; 2]%float g) →
           ∃ m nm M nM,
             mins !! g = Some m ∧ np_mins !! g = Some nm
             ∧ maxs !! g = Some M ∧ np_maxs !! g = Some nM
             ∧ np_same m nm = true ∧ np_same M nM = true
             ∧ (py_ne m 0 = true → m = nm) ∧ (py_ne M 0 = true → M = nM)).
Proof.
  apply (proj1 (weave_min_max [1; 0; 1] [5; 6; 2]%float 3 9%float 0 None
                  ltac:(reflexivity) ltac:(repeat constructor) ltac:(reflexivity))).
Defined.

(** * Runs of equal indices: [step_count] and [step_indices] *)

Lemma seq_snoc (start len : nat) : seq start (S len) = seq start len ++ [start + len].
Proof. by rewrite seq_S. Qed.

Lemma filter_seq_snoc (P : nat → Prop) `{∀ i, Decision (P i)} (k : nat) :
  filter P (seq 1 (S k)) = filter P (seq 1 k) ++ (if decide (P (S k)) then [S k] else []).
Proof.
  rewrite seq_snoc, filter_app. by f_equal.
Qed.

(** The loop of [c_step_count] after [k] iterations: [cmp_pos] is the
    start of the run that holds position [k - 1], and [steps] counts the
    runs met so far. *)
Lemma c_step_count_loop (group_idx : ndarray Z) (k : nat) :
  let bnd := λ i, c_read group_idx (i - 1) ≠ c_read group_idx i in
  ∃ cmp_pos,
    fold_left (λ '(cmp_pos, steps) i,
                 if negb (c_read group_idx cmp_pos =? c_read group_idx i)%Z
                 then (i, (steps + 1)%Z)
                 else (cmp_pos, steps))
      (seq 0 (S k)) (0, 1%Z)
    = (cmp_pos, (1 + Z.of_nat (length (filter bnd (seq 1 k))))%Z)
    ∧ c_read group_idx cmp_pos = c_read group_idx k.
Proof.
  intros bnd. induction k as [|k (cmp & IH & Hcmp)].
  - exists 0. cbn. by rewrite Z.eqb_refl.
  - rewrite seq_snoc, fold_left_app, IH. cbn [fold_left Nat.add].
    rewrite (filter_seq_snoc bnd), length_app. rewrite Hcmp.
    destruct (Z.eqb_spec (c_read group_idx k) (c_read group_idx (S k))) as [Heq|Hne];
      cbn [negb].
    + exists cmp. rewrite decide_False; [|unfold bnd; rewrite Nat.sub_1_r; cbn; by intros ?].
      cbn [length]. split; [f_equal; lia|congruence].
    + exists (S k). rewrite decide_True by (unfold bnd; by rewrite Nat.sub_1_r).
      cbn [length]. split; [f_equal; lia|done].
Qed.

(** [step_count] counts the runs of equal consecutive values: none for an
    empty array, otherwise one more than the number of positions whose
    value differs from the one before. *)
Theorem step_count_runs (group_idx : ndarray Z) :
  step_count group_idx
  = if c_size group_idx =? 0 then 0%Z
    else (1 + Z.of_nat (length (run_starts group_idx)))%Z.
Proof.
  unfold step_count, c_step_count, run_starts. cbn zeta.
  destruct (c_size group_idx) as [|k]; [done|].
  cbn [Nat.ltb Nat.leb Nat.eqb]. rewrite Nat.sub_succ, Nat.sub_0_r.
  by destruct (c_step_count_loop group_idx k) as (cmp & -> & _).
Qed.

Lemma insert_app_drop {A : Type} (pre ind0 : list A) (x : A) :
  length pre < length ind0 →
  <[length pre := x]> (pre ++ drop (length pre) ind0)
  = (pre ++ [x]) ++ drop (S (length pre)) ind0.
Proof.
  intros Hlt. rewrite insert_app_r_alt, Nat.sub_diag by lia.
  destruct (drop (length pre) ind0) as [|y rest] eqn:Hd.
  - apply (f_equal length) in Hd. rewrite length_drop in Hd. cbn in Hd. lia.
  - rewrite <- (Nat.add_1_r (length pre)), <- drop_drop, Hd.
    cbn. by rewrite <- app_assoc.
Qed.

(** The loop of [c_step_indices] after the positions [1..j]: the edges
    found so far follow the leading 0, and the rest of [indices] is as it
    was. *)
Lemma c_step_indices_loop (group_idx : ndarray Z) (ind0 : list Z) (j : nat) :
  let bnd := λ i, c_read group_idx (i - 1) ≠ c_read group_idx i in
  ind0 !! 0 = Some 0%Z →
  S (length (filter bnd (seq 1 j))) ≤ length ind0 →
  ∃ cmp_pos,
    fold_left (λ st i,
                 '(cmp_pos, write_idx, indices) ← st;
                 if negb (c_read group_idx cmp_pos =? c_read group_idx i)%Z
                 then if length indices <=? write_idx then OutOfModel
                      else mret (i, S write_idx, <[write_idx := Z.of_nat i]> indices)
                 else mret (cmp_pos, write_idx, indices))
      (seq 1 j) (Ok (0, 1, ind0))
    = Ok (cmp_pos, S (length (filter bnd (seq 1 j))),
          (Z.of_nat <$> 0 :: filter bnd (seq 1 j))
          ++ drop (S (length (filter bnd (seq 1 j)))) ind0)
    ∧ c_read group_idx cmp_pos = c_read group_idx j.
Proof.
  intros bnd H0. induction j as [|j IH]; intros Hroom.
  - exists 0. destruct ind0 as [|x ind0]; [done|]. cbn in H0. injection H0 as ->. done.
  - rewrite (filter_seq_snoc bnd), length_app in Hroom.
    destruct IH as (cmp & IH & Hcmp); [lia|].
    rewrite (filter_seq_snoc bnd).
    rewrite seq_snoc, fold_left_app, IH. cbn [fold_left Nat.add mbind outcome_bind].
    rewrite Hcmp.
    set (bs := filter bnd (seq 1 j)) in *.
    destruct (Z.eqb_spec (c_read group_idx j) (c_read group_idx (S j))) as [Heq|Hne];
      cbn [negb].
    + exists cmp. rewrite decide_False; [|unfold bnd; rewrite Nat.sub_1_r; cbn; by intros ?].
      rewrite app_nil_r. split; [done|congruence].
    + rewrite decide_True in * by (unfold bnd; by rewrite Nat.sub_1_r).
      cbn [length] in Hroom.
      assert (length (Z.of_nat <$> 0 :: bs) = S (length bs)) as Hpre
        by (by rewrite length_fmap).
      rewrite length_app, length_drop, Hpre.
      destruct (Nat.leb_spec (S (length bs) + (length ind0 - S (length bs))) (S (length bs)));
        [lia|].
      exists (S j). split; [|done]. unfold mret, outcome_ret. do 2 f_equal.
      * f_equal. rewrite length_app. cbn. lia.
      * rewrite <- Hpre, insert_app_drop by (rewrite Hpre; lia).
        rewrite Hpre, length_app. cbn [length]. rewrite Nat.add_1_r.
        f_equal. by rewrite !fmap_cons, fmap_app.
Qed.

Lemma filter_seq_sorted (P : nat → Prop) `{∀ i, Decision (P i)} (start len : nat) :
  StronglySorted lt (filter P (seq start len)).
Proof.
  revert start. induction len as [|len IH]; intros start; [constructor|].
  cbn [seq]. rewrite filter_cons. destruct (decide (P start)); [|apply IH].
  constructor; [apply IH|]. apply Forall_forall. intros i Hi.
  apply list_elem_of_filter in Hi as [_ Hi]. apply elem_of_seq in Hi. lia.
Qed.

Lemma drop_last_insert {A : Type} (l : list A) (x : A) :
  l ≠ [] → drop (length l - 1) (<[length l - 1 := x]> l) = [x].
Proof.
  intros Hl. destruct (length l) as [|k] eqn:Hlen; [by destruct l|].
  rewrite Nat.sub_succ, Nat.sub_0_r, insert_take_drop by lia.
  rewrite drop_app_length'; [|rewrite length_take; lia].
  rewrite drop_ge by lia. done.
Qed.

(** [step_indices] returns the edges of the runs of equal consecutive
    values: 0, then every position whose value differs from the one before,
    then the number of elements. Every slot of the array that [np.empty]
    left unspecified is written, and no write falls outside it. *)
Theorem step_indices_edges (uninit : nat → Z) (group_idx : ndarray Z) :
  ∃ edges : list nat,
    step_indices uninit group_idx = Ok (Z.of_nat <$> edges)
    ∧ edges = (if c_size group_idx =? 0 then [0]
               else 0 :: run_starts group_idx ++ [c_size group_idx])
    ∧ Z.of_nat (length edges) = (step_count group_idx + 1)%Z
    ∧ head edges = Some 0
    ∧ last edges = Some (c_size group_idx)
    ∧ StronglySorted lt edges
    ∧ ∀ i, 0 < i < c_size group_idx →
        i ∈ edges ↔ c_read group_idx (i - 1) ≠ c_read group_idx i.
Proof.
  eexists. split; [|split; [reflexivity|]].
  - unfold step_indices. cbn zeta. rewrite step_count_runs.
    destruct (c_size group_idx) as [|k] eqn:HL; [by unfold c_step_indices; rewrite HL|].
    cbn [Nat.eqb].
    assert (run_starts group_idx
            = filter (λ i, c_read group_idx (i - 1) ≠ c_read group_idx i) (seq 1 k)) as ->.
    { unfold run_starts. by rewrite HL, Nat.sub_succ, Nat.sub_0_r. }
    set (bs := filter _ (seq 1 k)). set (B := length bs).
    destruct (Z.ltb_spec (1 + Z.of_nat B + 1) 0); [lia|]. cbn [mbind outcome_bind].
    replace (Z.to_nat (1 + Z.of_nat B + 1)) with (S (S B)) by lia.
    set (l := <[0 := 0%Z]> (uninit <$> seq 0 (S (S B)))).
    assert (length l = S (S B)) as Hl
      by (unfold l; by rewrite length_insert, length_fmap, length_seq).
    rewrite Hl. set (ind0 := <[S (S B) - 1 := Z.of_nat (S k)]> l).
    unfold c_step_indices. rewrite HL. cbn zeta. rewrite Nat.sub_succ, Nat.sub_0_r.
    destruct (c_step_indices_loop group_idx ind0 k) as (cmp & -> & _).
    + unfold ind0. rewrite list_lookup_insert_ne by lia.
      unfold l. apply list_lookup_insert_eq. rewrite length_fmap, length_seq. lia.
    + fold bs B. unfold ind0. rewrite length_insert. lia.
    + cbn [mbind outcome_bind snd]. unfold mret, outcome_ret. f_equal. fold bs B.
      rewrite !fmap_cons, fmap_app. cbn [fmap list_fmap app]. do 2 f_equal.
      unfold ind0. replace (S (S B) - 1) with (length l - 1) by lia.
      replace (S B) with (length l - 1) by lia.
      rewrite drop_last_insert; [done|]. by destruct l.
  - rewrite step_count_runs.
    destruct (c_size group_idx) as [|k] eqn:HL; cbn [Nat.eqb].
    { do 3 (split; [done|]). split; [repeat constructor|]. intros i ?. lia. }
    split; [rewrite length_cons, length_app; cbn; lia|].
    split; [done|]. split; [by rewrite last_cons, last_snoc|]. split.
    + constructor.
      * apply StronglySorted_app_2; [|apply filter_seq_sorted|repeat constructor].
        intros i ? Hi ->%list_elem_of_singleton. unfold run_starts in Hi.
        apply list_elem_of_filter in Hi as [_ Hi]. apply elem_of_seq in Hi. lia.
      * apply Forall_app. split.
        -- apply Forall_forall. intros i Hi. unfold run_starts in Hi.
           apply list_elem_of_filter in Hi as [_ Hi]. apply elem_of_seq in Hi. lia.
        -- constructor; [lia|constructor].
    + intros i Hi. rewrite elem_of_cons, elem_of_app, list_elem_of_singleton.
      unfold run_starts. rewrite list_elem_of_filter, elem_of_seq, HL. split.
      * intros [?|[[? _]|?]]; [lia|done|lia].
      * intros Hb. right. left. split; [done|lia].
Qed.

Example step_indices_docstring :
  step_count (array1 [1; 1; 2; 2; 2; 1; 1; 3; 3]%Z) = 4%Z
  ∧ step_indices (λ _, 77%Z) (array1 [1; 1; 2; 2; 2; 1; 1; 3; 3]%Z) = Ok [0; 2; 5; 7; 9]%Z.
Proof. split; vm_compute; reflexivity. Qed.

(** * Multi-key grouping *)

(** ** Mixed-radix positions *)

Lemma ravel_C_acc (dims coords : list nat) (acc : nat) :
  length coords = length dims →
  fold_left (λ acc cd, acc * cd.2 + cd.1) (zip coords dims) acc
  = acc * cells dims + ravel_C dims coords.
Proof.
  revert coords acc. induction dims as [|d dims IH]; intros [|c coords] acc Hlen; try done.
  - cbn. lia.
  - unfold ravel_C. cbn [zip zip_with fold_left fst snd cells foldr].
    rewrite !IH by (by injection Hlen). fold (cells dims). lia.
Qed.

Lemma ravel_C_cons (d c : nat) (dims coords : list nat) :
  length coords = length dims →
  ravel_C (d :: dims) (c :: coords) = c * cells dims + ravel_C dims coords.
Proof.
  intros Hlen. unfold ravel_C at 1. cbn [zip zip_with fold_left fst snd].
  by rewrite ravel_C_acc.
Qed.

Lemma ravel_C_lt (dims coords : list nat) :
  Forall2 lt coords dims → ravel_C dims coords < cells dims.
Proof.
  induction 1 as [|c d coords dims Hc Hcs IH]; [cbn; lia|].
  rewrite ravel_C_cons by (by eapply Forall2_length). cbn [cells foldr]. fold (cells dims).
  nia.
Qed.

Lemma ravel_F_cons (d c : nat) (dims coords : list nat) :
  ravel_F (d :: dims) (c :: coords) = ravel_F dims coords * d + c.
Proof. done. Qed.

Lemma ravel_F_lt (dims coords : list nat) :
  Forall2 lt coords dims → ravel_F dims coords < cells dims.
Proof.
  induction 1 as [|c d coords dims Hc Hcs IH]; [cbn; lia|].
  rewrite ravel_F_cons. cbn [cells foldr]. fold (cells dims). nia.
Qed.

Lemma ravel_F_inj (dims coords coords' : list nat) :
  Forall2 lt coords dims → Forall2 lt coords' dims →
  ravel_F dims coords = ravel_F dims coords' → coords = coords'.
Proof.
  intros H. revert coords'. induction H as [|c d coords dims Hc Hcs IH]; intros coords' H' Heq.
  - by apply Forall2_nil_inv_r in H' as ->.
  - apply Forall2_cons_inv_r in H' as (c' & cs' & Hc' & Hcs' & ->).
    rewrite !ravel_F_cons in Heq.
    assert (c = c') as ->.
    { apply (f_equal (λ v, v `mod` d)) in Heq.
      by rewrite !(Nat.add_comm (_ * d)), !Nat.Div0.mod_add, !Nat.mod_small in Heq by done. }
    f_equal. apply IH; [done|]. apply Nat.add_cancel_r in Heq.
    apply Nat.mul_cancel_r in Heq; [done|lia].
Qed.

(** The pair that [unravel_C] folds: the quotient left over and the
    coordinates found. *)
Lemma unravel_C_ravel (dims coords : list nat) (q : nat) :
  Forall2 lt coords dims →
  fold_right (λ d kacc, (kacc.1 `div` d, kacc.1 `mod` d :: kacc.2))
    (q * cells dims + ravel_C dims coords, []) dims
  = (q, coords).
Proof.
  intros H. revert q. induction H as [|c d coords dims Hc Hcs IH]; intros q.
  - cbn. f_equal. lia.
  - rewrite ravel_C_cons by (by eapply Forall2_length).
    cbn [fold_right cells foldr]. fold (cells dims).
    replace (q * (d * cells dims) + (c * cells dims + ravel_C dims coords))
      with ((q * d + c) * cells dims + ravel_C dims coords) by lia.
    rewrite IH. cbn [fst snd]. f_equal.
    + rewrite Nat.div_add_l by lia. rewrite Nat.div_small by done. lia.
    + f_equal. rewrite Nat.add_comm, Nat.Div0.mod_add. by apply Nat.mod_small.
Qed.

Lemma unravel_C_ravel_C (dims coords : list nat) :
  Forall2 lt coords dims → unravel_C dims (ravel_C dims coords) = coords.
Proof.
  intros H. unfold unravel_C.
  pose proof (unravel_C_ravel dims coords 0 H) as Hu. cbn [Nat.mul Nat.add] in Hu.
  by rewrite Hu.
Qed.

Lemma unravel_C_spec (dims : list nat) (k : nat) :
  Forall (λ d, 0 < d) dims →
  ∃ coords,
    fold_right (λ d kacc, (kacc.1 `div` d, kacc.1 `mod` d :: kacc.2)) (k, []) dims
    = (k `div` cells dims, coords)
    ∧ Forall2 lt coords dims
    ∧ ravel_C dims coords = k `mod` cells dims.
Proof.
  induction 1 as [|d dims Hd Hdims (coords & IH & Hr & Hk)].
  - exists []. cbn [fold_right cells foldr]. rewrite Nat.div_1_r, Nat.mod_1_r.
    split; [done|]. split; [constructor|done].
  - exists ((k `div` cells dims) `mod` d :: coords).
    cbn [fold_right]. rewrite IH. cbn [fst snd cells foldr]. fold (cells dims).
    assert (0 < cells dims) as Hpos by (pose proof (ravel_C_lt _ _ Hr); lia).
    split; [|split].
    + f_equal. rewrite Nat.Div0.div_div. f_equal. lia.
    + constructor; [by apply Nat.mod_upper_bound; lia|done].
    + rewrite ravel_C_cons by (by eapply Forall2_length). rewrite Hk.
      rewrite (Nat.mul_comm d), Nat.Div0.mod_mul_r. lia.
Qed.

Lemma unravel_C_lt (dims : list nat) (k : nat) :
  Forall (λ d, 0 < d) dims → Forall2 lt (unravel_C dims k) dims.
Proof.
  intros Hd. unfold unravel_C. by destruct (unravel_C_spec dims k Hd) as (coords & -> & ? & _).
Qed.

Lemma ravel_C_unravel_C (dims : list nat) (k : nat) :
  Forall (λ d, 0 < d) dims → k < cells dims → ravel_C dims (unravel_C dims k) = k.
Proof.
  intros Hd Hk. unfold unravel_C.
  destruct (unravel_C_spec dims k Hd) as (coords & -> & _ & Hr). cbn [snd].
  rewrite Hr. by apply Nat.mod_small.
Qed.

(** ** The flat index of a multi-key call *)

Lemma ravel_one_C_of_nat (dims coords : list nat) (acc : nat) :
  fold_left (λ acc cd, acc * cd.2 + cd.1)%Z (zip (Z.of_nat <$> coords) (Z.of_nat <$> dims))
    (Z.of_nat acc)
  = Z.of_nat (fold_left (λ acc cd, acc * cd.2 + cd.1) (zip coords dims) acc).
Proof.
  revert dims acc. induction coords as [|c coords IH]; intros [|d dims] acc; try done.
  rewrite !fmap_cons. cbn [zip zip_with fold_left fst snd].
  rewrite <- IH. f_equal. lia.
Qed.

Lemma ravel_one_of_nat (order : order_t) (dims coords : list nat) :
  ravel_one order (Z.of_nat <$> dims) (Z.of_nat <$> coords)
  = Z.of_nat (match order with
              | OrderC => ravel_C dims coords
              | OrderF => ravel_F dims coords
              end).
Proof.
  destruct order; cbn [ravel_one].
  - apply (ravel_one_C_of_nat dims coords 0).
  - unfold ravel_F. revert dims. induction coords as [|c coords IH]; intros [|d dims]; try done.
    rewrite !fmap_cons. cbn [zip zip_with fold_right fst snd].
    change (zip_with pair (Z.of_nat <$> coords) (Z.of_nat <$> dims))
      with (zip (Z.of_nat <$> coords) (Z.of_nat <$> dims)).
    change (zip_with pair coords dims) with (zip coords dims).
    rewrite IH. lia.
Qed.

Lemma chunks_concat {A : Type} (m : nat) (rws : list (list A)) :
  Forall (λ row, length row = m) rws → chunks (length rws) m (concat rws) = rws.
Proof.
  induction 1 as [|row rws Hrow _ IH]; [done|].
  cbn [length chunks concat]. rewrite take_app_length', drop_app_length' by done.
  by rewrite IH.
Qed.

Lemma rows_array2 {A : Type} (m : nat) (rws : list (list A)) :
  Forall (λ row, length row = m) rws → rows (array2 m rws) = rws.
Proof. intros H. unfold rows, array2. cbn [shape data]. by apply chunks_concat. Qed.

Lemma columns_fmap {A B : Type} (f : A → B) (d : A) (m : nat) (rws : list (list A)) :
  columns (f d) m (fmap (M := list) f <$> rws) = fmap (M := list) f <$> columns d m rws.
Proof.
  unfold columns. rewrite <- list_fmap_compose. apply list_fmap_ext. intros _ j _. cbn.
  rewrite <- !list_fmap_compose. apply list_fmap_ext. intros _ row _. cbn.
  revert j. induction row as [|x row IH]; intros [|j]; cbn; auto.
Qed.

Lemma in_range_of_nat (dims : list nat) (cols : list (list nat)) :
  Forall (λ col, Forall2 lt col dims) cols →
  existsb (λ coords, existsb (λ cd, (cd.1 <? 0) || (cd.2 <=? cd.1))%Z
                       (zip coords (Z.of_nat <$> dims)))
    (fmap (M := list) Z.of_nat <$> cols) = false.
Proof.
  induction 1 as [|col cols Hcol _ IH]; [done|].
  rewrite fmap_cons. cbn [existsb]. rewrite IH, orb_false_r.
  clear IH. induction Hcol as [|c d col dims Hc _ IH]; [done|].
  rewrite !fmap_cons. cbn [zip zip_with existsb fst snd].
  change (zip_with pair (Z.of_nat <$> col) (Z.of_nat <$> dims))
    with (zip (Z.of_nat <$> col) (Z.of_nat <$> dims)).
  rewrite IH, orb_false_r.
  destruct (Z.ltb_spec (Z.of_nat c) 0); [lia|].
  destruct (Z.leb_spec (Z.of_nat d) (Z.of_nat c)); [lia|done].
Qed.

Lemma cells_of_nat (dims : list nat) :
  fold_left Z.mul (Z.of_nat <$> dims) 1%Z = Z.of_nat (cells dims).
Proof.
  assert (Forall (λ d, 0 ≤ d)%Z (Z.of_nat <$> dims)) as Hnn.
  { apply Forall_fmap, Forall_forall. intros d _. cbn. lia. }
  change 1%Z with (Z.of_nat 1). rewrite (prod_to_nat _ Hnn 1).
  unfold cells. f_equal. rewrite Nat.mul_1_l. f_equal.
  rewrite <- list_fmap_compose. rewrite <- (list_fmap_id dims) at 2.
  apply list_fmap_ext. intros _ d _. cbn. lia.
Qed.

Lemma cells_pos (dims : list nat) : Forall (λ d, 0 < d) dims → 0 < cells dims.
Proof. induction 1 as [|d dims Hd _ IH]; cbn; [lia|]. fold (cells dims). nia. Qed.

Lemma cells_app (dims dims' : list nat) : cells (dims ++ dims') = cells dims * cells dims'.
Proof.
  induction dims as [|d dims IH]; [change (cells []) with 1; by rewrite Nat.mul_1_l|].
  cbn [app cells foldr]. fold (cells (dims ++ dims')) (cells dims). rewrite IH.
  apply Nat.mul_assoc.
Qed.

Lemma cells_reverse (dims : list nat) : cells (reverse dims) = cells dims.
Proof.
  induction dims as [|d dims IH]; [done|].
  rewrite reverse_cons, cells_app, IH. cbn [cells foldr]. fold (cells dims).
  rewrite Nat.mul_1_r. apply Nat.mul_comm.
Qed.

(** The strides of positive sizes whose product fits in int64 do not
    overflow, in either order. *)
Lemma mul_overflows_of_nat (dims : list nat) (order : order_t) :
  Forall (λ d, 0 < d) dims →
  (Z.of_nat (cells dims) < 2 ^ 63)%Z →
  mul_overflows match order with
                | OrderC => reverse (Z.of_nat <$> dims)
                | OrderF => Z.of_nat <$> dims
                end = false.
Proof.
  assert (∀ ds s, Forall (λ d, 0 < d) ds → 0 < s → (Z.of_nat (s * cells ds) < 2 ^ 63)%Z →
            (fold_left (λ '(s, ovf) d,
                          let p := (s * d)%Z in
                          (p, ovf || (p <? - 2 ^ 63)%Z || (2 ^ 63 - 1 <? p)%Z))
               (Z.of_nat <$> ds) (Z.of_nat s, false)).2 = false) as Hgen.
  { intros ds. induction ds as [|d ds IH]; intros s Hpos Hs Hfit; [done|].
    apply Forall_cons in Hpos as [Hd Hpos]. rewrite fmap_cons. cbn [fold_left].
    cbn [cells foldr] in Hfit. fold (cells ds) in Hfit.
    pose proof (cells_pos ds Hpos) as Hc.
    assert (Z.of_nat s * Z.of_nat d = Z.of_nat (s * d))%Z as -> by lia.
    assert (0 < s * d) as Hsd by nia.
    assert (s * d ≤ s * (d * cells ds)) as Hle by nia.
    destruct (Z.ltb_spec (Z.of_nat (s * d)) (- 2 ^ 63)); [lia|].
    destruct (Z.ltb_spec (2 ^ 63 - 1) (Z.of_nat (s * d))); [lia|].
    cbn [orb]. apply IH; [done|done|].
    replace (s * d * cells ds) with (s * (d * cells ds)) by lia. done. }
  intros Hpos Hfit. unfold mul_overflows. destruct order.
  - rewrite <- fmap_reverse. apply (Hgen (reverse dims) 1).
    + by apply Forall_reverse.
    + lia.
    + by rewrite Nat.mul_1_l, cells_reverse.
  - apply (Hgen dims 1); [done|lia|by rewrite Nat.mul_1_l].
Qed.

(** [np.prod(size)] in int64 does not wrap when the sizes are positive and
    the number of cells fits. *)
Lemma np_prod_of_nat (dims : list nat) :
  Forall (λ d, 0 < d) dims →
  (Z.of_nat (cells dims) < 2 ^ 63)%Z →
  np_prod (Z.of_nat <$> dims) = Z.of_nat (cells dims).
Proof.
  intros Hpos Hfit. unfold np_prod.
  assert (∀ acc, 0 < acc → (Z.of_nat (acc * cells dims) < 2 ^ 63)%Z →
                 fold_left (λ p d, wrap64 (p * d)) (Z.of_nat <$> dims) (Z.of_nat acc)
                 = Z.of_nat (acc * cells dims)) as H.
  { clear Hfit. induction dims as [|d dims IH]; intros acc Hacc Hfit.
    - cbn. f_equal. lia.
    - apply Forall_cons in Hpos as [Hd Hpos]. pose proof (cells_pos dims Hpos) as Hc.
      rewrite fmap_cons. cbn [fold_left cells foldr] in *. fold (cells dims) in *.
      rewrite wrap64_small by nia.
      replace (Z.of_nat acc * Z.of_nat d)%Z with (Z.of_nat (acc * d)) by lia.
      rewrite IH; [f_equal; lia|done|nia|].
      by replace (acc * d * cells dims) with (acc * (d * cells dims)) by lia. }
  change 1%Z with (Z.of_nat 1). rewrite (H 1); [f_equal; lia|lia|]. by rewrite Nat.mul_1_l.
Qed.

Lemma ravel_lt (order : order_t) (dims coords : list nat) :
  Forall2 lt coords dims → ravel order dims coords < cells dims.
Proof. destruct order; [apply ravel_C_lt|apply ravel_F_lt]. Qed.

Lemma ravel_inj (order : order_t) (dims coords coords' : list nat) :
  Forall2 lt coords dims → Forall2 lt coords' dims →
  ravel order dims coords = ravel order dims coords' → coords = coords'.
Proof.
  destruct order; cbn [ravel]; intros H H' Heq; [|by eapply ravel_F_inj].
  by rewrite <- (unravel_C_ravel_C dims coords H), Heq, unravel_C_ravel_C.
Qed.

(** The orchestrator on a valid multi-key call: the flat index is the
    position of every key tuple, the reduction runs on it, and the result
    is reshaped. *)
Lemma aggregate_2d_valid (rws : list (list nat)) (dims : list nat) (a : list float)
    (func : func_arg) (fill_value : float) (order : order_t) (dtype : option dtype_t)
    (impl : list (string * reduction)) :
  rws ≠ [] →
  length dims = length rws →
  Forall (λ row, length row = length a) rws →
  Forall (λ col, Forall2 lt col dims) (columns 0 (length a) rws) →
  Forall (λ d, 0 < d) dims →
  (Z.of_nat (cells dims) < 2 ^ 63)%Z →
  aggregate (array2 (length a) (fmap (M := list) Z.of_nat <$> rws)) (array1 a) func
    (SizeSeq (Z.of_nat <$> dims)) fill_value order dtype impl
  = (ret ← dispatch func (ravel order dims <$> columns 0 (length a) rws) (array1 a)
             (Z.of_nat (cells dims)) fill_value dtype impl;
     reshape ret (Z.of_nat <$> dims) order).
Proof.
  intros Hne Hd Hrows Hcols Hpos Hfit. unfold aggregate.
  change (ndim (array1 a)) with 1. change (ndim (array2 _ _)) with 2.
  cbn [Nat.ltb Nat.leb Nat.eqb orb negb]. cbn zeta.
  unfold index_2d. cbn zeta.
  change (nth 1 (shape (array2 (length a) (fmap (M := list) Z.of_nat <$> rws))) 0)
    with (length a).
  change (len (array1 a)) with (length a).
  change (ndim (array1 a)) with 1.
  change (len (array2 (length a) (fmap (M := list) Z.of_nat <$> rws)))
    with (length (fmap (M := list) Z.of_nat <$> rws)).
  rewrite Nat.eqb_refl. cbn [Nat.eqb orb negb]. rewrite length_fmap.
  destruct (length rws =? 0) eqn:H0; [apply Nat.eqb_eq in H0; by destruct rws|].
  rewrite length_fmap, Hd, Nat.eqb_refl. cbn [negb mbind outcome_bind mret outcome_ret].
  rewrite rows_array2.
  2:{ apply Forall_fmap. eapply Forall_impl; [exact Hrows|]. intros row Hrow. cbn.
      by rewrite length_fmap. }
  unfold ravel_multi_index. rewrite !length_fmap, Hd, Nat.eqb_refl. cbn [negb].
  rewrite mul_overflows_of_nat by done.
  change ((λ j : nat, (λ row : list Z, nth j row 0%Z) <$> (fmap (M := list) Z.of_nat <$> rws))
          <$> seq 0 (length a))
    with (columns (Z.of_nat 0) (length a) (fmap (M := list) Z.of_nat <$> rws)).
  rewrite columns_fmap, in_range_of_nat by done.
  cbn [mbind outcome_bind]. rewrite np_prod_of_nat by done.
  unfold mret, outcome_ret. cbn [mbind outcome_bind].
  assert (Z.to_nat <$> (ravel_one order (Z.of_nat <$> dims)
                          <$> (fmap (M := list) Z.of_nat <$> columns 0 (length a) rws))
          = ravel order dims <$> columns 0 (length a) rws) as ->; [|done].
  rewrite <- !list_fmap_compose. apply list_fmap_ext. intros _ col _. cbn.
  rewrite ravel_one_of_nat, Nat2Z.id. by destruct order.
Qed.

Lemma reshape_valid (ret : dense) (dims : list nat) (order : order_t) :
  dense_size ret = cells dims →
  reshape ret (Z.of_nat <$> dims) order = Ok (mk_result dims (dense_reorder order dims ret)).
Proof.
  intros Hlen. unfold reshape.
  assert (existsb (λ s, s <? 0)%Z (Z.of_nat <$> dims) = false) as ->.
  { induction dims as [|d dims IH]; [done|]. rewrite fmap_cons. cbn [existsb].
    destruct (Z.ltb_spec (Z.of_nat d) 0); [lia|]. cbn in Hlen. apply existsb_negative_of_nat. }
  rewrite cells_of_nat, Hlen, Z.eqb_refl. cbn [orb negb].
  rewrite fmap_to_nat_of_nat. by destruct ret.
Qed.

Lemma reorder_lookup {A : Type} (order : order_t) (dims : list nat) (l : list A) (k : nat) :
  Forall (λ d, 0 < d) dims →
  length l = cells dims →
  k < cells dims →
  reorder order dims l !! k = l !! ravel order dims (unravel_C dims k).
Proof.
  intros Hpos Hlen Hk. destruct order; cbn [reorder ravel].
  - by rewrite ravel_C_unravel_C.
  - destruct l as [|x l]; [cbn in Hlen; lia|].
    rewrite list_lookup_fmap, lookup_seq_lt by lia. cbn [fmap option_fmap option_map Nat.add].
    pose proof (ravel_F_lt dims _ (unravel_C_lt dims k Hpos)) as Hr.
    destruct (lookup_lt_is_Some_2 (x :: l) (ravel_F dims (unravel_C dims k))) as [y Hy]; [lia|].
    rewrite Hy. f_equal. by apply nth_lookup_Some.
Qed.

Lemma group_values_by_inj {K A : Type} `{EqDecision K} (h : K → nat) (keys : list K)
    (a : list A) (k : K) :
  (∀ k', k' ∈ keys → h k' = h k → k' = k) →
  group_values (h <$> keys) a (h k) = group_values_by keys a k.
Proof.
  revert a. induction keys as [|k0 keys IH]; intros [|x a] Hinj; try done.
  rewrite fmap_cons, group_values_cons. unfold group_values_by.
  cbn [zip zip_with]. rewrite filter_cons. cbn [fst].
  fold (group_values_by keys a k).
  rewrite IH by (intros k' Hk'; apply Hinj; by apply list_elem_of_further).
  destruct (decide (h k0 = h k)) as [Heq|Hne].
  - rewrite decide_True; [done|]. apply Hinj; [apply list_elem_of_here|done].
  - rewrite decide_False; [done|]. by intros ->.
Qed.

Lemma dense_reorder_lookup (order : order_t) (dims : list nat) (ret : dense) (k : nat) :
  Forall (λ d, 0 < d) dims →
  dense_length ret = cells dims →
  k < cells dims →
  dense_lookup (dense_reorder order dims ret) k
  = dense_lookup ret (ravel order dims (unravel_C dims k)).
Proof.
  intros Hpos Hlen Hk. destruct ret; cbn [dense_reorder dense_lookup]; [..|done];
    by rewrite reorder_lookup.
Qed.

Lemma dense_reorder_length (order : order_t) (dims : list nat) (ret : dense) :
  dense_length (dense_reorder order dims ret) = dense_size ret.
Proof.
  destruct ret; cbn [dense_reorder dense_length obj_iter]; rewrite reorder_length;
    [done|done|apply obj_ravel_length].
Qed.

(** On a valid multi-key call of a dense reduction the result has the
    shape [size], and the cell of every multi-index holds the reduction of
    the values whose key tuple is that multi-index, in input order,
    whichever [order] is passed. *)
Theorem multi_key_cells (f : string) (rws : list (list nat)) (dims : list nat)
    (a : list float) (fill_value : float) (order : order_t) (dtype : option dtype_t) :
  dense_call f fill_value dtype = true →
  rws ≠ [] →
  length dims = length rws →
  Forall (λ row, length row = length a) rws →
  Forall (λ col, Forall2 lt col dims) (columns 0 (length a) rws) →
  Forall (λ d, 0 < d) dims →
  (Z.of_nat (cells dims) < 2 ^ 63)%Z →
  ∃ ret,
    aggregate (array2 (length a) (fmap (M := list) Z.of_nat <$> rws)) (array1 a) (FuncName f)
      (SizeSeq (Z.of_nat <$> dims)) fill_value order dtype _impl_dict
    = Ok (mk_result dims ret)
    ∧ dense_length ret = cells dims
    ∧ ∀ k, k < cells dims →
        dense_lookup ret k
        = reduce_cell f fill_value
            (group_values_by (columns 0 (length a) rws) a (unravel_C dims k)).
Proof.
  intros Hcall Hne Hd Hrows Hcols Hpos Hfit.
  rewrite aggregate_2d_valid by done.
  set (cols := columns 0 (length a) rws) in *.
  assert (length cols = length a) as Hclen
    by (unfold cols, columns; by rewrite length_fmap, length_seq).
  destruct (dispatch_cells f (ravel order dims <$> cols) a (cells dims) fill_value dtype)
    as (ret & Hret & Hl & Hg); [done|by rewrite length_fmap| |].
  { apply Forall_fmap. eapply Forall_impl; [exact Hcols|]. intros col Hc. cbn.
    by apply ravel_lt. }
  destruct (dense_call_shape _ _ _ _ _ _ _ Hcall Hret) as [_ Hsz]. rewrite Hret.
  cbn [mbind outcome_bind]. rewrite reshape_valid by (by rewrite Hsz).
  eexists. split; [done|]. split; [by rewrite dense_reorder_length, Hsz|].
  intros k Hk. rewrite dense_reorder_lookup by done.
  pose proof (unravel_C_lt dims k Hpos) as Hin.
  rewrite Hg by (by apply ravel_lt). f_equal.
  apply group_values_by_inj. intros col Hcol Heq.
  rewrite Forall_forall in Hcols. by eapply ravel_inj; [apply Hcols| |].
Qed.

(** The [order] argument does not change the result of a valid multi-key
    call of a dense reduction: with 'C' and with 'F' the flat index differs,
    and the reshaped arrays are equal. *)
Theorem order_independent (f : string) (rws : list (list nat)) (dims : list nat)
    (a : list float) (fill_value : float) (dtype : option dtype_t) :
  dense_call f fill_value dtype = true →
  rws ≠ [] →
  length dims = length rws →
  Forall (λ row, length row = length a) rws →
  Forall (λ col, Forall2 lt col dims) (columns 0 (length a) rws) →
  Forall (λ d, 0 < d) dims →
  (Z.of_nat (cells dims) < 2 ^ 63)%Z →
  ∃ r,
    aggregate (array2 (length a) (fmap (M := list) Z.of_nat <$> rws)) (array1 a) (FuncName f)
      (SizeSeq (Z.of_nat <$> dims)) fill_value OrderC dtype _impl_dict = Ok r
    ∧ aggregate (array2 (length a) (fmap (M := list) Z.of_nat <$> rws)) (array1 a)
        (FuncName f) (SizeSeq (Z.of_nat <$> dims)) fill_value OrderF dtype _impl_dict = Ok r.
Proof.
  intros Hcall Hne Hd Hrows Hcols Hpos Hfit.
  rewrite !aggregate_2d_valid by done.
  set (cols := columns 0 (length a) rws) in *.
  assert (∀ order, Forall (λ g, g < cells dims) (ravel order dims <$> cols)) as Hflat.
  { intros order. apply Forall_fmap. eapply Forall_impl; [exact Hcols|]. intros col Hc. cbn.
    by apply ravel_lt. }
  assert (length a = length cols) as Hclen
    by (unfold cols, columns; by rewrite length_fmap, length_seq).
  destruct (dispatch_cells f (ravel OrderC dims <$> cols) a (cells dims) fill_value dtype)
    as (rc & HrC & HlC & HgC); [done|by rewrite length_fmap|done|].
  destruct (dispatch_cells f (ravel OrderF dims <$> cols) a (cells dims) fill_value dtype)
    as (rf & HrF & HlF & HgF); [done|by rewrite length_fmap|done|].
  destruct (dense_call_shape _ _ _ _ _ _ _ Hcall HrC) as [_ HsC].
  destruct (dense_call_shape _ _ _ _ _ _ _ Hcall HrF) as [_ HsF].
  rewrite HrC, HrF. cbn [mbind outcome_bind]. rewrite !reshape_valid by congruence.
  eexists. split; [done|]. do 2 f_equal.
  pose proof (dense_reorder_length OrderF dims rf) as HLF. rewrite HsF, HlF in HLF.
  pose proof (dense_reorder_length OrderC dims rc) as HLC. rewrite HsC, HlC in HLC.
  assert (∀ k, dense_lookup (dense_reorder OrderF dims rf) k
               = dense_lookup (dense_reorder OrderC dims rc) k) as Hk.
  { intros k. destruct (decide (k < cells dims)) as [Hlt|Hge].
    - rewrite !dense_reorder_lookup by done.
      pose proof (unravel_C_lt dims k Hpos) as Hin.
      rewrite HgC, HgF by (by apply ravel_lt).
      rewrite Forall_forall in Hcols.
      rewrite !(group_values_by_inj (ravel _ dims)); [done|..];
        intros col Hcol Heq; by eapply ravel_inj; [apply Hcols| |].
    - destruct (dense_reorder OrderF dims rf), (dense_reorder OrderC dims rc);
        cbn in *; rewrite ?lookup_ge_None_2 by lia; done. }
  pose proof (cells_pos dims Hpos) as Hc.
  pose proof (Hk 0) as H0.
  destruct (dense_call_kind _ _ _ _ _ _ _ Hcall HrC) as [[yc ->]|[cc ->]],
    (dense_call_kind _ _ _ _ _ _ _ Hcall HrF) as [[xf ->]|[bf ->]];
    cbn [dense_reorder dense_lookup dense_length] in *.
  - f_equal. apply list_eq. intros k. specialize (Hk k).
    destruct (_ !! k), (_ !! k); cbn in Hk; congruence.
  - destruct (reorder OrderF dims bf), (reorder OrderC dims yc); cbn in *; try done; lia.
  - destruct (reorder OrderF dims xf), (reorder OrderC dims cc); cbn in *; try done; lia.
  - f_equal. apply list_eq. intros k. specialize (Hk k).
    destruct (_ !! k), (_ !! k); cbn in Hk; congruence.
Qed.

Lemma multi_key_cells_witness :
  ∃ ret,
    aggregate (array2 (length [1; 2; 3; 4]%float)
                 (fmap (M := list) Z.of_nat <$> [[0; 1; 1; 0]; [0; 2; 1; 0]]))
      (array1 [1; 2; 3; 4]%float) (FuncName "sum") (SizeSeq (Z.of_nat <$> [2; 3])) 0%float
      OrderF None _impl_dict
    = Ok (mk_result [2; 3] ret)
    ∧ dense_length ret = cells [2; 3]
    ∧ ∀ k, k < cells [2; 3] →
        dense_lookup ret k
        = reduce_cell "sum" 0%float
            (group_values_by (columns 0 (length [1; 2; 3; 4]%float) [[0; 1; 1; 0]; [0; 2; 1; 0]])
               [1; 2; 3; 4]%float (unravel_C [2; 3] k)).
Proof.
  apply (multi_key_cells "sum" [[0; 1; 1; 0]; [0; 2; 1; 0]] [2; 3] [1; 2; 3; 4]%float 0%float
           OrderF None).
  - reflexivity.
  - discriminate.
  - reflexivity.
  - repeat constructor.
  - vm_compute. repeat (constructor; try lia).
  - repeat (constructor; try lia).
  - vm_compute. reflexivity.
Defined.

Lemma order_independent_witness :
  ∃ r,
    aggregate (array2 (length [1; 2; 3; 4]%float)
                 (fmap (M := list) Z.of_nat <$> [[0; 1; 1; 0]; [0; 2; 1; 0]]))
      (array1 [1; 2; 3; 4]%float) (FuncName "mean") (SizeSeq (Z.of_nat <$> [2; 3])) 0%float
      OrderC None _impl_dict = Ok r
    ∧ aggregate (array2 (length [1; 2; 3; 4]%float)
                   (fmap (M := list) Z.of_nat <$> [[0; 1; 1; 0]; [0; 2; 1; 0]]))
        (array1 [1; 2; 3; 4]%float) (FuncName "mean") (SizeSeq (Z.of_nat <$> [2; 3])) 0%float
        OrderF None _impl_dict = Ok r.
Proof.
  apply (order_independent "mean" [[0; 1; 1; 0]; [0; 2; 1; 0]] [2; 3] [1; 2; 3; 4]%float
           0%float None).
  - reflexivity.
  - discriminate.
  - reflexivity.
  - repeat constructor.
  - vm_compute. repeat (constructor; try lia).
  - repeat (constructor; try lia).
  - vm_compute. reflexivity.
Defined.

Example multi_key_sum_docstring :
  aggregate (array2 4 [[0; 1; 1; 0]; [0; 2; 1; 0]]%Z) (array1 [1; 2; 3; 4]%float)
    (FuncName "sum") SizeNone 0%float OrderF None _impl_dict
  = Ok (mk_result [2; 3] (DFloat [5; 0; 0; 0; 3; 2]%float)).
Proof. vm_compute. reflexivity. Qed.

(** * The grouping reductions *)

(** ** Stable sorting *)

#[local] Instance stable_le_trans : Transitive stable_le.
Proof. intros [x1 x2] [y1 y2] [z1 z2]. unfold stable_le. cbn. lia. Qed.

#[local] Instance stable_le_total : Total stable_le.
Proof. intros [x1 x2] [y1 y2]. unfold stable_le. cbn. lia. Qed.

#[local] Instance stable_le_antisym : AntiSymm eq stable_le.
Proof.
  intros [x1 x2] [y1 y2]. unfold stable_le. cbn. intros H1 H2.
  f_equal; lia.
Qed.

Lemma StronglySorted_key_filter (g : nat) (keys : list nat) (s : nat) :
  StronglySorted stable_le (filter (λ p, p.1 = g) (zip keys (seq s (length keys)))).
Proof.
  revert s. induction keys as [|k keys IH]; intros s; [constructor|].
  cbn [length seq zip zip_with]. rewrite filter_cons. cbn [fst].
  destruct (decide (k = g)) as [->|]; [|apply IH].
  constructor; [apply IH|]. apply Forall_forall. intros [k' i] Hi.
  apply list_elem_of_filter in Hi as [Hk Hi]. cbn in Hk. subst k'.
  apply elem_of_zip_r in Hi. apply elem_of_seq in Hi. right. cbn. lia.
Qed.

Lemma filter_key_split {A : Type} (K : nat) (l : list (nat * A)) :
  filter (λ p, p.1 < S K) l ≡ₚ filter (λ p, p.1 < K) l ++ filter (λ p, p.1 = K) l.
Proof.
  induction l as [|[k x] l IH]; [done|].
  rewrite !filter_cons. cbn [fst].
  destruct (decide (k < S K)), (decide (k < K)), (decide (k = K)); try lia.
  - cbn. by rewrite IH.
  - rewrite IH. by rewrite Permutation_middle.
  - done.
Qed.

Lemma by_key_Permutation {A : Type} (K : nat) (l : list (nat * A)) :
  flat_map (λ g, filter (λ p, p.1 = g) l) (seq 0 K) ≡ₚ filter (λ p, p.1 < K) l.
Proof.
  induction K as [|K IH].
  - cbn. induction l as [|[k x] l IHl]; [done|]. rewrite filter_cons. cbn.
    destruct (decide (k < 0)); [lia|done].
  - rewrite seq_S, flat_map_app. cbn [Nat.add flat_map]. rewrite app_nil_r, IH.
    by rewrite filter_key_split.
Qed.

Lemma by_key_sorted (K : nat) (keys : list nat) :
  StronglySorted stable_le
    (flat_map (λ g, filter (λ p, p.1 = g) (zip keys (seq 0 (length keys)))) (seq 0 K)).
Proof.
  induction K as [|K IH]; [constructor|].
  rewrite seq_S, flat_map_app. cbn [Nat.add flat_map]. rewrite app_nil_r.
  apply StronglySorted_app_2; [|done|apply StronglySorted_key_filter].
  intros [k1 i1] [k2 i2] H1 H2.
  apply list_elem_of_filter in H2 as [Hk2 _]. cbn in Hk2. subst k2.
  apply list_elem_of_In, in_flat_map in H1 as (g & Hg & H1).
  apply list_elem_of_In, list_elem_of_filter in H1 as [Hk1 _]. cbn in Hk1. subst k1.
  apply in_seq in Hg. left. cbn. lia.
Qed.

Lemma filter_all {A : Type} (P : A → Prop) `{∀ x, Decision (P x)} (l : list A) :
  Forall P l → filter P l = l.
Proof.
  induction 1 as [|x l Hx _ IH]; [done|]. rewrite filter_cons, decide_True by done.
  by rewrite IH.
Qed.

(** A stable sort of the positions by key lists the positions group by
    group, each group in input order. *)
Lemma merge_sort_by_key (K : nat) (keys : list nat) :
  Forall (λ k, k < K) keys →
  merge_sort stable_le (zip keys (seq 0 (length keys)))
  = flat_map (λ g, filter (λ p, p.1 = g) (zip keys (seq 0 (length keys)))) (seq 0 K).
Proof.
  intros Hkeys. apply (StronglySorted_unique stable_le).
  - apply StronglySorted_merge_sort; apply _.
  - apply by_key_sorted.
  - rewrite merge_sort_Permutation, by_key_Permutation, filter_all; [done|].
    apply Forall_forall. intros [k i] Hki. apply elem_of_zip_l in Hki. cbn.
    rewrite Forall_forall in Hkeys. by apply Hkeys.
Qed.

(** ** Taking the sorted values apart *)

Lemma key_filter_take {A : Type} (g : nat) (keys : list nat) (a pre : list A) :
  length a = length keys →
  Forall2 (λ i y, (pre ++ a) !! i = Some y)
    (filter (λ p, p.1 = g) (zip keys (seq (length pre) (length keys)))).*2
    (group_values keys a g).
Proof.
  revert a pre. induction keys as [|k keys IH]; intros [|x a] pre Hlen; try done.
  cbn [length seq zip zip_with]. rewrite filter_cons, group_values_cons. cbn [fst].
    specialize (IH a (pre ++ [x]) ltac:(by injection Hlen)).
    rewrite <- app_assoc, length_app in IH. cbn [length app] in IH.
    rewrite Nat.add_1_r in IH.
    destruct (decide (k = g)); [|done].
    rewrite fmap_cons. constructor; [|done]. cbn [snd].
    by rewrite lookup_app_r, Nat.sub_diag.
Qed.

Lemma np_take_by_key (K : nat) (keys : list nat) (a : list float) :
  length a = length keys →
  np_take a (flat_map (λ g, filter (λ p, p.1 = g) (zip keys (seq 0 (length keys))))
               (seq 0 K)).*2
  = Ok (concat ((λ g, group_values keys a g) <$> seq 0 K)).
Proof.
  intros Hlen. unfold np_take.
  assert (mapM (λ i, a !! i)
            (flat_map (λ g, filter (λ p, p.1 = g) (zip keys (seq 0 (length keys))))
               (seq 0 K)).*2
          = Some (concat ((λ g, group_values keys a g) <$> seq 0 K))) as ->; [|done].
  apply mapM_Some. induction (seq 0 K) as [|g gs IH]; [constructor|].
  cbn [flat_map]. rewrite fmap_app, fmap_cons. cbn [concat].
  apply Forall2_app; [|done]. apply (key_filter_take g keys a [] Hlen).
Qed.

Lemma bincount_counts (idx : list nat) (n : nat) :
  Forall (λ g, g < n) idx →
  bincount idx (Z.of_nat n) = Ok ((λ g, group_count idx g) <$> seq 0 n).
Proof.
  intros Hidx. destruct (bincount_valid idx n Hidx) as (counts & -> & Hl & Hc).
  f_equal. apply list_eq. intros g. destruct (decide (g < n)) as [Hg|Hg].
  - by rewrite (Hc g Hg), list_lookup_fmap, lookup_seq_lt.
  - rewrite !lookup_ge_None_2; [done|rewrite length_fmap, length_seq; lia|lia].
Qed.

Lemma np_cumsum_acc (counts out : list nat) (s : nat) :
  (fold_left (λ '(acc, out) c, (acc + c, out ++ [acc + c])) counts (s, out)).2
  = out ++ (fold_left (λ '(acc, out) c, (acc + c, out ++ [acc + c])) counts (s, [])).2.
Proof.
  revert out s. induction counts as [|c counts IH]; intros out s; [by rewrite app_nil_r|].
  cbn [fold_left]. rewrite (IH (out ++ _)), (IH ([] ++ _)). by rewrite <- app_assoc.
Qed.

(** Splitting the concatenation of arrays at the running sums of their
    lengths gives the arrays back. *)
Lemma split_from_concat {A : Type} (pre p : list A) (ps : list (list A)) :
  split_from (pre ++ concat (p :: ps)) (length pre)
    (removelast (fold_left (λ '(acc, out) c, (acc + c, out ++ [acc + c]))
                   (length <$> p :: ps) (length pre, [])).2)
  = p :: ps.
Proof.
  revert pre p. induction ps as [|q ps IH]; intros pre p.
  - cbn. by rewrite app_nil_r, drop_app_length.
  - rewrite !fmap_cons. cbn [fold_left]. rewrite np_cumsum_acc.
    cbn [app]. change (length <$> q :: ps) with (length q :: (length <$> ps)).
    assert (∀ (x : nat) l, l ≠ [] → removelast (x :: l) = x :: removelast l) as Hrl
      by (intros x [|y l]; done).
    rewrite Hrl.
    2:{ cbn [fold_left]. rewrite np_cumsum_acc. by destruct (_ ++ _). }
    cbn [split_from concat].
    rewrite Nat.add_comm, Nat.add_sub, drop_app_length, take_app_length. f_equal.
    specialize (IH (pre ++ p) q). rewrite length_app, <- app_assoc, fmap_cons in IH.
    cbn [concat fold_left] in IH. rewrite np_cumsum_acc in IH.
    rewrite (Nat.add_comm (length p)). exact IH.
Qed.

Lemma np_split_concat {A : Type} (ps : list (list A)) :
  ps ≠ [] → np_split (concat ps) (removelast (np_cumsum (length <$> ps))) = ps.
Proof.
  destruct ps as [|p ps]; [done|]. intros _. apply (split_from_concat [] p ps).
Qed.

(** ** The arrays of the groups *)

Lemma bincount_size_bound (idx : list nat) (n : Z) :
  Forall (λ g, g < bincount_size idx n) idx.
Proof.
  apply Forall_forall. intros g Hg. unfold bincount_size.
  destruct idx as [|g0 idx]; [by apply elem_of_nil in Hg|].
  pose proof (max_list_elem_of_le _ _ Hg). lia.
Qed.

Lemma bincount_all (idx : list nat) (n : nat) :
  bincount idx (Z.of_nat n)
  = Ok ((λ g, group_count idx g) <$> seq 0 (bincount_size idx (Z.of_nat n))).
Proof.
  unfold bincount. destruct (Z.ltb_spec (Z.of_nat n) 0); [lia|]. f_equal.
  apply list_eq. intros g. rewrite count_fold_lookup, list_lookup_fmap.
  destruct (decide (g < bincount_size idx (Z.of_nat n))) as [Hg|Hg].
  - by rewrite lookup_replicate_2, lookup_seq_lt.
  - rewrite !lookup_ge_None_2; [done|rewrite length_seq; lia|rewrite length_replicate; lia].
Qed.

(** [_array] without the fill: the values of every group that
    [np.bincount] counts, in input order. *)
Lemma array_pieces (idx : list nat) (a : list float) (n : nat) (fill : fill_arg) :
  length a = length idx →
  0 < bincount_size idx (Z.of_nat n) →
  (∀ l, fill = FillSeq l → l = []) →
  _array idx (array1 a) (Z.of_nat n) fill
  = Ok (let ret := np_asarray_object
                     ((λ g, group_values idx a g) <$> seq 0 (bincount_size idx (Z.of_nat n))) in
        match fill with
        | FillScalar x => fill_untouched_object idx ret x
        | FillSeq _ => ret
        end).
Proof.
  intros Hlen HK Hfill. unfold _array.
  assert (match fill with FillScalar _ => true | FillSeq l => length l =? 0 end = true) as ->.
  { destruct fill as [x|l]; [done|]. by rewrite (Hfill l eq_refl). }
  cbn [negb]. rewrite bincount_all. cbn [mbind outcome_bind].
  change (ndim (array1 a) =? 0) with false. cbn match.
  change (data (array1 a)) with a. unfold argsort_mergesort.
  rewrite (merge_sort_by_key _ idx (bincount_size_bound idx (Z.of_nat n))).
  rewrite (np_take_by_key _ idx a Hlen). cbn [mbind outcome_bind].
  assert ((λ g, group_count idx g) <$> seq 0 (bincount_size idx (Z.of_nat n))
          = length <$> ((λ g, group_values idx a g) <$> seq 0 (bincount_size idx (Z.of_nat n))))
    as ->.
  { rewrite <- list_fmap_compose. apply list_fmap_ext. intros _ g _. cbn.
    by rewrite group_values_length. }
  rewrite np_split_concat; [done|].
  destruct (bincount_size idx (Z.of_nat n)); [lia|done].
Qed.

(** The elements of the filled array of groups. *)
Lemma obj_iter_filled (idx : list nat) (a : list float) (K : nat) (x : float) (g : nat) :
  length a = length idx → Forall (λ g, g < K) idx → g < K →
  obj_iter (fill_untouched_object idx
              (np_asarray_object ((λ g, group_values idx a g) <$> seq 0 K)) x) !! g
  = Some (if decide (g ∈ idx ∨ idx = []) then inl (group_values idx a g) else inr x).
Proof.
  intros Hlen Hidx Hg. destruct K as [|K]; [lia|].
  change (seq 0 (S K)) with (0 :: seq 1 K). rewrite fmap_cons. unfold np_asarray_object.
  destruct (forallb _ _) eqn:Hall.
  - cbn [fill_untouched_object obj_iter].
    rewrite list_lookup_fmap, list_lookup_imap, <- fmap_cons.
    change (0 :: seq 1 K) with (seq 0 (S K)).
    rewrite list_lookup_fmap, lookup_seq_lt by done. cbn [fmap option_fmap option_map].
    f_equal. case_bool_decide as Hin.
    + by rewrite decide_True by tauto.
    + assert (∀ h, h < S K → group_count idx h = 0) as Hzero.
      { intros h Hh. apply group_count_0 in Hin.
        rewrite <- (group_values_length idx a) in Hin |- * by done.
        destruct h as [|h]; [destruct g as [|g]; [done|]|].
        - rewrite forallb_forall in Hall.
          specialize (Hall (group_values idx a (S g))). rewrite Hin in Hall.
          symmetry. apply Nat.eqb_eq, Hall, list_elem_of_In, list_elem_of_fmap.
          exists (S g). split; [done|]. apply elem_of_seq. lia.
        - rewrite forallb_forall in Hall.
          assert (length (group_values idx a 0) = 0) as H0.
          { destruct g as [|g]; [done|].
            specialize (Hall (group_values idx a (S g))). rewrite Hin in Hall.
            symmetry. apply Nat.eqb_eq, Hall, list_elem_of_In, list_elem_of_fmap.
            exists (S g). split; [done|]. apply elem_of_seq. lia. }
          rewrite <- H0.
          apply Nat.eqb_eq, Hall, list_elem_of_In, list_elem_of_fmap.
          exists (S h). split; [done|]. apply elem_of_seq. lia. }
      assert (idx = []) as ->.
      { destruct idx as [|g0 idx]; [done|]. exfalso.
        apply Forall_cons in Hidx as [Hg0 _].
        specialize (Hzero g0 Hg0). apply group_count_0 in Hzero.
        apply Hzero. by left. }
      rewrite decide_True by tauto.
      pose proof (Hzero 0 ltac:(lia)) as H0.
      rewrite <- (group_values_length [] a) in H0 by done.
      rewrite H0. cbn [replicate]. unfold group_values. by destruct a.
  - cbn [fill_untouched_object obj_iter].
    rewrite fill_untouched_lookup, <- fmap_cons.
    change (0 :: seq 1 K) with (seq 0 (S K)).
    rewrite !list_lookup_fmap, lookup_seq_lt by done. cbn [fmap option_fmap option_map].
    f_equal. case_bool_decide as Hin.
    + by rewrite decide_True by tauto.
    + rewrite decide_False; [done|]. intros [?| ->]; [done|].
      assert (true = false) as ?; [|done]. rewrite <- Hall. symmetry.
      apply forallb_forall. intros q (h & -> & _)%list_elem_of_In%list_elem_of_fmap.
      unfold group_values. by destruct a.
Qed.

(** ** Grouping into arrays *)

(** One turn of the loop of [_generic_callable]. *)
Lemma generic_callable_loop {R : Type} (func : list float → R) (fill : float)
    (ps : list (list float)) (n : nat) :
  length ps ≤ n →
  fold_left (λ ret '(ii, g),
               ret ← ret;
               match g with
               | inl ((_ :: _) as g) =>
                   if length ret <=? ii then Raise (IndexError "index is out of bounds")
                   else mret (<[ii := inl (func g)]> ret)
               | _ => mret ret
               end)
    (imap pair (inl (B := float) <$> ps)) (Ok (replicate n (inr fill)))
  = Ok (((λ p, match p with [] => inr fill | _ => inl (func p) end) <$> ps)
        ++ replicate (n - length ps) (inr fill)).
Proof.
  induction ps as [|p ps IH] using rev_ind; intros Hn.
  - cbn. by rewrite Nat.sub_0_r.
  - rewrite length_app in Hn. cbn [length] in Hn.
    rewrite fmap_app, imap_app, fold_left_app, IH by lia.
    rewrite length_fmap. cbn [fmap list_fmap imap fold_left mbind outcome_bind].
    rewrite Nat.add_0_r, fmap_app, !length_app, <- app_assoc. cbn [length fmap list_fmap app].
    replace (n - length ps) with (S (n - (length ps + 1))) by lia.
    cbn [replicate]. unfold mret, outcome_ret.
    destruct p as [|y p]; [done|].
    rewrite ?length_app, ?length_fmap. cbn [length]. rewrite ?length_replicate.
    destruct (Nat.leb_spec (length ps + S (n - (length ps + 1))) (length ps)); [lia|].
    f_equal. rewrite insert_app_r_alt by (rewrite length_fmap; lia).
    by rewrite length_fmap, Nat.sub_diag.
Qed.

(** X24. On valid input of a positive size, [_array] returns an array of
    [n] elements. The element of a group that some index names is the
    array of the values of the group, in input order. The element of a
    group that no index names is an empty array when [fill_value] is an
    empty sequence, and the scalar [fill_value] otherwise; except that
    with no input at all the result is the 2-d array of shape [(n, 0)],
    whose rows are empty whatever [fill_value] is. *)
Theorem array_groups (idx : list nat) (a : list float) (n : nat) (fill : fill_arg) :
  Forall (λ g, g < n) idx → length a = length idx → 0 < n →
  (∀ l, fill = FillSeq l → l = []) →
  ∃ arr, _array idx (array1 a) (Z.of_nat n) fill = Ok arr
    ∧ length (obj_iter arr) = n
    ∧ ∀ g, g < n →
        obj_iter arr !! g
        = Some match fill with
               | FillScalar x =>
                   if decide (g ∈ idx ∨ idx = []) then inl (group_values idx a g) else inr x
               | FillSeq _ => inl (group_values idx a g)
               end.
Proof.
  intros Hidx Hlen Hn Hfill.
  pose proof (bincount_size_valid idx n Hidx) as HK.
  rewrite array_pieces by (done || lia). rewrite HK. eexists. split; [done|].
  assert (∀ g, g < n →
            obj_iter match fill with
                     | FillScalar x =>
                         fill_untouched_object idx
                           (np_asarray_object ((λ g, group_values idx a g) <$> seq 0 n)) x
                     | FillSeq _ => np_asarray_object ((λ g, group_values idx a g) <$> seq 0 n)
                     end !! g
            = Some match fill with
                   | FillScalar x =>
                       if decide (g ∈ idx ∨ idx = []) then inl (group_values idx a g) else inr x
                   | FillSeq _ => inl (group_values idx a g)
                   end) as Hlook.
  { intros g Hg. destruct fill as [x|l].
    - by apply obj_iter_filled.
    - by rewrite obj_iter_asarray, !list_lookup_fmap, lookup_seq_lt. }
  split; [|exact Hlook].
  cbn zeta. destruct (decide (length (obj_iter match fill with
      | FillScalar x => fill_untouched_object idx
          (np_asarray_object ((λ g, group_values idx a g) <$> seq 0 n)) x
      | FillSeq _ => np_asarray_object ((λ g, group_values idx a g) <$> seq 0 n)
      end) = n)) as [|Hne]; [done|]. exfalso. apply Hne.
  destruct fill as [x|l].
  - destruct (np_asarray_object _) as [elts|m rws] eqn:Harr;
      pose proof (obj_iter_asarray ((λ g, group_values idx a g) <$> seq 0 n)) as Hit;
      rewrite Harr in Hit; cbn [obj_iter] in Hit;
      apply (f_equal length) in Hit; rewrite !length_fmap, length_seq in Hit;
      cbn [fill_untouched_object obj_iter].
    + by rewrite fill_untouched_length.
    + by rewrite length_fmap, length_imap.
  - by rewrite obj_iter_asarray, !length_fmap, length_seq.
Qed.

Lemma array_groups_witness :
  ∃ arr, _array [2; 0; 2] (array1 [1; 2; 3]%float) (Z.of_nat 4) (FillScalar 9%float) = Ok arr
    ∧ length (obj_iter arr) = 4
    ∧ ∀ g, g < 4 →
        obj_iter arr !! g
        = Some match FillScalar 9%float with
               | FillScalar x =>
                   if decide (g ∈ [2; 0; 2] ∨ [2; 0; 2] = [])
                   then inl (group_values [2; 0; 2] [1; 2; 3]%float g) else inr x
               | FillSeq _ => inl (group_values [2; 0; 2] [1; 2; 3]%float g)
               end.
Proof.
  apply (array_groups [2; 0; 2] [1; 2; 3]%float 4 (FillScalar 9%float)).
  - repeat (constructor; try lia).
  - reflexivity.
  - lia.
  - discriminate.
Defined.

(** X25. On valid input, [_generic_callable] returns an array of [n]
    elements: [func] of the values of the group, in input order, for a
    group that some index names, and [fill_value] for every other group.
    [func] is never called on an empty group. *)
Theorem generic_callable_by_group {R : Type} (func : list float → R) (idx : list nat)
    (a : list float) (n : nat) (fill : float) :
  Forall (λ g, g < n) idx → length a = length idx →
  _generic_callable func idx (array1 a) (Z.of_nat n) fill
  = Ok ((λ g, match group_values idx a g with
              | [] => inr fill
              | xs => inl (func xs)
              end) <$> seq 0 n).
Proof.
  intros Hidx Hlen. destruct n as [|n].
  { destruct idx as [|g idx]; [|apply Forall_cons in Hidx; lia].
    destruct a; [|done]. reflexivity. }
  pose proof (bincount_size_valid idx (S n) Hidx) as HK.
  unfold _generic_callable. rewrite array_pieces by (done || lia || by intros l [= <-]).
  rewrite HK. cbn [mbind outcome_bind]. unfold np_full.
  destruct (Z.ltb_spec (Z.of_nat (S n)) 0); [lia|]. cbn [mbind outcome_bind].
  rewrite Nat2Z.id, obj_iter_asarray, generic_callable_loop
    by (rewrite length_fmap, length_seq; lia).
  rewrite length_fmap, length_seq, Nat.sub_diag, app_nil_r, <- list_fmap_compose.
  f_equal. apply list_fmap_ext. intros _ g _. cbn.
  by destruct (group_values idx a g).
Qed.

Lemma generic_callable_by_group_witness :
  _generic_callable (λ g, length g) [2; 0; 2] (array1 [1; 2; 3]%float) (Z.of_nat 4) 9%float
  = Ok ((λ g, match group_values [2; 0; 2] [1; 2; 3]%float g with
              | [] => inr 9%float
              | xs => inl (length xs)
              end) <$> seq 0 4).
Proof.
  apply (generic_callable_by_group (λ g, length g) [2; 0; 2] [1; 2; 3]%float 4 9%float).
  - repeat (constructor; try lia).
  - reflexivity.
Defined.

(** X26. No check is made that the indices are within the size: with an
    index at or beyond [n], [_array] returns a longer array, one element
    for each index up to the largest, and [_generic_callable] raises
    IndexError when it stores the result of the last group. *)
Theorem index_beyond_size {R : Type} (func : list float → R) (idx : list nat)
    (a : list float) (n : nat) (fill : float) (i : nat) :
  i ∈ idx → n ≤ i → length a = length idx →
  (∃ arr, _array idx (array1 a) (Z.of_nat n) (FillSeq []) = Ok arr
     ∧ length (obj_iter arr) = S (max_list idx)
     ∧ n < length (obj_iter arr))
  ∧ ∃ msg, _generic_callable func idx (array1 a) (Z.of_nat n) fill = Raise (IndexError msg).
Proof.
  intros Hi Hn Hlen.
  pose proof (max_list_elem_of_le _ _ Hi) as Hmax.
  assert (bincount_size idx (Z.of_nat n) = S (max_list idx)) as HK.
  { unfold bincount_size. rewrite Nat2Z.id. destruct idx; [by apply elem_of_nil in Hi|lia]. }
  assert (_array idx (array1 a) (Z.of_nat n) (FillSeq [])
          = Ok (np_asarray_object ((λ g, group_values idx a g) <$> seq 0 (S (max_list idx)))))
    as Harr.
  { rewrite array_pieces by (done || lia || by intros l [= <-]). by rewrite HK. }
  split.
  { eexists. split; [exact Harr|].
    rewrite obj_iter_asarray, !length_fmap, length_seq. split; [done|lia]. }
  unfold _generic_callable. rewrite Harr. cbn [mbind outcome_bind]. unfold np_full.
  destruct (Z.ltb_spec (Z.of_nat n) 0); [lia|]. cbn [mbind outcome_bind].
  rewrite Nat2Z.id, obj_iter_asarray, seq_S, !fmap_app, imap_app, fold_left_app.
  rewrite !length_fmap, length_seq. cbn [fmap list_fmap imap fold_left]. rewrite Nat.add_0_r.
  cbn [Nat.add].
  assert (group_values idx a (max_list idx) ≠ []) as Hne.
  { intros Hnil. apply (f_equal length) in Hnil.
    rewrite group_values_length in Hnil by done. cbn in Hnil.
    apply group_count_0 in Hnil. apply Hnil.
    destruct idx; [by apply elem_of_nil in Hi|]. by apply max_list_elem_of. }
  destruct (generic_callable_loop_length func
              (imap pair (inl <$> ((λ g, group_values idx a g) <$> seq 0 (max_list idx))))
              (replicate n (inr fill))) as [(ret' & -> & Hl)| ->]; [|by eexists].
  cbn [mbind outcome_bind]. rewrite length_replicate in Hl.
  destruct (group_values idx a (max_list idx)); [done|].
  rewrite Hl. destruct (Nat.leb_spec n (max_list idx)); [by eexists|lia].
Qed.

Lemma index_beyond_size_witness :
  (∃ arr, _array [2; 0; 5] (array1 [1; 2; 3]%float) (Z.of_nat 3) (FillSeq []) = Ok arr
     ∧ length (obj_iter arr) = S (max_list [2; 0; 5])
     ∧ 3 < length (obj_iter arr))
  ∧ ∃ msg, _generic_callable (λ g, length g) [2; 0; 5] (array1 [1; 2; 3]%float) (Z.of_nat 3)
             9%float = Raise (IndexError msg).
Proof.
  apply (index_beyond_size (λ g, length g) [2; 0; 5] [1; 2; 3]%float 3 9%float 5).
  - repeat constructor.
  - lia.
  - reflexivity.
Defined.

(** * The shape of the result *)







(** * Equal values in min and max *)

Lemma ltb_not_eq (x y : float) : PrimFloat.ltb x y = true → py_eq y x = false.
Proof.
  unfold py_eq. rewrite FloatAxioms.ltb_spec, FloatAxioms.eqb_spec. unfold SFltb, SFeqb.
  rewrite (SFcompare_antisym (Prim2SF x) (Prim2SF y)).
  by destruct (SFcompare (Prim2SF x) (Prim2SF y)) as [[]|].
Qed.

(** A fold of [pick], which returns its first operand when [before] holds
    and its second otherwise, leaves the last of the values that compare
    equal to its result, when [before] excludes equality. *)
Lemma fold_pick_last (before : float → float → bool) (x : float) (xs : list float) :
  (∀ u v, before u v = true → py_eq v u = false) →
  Forall (λ y, np_isnan y = false) (x :: xs) →
  last (filter (λ y, py_eq y (fold_left (λ r y, if before r y then r else y) xs x) = true)
          (x :: xs))
  = Some (fold_left (λ r y, if before r y then r else y) xs x).
Proof.
  intros Hbefore. induction xs as [|y xs IH] using rev_ind; intros Hnan.
  - cbn [fold_left]. rewrite filter_cons, decide_True; [done|].
    apply py_eq_refl. by apply Forall_cons in Hnan as [? _].
  - rewrite app_comm_cons in Hnan. apply Forall_app in Hnan as [Hxs [Hy _]%Forall_cons].
    specialize (IH Hxs). rewrite fold_left_app. cbn [fold_left].
    set (m := fold_left (λ r y, if before r y then r else y) xs x) in *.
    rewrite app_comm_cons, filter_app.
    destruct (before m y) eqn:Hb.
    + rewrite (filter_cons _ y), decide_False by (by rewrite (Hbefore m y Hb)).
      by rewrite filter_nil, app_nil_r.
    + rewrite (filter_cons _ y), decide_True by (by apply py_eq_refl).
      by rewrite filter_nil, last_snoc.
Qed.

Lemma np_minimum_pick (r y : float) :
  np_isnan r = false → np_minimum r y = if PrimFloat.ltb r y then r else y.
Proof. intros Hr. unfold np_minimum. fold (np_isnan r). by rewrite Hr, orb_false_r. Qed.

Lemma np_maximum_pick (r y : float) :
  np_isnan r = false → np_maximum r y = if PrimFloat.ltb y r then r else y.
Proof. intros Hr. unfold np_maximum. fold (np_isnan r). by rewrite Hr, orb_false_r. Qed.

Lemma fold_pick_not_nan (pick : float → float → float) (xs : list float) (x : float) :
  (∀ r y, np_isnan r = false → np_isnan y = false → np_isnan (pick r y) = false) →
  Forall (λ y, np_isnan y = false) (x :: xs) →
  np_isnan (fold_left pick xs x) = false.
Proof.
  intros Hpick [Hx Hxs]%Forall_cons. revert x Hx.
  induction Hxs as [|y xs Hy _ IH]; intros x Hx; [done|]. cbn [fold_left]. by apply IH, Hpick.
Qed.

Lemma fold_pick_ext (pick pick' : float → float → float) (xs : list float) (x : float) :
  (∀ r y, np_isnan r = false → np_isnan y = false →
          pick r y = pick' r y ∧ np_isnan (pick' r y) = false) →
  Forall (λ y, np_isnan y = false) (x :: xs) →
  fold_left pick xs x = fold_left pick' xs x.
Proof.
  intros Hpick [Hx Hxs]%Forall_cons. revert x Hx.
  induction Hxs as [|y xs Hy _ IH]; intros x Hx; [done|]. cbn [fold_left].
  destruct (Hpick x y Hx Hy) as [-> Hn]. by apply IH.
Qed.

(** The min (max) of a group of finite values is the last of the values of
    the group that compare equal to it. *)
Lemma fold_minimum_last (x : float) (xs : list float) :
  Forall (λ y, is_finite y = true) (x :: xs) →
  last (filter (λ y, py_eq y (fold_left np_minimum (x :: xs) dmax) = true) (x :: xs))
  = Some (fold_left np_minimum (x :: xs) dmax).
Proof.
  intros Hfin. assert (Forall (λ y, np_isnan y = false) (x :: xs)) as Hnan.
  { eapply Forall_impl; [exact Hfin|]. apply is_finite_not_nan. }
  apply Forall_cons in Hfin as [Hx _]. cbn [fold_left]. rewrite np_minimum_dmax by done.
  rewrite (fold_pick_ext np_minimum (λ r y, if PrimFloat.ltb r y then r else y)); [|..|done].
  - apply (fold_pick_last (λ r y, PrimFloat.ltb r y)); [apply ltb_not_eq|done].
  - intros r y Hr Hy. split; [by apply np_minimum_pick|]. by destruct (PrimFloat.ltb r y).
Qed.

Lemma fold_maximum_last (x : float) (xs : list float) :
  Forall (λ y, is_finite y = true) (x :: xs) →
  last (filter (λ y, py_eq y (fold_left np_maximum (x :: xs) dmin) = true) (x :: xs))
  = Some (fold_left np_maximum (x :: xs) dmin).
Proof.
  intros Hfin. assert (Forall (λ y, np_isnan y = false) (x :: xs)) as Hnan.
  { eapply Forall_impl; [exact Hfin|]. apply is_finite_not_nan. }
  apply Forall_cons in Hfin as [Hx _]. cbn [fold_left]. rewrite np_maximum_dmin by done.
  rewrite (fold_pick_ext np_maximum (λ r y, if PrimFloat.ltb y r then r else y)); [|..|done].
  - apply (fold_pick_last (λ r y, PrimFloat.ltb y r)); [|done].
    intros u v Huv. rewrite py_eq_sym. by apply ltb_not_eq.
  - intros r y Hr Hy. split; [by apply np_maximum_pick|]. by destruct (PrimFloat.ltb y r).
Qed.

(** On a valid 1-d call [func="min"] leaves in the slot of every non-empty
    group the fold of numpy's [minimum] over the values of the group in
    input order, started from the largest finite double; [func="max"] the
    fold of [maximum] started from the smallest finite double. An empty
    group holds [fill_value]. Of the values of a group of finite values
    that compare equal to its min (max), the slot holds the last one in
    input order: the zero met last, of zeros of opposite sign. *)
Theorem min_max_by_group (group_idx : list nat) (a : list float) (size : size_arg) (n : nat)
    (fill_value : float) (order : order_t) (dtype : option dtype_t) :
  length a = length group_idx →
  size_1d group_idx size = Some n →
  is_float_dtype dtype = true →
  ∃ mins maxs : list float,
    aggregate (idx_array group_idx) (array1 a) (FuncName "min") size fill_value order dtype
      _impl_dict = Ok (mk_result [n] (DFloat mins))
    ∧ aggregate (idx_array group_idx) (array1 a) (FuncName "max") size fill_value order dtype
        _impl_dict = Ok (mk_result [n] (DFloat maxs))
    ∧ length mins = n ∧ length maxs = n
    ∧ ∀ g, g < n →
        mins !! g = Some (if group_count group_idx g =? 0 then fill_value
                          else fold_left np_minimum (group_values group_idx a g) dmax)
        ∧ maxs !! g = Some (if group_count group_idx g =? 0 then fill_value
                            else fold_left np_maximum (group_values group_idx a g) dmin)
        ∧ (group_count group_idx g ≠ 0 →
           Forall (λ y, is_finite y = true) (group_values group_idx a g) →
           ∃ m M, mins !! g = Some m ∧ maxs !! g = Some M
             ∧ last (filter (λ y, py_eq y m = true) (group_values group_idx a g)) = Some m
             ∧ last (filter (λ y, py_eq y M = true) (group_values group_idx a g)) = Some M).
Proof.
  intros Hlen Hsize Hdt.
  destruct (aggregate_float_cells "min" group_idx a size n fill_value order dtype)
    as (mins & Hmin & Hlmin & Hgmin); [by apply elem_of_numeric|done..|].
  destruct (aggregate_float_cells "max" group_idx a size n fill_value order dtype)
    as (maxs & Hmax & Hlmax & Hgmax); [by apply elem_of_numeric|done..|].
  exists mins, maxs. do 4 (split; [done|]). intros g Hlt.
  rewrite (group_count_values group_idx a g Hlen).
  pose proof (group_values_length group_idx a g Hlen) as Hgl.
  specialize (Hgmin g Hlt). specialize (Hgmax g Hlt).
  unfold reduce_cell in Hgmin, Hgmax. cbn in Hgmin, Hgmax.
  apply cfloat_lookup in Hgmin, Hgmax.
  destruct (group_values group_idx a g) as [|x xs].
  - do 2 (split; [done|]). intros Hne. by rewrite <- Hgl in Hne.
  - do 2 (split; [done|]). intros _ Hfin. eexists _, _. do 2 (split; [done|]).
    split; [by apply fold_minimum_last|by apply fold_maximum_last].
Qed.

Lemma min_max_by_group_witness :
  ∃ mins maxs : list float,
    aggregate (idx_array [1; 0; 1; 3]) (array1 [0; 2; -0; 4]%float) (FuncName "min")
      SizeNone 9%float OrderF None _impl_dict = Ok (mk_result [4] (DFloat mins))
    ∧ aggregate (idx_array [1; 0; 1; 3]) (array1 [0; 2; -0; 4]%float) (FuncName "max")
        SizeNone 9%float OrderF None _impl_dict = Ok (mk_result [4] (DFloat maxs))
    ∧ length mins = 4 ∧ length maxs = 4
    ∧ ∀ g, g < 4 →
        mins !! g = Some (if group_count [1; 0; 1; 3] g =? 0 then 9%float
                          else fold_left np_minimum
                                 (group_values [1; 0; 1; 3] [0; 2; -0; 4]%float g) dmax)
        ∧ maxs !! g = Some (if group_count [1; 0; 1; 3] g =? 0 then 9%float
                            else fold_left np_maximum
                                   (group_values [1; 0; 1; 3] [0; 2; -0; 4]%float g) dmin)
        ∧ (group_count [1; 0; 1; 3] g ≠ 0 →
           Forall (λ y, is_finite y = true) (group_values [1; 0; 1; 3] [0; 2; -0; 4]%float g) →
           ∃ m M, mins !! g = Some m ∧ maxs !! g = Some M
             ∧ last (filter (λ y, py_eq y m = true)
                       (group_values [1; 0; 1; 3] [0; 2; -0; 4]%float g)) = Some m
             ∧ last (filter (λ y, py_eq y M = true)
                       (group_values [1; 0; 1; 3] [0; 2; -0; 4]%float g)) = Some M).
Proof.
  apply (min_max_by_group [1; 0; 1; 3] [0; 2; -0; 4]%float SizeNone 4 9%float OrderF None);
    reflexivity.
Defined.

(** * Sorted groups *)

(** "sort" and "rsort" on five values in two groups, with a third, empty
    group. *)
Example sort_scenario :
  aggregate (idx_array [1; 0; 1; 0; 1]) (array1 [5; 2; 3; 1; 4]%float) (FuncName "sort")
    (SizeScalar 3) 0%float OrderF None _impl_dict
  = Ok (mk_result [3] (DObject (ObjRagged [inl [1; 2]; inl [3; 4; 5]; inr 0]%float)))
  ∧ aggregate (idx_array [1; 0; 1; 0; 1]) (array1 [5; 2; 3; 1; 4]%float) (FuncName "rsort")
      (SizeScalar 3) 0%float OrderF None _impl_dict
    = Ok (mk_result [3] (DObject (ObjRagged [inl [2; 1]; inl [5; 4; 3]; inr 0]%float))).
Proof. split; vm_compute; reflexivity. Qed.

(** * The declared shape, for every [func] *)




